(* ===== verification/_CoqProject ===== *)
-Q . S2P
Prelude.v
Order.v
SortedVec.v
Status.v
Ids.v
Text.v
Net.v
Sockets.v
Hub.v
Digest.v
Canonical.v
Scope.v
Fence.v
Lineage.v
Evidence.v
Arbiter.v
Codec.v
Readers.v
Wire.v
Messages.v
Journal.v
Fabric.v
Registry.v
Replay.v
Snapshot.v
Service.v
Sessions.v
Recovery.v
Selection.v
Witness.v
Auditor.v
Client.v
Remote.v
Coordinator.v
Cluster.v
Cli.v
Tools.v
Offline.v
Policy.v
Startup.v
