(* ===== verification/Prelude.v ===== *)
(** * Split-Brain Fabric: a verification development

    The program keeps two coordinators from being responsible for one extent of
    a fabric at the same time.  A durable registry hands out epochs and fence
    tokens and decides who may act; witnesses attest at most one incarnation per
    subject and epoch; every effect passes a fenced boundary that refuses a late
    writer; coordinators ask before they act.  The library models the C++ sources
    under [src/], [include/sbf/] and [tools/], component by component, and proves
    what each promises and what they promise together.

    ** The parts, and where they are modelled

    Data and arithmetic.
    - [Status]: [status.hpp], [status.cpp] - outcomes, reasons, [Status] and the
      bounded [Explanation]; a fallible C++ function returns [result].
    - [Ids]: [ids.hpp], [ids.cpp], [clock.hpp], [clock.cpp], [limits.hpp] - an
      identifier is its bytes, a [Counter] a 64-bit [Z] whose wrap-around is
      [u64]; the clocks.
    - [Text]: [text.cpp]; [Digest]: [digest.cpp] - CRC-32C and SHA-256 as
      executable functions; [Canonical]: [canonical.cpp] - writers as byte
      strings, readers as functions on an offset and the bytes left.
    - [Order], [SortedVec]: [std::sort] and the vectors kept sorted by a key,
      refined to finite maps.
    - [Scope]: [scope.cpp] - extent sets and the overlap index.

    Authority.
    - [Fence]: [fence.cpp] - high-water marks, fenced incarnations and epochs.
    - [Lineage]: [lineage.cpp] - grants, boots, reconciliation.
    - [Evidence]: [evidence.cpp] - quorum assessment of attestations.
    - [Arbiter]: [authority.cpp] and [decide_authority] of [arbiter.cpp].
    - [Selection]: [selection.cpp] - the planner, its reference and its validator.

    Bytes on disk and on the wire.
    - [Codec], [Messages], [Readers]: the codecs of [protocol.cpp],
      [registry_state.cpp] and [fabric_store.cpp].
    - [Wire]: frames and the incremental decoder of [protocol.cpp].
    - [Journal]: [persistence.cpp] - the journal, the snapshot and recovery at
      open, over the contents of the files.
    - [Fabric]: [fabric_store.cpp] - the effect boundary and its log.

    The registry.
    - [Registry]: [registry_state.cpp] - [apply] and every operation, in a monad
      over the state, the records emitted and the effect log.
    - [Replay]: that what is emitted, applied again, is what was done, after
      operations that succeed and ones that are refused.
    - [Snapshot]: [serialize] and [deserialize].
    - [Service]: [registry_service.cpp] - open and recovery, the transition every
      request runs in, the handlers, the handshake, the worker loop.
    - [Sessions]: any number of connections interleaved, frame by frame.
    - [Recovery]: a service that crashes and opens again.
    - [Policy]: which policy a registry decides under once it has opened.
    - [Hub]: [conn_hub.hpp] - the threads of a service and how they end, by [stop]
      or by a worker that answered a shutdown request.

    The other processes.
    - [Witness]: [witness_service.cpp] (the service).
    - [Net]: [net.cpp] on a client's side; the system calls are the class
      [Kernel], so every client theorem holds for any network.
    - [Sockets]: the rest of [net.cpp] - the sockets and listeners that own
      descriptors, and the [Kernel] they implement.
    - [Client]: [registry_client.cpp] and the client in [witness_service.cpp].
    - [Remote]: a network whose far end is a registry node.
    - [Coordinator], [Cluster]: [coordinator.cpp], alone and among a registry and
      three witnesses.
    - [Auditor]: [audit.cpp] - the two offline audits.
    - [Cli], [Tools]: [cli_support.hpp] and the tools - command lines, the four
      [main] functions and every command of [sbfctl]; what is printed and the exit
      code are values.  [Offline]: what [sbfctl audit] says of a directory.
      [Startup]: what a registry that announced itself serves.

    A call of the code is a call of the model: [Coordinator.try_commit] goes
    through [Client.transact], the frames of [Wire], [Service.serve_chunk] and
    [Service.handle_frame] to [Registry.commit] and [Fabric.fabric_admit], and
    what is emitted goes through [Journal.store_append] to the files [Recovery] opens.

    ** What the theorems show

    - Exclusion.  [Registry.Registries]: in every reachable registry state open
      grants do not overlap, a fenced or restarted incarnation never comes back,
      a new grant's token and id are above all before it, its epoch above those
      the bounded lineage still holds.  [Arbiter.Decisions] and
      [Witness.Witnessing]: two authoritative decisions for one subject and epoch
      are one, given witnesses that remember; two that see each other are never
      both made, under a policy that takes equal epochs for fatal.
      [Fabric.Effects]: the effect history is a linear succession of owners and a
      late writer is refused.
    - Durability.  [Journal.Journaling], [Replay.Replays], [Snapshot.Snapshots],
      [Recovery.Recoveries]: records survive a crash at any byte, damage to a
      record's checksum or payload is reported (its length is outside the
      checksum), replay rebuilds the state unless the state refused a record, and
      an acknowledged operation is there after every crash.
    - Codecs.  [Codec.Codecs], [Messages.Messaging], [Wire.Frames]: round trips
      with arbitrary chunking, rejection of damaged frames, bounded buffering.
    - Sessions.  [Sessions.Serving]: bounded and exclusive sessions, identity and
      order of requests, an answer to every frame, effects only on authority.
    - Composition.  [Remote.Calls]: a remote call is the handler.
      [Cluster.Coordinating]: what is reported as applied is in the log; a run's
      report adds up; without a registry nothing happens.
    - Resources.  [Sockets.Owners]: a descriptor has one owner, is never closed
      twice and never left open.
    - Termination.  [Client.Clients] (waiting for a frame), [Selection.Planning]
      (the search), [Hub.Shutdown] (a shutdown, in every interleaving).
    - Equivalence.  [Selection.Planning] with the exhaustive search;
      [Auditor.Auditing] with the property the audits are meant to decide.
    - Tools.  [Cli.CommandLines]: what is written on a command line is read back.
      [Startup.Startup]: the configuration and the domains asked for are those
      served; the policy is the directory's, where it keeps one.
      [Offline.Offline]: the auditor replays what the service knew, and its exit
      code 0 certifies the whole effect log.

    Hypotheses are facts the code itself establishes or documents: fields within
    their width, tables within their limits, and for [Witness] that each
    witness's statements come from one run of its process.  Each theorem with
    hypotheses is applied to a concrete run in a lemma named after it.

    ** Fuel and bounds

    Recursion is structural wherever the loop consumes its input.  Where it is
    not, the fuel is a bound the data gives: [Wire.drain] and [Journal.scan_log]
    have one turn per byte held, and are proved independent of more;
    [Net.write_loop] has one per byte to send, since every turn that goes on has
    sent one; [Client.read_fuel] is the size of the largest frame, since a read
    that completes none leaves one byte more in a buffer that never holds a frame
    ([Clients.read_terminates]).  [Selection.search] recurses on the preference
    order and carries the program's own node budget.

    ** What is not modelled

    - Threads below the granularity at which they share state: a transition of a
      service holds its mutex throughout, so [Sessions] interleaves transitions
      and [Hub] the turns of [run], [stop] and the workers.
    - System calls: their results are arguments.  That covers [fsync] and rename
      ordering as the ways an append or a checkpoint can fail, but not a disk
      that loses what it acknowledged.  A listener stopped by one thread while
      another waits in [accept] is the value of its flag when the call returns.
    - The platform halves under [#ifdef _WIN32], move constructors and accessors;
      signal handlers and the loops in which a tool sleeps; the examples, the
      benchmarks, the scripts and the tests.
    - [AuthorityPlan::digest], which is declared and never defined. *)
From Stdlib Require Export ZArith Lia Bool.
From Stdlib Require Export Strings.String Strings.Byte.
From stdpp Require Export base tactics list sorting gmap.

Open Scope Z_scope.

Create HintDb sbf.
Create HintDb codec.

(** ** Bytes and byte strings *)

Abbreviation bytes := (list byte).

Definition byte_to_Z (b : byte) : Z := Z.of_N (Byte.to_N b).

(** [static_cast<std::uint8_t>(z)]: the low eight bits of [z]. *)
Definition byte_of_Z (z : Z) : byte :=
  match Byte.of_N (Z.to_N (z mod 256)) with Some b => b | None => x00 end.

(** Text literals of the source, as the bytes they denote. *)
Definition str (s : string) : bytes := list_byte_of_string s.

Definition zlen {A} (l : list A) : Z := Z.of_nat (length l).

Lemma byte_to_Z_range b : 0 <= byte_to_Z b < 256.
Proof.
  unfold byte_to_Z. pose proof (Byte.to_N_bounded b). lia.
Qed.

Lemma byte_of_to_Z b : byte_of_Z (byte_to_Z b) = b.
Proof.
  unfold byte_of_Z. rewrite Z.mod_small by apply byte_to_Z_range.
  unfold byte_to_Z. by rewrite N2Z.id, Byte.of_to_N.
Qed.

Lemma byte_to_of_Z z : byte_to_Z (byte_of_Z z) = z mod 256.
Proof.
  unfold byte_of_Z, byte_to_Z.
  pose proof (Z.mod_pos_bound z 256 ltac:(lia)).
  destruct (Byte.of_N _) as [b|] eqn:E.
  - apply Byte.to_of_N in E. rewrite E. lia.
  - apply Byte.of_N_None_iff in E. lia.
Qed.

#[export] Instance byte_to_Z_inj : Inj (=) (=) byte_to_Z.
Proof. intros a b E. by rewrite <-(byte_of_to_Z a), E, byte_of_to_Z. Qed.

#[export] Instance byte_eq_dec : EqDecision byte.
Proof.
  refine (λ a b, match Z.eq_dec (byte_to_Z a) (byte_to_Z b) with
                 | left E => left (inj byte_to_Z _ _ E)
                 | right N => right _
                 end).
  congruence.
Defined.

#[export] Instance byte_countable : Countable byte.
Proof.
  refine (inj_countable' Byte.to_N (λ n, default x00 (Byte.of_N n)) _).
  intros b. by rewrite Byte.of_to_N.
Defined.

Lemma zlen_app {A} (l k : list A) : zlen (l ++ k) = zlen l + zlen k.
Proof. unfold zlen. rewrite length_app. lia. Qed.

Lemma zlen_cons {A} (x : A) l : zlen (x :: l) = 1 + zlen l.
Proof. unfold zlen. simpl. lia. Qed.
Lemma zlen_nonneg {A} (l : list A) : 0 <= zlen l.
Proof. unfold zlen. lia. Qed.

Lemma zlen_filter {A} (p : A → bool) (l : list A) : zlen (List.filter p l) <= zlen l.
Proof. unfold zlen. induction l as [|x l IH]; cbn; [lia|]. destruct (p x); cbn; lia. Qed.

Lemma zlen_nil_iff {A} (l : list A) : zlen l = 0 ↔ l = [].
Proof. unfold zlen. destruct l; simpl; split; (done || lia). Qed.

(** ** Machine words

    An unsigned [w]-bit integer is a [Z] in [[0, 2^w)]; conversions and
    arithmetic wrap. *)

Definition u8 (z : Z) : Z := z mod 2 ^ 8.
Definition u16 (z : Z) : Z := z mod 2 ^ 16.
Definition u32 (z : Z) : Z := z mod 2 ^ 32.
Definition u64 (z : Z) : Z := z mod 2 ^ 64.
Definition u64_max : Z := 2 ^ 64 - 1.

(** Two's complement reading of a 64-bit word ([static_cast<std::int64_t>]). *)
Definition i64 (z : Z) : Z := if u64 z <? 2 ^ 63 then u64 z else u64 z - 2 ^ 64.

Definition is_u16 (z : Z) : Prop := 0 <= z < 2 ^ 16.
Definition is_u32 (z : Z) : Prop := 0 <= z < 2 ^ 32.
Definition is_u64 (z : Z) : Prop := 0 <= z < 2 ^ 64.
Definition is_i64 (z : Z) : Prop := - 2 ^ 63 <= z < 2 ^ 63.

Lemma u64_id z : is_u64 z → u64 z = z.
Proof. apply Z.mod_small. Qed.

Lemma u64_is z : is_u64 (u64 z).
Proof. apply Z.mod_pos_bound. lia. Qed.

Lemma u64_lt z : u64 z < 2 ^ 64.
Proof. apply Z.mod_pos_bound. lia. Qed.

Lemma i64_id z : is_i64 z → i64 (u64 z) = z.
Proof.
  unfold is_i64, i64, u64. intros ?. rewrite Z.mod_mod by lia.
  destruct (decide (0 <= z)).
  - rewrite Z.mod_small by lia. destruct (Z.ltb_spec z (2 ^ 63)); lia.
  - rewrite <-(Z_mod_plus_full z 1 (2 ^ 64)), Z.mod_small by lia.
    destruct (Z.ltb_spec (z + 1 * 2 ^ 64) (2 ^ 63)); lia.
Qed.

#[export] Hint Resolve u64_is byte_to_Z_range zlen_nonneg : sbf.
