(* ===== verification/Order.v ===== *)
(** * Ordering, sorting and sorted vectors

    The orderings behind the [operator<=>] of the source, [std::sort] and
    [std::unique] as the algorithms the source calls, and the "vector kept
    sorted by a key" that [FenceTable], [FabricStore], [ScopeIndex] and the
    [std::map]s of the source all are.  [to_map] abstracts such a vector to
    a finite map; the refinement lemmas at the end are what the clients use. *)
From S2P Require Import Prelude.
Open Scope Z_scope.

(** ** Three-way comparison *)

Class Cmp (A : Type) := cmp : A → A → comparison.

Class CmpLaws (A : Type) `{Cmp A} := {
  cmp_eq_iff (x y : A) : cmp x y = Eq ↔ x = y;
  cmp_flip (x y : A) : cmp y x = CompOpp (cmp x y);
  cmp_lt_trans (x y z : A) : cmp x y = Lt → cmp y z = Lt → cmp x z = Lt
}.

Definition ltb `{Cmp A} (x y : A) : bool :=
  match cmp x y with Lt => true | _ => false end.
Definition eqb `{Cmp A} (x y : A) : bool :=
  match cmp x y with Eq => true | _ => false end.

(** [if (auto c = ...; c != 0) return c; return d]. *)
Definition lex (c d : comparison) : comparison :=
  match c with Eq => d | _ => c end.

#[export] Instance Z_cmp : Cmp Z := Z.compare.
#[export] Instance Z_cmp_laws : CmpLaws Z.
Proof.
  split; unfold cmp, Z_cmp; intros.
  - apply Z.compare_eq_iff.
  - apply Z.compare_antisym.
  - rewrite Z.compare_lt_iff in *. lia.
Qed.

(** [std::string::compare]: unsigned byte-wise, then by length. *)
Fixpoint bytes_compare (a b : bytes) : comparison :=
  match a, b with
  | [], [] => Eq
  | [], _ :: _ => Lt
  | _ :: _, [] => Gt
  | x :: a', y :: b' => lex (Z.compare (byte_to_Z x) (byte_to_Z y)) (bytes_compare a' b')
  end.

#[export] Instance bytes_cmp : Cmp bytes := bytes_compare.
#[export] Instance bytes_cmp_laws : CmpLaws bytes.
Proof.
  split; unfold cmp, bytes_cmp.
  - induction x as [|a x IH]; intros [|b y]; simpl; try done.
    destruct (Z.compare_spec (byte_to_Z a) (byte_to_Z b)) as [E|L|L]; simpl.
    + apply (inj byte_to_Z) in E as ->. rewrite IH. split; [by intros ->|by intros [= ->]].
    + split; [done|]. intros [= -> ->]. lia.
    + split; [done|]. intros [= -> ->]. lia.
  - induction x as [|a x IH]; intros [|b y]; simpl; try done.
    rewrite (Z.compare_antisym (byte_to_Z a)).
    destruct (Z.compare _ _); simpl; auto.
  - induction x as [|a x IH]; intros [|b y] [|c z]; simpl; try done.
    destruct (Z.compare_spec (byte_to_Z a) (byte_to_Z b)) as [E1|L1|L1];
      destruct (Z.compare_spec (byte_to_Z b) (byte_to_Z c)) as [E2|L2|L2];
      destruct (Z.compare_spec (byte_to_Z a) (byte_to_Z c)) as [E3|L3|L3];
      simpl; try done; try lia; eauto.
Qed.

#[export] Instance prod_cmp `{Cmp A, Cmp B} : Cmp (A * B) :=
  λ x y, lex (cmp x.1 y.1) (cmp x.2 y.2).
Lemma prod_cmp_unfold `{Cmp A, Cmp B} (a c : A) (b d : B) :
  cmp (a, b) (c, d) = lex (cmp a c) (cmp b d).
Proof. reflexivity. Qed.

#[export] Instance prod_cmp_laws `{CmpLaws A, CmpLaws B} : CmpLaws (A * B).
Proof.
  split.
  - intros [a b] [c d]. rewrite prod_cmp_unfold.
    destruct (cmp a c) eqn:E; simpl.
    + apply cmp_eq_iff in E as ->. rewrite cmp_eq_iff. naive_solver.
    + split; [done|]. intros [= -> ->].
      assert (cmp c c = Eq) by by apply cmp_eq_iff. congruence.
    + split; [done|]. intros [= -> ->].
      assert (cmp c c = Eq) by by apply cmp_eq_iff. congruence.
  - intros [a b] [c d]. rewrite !prod_cmp_unfold, (cmp_flip a c), (cmp_flip b d).
    by destruct (cmp a c).
  - intros [a b] [c d] [e f]. rewrite !prod_cmp_unfold.
    destruct (cmp a c) eqn:E1, (cmp c e) eqn:E2; simpl; try done.
    + apply cmp_eq_iff in E1 as ->, E2 as ->.
      assert (cmp e e = Eq) as -> by by apply cmp_eq_iff. simpl. apply cmp_lt_trans.
    + apply cmp_eq_iff in E1 as ->. by rewrite E2.
    + apply cmp_eq_iff in E2 as ->. by rewrite E1.
    + by rewrite (cmp_lt_trans _ _ _ E1 E2).
Qed.

Section cmp_facts.
Context `{CmpLaws A}.
Implicit Types x y z : A.

Lemma cmp_refl x : cmp x x = Eq.
Proof. by apply cmp_eq_iff. Qed.
Lemma ltb_lt x y : ltb x y = true ↔ cmp x y = Lt.
Proof. unfold ltb. by destruct (cmp x y). Qed.
Lemma eqb_eq x y : eqb x y = true ↔ x = y.
Proof. unfold eqb. rewrite <-cmp_eq_iff. by destruct (cmp x y). Qed.
Lemma eqb_neq x y : eqb x y = false ↔ x ≠ y.
Proof. rewrite <-eqb_eq. by destruct (eqb x y). Qed.
Lemma eqb_refl x : eqb x x = true.
Proof. by apply eqb_eq. Qed.
Lemma ltb_irrefl x : ltb x x = false.
Proof. unfold ltb. by rewrite cmp_refl. Qed.
Lemma ltb_trans x y z : ltb x y = true → ltb y z = true → ltb x z = true.
Proof. rewrite !ltb_lt. apply cmp_lt_trans. Qed.
Lemma ltb_ge x y : ltb x y = false ↔ x = y ∨ ltb y x = true.
Proof.
  unfold ltb. rewrite (cmp_flip x y), <-cmp_eq_iff.
  destruct (cmp x y); simpl; naive_solver.
Qed.
Lemma ltb_asym x y : ltb x y = true → ltb y x = false.
Proof. unfold ltb. rewrite (cmp_flip x y). by destruct (cmp x y). Qed.
Lemma ltb_neq x y : ltb x y = true → x ≠ y.
Proof. intros L ->. by rewrite ltb_irrefl in L. Qed.
Lemma cmp_cases x y : x = y ∨ ltb x y = true ∨ ltb y x = true.
Proof. destruct (ltb x y) eqn:E; [auto|]. apply ltb_ge in E. naive_solver. Qed.

#[global] Instance cmp_eq_dec : EqDecision A | 100.
Proof.
  refine (λ x y, match eqb x y as b return eqb x y = b → Decision (x = y) with
                 | true => λ E, left (proj1 (eqb_eq x y) E)
                 | false => λ E, right (proj1 (eqb_neq x y) E)
                 end eq_refl).
Defined.
End cmp_facts.

(** ** [std::sort] (as a stable insertion sort) and [std::unique] *)

Section sorting.
Context {A : Type} (lt : A → A → bool).

Fixpoint insert_sorted (x : A) (l : list A) : list A :=
  match l with
  | [] => [x]
  | y :: r => if lt y x then y :: insert_sorted x r else x :: l
  end.
Fixpoint sort_by (l : list A) : list A :=
  match l with [] => [] | x :: r => insert_sorted x (sort_by r) end.

Lemma insert_sorted_Permutation x l : insert_sorted x l ≡ₚ x :: l.
Proof.
  induction l as [|y r IH]; simpl; [done|]. destruct (lt y x); [|done].
  rewrite IH. constructor.
Qed.
Lemma sort_by_Permutation l : sort_by l ≡ₚ l.
Proof.
  induction l as [|x r IH]; simpl; [done|].
  by rewrite insert_sorted_Permutation, IH.
Qed.
Lemma elem_of_sort_by x l : x ∈ sort_by l ↔ x ∈ l.
Proof. by rewrite sort_by_Permutation. Qed.
Lemma length_sort_by l : length (sort_by l) = length l.
Proof. apply Permutation_length, sort_by_Permutation. Qed.

(** No later element is strictly below an earlier one. *)
Definition sorted_by (l : list A) : Prop := StronglySorted (λ x y, lt y x = false) l.

Lemma sort_by_sorted l :
  (∀ x y, lt x y = true → lt y x = false) →
  (∀ x y z, lt y x = false → lt z y = false → lt z x = false) →
  sorted_by (sort_by l).
Proof.
  intros Hasym Htrans. unfold sorted_by.
  induction l as [|x r IH]; simpl; [constructor|].
  induction IH as [|y l Hl IH' Hy]; simpl; [repeat constructor|].
  destruct (lt y x) eqn:E.
  - constructor; [done|]. rewrite insert_sorted_Permutation.
    constructor; [by apply Hasym|done].
  - constructor; [by constructor|]. constructor; [done|].
    eapply Forall_impl; [exact Hy|]. intros z Hz. simpl in Hz. eauto.
Qed.

(** Sorting depends on the multiset only when [lt] separates its elements. *)
Lemma sort_by_unique l k :
  (∀ x y, lt x y = true → lt y x = false) →
  (∀ x y z, lt y x = false → lt z y = false → lt z x = false) →
  (∀ x y, x ∈ l → y ∈ l → lt x y = false → lt y x = false → x = y) →
  l ≡ₚ k → sort_by l = sort_by k.
Proof.
  intros Hasym Htrans Htot Hperm.
  apply (StronglySorted_unique_strong (λ x y, lt y x = false));
    [|by apply sort_by_sorted..|].
  - intros x y Hx Hy. rewrite elem_of_sort_by in Hx.
    rewrite elem_of_sort_by, <-Hperm in Hy. eauto.
  - by rewrite !sort_by_Permutation.
Qed.
End sorting.

(** [erase(unique(begin, end), end)]: drop adjacent repetitions. *)
Fixpoint unique_adj `{EqDecision A} (l : list A) : list A :=
  match l with
  | x :: ((y :: _) as r) => if decide (x = y) then unique_adj r else x :: unique_adj r
  | _ => l
  end.

Lemma elem_of_unique_adj `{EqDecision A} (x : A) l : x ∈ unique_adj l ↔ x ∈ l.
Proof.
  induction l as [|y [|z r] IH]; [done..|].
  change (unique_adj (y :: z :: r)) with
    (if decide (y = z) then unique_adj (z :: r) else y :: unique_adj (z :: r)).
  case_decide; subst; rewrite ?elem_of_cons, ?IH, ?elem_of_cons; naive_solver.
Qed.
