(* ===== verification/SortedVec.v ===== *)
(** * Vectors kept sorted by a key

    [FenceTable::extents_], [FenceTable::fenced_incarnations_],
    [FenceTable::fenced_epochs_], [FabricStore::owners_],
    [ScopeIndex::entries_] and the [std::map]s of the source are sequences
    kept strictly increasing in a key and searched with [std::lower_bound].
    The section fixes the key once; [sv_map] abstracts such a vector to a
    finite map, and the last lemmas refine search and update to map lookup
    and insertion. *)
From S2P Require Import Prelude Order.
Open Scope Z_scope.

Section sorted_vec.
Context {V K : Type} `{CmpLaws K} (key : V → K).
Implicit Types (v w : V) (k : K) (l : list V).

(** [std::lower_bound] returns the first position whose key is not below
    [k]; the vector is given back as what precedes it and what follows. *)
Fixpoint lower_bound k l : list V * list V :=
  match l with
  | [] => ([], [])
  | x :: r => if ltb (key x) k
              then let '(a, b) := lower_bound k r in (x :: a, b)
              else ([], l)
  end.

(** [it != end() && key(it) == k]. *)
Definition hit k (post : list V) : option V :=
  match post with
  | x :: _ => if eqb (key x) k then Some x else None
  | [] => None
  end.

Definition sv_find k l : option V := hit k (lower_bound k l).2.

(** Overwrite at the found position, or insert there. *)
Definition sv_set v l : list V :=
  let '(a, b) := lower_bound (key v) l in
  match b with
  | x :: b' => if eqb (key x) (key v) then a ++ v :: b' else a ++ v :: b
  | [] => a ++ [v]
  end.

Definition sv_sorted l : Prop := StronglySorted (λ v w, ltb (key v) (key w) = true) l.

Lemma sv_find_cons k x r :
  sv_find k (x :: r) =
    if ltb (key x) k then sv_find k r else if eqb (key x) k then Some x else None.
Proof.
  unfold sv_find; simpl. destruct (ltb (key x) k); [|done].
  by destruct (lower_bound k r).
Qed.

Lemma sv_set_cons v x r :
  sv_set v (x :: r) =
    if ltb (key x) (key v) then x :: sv_set v r
    else if eqb (key x) (key v) then v :: r else v :: x :: r.
Proof.
  unfold sv_set; simpl. destruct (ltb (key x) (key v)); [|done].
  destruct (lower_bound (key v) r) as [a [|y b]]; [done|].
  by destruct (eqb (key y) (key v)).
Qed.

Lemma elem_of_sv_set_1 v w l : w ∈ sv_set v l → w = v ∨ w ∈ l.
Proof.
  induction l as [|x r IH].
  - unfold sv_set; simpl. set_solver.
  - rewrite sv_set_cons. destruct (ltb _ _); [|destruct (eqb _ _)]; set_solver.
Qed.

Lemma elem_of_sv_set_2 v w l : w ∈ l → key w ≠ key v → w ∈ sv_set v l.
Proof.
  induction l as [|x r IH]; [set_solver|]. intros Hw Hne. rewrite sv_set_cons.
  destruct (ltb (key x) (key v)); [set_solver|].
  destruct (eqb (key x) (key v)) eqn:E; [|set_solver].
  apply eqb_eq in E. set_solver.
Qed.

Lemma sv_set_Forall (P : V → Prop) v l : P v → Forall P l → Forall P (sv_set v l).
Proof.
  rewrite !Forall_forall. intros Hv Hl w Hw.
  apply elem_of_sv_set_1 in Hw as [->|?]; auto.
Qed.

Lemma sv_set_sorted v l : sv_sorted l → sv_sorted (sv_set v l).
Proof.
  unfold sv_sorted. induction 1 as [|x r Hr IH Hx].
  - unfold sv_set; simpl. repeat constructor.
  - rewrite sv_set_cons. destruct (ltb (key x) (key v)) eqn:E1.
    + constructor; [done|]. by apply sv_set_Forall.
    + destruct (eqb (key x) (key v)) eqn:E2.
      * apply eqb_eq in E2. constructor; [done|]. by rewrite <-E2.
      * apply eqb_neq in E2. apply ltb_ge in E1 as [?|E1]; [done|].
        repeat constructor; [done..|].
        eapply Forall_impl; [exact Hx|]. intros w Hw. by eapply ltb_trans.
Qed.

Lemma sv_find_elem k v l : sv_find k l = Some v → v ∈ l ∧ key v = k.
Proof.
  induction l as [|x r IH]; [done|]. rewrite sv_find_cons.
  destruct (ltb _ _); [intros [??]%IH; set_solver|].
  destruct (eqb (key x) k) eqn:E; [|done]. apply eqb_eq in E. intros [= <-]. set_solver.
Qed.

Lemma sv_find_Some k v l : sv_sorted l → sv_find k l = Some v ↔ v ∈ l ∧ key v = k.
Proof.
  intros Hs. split; [apply sv_find_elem|].
  intros [Hin <-]. induction Hs as [|x r Hr IH Hx]; [set_solver|].
  rewrite sv_find_cons. apply elem_of_cons in Hin as [->|Hin].
  - by rewrite ltb_irrefl, eqb_refl.
  - rewrite Forall_forall in Hx. by rewrite (Hx v Hin), IH.
Qed.

Lemma sv_find_set_eq v l : sv_find (key v) (sv_set v l) = Some v.
Proof.
  induction l as [|x r IH].
  - unfold sv_set; simpl. unfold sv_find; simpl.
    by rewrite ltb_irrefl; simpl; rewrite eqb_refl.
  - rewrite sv_set_cons. destruct (ltb _ _) eqn:E1.
    + by rewrite sv_find_cons, E1.
    + destruct (eqb _ _); by rewrite sv_find_cons, ltb_irrefl, eqb_refl.
Qed.

Lemma sv_find_set_ne k v l : sv_sorted l → k ≠ key v →
  sv_find k (sv_set v l) = sv_find k l.
Proof.
  intros Hs Hne. apply option_eq. intros w.
  rewrite !sv_find_Some by auto using sv_set_sorted.
  split; intros [Hw Hk]; split; try done.
  - apply elem_of_sv_set_1 in Hw as [->|?]; [congruence|done].
  - subst k. by apply elem_of_sv_set_2.
Qed.

Lemma sv_find_set k v l : sv_sorted l →
  sv_find k (sv_set v l) = if decide (k = key v) then Some v else sv_find k l.
Proof.
  intros Hs. case_decide as E.
  - rewrite E. apply sv_find_set_eq.
  - by apply sv_find_set_ne.
Qed.

Lemma length_sv_set v l :
  length (sv_set v l) = match sv_find (key v) l with Some _ => length l | None => S (length l) end.
Proof.
  induction l as [|x r IH]; [done|].
  rewrite sv_set_cons, sv_find_cons. destruct (ltb _ _); simpl.
  - rewrite IH. by destruct (sv_find _ _).
  - by destruct (eqb _ _).
Qed.

Lemma sv_find_None_elem k l : sv_sorted l → sv_find k l = None ↔ ∀ v, v ∈ l → key v ≠ k.
Proof.
  intros Hs. split.
  - intros Hn v Hv E. assert (sv_find k l = Some v) by by apply sv_find_Some. congruence.
  - intros Hall. destruct (sv_find k l) as [v|] eqn:E; [|done].
    apply sv_find_elem in E as [Hv E]. by destruct (Hall v Hv).
Qed.

Lemma sv_sorted_NoDup l : sv_sorted l → NoDup (key <$> l).
Proof.
  induction 1 as [|x r Hr IH Hx]; csimpl; constructor; [|done].
  intros Hin. apply list_elem_of_fmap in Hin as (w & E & Hw).
  rewrite Forall_forall in Hx. apply Hx in Hw. rewrite E in Hw.
  by rewrite ltb_irrefl in Hw.
Qed.

Lemma sv_set_Permutation v l : sv_find (key v) l = None → sv_sorted l → sv_set v l ≡ₚ v :: l.
Proof.
  intros Hn Hs. induction Hs as [|x r Hr IH Hx]; [done|].
  rewrite sv_set_cons. rewrite sv_find_cons in Hn.
  destruct (ltb (key x) (key v)); [rewrite IH by done; constructor|].
  by destruct (eqb (key x) (key v)).
Qed.

(** ** Abstraction to a finite map *)

Context `{Countable K}.

Definition sv_map l : gmap K V := list_to_map ((λ v, (key v, v)) <$> l).

Lemma sv_map_lookup k l : sv_sorted l → sv_map l !! k = sv_find k l.
Proof.
  intros Hs. apply option_eq. intros v. rewrite sv_find_Some by done.
  unfold sv_map. rewrite <-elem_of_list_to_map.
  - rewrite list_elem_of_fmap. naive_solver.
  - rewrite <-list_fmap_compose. by apply sv_sorted_NoDup.
Qed.

Lemma sv_map_set v l : sv_sorted l → sv_map (sv_set v l) = <[key v := v]> (sv_map l).
Proof.
  intros Hs. apply map_eq. intros k.
  rewrite sv_map_lookup, sv_find_set by auto using sv_set_sorted.
  rewrite lookup_insert, sv_map_lookup by done.
  repeat case_decide; congruence.
Qed.
End sorted_vec.

(** ** [sort] then [unique] builds a sorted set *)

Lemma ltb_ge_trans {K} `{CmpLaws K} (x y z : K) :
  ltb y x = false → ltb z y = false → ltb z x = false.
Proof. rewrite !ltb_ge. intros [->|H1'] [->|H2']; auto. right. by eapply ltb_trans. Qed.

Lemma sort_ltb_sorted {K} `{CmpLaws K} (l : list K) : sorted_by ltb (sort_by ltb l).
Proof. apply sort_by_sorted; [apply ltb_asym|apply ltb_ge_trans]. Qed.

Lemma unique_adj_sorted {K} `{CmpLaws K, EqDecision K} (l : list K) :
  sorted_by ltb l → sv_sorted id (unique_adj l).
Proof.
  unfold sv_sorted. induction 1 as [|x k Hk IH Hx]; [constructor|].
  destruct k as [|y k]; [repeat constructor|].
  change (unique_adj (x :: y :: k)) with
    (if decide (x = y) then unique_adj (y :: k) else x :: unique_adj (y :: k)).
  case_decide as E; [done|]. constructor; [done|].
  apply Forall_forall. intros z Hz. apply (elem_of_unique_adj z (y :: k)) in Hz.
  rewrite Forall_forall in Hx. unfold id.
  assert (Hxy : ltb x y = true).
  { destruct (proj1 (ltb_ge y x) (Hx y ltac:(set_solver))) as [->|]; done. }
  destruct (proj1 (ltb_ge z x) (Hx z Hz)) as [->|]; [|done].
  apply elem_of_cons in Hz as [->|Hz]; [done|]. apply StronglySorted_inv in Hk as [_ Hy].
  rewrite Forall_forall in Hy. by rewrite (Hy x Hz) in Hxy.
Qed.

Lemma unique_sort_sorted {K} `{CmpLaws K, EqDecision K} (l : list K) :
  sv_sorted id (unique_adj (sort_by ltb l)).
Proof. apply unique_adj_sorted, sort_ltb_sorted. Qed.

(** Sorting by a key that separates the elements forgets their order. *)
Lemma sort_by_key_unique {A K} `{CmpLaws K} (key : A → K) (l k : list A) :
  NoDup (key <$> l) → l ≡ₚ k →
  sort_by (λ a b, ltb (key a) (key b)) l = sort_by (λ a b, ltb (key a) (key b)) k.
Proof.
  intros Hnd Hp. apply sort_by_unique; [intros x y; apply ltb_asym|intros x y z; apply ltb_ge_trans
    | |done].
  intros x y Hx Hy Hxy Hyx. apply ltb_ge in Hxy as [E|Hlt]; [|congruence].
  apply list_elem_of_lookup in Hx as [i Hx], Hy as [j Hy].
  assert (i = j) as ->; [|congruence].
  eapply NoDup_lookup; [exact Hnd| |]; rewrite list_lookup_fmap; [by rewrite Hx|].
  rewrite Hy. simpl. by rewrite E.
Qed.

(** A sorted vector is already sorted. *)
Lemma sort_by_sv_sorted {V K} `{CmpLaws K} (key : V → K) (l : list V) :
  sv_sorted key l → sort_by (λ a b, ltb (key a) (key b)) l = l.
Proof.
  unfold sv_sorted. induction 1 as [|x l Hl IH Hx]; [done|]. simpl. rewrite IH.
  destruct Hx as [|y l Hy _]; [done|]. simpl. by rewrite (ltb_asym _ _ Hy).
Qed.

#[export] Hint Resolve sv_set_sorted sv_find_set_eq unique_sort_sorted : sbf.
