(* ===== verification/Status.v ===== *)
(** * Outcomes, reasons, statuses and explanations

    Models [include/sbf/status.hpp] and [src/status.cpp]: the first-class
    outcomes, the stable numeric reason codes, [Status], the [Status&]-style
    fallible results, and the bounded deduplicated [Explanation]. *)
From S2P Require Import Prelude.
Open Scope Z_scope.

(** ** [enum class Outcome] *)
Module Outcome.
Inductive Outcome : Set :=
  | Ok | Unknown | Stale | Conflict | Invalid | Unsupported | Fenced | Refused
  | Exhausted | Interrupted | Indeterminate | SearchLimitReached | NotFound
  | AlreadyExists | Corrupt | Unreachable | Closed.

Definition code (o : Outcome) : Z :=
  match o with
  | Ok => 0 | Unknown => 1 | Stale => 2 | Conflict => 3 | Invalid => 4
  | Unsupported => 5 | Fenced => 6 | Refused => 7 | Exhausted => 8 | Interrupted => 9
  | Indeterminate => 10 | SearchLimitReached => 11 | NotFound => 12
  | AlreadyExists => 13 | Corrupt => 14 | Unreachable => 15 | Closed => 16
  end.

(** [static_cast<Outcome>(raw)] where [raw <= Closed] was checked. *)
Definition of_code (z : Z) : option Outcome :=
  match z with
  | 0 => Some Ok | 1 => Some Unknown | 2 => Some Stale | 3 => Some Conflict
  | 4 => Some Invalid | 5 => Some Unsupported | 6 => Some Fenced | 7 => Some Refused
  | 8 => Some Exhausted | 9 => Some Interrupted | 10 => Some Indeterminate
  | 11 => Some SearchLimitReached | 12 => Some NotFound | 13 => Some AlreadyExists
  | 14 => Some Corrupt | 15 => Some Unreachable | 16 => Some Closed
  | _ => None
  end.

(** [to_string(Outcome)]: the table [kOutcomeNames]. *)
Definition to_string (o : Outcome) : bytes :=
  str match o with
  | Ok => "Ok" | Unknown => "Unknown" | Stale => "Stale" | Conflict => "Conflict"
  | Invalid => "Invalid" | Unsupported => "Unsupported" | Fenced => "Fenced"
  | Refused => "Refused" | Exhausted => "Exhausted" | Interrupted => "Interrupted"
  | Indeterminate => "Indeterminate" | SearchLimitReached => "SearchLimitReached"
  | NotFound => "NotFound" | AlreadyExists => "AlreadyExists" | Corrupt => "Corrupt"
  | Unreachable => "Unreachable" | Closed => "Closed"
  end.

Definition all : list Outcome :=
  [Ok; Unknown; Stale; Conflict; Invalid; Unsupported; Fenced; Refused; Exhausted;
   Interrupted; Indeterminate; SearchLimitReached; NotFound; AlreadyExists; Corrupt;
   Unreachable; Closed].

Lemma outcome_of_code o : of_code (code o) = Some o.
Proof. by destruct o. Qed.

#[export] Instance outcome_code_inj : Inj (=) (=) code.
Proof. intros a b E. apply (f_equal of_code) in E. rewrite !outcome_of_code in E. congruence. Qed.

Lemma outcome_code_range o : 0 <= code o <= 16.
Proof. by destruct o. Qed.
End Outcome.
Abbreviation Outcome := Outcome.Outcome.

(** ** [enum class Reason : std::uint16_t] (the list [SBF_REASON_LIST]) *)
Module Reason.
Inductive Reason : Set :=
  | None | EmptyValue | IdTooLong | IdCharset | ValueOutOfRange | CounterOverflow
  | BoundedTableFull | DuplicateEntry | EmptyExtentSet | ScopeTooLarge
  | DuplicateExtent | NoAttestations | InsufficientDistinctWitnesses
  | InsufficientFaultDomains | WitnessGenerationMismatch | WitnessScopeMismatch
  | WitnessEpochMismatch | WitnessIncarnationMismatch | ConflictingAttestations
  | DuplicateWitness | UnknownWitness | StaleAttestation | PolicyGenerationMismatch
  | LeaseMissing | LeaseGenerationMismatch | LeaseScopeMismatch | LeaseDomainMismatch
  | LeaseEpochMismatch | LeaseIncarnationMismatch | LeaseExpired | LeaseNotYetValid
  | FenceTokenMissing | FenceTokenRegressed | ExtentFenced | IncarnationFenced
  | EpochFenced | StaleEpoch | EpochRegression | EpochUnknown
  | OverlappingExclusiveClaim | EqualEpochConflict | HigherEpochClaimant
  | NonOverlappingAllowed | CompensatingFenceRequired | ObservationNotAuthority
  | EligibilityNotAuthorization | RecommendationNotAuthority
  | AcknowledgementNotEffect | PermitNotApplied | CorruptHeader | UnsupportedVersion
  | IntegrityMismatch | SequenceRegression | TrailingGarbage | ImpossibleLength
  | InvalidEnum | TornTail | StoreNotFound | StoreBusy | BadMagic | TruncatedFrame
  | OversizedPayload | StickyFailure | SessionMismatch | RequestIdRegression
  | RequestIdReplay | ConnectionClosed | InterruptedByRestart
  | PreRestartAuthorityInvalid | IncarnationNotCurrent | DependencyUnreachable
  | NoCertificate | PlanInvalid | ProvenInfeasible | SearchLimitReached
  | StoreOwnerMismatch | EffectNotVerified | TokenFloorRejected | ScopeNotRegistered
  | DomainNotRegistered | PolicyNotRegistered | ClaimNotRegistered
  | QuorumUnreachable | GrantNotRegistered | BootNotRegistered
  | ReconciliationRequired | LineageDivergence | HistoryPreserved
  | InternalInvariantViolation | ResourceExhausted | ShutdownInProgress.

Definition code (r : Reason) : Z :=
  match r with
  | None => 0 | EmptyValue => 1 | IdTooLong => 2 | IdCharset => 3
  | ValueOutOfRange => 4 | CounterOverflow => 5 | BoundedTableFull => 6
  | DuplicateEntry => 7 | EmptyExtentSet => 8 | ScopeTooLarge => 9
  | DuplicateExtent => 10 | NoAttestations => 20
  | InsufficientDistinctWitnesses => 21 | InsufficientFaultDomains => 22
  | WitnessGenerationMismatch => 23 | WitnessScopeMismatch => 24
  | WitnessEpochMismatch => 25 | WitnessIncarnationMismatch => 26
  | ConflictingAttestations => 27 | DuplicateWitness => 28 | UnknownWitness => 29
  | StaleAttestation => 30 | PolicyGenerationMismatch => 31 | LeaseMissing => 40
  | LeaseGenerationMismatch => 41 | LeaseScopeMismatch => 42
  | LeaseDomainMismatch => 43 | LeaseEpochMismatch => 44
  | LeaseIncarnationMismatch => 45 | LeaseExpired => 46 | LeaseNotYetValid => 47
  | FenceTokenMissing => 60 | FenceTokenRegressed => 61 | ExtentFenced => 62
  | IncarnationFenced => 63 | EpochFenced => 64 | StaleEpoch => 70
  | EpochRegression => 71 | EpochUnknown => 72 | OverlappingExclusiveClaim => 80
  | EqualEpochConflict => 81 | HigherEpochClaimant => 82
  | NonOverlappingAllowed => 83 | CompensatingFenceRequired => 84
  | ObservationNotAuthority => 90 | EligibilityNotAuthorization => 91
  | RecommendationNotAuthority => 92 | AcknowledgementNotEffect => 93
  | PermitNotApplied => 94 | CorruptHeader => 100 | UnsupportedVersion => 101
  | IntegrityMismatch => 102 | SequenceRegression => 103 | TrailingGarbage => 104
  | ImpossibleLength => 105 | InvalidEnum => 106 | TornTail => 107
  | StoreNotFound => 108 | StoreBusy => 109 | BadMagic => 120 | TruncatedFrame => 121
  | OversizedPayload => 122 | StickyFailure => 123 | SessionMismatch => 124
  | RequestIdRegression => 125 | RequestIdReplay => 126 | ConnectionClosed => 127
  | InterruptedByRestart => 140 | PreRestartAuthorityInvalid => 141
  | IncarnationNotCurrent => 142 | DependencyUnreachable => 143
  | NoCertificate => 160 | PlanInvalid => 161 | ProvenInfeasible => 162
  | SearchLimitReached => 163 | StoreOwnerMismatch => 180 | EffectNotVerified => 181
  | TokenFloorRejected => 182 | ScopeNotRegistered => 190
  | DomainNotRegistered => 191 | PolicyNotRegistered => 192
  | ClaimNotRegistered => 193 | QuorumUnreachable => 194 | GrantNotRegistered => 195
  | BootNotRegistered => 196 | ReconciliationRequired => 200
  | LineageDivergence => 201 | HistoryPreserved => 202
  | InternalInvariantViolation => 220 | ResourceExhausted => 221
  | ShutdownInProgress => 222
  end.

(** [reason_from_code]. *)
Definition of_code (z : Z) : option Reason :=
  match z with
  | 0 => Some None | 1 => Some EmptyValue | 2 => Some IdTooLong | 3 => Some IdCharset
  | 4 => Some ValueOutOfRange | 5 => Some CounterOverflow
  | 6 => Some BoundedTableFull | 7 => Some DuplicateEntry | 8 => Some EmptyExtentSet
  | 9 => Some ScopeTooLarge | 10 => Some DuplicateExtent | 20 => Some NoAttestations
  | 21 => Some InsufficientDistinctWitnesses | 22 => Some InsufficientFaultDomains
  | 23 => Some WitnessGenerationMismatch | 24 => Some WitnessScopeMismatch
  | 25 => Some WitnessEpochMismatch | 26 => Some WitnessIncarnationMismatch
  | 27 => Some ConflictingAttestations | 28 => Some DuplicateWitness
  | 29 => Some UnknownWitness | 30 => Some StaleAttestation
  | 31 => Some PolicyGenerationMismatch | 40 => Some LeaseMissing
  | 41 => Some LeaseGenerationMismatch | 42 => Some LeaseScopeMismatch
  | 43 => Some LeaseDomainMismatch | 44 => Some LeaseEpochMismatch
  | 45 => Some LeaseIncarnationMismatch | 46 => Some LeaseExpired
  | 47 => Some LeaseNotYetValid | 60 => Some FenceTokenMissing
  | 61 => Some FenceTokenRegressed | 62 => Some ExtentFenced
  | 63 => Some IncarnationFenced | 64 => Some EpochFenced | 70 => Some StaleEpoch
  | 71 => Some EpochRegression | 72 => Some EpochUnknown
  | 80 => Some OverlappingExclusiveClaim | 81 => Some EqualEpochConflict
  | 82 => Some HigherEpochClaimant | 83 => Some NonOverlappingAllowed
  | 84 => Some CompensatingFenceRequired | 90 => Some ObservationNotAuthority
  | 91 => Some EligibilityNotAuthorization | 92 => Some RecommendationNotAuthority
  | 93 => Some AcknowledgementNotEffect | 94 => Some PermitNotApplied
  | 100 => Some CorruptHeader | 101 => Some UnsupportedVersion
  | 102 => Some IntegrityMismatch | 103 => Some SequenceRegression
  | 104 => Some TrailingGarbage | 105 => Some ImpossibleLength
  | 106 => Some InvalidEnum | 107 => Some TornTail | 108 => Some StoreNotFound
  | 109 => Some StoreBusy | 120 => Some BadMagic | 121 => Some TruncatedFrame
  | 122 => Some OversizedPayload | 123 => Some StickyFailure
  | 124 => Some SessionMismatch | 125 => Some RequestIdRegression
  | 126 => Some RequestIdReplay | 127 => Some ConnectionClosed
  | 140 => Some InterruptedByRestart | 141 => Some PreRestartAuthorityInvalid
  | 142 => Some IncarnationNotCurrent | 143 => Some DependencyUnreachable
  | 160 => Some NoCertificate | 161 => Some PlanInvalid
  | 162 => Some ProvenInfeasible | 163 => Some SearchLimitReached
  | 180 => Some StoreOwnerMismatch | 181 => Some EffectNotVerified
  | 182 => Some TokenFloorRejected | 190 => Some ScopeNotRegistered
  | 191 => Some DomainNotRegistered | 192 => Some PolicyNotRegistered
  | 193 => Some ClaimNotRegistered | 194 => Some QuorumUnreachable
  | 195 => Some GrantNotRegistered | 196 => Some BootNotRegistered
  | 200 => Some ReconciliationRequired | 201 => Some LineageDivergence
  | 202 => Some HistoryPreserved | 220 => Some InternalInvariantViolation
  | 221 => Some ResourceExhausted | 222 => Some ShutdownInProgress
  | _ => Datatypes.None
  end.

(** [to_string(Reason)]. *)
Definition to_string (r : Reason) : bytes :=
  str match r with
  | None => "None" | EmptyValue => "EmptyValue" | IdTooLong => "IdTooLong"
  | IdCharset => "IdCharset" | ValueOutOfRange => "ValueOutOfRange"
  | CounterOverflow => "CounterOverflow" | BoundedTableFull => "BoundedTableFull"
  | DuplicateEntry => "DuplicateEntry" | EmptyExtentSet => "EmptyExtentSet"
  | ScopeTooLarge => "ScopeTooLarge" | DuplicateExtent => "DuplicateExtent"
  | NoAttestations => "NoAttestations"
  | InsufficientDistinctWitnesses => "InsufficientDistinctWitnesses"
  | InsufficientFaultDomains => "InsufficientFaultDomains"
  | WitnessGenerationMismatch => "WitnessGenerationMismatch"
  | WitnessScopeMismatch => "WitnessScopeMismatch"
  | WitnessEpochMismatch => "WitnessEpochMismatch"
  | WitnessIncarnationMismatch => "WitnessIncarnationMismatch"
  | ConflictingAttestations => "ConflictingAttestations"
  | DuplicateWitness => "DuplicateWitness" | UnknownWitness => "UnknownWitness"
  | StaleAttestation => "StaleAttestation"
  | PolicyGenerationMismatch => "PolicyGenerationMismatch"
  | LeaseMissing => "LeaseMissing"
  | LeaseGenerationMismatch => "LeaseGenerationMismatch"
  | LeaseScopeMismatch => "LeaseScopeMismatch"
  | LeaseDomainMismatch => "LeaseDomainMismatch"
  | LeaseEpochMismatch => "LeaseEpochMismatch"
  | LeaseIncarnationMismatch => "LeaseIncarnationMismatch"
  | LeaseExpired => "LeaseExpired" | LeaseNotYetValid => "LeaseNotYetValid"
  | FenceTokenMissing => "FenceTokenMissing"
  | FenceTokenRegressed => "FenceTokenRegressed" | ExtentFenced => "ExtentFenced"
  | IncarnationFenced => "IncarnationFenced" | EpochFenced => "EpochFenced"
  | StaleEpoch => "StaleEpoch" | EpochRegression => "EpochRegression"
  | EpochUnknown => "EpochUnknown"
  | OverlappingExclusiveClaim => "OverlappingExclusiveClaim"
  | EqualEpochConflict => "EqualEpochConflict"
  | HigherEpochClaimant => "HigherEpochClaimant"
  | NonOverlappingAllowed => "NonOverlappingAllowed"
  | CompensatingFenceRequired => "CompensatingFenceRequired"
  | ObservationNotAuthority => "ObservationNotAuthority"
  | EligibilityNotAuthorization => "EligibilityNotAuthorization"
  | RecommendationNotAuthority => "RecommendationNotAuthority"
  | AcknowledgementNotEffect => "AcknowledgementNotEffect"
  | PermitNotApplied => "PermitNotApplied" | CorruptHeader => "CorruptHeader"
  | UnsupportedVersion => "UnsupportedVersion"
  | IntegrityMismatch => "IntegrityMismatch"
  | SequenceRegression => "SequenceRegression" | TrailingGarbage => "TrailingGarbage"
  | ImpossibleLength => "ImpossibleLength" | InvalidEnum => "InvalidEnum"
  | TornTail => "TornTail" | StoreNotFound => "StoreNotFound"
  | StoreBusy => "StoreBusy" | BadMagic => "BadMagic"
  | TruncatedFrame => "TruncatedFrame" | OversizedPayload => "OversizedPayload"
  | StickyFailure => "StickyFailure" | SessionMismatch => "SessionMismatch"
  | RequestIdRegression => "RequestIdRegression"
  | RequestIdReplay => "RequestIdReplay" | ConnectionClosed => "ConnectionClosed"
  | InterruptedByRestart => "InterruptedByRestart"
  | PreRestartAuthorityInvalid => "PreRestartAuthorityInvalid"
  | IncarnationNotCurrent => "IncarnationNotCurrent"
  | DependencyUnreachable => "DependencyUnreachable"
  | NoCertificate => "NoCertificate" | PlanInvalid => "PlanInvalid"
  | ProvenInfeasible => "ProvenInfeasible"
  | SearchLimitReached => "SearchLimitReached"
  | StoreOwnerMismatch => "StoreOwnerMismatch"
  | EffectNotVerified => "EffectNotVerified"
  | TokenFloorRejected => "TokenFloorRejected"
  | ScopeNotRegistered => "ScopeNotRegistered"
  | DomainNotRegistered => "DomainNotRegistered"
  | PolicyNotRegistered => "PolicyNotRegistered"
  | ClaimNotRegistered => "ClaimNotRegistered"
  | QuorumUnreachable => "QuorumUnreachable"
  | GrantNotRegistered => "GrantNotRegistered"
  | BootNotRegistered => "BootNotRegistered"
  | ReconciliationRequired => "ReconciliationRequired"
  | LineageDivergence => "LineageDivergence" | HistoryPreserved => "HistoryPreserved"
  | InternalInvariantViolation => "InternalInvariantViolation"
  | ResourceExhausted => "ResourceExhausted"
  | ShutdownInProgress => "ShutdownInProgress"
  end.

Lemma reason_of_code r : of_code (code r) = Some r.
Proof. by destruct r. Qed.

#[export] Instance reason_code_inj : Inj (=) (=) code.
Proof. intros a b E. apply (f_equal of_code) in E. rewrite !reason_of_code in E. congruence. Qed.

Lemma reason_code_range r : 0 <= code r <= 222.
Proof. by destruct r. Qed.
End Reason.
Abbreviation Reason := Reason.Reason.

#[export] Instance outcome_eq_dec : EqDecision Outcome.
Proof.
  refine (λ a b, match Z.eq_dec (Outcome.code a) (Outcome.code b) with
                 | left E => left (Outcome.outcome_code_inj _ _ E)
                 | right N => right _
                 end).
  intros ->. by apply N.
Defined.

#[export] Instance reason_eq_dec : EqDecision Reason.
Proof.
  refine (λ a b, match Z.eq_dec (Reason.code a) (Reason.code b) with
                 | left E => left (Reason.reason_code_inj _ _ E)
                 | right N => right _
                 end).
  intros ->. by apply N.
Defined.

(** [outcome_from_string]: a linear scan of [kOutcomeNames]. *)
Definition outcome_from_string (name : bytes) : option Outcome :=
  List.find (λ o, bool_decide (Outcome.to_string o = name)) Outcome.all.

Definition is_positive (o : Outcome) : bool := bool_decide (o = Outcome.Ok).

(** ** [struct Status] *)
Record Status := mkStatus { outcome : Outcome; reason : Reason; aux : Z }.

#[export] Instance status_eq_dec : EqDecision Status.
Proof. solve_decision. Defined.

Definition status_ok : Status := mkStatus Outcome.Ok Reason.None 0.
Definition is_ok (s : Status) : bool :=
  match outcome s with Outcome.Ok => true | _ => false end.
(** [Status::make(o, r)] with the default [aux]. *)
Definition fail0 (o : Outcome) (r : Reason) : Status := mkStatus o r 0.

Lemma is_ok_ok : is_ok status_ok = true.
Proof. done. Qed.

(** A [Status f(..., T& out)]: the value written to [out], or the failing
    status with [out] left alone. *)
Inductive result (A : Type) := Ret (a : A) | Err (s : Status).
Arguments Ret {A} a.
Arguments Err {A} s.

#[export] Instance result_eq_dec `{EqDecision A} : EqDecision (result A).
Proof. solve_decision. Defined.

Declare Scope sbf_scope.
Open Scope sbf_scope.

(** [if (auto st = m; !st.is_ok()) return st;] and bind the out-parameter. *)
Notation "'let*' x ':=' m 'in' k" :=
  (match m with Ret x => k | Err s => Err s end)
  (at level 10, x pattern, m at level 100, k at level 200,
   format "'[v' 'let*'  x  ':='  m  'in' '/' k ']'") : sbf_scope.

(** [if (cond) return st;]. *)
Notation "'guard*' c 'else' s 'in' k" :=
  (if c then k else Err s)
  (at level 10, c at level 100, s at level 100, k at level 200,
   format "'[v' 'guard*'  c  'else'  s  'in' '/' k ']'") : sbf_scope.

Definition result_status {A} (m : result A) : Status :=
  match m with Ret _ => status_ok | Err s => s end.

Definition of_option {A} (o : option A) (s : Status) : result A :=
  match o with Some a => Ret a | None => Err s end.

(** ** [class Explanation] *)
Definition kMaxExplanationCodes : Z := 16.

(** [codes_[0 .. count_)]. *)
Record Explanation := mkExplanation { codes : list Reason }.

#[export] Instance explanation_eq_dec : EqDecision Explanation.
Proof. solve_decision. Defined.

Definition no_explanation : Explanation := mkExplanation [].

Definition expl_contains (e : Explanation) (r : Reason) : bool :=
  bool_decide (r ∈ codes e).

Definition expl_full (e : Explanation) : bool := kMaxExplanationCodes <=? zlen (codes e).

(** [Explanation::add], with its result. *)
Definition expl_add_b (e : Explanation) (r : Reason) : Explanation * bool :=
  if bool_decide (r = Reason.None) then (e, true)
  else if expl_contains e r then (e, true)
  else if expl_full e then (e, false)
  else (mkExplanation (codes e ++ [r]), true).

Definition expl_add (e : Explanation) (r : Reason) : Explanation := (expl_add_b e r).1.

(** The invariant of the class: bounded, duplicate-free, never [None]. *)
Definition expl_wf (e : Explanation) : Prop :=
  zlen (codes e) <= kMaxExplanationCodes ∧ NoDup (codes e) ∧ Reason.None ∉ codes e.

Lemma expl_wf_empty : expl_wf no_explanation.
Proof. split; [done|]. split; [constructor|set_solver]. Qed.

Lemma expl_add_wf e r : expl_wf e → expl_wf (expl_add e r).
Proof.
  unfold expl_add, expl_add_b, expl_contains, expl_full. intros (Hl & Hd & Hn).
  repeat case_bool_decide; try done.
  destruct (Z.leb_spec kMaxExplanationCodes (zlen (codes e))); [done|].
  split; [|split]; simpl.
  - rewrite zlen_app. change (zlen [r]) with 1. lia.
  - apply NoDup_app. split; [done|]. split; [set_solver|apply NoDup_singleton].
  - set_solver.
Qed.

Lemma expl_add_codes e r : codes e `prefix_of` codes (expl_add e r).
Proof.
  unfold expl_add, expl_add_b. repeat case_match; try done. by eexists.
Qed.

#[export] Hint Resolve expl_wf_empty expl_add_wf is_ok_ok : sbf.
