(* ===== verification/Ids.v ===== *)
(** * Identifiers, counters and clocks

    Models [include/sbf/limits.hpp], [include/sbf/ids.hpp], [src/ids.cpp],
    [include/sbf/clock.hpp] and [src/clock.cpp].  An identifier is its byte
    string (empty when default-constructed), a [Counter] its 64-bit value
    (zero meaning absent). *)
From S2P Require Import Prelude Order Status.
Open Scope Z_scope.

(** ** [namespace sbf::limits] *)
Definition kMaxIdLength : Z := 64.
Definition kMaxTextLength : Z := 256.
Definition kMaxExplanationBytes : Z := 640.
Definition kMaxExtentsPerScope : Z := 256.
Definition kMaxIndexedExtents : Z := 4096.
Definition kMaxSearchNodes : Z := 200000.
Definition kMaxWitnessesPerProfile : Z := 32.
Definition kMaxAttestationsPerBundle : Z := 64.
Definition kMaxCompetingClaims : Z := 128.
Definition kMaxLeaseHorizonSteps : Z := 1000000.
Definition kMaxDomains : Z := 64.
Definition kMaxLineageEntries : Z := 4096.
Definition kMaxFenceRecords : Z := 8192.
Definition kMaxDedupEntries : Z := 4096.
Definition kMaxInterruptedMarks : Z := 4096.
Definition kMaxJournalRecordBytes : Z := 256 * 1024.
Definition kMaxSnapshotBytes : Z := 32 * 1024 * 1024.
Definition kMaxFabricStoreBytes : Z := 512 * 1024 * 1024.
Definition kMaxSnapshotRecords : Z := 200000.
Definition kMaxFramePayloadBytes : Z := 256 * 1024.
Definition kFrameHeaderBytes : Z := 32.
Definition kMaxReconcileConflicts : Z := 1024.
Definition kMaxReconcileInputs : Z := 64.

(** ** [template <class Tag> class Id] *)

Abbreviation DomainId := bytes (only parsing).
Abbreviation ExtentId := bytes (only parsing).
Abbreviation WitnessId := bytes (only parsing).
Abbreviation StoreId := bytes (only parsing).
Abbreviation PolicyId := bytes (only parsing).
Abbreviation ClaimId := bytes (only parsing).
Abbreviation NodeId := bytes (only parsing).
Abbreviation FaultDomainId := bytes (only parsing).

(** [empty()]. *)
Definition id_empty (i : bytes) : bool := match i with [] => true | _ => false end.

Definition in_range (lo hi c : Z) : bool := (lo <=? c) && (c <=? hi).

(** One iteration of [id_charset_ok]: alphanumeric, or one of [._:-]. *)
Definition id_char_ok (b : byte) : bool :=
  let c := byte_to_Z b in
  in_range 97 122 c || in_range 65 90 c || in_range 48 57 c ||
  ((c =? 46) || (c =? 95) || (c =? 58) || (c =? 45)).

Definition id_charset_ok (v : bytes) : bool := forallb id_char_ok v.

Definition id_validate (v : bytes) : Status :=
  if id_empty v then fail0 Outcome.Invalid Reason.EmptyValue
  else if kMaxIdLength <? zlen v then mkStatus Outcome.Invalid Reason.IdTooLong (zlen v)
  else if negb (id_charset_ok v) then mkStatus Outcome.Invalid Reason.IdCharset (zlen v)
  else status_ok.

Definition id_try_make (v : bytes) : option bytes :=
  if is_ok (id_validate v) then Some v else None.

(** [Id::make]: an invalid value fails closed to the empty identifier. *)
Definition id_make (v : bytes) : bytes :=
  if is_ok (id_validate v) then v else [].

(** What a value that passed [validate] satisfies. *)
Definition id_valid (v : bytes) : Prop :=
  v ≠ [] ∧ zlen v <= kMaxIdLength ∧ id_charset_ok v = true.

#[export] Instance id_valid_dec v : Decision (id_valid v).
Proof. unfold id_valid. apply _. Defined.

Lemma id_empty_true v : id_empty v = true ↔ v = [].
Proof. by destruct v. Qed.
Lemma id_empty_false v : id_empty v = false ↔ v ≠ [].
Proof. by destruct v. Qed.

Lemma id_validate_ok v : is_ok (id_validate v) = true ↔ id_valid v.
Proof.
  unfold id_validate, id_valid. rewrite <-id_empty_false.
  destruct (id_empty v); [naive_solver|].
  destruct (Z.ltb_spec kMaxIdLength (zlen v)).
  - split; [done|]. intros (_ & ? & _). lia.
  - destruct (id_charset_ok v); naive_solver.
Qed.

Lemma id_try_make_Some v w : id_try_make v = Some w ↔ v = w ∧ id_valid v.
Proof.
  unfold id_try_make. rewrite <-id_validate_ok. destruct (is_ok _); naive_solver.
Qed.

Lemma id_try_make_valid v : id_valid v → id_try_make v = Some v.
Proof. intros. by apply id_try_make_Some. Qed.

Lemma id_try_make_empty : id_try_make [] = None.
Proof. done. Qed.

Lemma id_valid_nonempty v : id_valid v → id_empty v = false.
Proof. intros [??]. by apply id_empty_false. Qed.

Lemma id_make_valid v : id_make v = [] ∨ (id_make v = v ∧ id_valid v).
Proof.
  unfold id_make. rewrite <-id_validate_ok. destruct (is_ok _); naive_solver.
Qed.

(** ** [template <class Tag> class Counter] *)

Abbreviation Epoch := Z (only parsing).
Abbreviation IncarnationId := Z (only parsing).
Abbreviation FenceToken := Z (only parsing).
Abbreviation Step := Z (only parsing).
Abbreviation Sequence := Z (only parsing).
Abbreviation Generation := Z (only parsing).
Abbreviation BootId := Z (only parsing).
Abbreviation SessionId := Z (only parsing).
Abbreviation RequestId := Z (only parsing).
Abbreviation LeaseId := Z (only parsing).
Abbreviation GrantId := Z (only parsing).

Definition is_none (c : Z) : bool := c =? 0.
Definition is_set (c : Z) : bool := negb (c =? 0).

(** [try_increment(by)]: the new value, and whether it moved.  The guard
    [value_ > max_value() - by] subtracts in 64 bits. *)
Definition try_increment (v by_ : Z) : Z * bool :=
  if u64 (u64_max - by_) <? v then (v, false) else (u64 (v + by_), true).

Lemma try_increment_spec v by_ : is_u64 v → is_u64 by_ →
  try_increment v by_ =
    if decide (v + by_ < 2 ^ 64) then (v + by_, true) else (v, false).
Proof.
  unfold try_increment, is_u64, u64_max. intros Hv Hb.
  rewrite u64_id by (unfold is_u64; lia).
  destruct (Z.ltb_spec (2 ^ 64 - 1 - by_) v); case_decide; try lia; [done|].
  rewrite u64_id by (unfold is_u64; lia). done.
Qed.

(** ** [struct WallClockReading] *)
Record WallClockReading := mkWallClock {
  unix_nanos : Z; wc_source : Z; observed_regression : bool }.

#[export] Instance wallclock_eq_dec : EqDecision WallClockReading.
Proof. solve_decision. Defined.

Definition wallclock0 : WallClockReading := mkWallClock 0 0 false.

(** ** [class StepClock] *)
Record StepClock := mkStepClock { clock_value : Z }.

Definition clock_now (c : StepClock) : Step := clock_value c.

Definition clock_advance (c : StepClock) (by_ : Z) : StepClock * bool :=
  if u64 (u64_max - by_) <? clock_value c then (c, false)
  else (mkStepClock (u64 (clock_value c + by_)), true).

Definition clock_observe_persisted (c : StepClock) (v : Step) : StepClock * bool :=
  if v <=? clock_value c then (c, true)
  else if v =? u64_max then (c, false)
  else (mkStepClock v, true).

Lemma clock_advance_spec c by_ : is_u64 (clock_value c) → is_u64 by_ →
  clock_advance c by_ =
    if decide (clock_value c + by_ < 2 ^ 64)
    then (mkStepClock (clock_value c + by_), true) else (c, false).
Proof.
  intros Hv Hb. pose proof (try_increment_spec (clock_value c) by_ Hv Hb) as E.
  unfold clock_advance, try_increment in *.
  destruct (_ <? _); case_decide; destruct c; simpl in *; congruence.
Qed.

Lemma clock_observe_monotone c v : clock_value c <= clock_value (clock_observe_persisted c v).1.
Proof.
  unfold clock_observe_persisted. destruct (Z.leb_spec v (clock_value c)); simpl; [lia|].
  destruct (v =? u64_max); simpl; lia.
Qed.

Lemma clock_observe_floor c v : v < u64_max →
  v <= clock_value (clock_observe_persisted c v).1.
Proof.
  unfold clock_observe_persisted. intros. destruct (Z.leb_spec v (clock_value c)); simpl; [lia|].
  destruct (Z.eqb_spec v u64_max); simpl; lia.
Qed.

(** ** [class WallClockObserver] *)
Record WallClockObserver := mkObserver {
  obs_last : Z; obs_regressions : Z; obs_max_regression : Z }.

(** [observe(unix_nanos)].  The difference of two [std::int64_t] readings is
    taken in 64-bit two's complement. *)
Definition observer_observe (o : WallClockObserver) (nanos : Z)
  : WallClockObserver * WallClockReading :=
  let regressed := negb (obs_last o =? 0) && (nanos <? obs_last o) in
  let delta := u64 (obs_last o - nanos) in
  (mkObserver
     (if obs_last o <? nanos then nanos else obs_last o)
     (if regressed then u64 (obs_regressions o + 1) else obs_regressions o)
     (if regressed && (obs_max_regression o <? delta) then delta else obs_max_regression o),
   mkWallClock nanos 0 regressed).

Lemma observer_last_monotone o n : obs_last o <= obs_last (observer_observe o n).1.
Proof. simpl. destruct (Z.ltb_spec (obs_last o) n); lia. Qed.

#[export] Hint Resolve id_valid_nonempty : sbf.
