(* ===== verification/Text.v ===== *)
(** * Text helpers

    Models [src/text.cpp]: bounded integer parsing, hexadecimal printing,
    trimming, splitting and case folding, and the two printers of
    [src/status.cpp] that use them ([to_string(Status)],
    [Explanation::render]). *)
From S2P Require Import Prelude Order Status Ids.
Open Scope Z_scope.

Definition digit_of (c : byte) : option Z :=
  if in_range 48 57 (byte_to_Z c) then Some (byte_to_Z c - 48) else None.

(** The loop of [parse_u64]: [acc] is [value]; the guard divides in 64 bits. *)
Fixpoint parse_u64_loop (acc : Z) (s : bytes) : result Z :=
  match s with
  | [] => Ret acc
  | c :: r =>
      match digit_of c with
      | None => Err (fail0 Outcome.Invalid Reason.IdCharset)
      | Some d =>
          if (u64_max - d) / 10 <? acc
          then Err (fail0 Outcome.Invalid Reason.CounterOverflow)
          else parse_u64_loop (u64 (u64 (acc * 10) + d)) r
      end
  end.

Definition parse_u64 (s : bytes) : result Z :=
  match s with
  | [] => Err (fail0 Outcome.Invalid Reason.EmptyValue)
  | _ => parse_u64_loop 0 s
  end.

(** [parse_i64]: an optional sign, then the magnitude. *)
Definition parse_i64 (s : bytes) : result Z :=
  match s with
  | [] => Err (fail0 Outcome.Invalid Reason.EmptyValue)
  | c :: r =>
      let negative := byte_to_Z c =? 45 in
      let signed := negative || (byte_to_Z c =? 43) in
      let body := if signed then r else s in
      if signed && id_empty r then Err (fail0 Outcome.Invalid Reason.EmptyValue)
      else
        let* magnitude := parse_u64 body in
        let limit := if negative then 2 ^ 63 else 2 ^ 63 - 1 in
        if limit <? magnitude then Err (fail0 Outcome.Invalid Reason.CounterOverflow)
        else Ret (if negative
                  then if magnitude =? limit then - 2 ^ 63 else - magnitude
                  else magnitude)
  end.

(** [std::to_string] of an unsigned number: at most twenty digits. *)
Fixpoint decimal_loop (fuel : nat) (v : Z) : bytes :=
  match fuel with
  | O => []
  | S fuel =>
      (if v <? 10 then [] else decimal_loop fuel (v / 10)) ++ [byte_of_Z (48 + v mod 10)]
  end.
Definition decimal (v : Z) : bytes := decimal_loop 20 v.

(** [std::tolower] in the C locale. *)
Definition tolower (c : byte) : byte :=
  if in_range 65 90 (byte_to_Z c) then byte_of_Z (byte_to_Z c + 32) else c.

Definition to_lower (s : bytes) : bytes := tolower <$> s.

Definition equals_ci (a b : bytes) : bool :=
  (length a =? length b)%nat && bool_decide (to_lower a = to_lower b).

Definition parse_bool (s : bytes) : result bool :=
  if equals_ci s (str "true") || bool_decide (s = str "1") || equals_ci s (str "yes")
     || equals_ci s (str "on") then Ret true
  else if equals_ci s (str "false") || bool_decide (s = str "0") || equals_ci s (str "no")
     || equals_ci s (str "off") then Ret false
  else Err (fail0 Outcome.Invalid Reason.ValueOutOfRange).

(** [kDigits[digit]]. *)
Definition hex_digit (d : Z) : byte :=
  byte_of_Z (if d <? 10 then 48 + d else 87 + d).

(** The loop of [hex_u64], from the nibble at [shift = 4 * n] down to 0. *)
Fixpoint hex_loop (n : nat) (started : bool) (value : Z) : bytes :=
  match n with
  | O => []
  | S m =>
      let digit := Z.land (Z.shiftr value (4 * Z.of_nat m)) 15 in
      if negb (digit =? 0) || started || (m =? 0)%nat
      then hex_digit digit :: hex_loop m true value
      else hex_loop m started value
  end.

Definition hex_u64 (value : Z) : bytes := str "0x" ++ hex_loop 16 false value.

Definition is_blank (c : byte) : bool :=
  let z := byte_to_Z c in (z =? 32) || (z =? 9) || (z =? 13) || (z =? 10).

Fixpoint trim_front (s : bytes) : bytes :=
  match s with
  | c :: r => if is_blank c then trim_front r else s
  | [] => []
  end.

Definition trim (s : bytes) : bytes := reverse (trim_front (reverse (trim_front s))).

(** [split]: [cur] is [in.substr(start, i - start)] reversed. *)
Fixpoint split_loop (delimiter : byte) (cur s : bytes) : list bytes :=
  match s with
  | [] => [reverse cur]
  | c :: r => if bool_decide (c = delimiter) then reverse cur :: split_loop delimiter [] r
              else split_loop delimiter (c :: cur) r
  end.

Definition split (s : bytes) (delimiter : byte) : list bytes := split_loop delimiter [] s.

(** [append_bounded], with its result. *)
Definition append_bounded (out piece : bytes) (bound : Z) : bytes * bool :=
  if (bound <? zlen piece) || (bound - zlen piece <? zlen out) then (out, false)
  else (out ++ piece, true).

(** [to_string(const Status&)]. *)
Definition status_to_string (s : Status) : bytes :=
  Outcome.to_string (outcome s) ++ str ":" ++ Reason.to_string (reason s) ++
  (if aux s =? 0 then [] else str "#" ++ hex_u64 (aux s)).

Fixpoint join (sep : bytes) (l : list bytes) : bytes :=
  match l with
  | [] => []
  | [x] => x
  | x :: r => x ++ sep ++ join sep r
  end.

(** [Explanation::render]. *)
Definition expl_render (e : Explanation) (subject : bytes) (primary : Status) : bytes :=
  let out := subject ++ str " -> " ++ status_to_string primary in
  match codes e with
  | [] => out
  | _ => let out := out ++ str " [" ++ join (str ",") (Reason.to_string <$> codes e) ++ str "]" in
         if kMaxExplanationBytes <? zlen out then take (Z.to_nat kMaxExplanationBytes) out else out
  end.

(** ** What the parsers compute *)

(** The decimal value of a digit string read after a prefix worth [acc]. *)
Fixpoint dec_value (acc : Z) (s : bytes) : option Z :=
  match s with
  | [] => Some acc
  | c :: r => d ← digit_of c; dec_value (acc * 10 + d) r
  end.

Lemma digit_of_range c d : digit_of c = Some d → 0 <= d <= 9.
Proof.
  unfold digit_of, in_range. intros H.
  destruct (Z.leb_spec 48 (byte_to_Z c)), (Z.leb_spec (byte_to_Z c) 57);
    simplify_eq/=; lia.
Qed.

Lemma dec_value_ge acc s v : 0 <= acc → dec_value acc s = Some v → acc <= v.
Proof.
  revert acc. induction s as [|c r IH]; intros acc Ha; simpl; [intros [= <-]; lia|].
  destruct (digit_of c) as [d|] eqn:Ed; [|done]. simpl.
  apply digit_of_range in Ed. intros ?%IH; lia.
Qed.

Lemma parse_guard acc d : 0 <= d <= 9 →
  ((u64_max - d) / 10 <? acc) = (u64_max <? acc * 10 + d).
Proof.
  intros. apply eq_true_iff_eq. rewrite !Z.ltb_lt.
  pose proof (Z.div_mod (u64_max - d) 10 ltac:(lia)).
  pose proof (Z.mod_pos_bound (u64_max - d) 10 ltac:(lia)). lia.
Qed.

Lemma parse_u64_loop_spec acc s v : 0 <= acc <= u64_max →
  parse_u64_loop acc s = Ret v ↔ dec_value acc s = Some v ∧ v <= u64_max.
Proof.
  revert acc. induction s as [|c r IH]; intros acc Ha; simpl; [naive_solver lia|].
  destruct (digit_of c) as [d|] eqn:Ed; simpl; [|naive_solver].
  apply digit_of_range in Ed. rewrite parse_guard by done.
  destruct (Z.ltb_spec u64_max (acc * 10 + d)) as [L|L].
  - split; [done|]. intros [?%dec_value_ge ?]; lia.
  - unfold u64_max in *. rewrite (u64_id (acc * 10)) by (unfold is_u64; lia).
    rewrite u64_id by (unfold is_u64; lia). apply IH. lia.
Qed.

(** Length of the printed hexadecimal number: [n] nibbles at most, one at least. *)
Lemma hex_loop_length n st v : (length (hex_loop n st v) <= n)%nat.
Proof.
  revert st. induction n as [|n IH]; intros st; simpl; [lia|].
  destruct (_ || _); simpl; [specialize (IH true)|specialize (IH st)]; lia.
Qed.

Lemma hex_loop_nonempty n st v : hex_loop (S n) st v ≠ [].
Proof.
  revert st. induction n as [|n IH]; intros st.
  - simpl. by rewrite orb_true_r.
  - change (hex_loop (S (S n)) st v) with
      (let digit := Z.land (Z.shiftr v (4 * Z.of_nat (S n))) 15 in
       if negb (digit =? 0) || st || (S n =? 0)%nat
       then hex_digit digit :: hex_loop (S n) true v else hex_loop (S n) st v).
    cbv zeta. destruct (_ || _); [done|apply IH].
Qed.

(** The hexadecimal value a digit string denotes. *)
Definition hex_digit_value (c : byte) : option Z :=
  let z := byte_to_Z c in
  if in_range 48 57 z then Some (z - 48)
  else if in_range 97 102 z then Some (z - 87) else None.

Fixpoint hex_value (acc : Z) (s : bytes) : option Z :=
  match s with
  | [] => Some acc
  | c :: r => d ← hex_digit_value c; hex_value (acc * 16 + d) r
  end.

Lemma hex_digit_value_of d : 0 <= d < 16 → hex_digit_value (hex_digit d) = Some d.
Proof.
  intros Hd.
  assert (Forall (λ d, hex_digit_value (hex_digit d) = Some d) (seqZ 0 16)) as HF.
  { apply (bool_decide_unpack _). by vm_compute. }
  rewrite Forall_forall in HF. apply HF, elem_of_seqZ. lia.
Qed.

Lemma land15 v k : 0 <= k → Z.land (Z.shiftr v k) 15 = (v / 2 ^ k) mod 16.
Proof.
  intros. rewrite Z.shiftr_div_pow2 by done.
  change 15 with (Z.ones 4). by rewrite Z.land_ones by lia.
Qed.

Lemma hex_loop_started n v acc : 0 <= v →
  hex_value acc (hex_loop n true v) = Some (acc * 16 ^ Z.of_nat n + v mod 16 ^ Z.of_nat n).
Proof.
  intros Hv. revert acc. induction n as [|n IH]; intros acc.
  - simpl. rewrite Z.mod_1_r. f_equal. lia.
  - cbn [hex_loop]. rewrite orb_true_r. cbn [orb hex_value].
    rewrite land15 by lia. rewrite hex_digit_value_of by (apply Z.mod_pos_bound; lia).
    cbn [mbind option_bind]. rewrite IH. f_equal.
    rewrite Z.pow_mul_r by lia. change (2 ^ 4) with 16.
    rewrite Nat2Z.inj_succ, Z.pow_succ_r by lia.
    rewrite (Z.mul_comm 16), Z.rem_mul_r by lia. lia.
Qed.

(** Before the first significant nibble every higher nibble is zero. *)
Lemma hex_loop_value n v : 0 <= v < 16 ^ Z.of_nat (S n) →
  hex_value 0 (hex_loop (S n) false v) = Some v.
Proof.
  induction n as [|n IH]; intros Hv.
  - change (hex_loop 1 false v) with
      (if negb (Z.land (Z.shiftr v 0) 15 =? 0) || false || true
       then [hex_digit (Z.land (Z.shiftr v 0) 15)] else []).
    rewrite orb_true_r. change (16 ^ Z.of_nat 1) with 16 in Hv. cbn [hex_value].
    rewrite land15 by lia. rewrite Z.div_1_r, Z.mod_small by lia.
    rewrite hex_digit_value_of by lia. simpl. by destruct v.
  - change (hex_loop (S (S n)) false v) with
      (let digit := Z.land (Z.shiftr v (4 * Z.of_nat (S n))) 15 in
       if negb (digit =? 0) || false || (S n =? 0)%nat
       then hex_digit digit :: hex_loop (S n) true v else hex_loop (S n) false v).
    cbv zeta. rewrite land15 by lia.
    set (k := Z.of_nat (S n)) in *.
    assert (Hk : 2 ^ (4 * k) = 16 ^ k) by (rewrite Z.pow_mul_r by lia; done).
    rewrite Hk. rewrite Nat2Z.inj_succ, Z.pow_succ_r in Hv by lia. fold k in Hv.
    assert (Hp : 0 < 16 ^ k) by (apply Z.pow_pos_nonneg; lia).
    assert (Hlt : 0 <= v / 16 ^ k < 16).
    { split; [apply Z.div_pos; lia|]. apply Z.div_lt_upper_bound; lia. }
    rewrite (Z.mod_small _ 16) by done.
    pose proof (Z.div_mod v (16 ^ k) ltac:(lia)) as Hdm.
    destruct (Z.eqb_spec (v / 16 ^ k) 0) as [E|E]; cbn [negb orb Nat.eqb].
    + apply IH. fold k. pose proof (Z.mod_pos_bound v (16 ^ k) Hp). lia.
    + cbn [hex_value]. rewrite hex_digit_value_of by done. cbn [mbind option_bind].
      rewrite hex_loop_started by lia. fold k. f_equal. lia.
Qed.

Lemma hex_u64_inj v w : is_u64 v → is_u64 w → hex_u64 v = hex_u64 w → v = w.
Proof.
  intros Hv Hw E. unfold hex_u64 in E. apply (inj (app _)) in E.
  assert (Some v = Some w) as [=]; [|done].
  rewrite <-(hex_loop_value 15 v), <-(hex_loop_value 15 w), E; done.
Qed.

(** ** Decimal numbers *)

Lemma dec_value_snoc s : ∀ acc c,
  dec_value acc (s ++ [c]) = (a ← dec_value acc s; d ← digit_of c; Some (a * 10 + d)).
Proof.
  induction s as [|x s IH]; intros acc c; simpl; [by destruct (digit_of c)|].
  destruct (digit_of x); simpl; [apply IH|done].
Qed.

Lemma digit_of_digit d : 0 <= d <= 9 → digit_of (byte_of_Z (48 + d)) = Some d.
Proof.
  intros Hd. unfold digit_of, in_range. rewrite byte_to_of_Z, Z.mod_small by lia.
  destruct (Z.leb_spec 48 (48 + d)), (Z.leb_spec (48 + d) 57); cbn; try lia. f_equal. lia.
Qed.

Lemma decimal_loop_S n v : decimal_loop (S n) v =
  (if v <? 10 then [] else decimal_loop n (v / 10)) ++ [byte_of_Z (48 + v mod 10)].
Proof. done. Qed.

Lemma decimal_loop_value n v : 0 <= v < 10 ^ (Z.of_nat n + 1) →
  dec_value 0 (decimal_loop (S n) v) = Some v.
Proof.
  revert v. induction n as [|n IH]; intros v Hv; rewrite decimal_loop_S, dec_value_snoc;
    pose proof (Z.mod_pos_bound v 10 ltac:(lia)); rewrite digit_of_digit by lia.
  - destruct (Z.ltb_spec v 10); [|simpl in Hv; lia]. simpl. f_equal. rewrite Z.mod_small; lia.
  - pose proof (Z.div_mod v 10 ltac:(lia)). destruct (Z.ltb_spec v 10).
    + simpl. f_equal. rewrite Z.mod_small; lia.
    + rewrite IH; [simpl; f_equal; lia|]. split; [apply Z.div_pos; lia|].
      apply Z.div_lt_upper_bound; [lia|]. rewrite <-Z.pow_succ_r by lia.
      replace (Z.succ (Z.of_nat n + 1)) with (Z.of_nat (S n) + 1) by lia. lia.
Qed.

Lemma parse_decimal v : is_u64 v → decimal v ≠ [] ∧ parse_u64 (decimal v) = Ret v.
Proof.
  intros Hv. unfold is_u64 in Hv. assert (Hne : decimal v ≠ []).
  { unfold decimal. cbn [decimal_loop]. intros [_ ?]%app_eq_nil. done. }
  split; [done|]. unfold parse_u64. destruct (decimal v) as [|c r] eqn:E; [done|].
  apply parse_u64_loop_spec; [unfold u64_max; lia|]. rewrite <-E. split; [|unfold u64_max; lia].
  apply decimal_loop_value. lia.
Qed.

(** ** Round trips and totality *)
Module Text.
(** [parse_u64] accepts exactly the non-empty digit strings whose decimal
    value fits in 64 bits, and returns that value: no wrap-around. *)
Theorem parse_u64_exact (s : bytes) (v : Z) :
  parse_u64 s = Ret v ↔ s ≠ [] ∧ dec_value 0 s = Some v ∧ v <= u64_max.
Proof.
  unfold parse_u64. destruct s as [|c r]; [naive_solver|].
  rewrite parse_u64_loop_spec by (unfold u64_max; lia). naive_solver.
Qed.

(** [hex_u64] is faithful: ["0x"] followed by 1 to 16 digits that denote
    the value. *)
Theorem hex_u64_faithful (v : Z) : is_u64 v →
  ∃ ds, hex_u64 v = str "0x" ++ ds ∧ 1 <= zlen ds <= 16 ∧ hex_value 0 ds = Some v.
Proof.
  intros Hv. exists (hex_loop 16 false v). split; [done|]. split.
  - pose proof (hex_loop_length 16 false v).
    pose proof (hex_loop_nonempty 15 false v).
    unfold zlen. destruct (hex_loop 16 false v); [done|]. simpl in *. lia.
  - by apply hex_loop_value.
Qed.
End Text.
