(* ===== verification/Net.v ===== *)
(** * Sockets

    Models [include/sbf/net.hpp] and [src/net.cpp] on the side of a client: the
    textual form of an endpoint, the loops of [connect], [Socket::write_all] and
    [Socket::read_some].  The system calls are the interface [Kernel]; a send that
    would block is repeated with the same bytes, so [sys_send] stands for the
    first attempt that does not.  [Sockets] has the descriptors behind it. *)
From S2P Require Import Prelude Order Status Ids Text.
Open Scope Z_scope.

(** ** Endpoints *)

Record Endpoint := mkEndpoint { ep_host : bytes; ep_port : Z }.

Definition colon : byte := byte_of_Z 58.

(** [Endpoint::to_string]. *)
Definition endpoint_to_string (e : Endpoint) : bytes := ep_host e ++ [colon] ++ decimal (ep_port e).

(** [rfind]: what precedes the last occurrence of [c] and what follows it. *)
Fixpoint split_last (c : byte) (s : bytes) : option (bytes * bytes) :=
  match s with
  | [] => None
  | x :: r =>
      match split_last c r with
      | Some (a, b) => Some (x :: a, b)
      | None => if bool_decide (x = c) then Some ([], r) else None
      end
  end.

(** [Endpoint::parse]: a refusal leaves the output alone. *)
Definition endpoint_parse (text : bytes) : result Endpoint :=
  match split_last colon text with
  | None => Err (fail0 Outcome.Invalid Reason.ValueOutOfRange)
  | Some (host, port) =>
      if id_empty host || id_empty port then Err (fail0 Outcome.Invalid Reason.ValueOutOfRange)
      else
        let* p := parse_u64 port in
        if (p =? 0) || (65535 <? p) then Err (mkStatus Outcome.Invalid Reason.ValueOutOfRange p)
        else Ret (mkEndpoint host p)
  end.

(** ** System calls *)

(** [rc] and [errno] of a call. *)
Inductive Sent := SentResult (rc errno : Z).
Inductive Received := ReceivedBytes (data : bytes) | ReceiveFailed (errno : Z).

(** What the process sees of the network: whether [initialize] succeeds, the
    addresses of an endpoint, and the calls on the one socket a client owns. *)
Class Kernel (K : Type) := {
  sys_up : K → bool;
  sys_resolve : Endpoint → K → list Z;
  sys_dial : Z → K → K * bool;
  sys_send : bytes → K → K * Sent;
  sys_recv : Z → K → K * Received;
  sys_hangup : K → K
}.

(** The largest buffer handed to a call. *)
Definition kMaxCall : Z := 1048576.

Section net.
Context {K : Type} `{Kernel K}.

(** The loop over the addresses of [connect]. *)
Fixpoint dial_first (candidates : list Z) (k : K) : K * Status :=
  match candidates with
  | [] => (k, fail0 Outcome.Unreachable Reason.DependencyUnreachable)
  | a :: candidates =>
      let (k, ok) := sys_dial a k in
      if ok then (k, status_ok) else dial_first candidates k
  end.

Definition net_connect (e : Endpoint) (k : K) : K * Status :=
  if negb (sys_up k) then (k, fail0 Outcome.Unsupported Reason.ResourceExhausted)
  else dial_first (sys_resolve e k) k.

(** [int chunk = min(bytes.size() - sent, 1 << 20)]. *)
Definition call_size (n : Z) : nat := Z.to_nat (Z.min n kMaxCall).

(** The loop of [write_all]; each turn that goes on has sent a byte. *)
Fixpoint write_loop (fuel : nat) (bs : bytes) (k : K) : K * Status :=
  match fuel, bs with
  | S fuel, _ :: _ =>
      let '(k, SentResult rc errno) := sys_send (take (call_size (zlen bs)) bs) k in
      if rc <=? 0 then (k, mkStatus Outcome.Unreachable Reason.ConnectionClosed (u64 errno))
      else write_loop fuel (drop (Z.to_nat rc) bs) k
  | _, _ => (k, status_ok)
  end.

Definition write_all (valid : bool) (bs : bytes) (k : K) : K * Status :=
  if negb valid then (k, fail0 Outcome.Closed Reason.ConnectionClosed)
  else write_loop (length bs) bs k.

(** [read_some]: no byte is an orderly close. *)
Definition read_some (valid : bool) (max : Z) (k : K) : K * result bytes :=
  if negb valid then (k, Err (fail0 Outcome.Closed Reason.ConnectionClosed))
  else if max =? 0 then (k, Ret [])
  else
    match sys_recv (Z.min max kMaxCall) k with
    | (k, ReceivedBytes data) => (k, Ret data)
    | (k, ReceiveFailed errno) =>
        (k, Err (mkStatus Outcome.Unreachable Reason.ConnectionClosed (u64 errno)))
    end.

(** ** The loops end by themselves *)

Lemma write_loop_fuel n m bs k : (length bs <= n)%nat → (length bs <= m)%nat →
  write_loop n bs k = write_loop m bs k.
Proof.
  revert m bs k. induction n as [|n IH]; intros m bs k Hn Hm.
  { destruct bs; [|simpl in Hn; lia]. by destruct m. }
  destruct bs as [|x bs]; [by destruct m|]. destruct m as [|m]; [simpl in Hm; lia|].
  cbn [write_loop]. destruct (sys_send _ k) as [k' [rc errno]].
  destruct (Z.leb_spec rc 0); [done|].
  apply IH; rewrite length_drop; simpl in *; lia.
Qed.
End net.

(** ** A kernel that takes everything *)

(** A send that accepts its whole argument. *)
Lemma write_all_whole {K} `{Kernel K} bs (k k' : K) : bs ≠ [] → zlen bs <= kMaxCall →
  sys_send bs k = (k', SentResult (zlen bs) 0) → write_all true bs k = (k', status_ok).
Proof.
  intros Hne Hl E. unfold write_all. cbn [negb]. destruct bs as [|x bs]; [done|].
  cbn [length write_loop]. assert (Et : take (call_size (zlen (x :: bs))) (x :: bs) = x :: bs).
  { apply take_ge. unfold call_size. rewrite Z.min_l by done. unfold zlen. lia. }
  rewrite Et, E. destruct (Z.leb_spec (zlen (x :: bs)) 0); [unfold zlen in *; simpl in *; lia|].
  rewrite drop_ge by (unfold zlen; lia). by destruct (length bs).
Qed.

Module Endpoints.

Lemma split_last_app c a b : c ∉ b → split_last c (a ++ c :: b) = Some (a, b).
Proof.
  intros Hc. assert (Hb : split_last c b = None).
  { clear a. induction b as [|x b IH]; [done|]. simpl. apply not_elem_of_cons in Hc as [Hx Hb].
    rewrite IH by done. by rewrite bool_decide_false. }
  induction a as [|x a IH]; simpl; [by rewrite Hb, bool_decide_true|]. by rewrite IH.
Qed.

Lemma split_last_Some c s a b : split_last c s = Some (a, b) → s = a ++ c :: b.
Proof.
  revert a. induction s as [|x s IH]; simpl; intros a E; [done|].
  destruct (split_last c s) as [[a' b']|]; [injection E as <- <-; by rewrite (IH a')|].
  case_bool_decide; [|done]. by injection E as <- <-; subst.
Qed.

Lemma digits_no_colon s acc v : dec_value acc s = Some v → colon ∉ s.
Proof.
  revert acc. induction s as [|x s IH]; intros acc E; [apply not_elem_of_nil|].
  simpl in E. destruct (digit_of x) as [d|] eqn:Ed; [|done]. apply not_elem_of_cons.
  split; [|by eapply IH]. intros <-. by vm_compute in Ed.
Qed.

(** The textual form of an endpoint is read back exactly, and whatever is read is
    a non-empty host and a port in range; a host may hold colons of its own. *)
Theorem endpoint_exact (e : Endpoint) (text : bytes) :
  (ep_host e ≠ [] → 1 <= ep_port e <= 65535 → endpoint_parse (endpoint_to_string e) = Ret e) ∧
  (endpoint_parse text = Ret e → ep_host e ≠ [] ∧ 1 <= ep_port e <= 65535 ∧
     ∃ digits, text = ep_host e ++ colon :: digits ∧ dec_value 0 digits = Some (ep_port e)).
Proof.
  split.
  - intros Hh Hp. destruct (parse_decimal (ep_port e)) as [Hne Hd]; [unfold is_u64; lia|].
    unfold endpoint_parse, endpoint_to_string. cbn [app].
    pose proof Hd as (_ & Hv & _)%Text.parse_u64_exact.
    rewrite split_last_app by by eapply digits_no_colon.
    destruct e as [[|c h] p]; [done|]. cbn [ep_host ep_port id_empty orb] in *.
    destruct (decimal p) eqn:Ed; [done|]. cbn [id_empty]. rewrite Hd. cbn.
    by destruct (Z.eqb_spec p 0), (Z.ltb_spec 65535 p); [lia..|].
  - unfold endpoint_parse. destruct (split_last colon text) as [[h d]|] eqn:Es; [|done].
    apply split_last_Some in Es. destruct (id_empty h || id_empty d) eqn:Ee; [done|].
    apply orb_false_iff in Ee as [Eh _]. destruct (parse_u64 d) as [p|] eqn:Ep; [|done].
    apply Text.parse_u64_exact in Ep as (_ & Hv & _). cbn.
    destruct (Z.eqb_spec p 0), (Z.ltb_spec 65535 p); try done. intros [= <-]. cbn.
    assert (0 <= p) by by eapply dec_value_ge.
    split_and!; [by destruct h|lia|lia|by exists d].
Qed.
End Endpoints.
