(* ===== verification/Sockets.v ===== *)
(** * Descriptors and their owners

    Models the rest of [include/sbf/net.hpp] and [src/net.cpp] (the POSIX half):
    [Socket] as the owner of a descriptor, [Listener], [connect] and the
    process-wide initialisation, over the calls of the system as the class [System];
    what is documented of descriptors is the class [Descriptors].  [client_kernel]
    is the [Kernel] of [Net] that these operations implement.  Operations are run
    one after the other; what another thread may do to a listener while [accept]
    waits is the value its flag has when the call returns.  A descriptor of 1024 or
    more is outside [fd_set]: what [select] then says is left to [sy_select]. *)
From S2P Require Import Prelude Order Status Ids Text Net.
Open Scope Z_scope.

(** ** The calls of the system *)

Inductive SocketOption : Set := NoDelay | ReuseAddress.

(** An address list that is empty stands for a [getaddrinfo] that fails; as in
    [Net], [sy_write] is the first attempt that does not block. *)
Class System (K : Type) := {
  sy_resolve : Endpoint → bool → K → list Z;
  sy_socket : Z → K → K * option Z;
  sy_bind : Z → Z → K → K * bool;
  sy_listen : Z → Z → K → K * bool;
  sy_name : Z → K → option Z;
  sy_accept : Z → K → K * option Z;
  sy_connect : Z → Z → K → K * bool;
  sy_shut : Z → K → K;
  sy_close : Z → K → K;
  sy_option : Z → SocketOption → bool → K → K * bool;
  sy_select : Z → Z → Z → K → K * (Z * bool);
  sy_write : Z → bytes → K → K * Sent;
  sy_read : Z → Z → K → K * Received;
  sy_errno : K → Z
}.

(** The process: the system, and [g_init_once] with [g_initialised]. *)
Record Process (K : Type) := mkProcess { pr_sys : K; pr_once : bool; pr_up : bool }.
#[global] Arguments mkProcess {_} _ _ _.
#[global] Arguments pr_sys {_} _.
#[global] Arguments pr_once {_} _.
#[global] Arguments pr_up {_} _.

(** A default constructed or closed socket. *)
Definition no_handle : Z := -1.

(** [class Listener]. *)
Record Listener := mkListener {
  ls_socket : Z;
  ls_endpoint : Endpoint;
  ls_port : Z;
  ls_stopping : bool
}.

Definition listener0 : Listener := mkListener no_handle (mkEndpoint (str "127.0.0.1") 0) 0 false.

Section sockets.
Context {K : Type} `{System K}.

Definition with_sys (k : K) (p : Process K) : Process K := mkProcess k (pr_once p) (pr_up p).

(** [initialize]: the flag is set once, and not again after [shutdown]. *)
Definition initialize (p : Process K) : Process K * Status :=
  let up := if pr_once p then pr_up p else true in
  (mkProcess (pr_sys p) true up,
   if negb up then fail0 Outcome.Unsupported Reason.ResourceExhausted else status_ok).

Definition net_shutdown (p : Process K) : Process K := mkProcess (pr_sys p) (pr_once p) false.

Definition last_error_text (k : K) : bytes := str "socket error " ++ hex_u64 (u64 (sy_errno k)).

(** ** [class Socket] *)

Definition socket_valid (h : Z) : bool := negb (h =? no_handle).

(** The handle given away, and what is left. *)
Definition socket_release (h : Z) : Z * Z := (h, no_handle).

Definition socket_close (h : Z) (k : K) : K * Z :=
  if h =? no_handle then (k, h) else (sy_close h k, no_handle).

Definition socket_shutdown (h : Z) (k : K) : K := if h =? no_handle then k else sy_shut h k.

(** [operator=] between two sockets: the target, then the source. *)
Definition socket_assign (target source : Z) (k : K) : K * Z * Z :=
  let (k, _) := socket_close target k in (k, source, no_handle).

Definition set_option (o : SocketOption) (h : Z) (enabled : bool) (k : K) : K * bool :=
  if h =? no_handle then (k, false) else sy_option h o enabled k.

Definition wait_readable (h milliseconds : Z) (k : K) : K * bool * Status :=
  if h =? no_handle then (k, false, fail0 Outcome.Closed Reason.ConnectionClosed)
  else
    let '(k, (rc, isset)) :=
      sy_select h (milliseconds / 1000) (u32 (milliseconds mod 1000 * 1000)) k in
    if rc <? 0
    then (k, false, mkStatus Outcome.Unreachable Reason.ConnectionClosed (u64 (sy_errno k)))
    else (k, (0 <? rc) && isset, status_ok).

(** ** [connect] *)

(** One address: the socket is assigned to [out], or closed. *)
Definition dial (candidate out : Z) (k : K) : K * Z * bool :=
  match sy_socket candidate k with
  | (k, None) => (k, out, false)
  | (k, Some h) =>
      let (k, ok) := sy_connect h candidate k in
      if negb ok then ((socket_close h k).1, out, false)
      else
        let (k, _) := set_option NoDelay h true k in
        let '(k, out, _) := socket_assign out h k in (k, out, true)
  end.

Fixpoint dial_any (candidates : list Z) (out : Z) (k : K) : K * Z * Status :=
  match candidates with
  | [] => (k, out, fail0 Outcome.Unreachable Reason.DependencyUnreachable)
  | a :: candidates =>
      let '(k, out, ok) := dial a out k in
      if ok then (k, out, status_ok) else dial_any candidates out k
  end.

Definition connect (e : Endpoint) (out : Z) (p : Process K) : Process K * Z * Status :=
  let (p, st) := initialize p in
  if negb (is_ok st) then (p, out, st)
  else
    let '(k, out, st) := dial_any (sy_resolve e false (pr_sys p)) out (pr_sys p) in
    (with_sys k p, out, st).

(** ** [class Listener] *)

(** The loop of [listen]: the first address that binds and listens. *)
Fixpoint bind_any (candidates : list Z) (backlog : Z) (k : K) : K * option Z :=
  match candidates with
  | [] => (k, None)
  | a :: candidates =>
      match sy_socket a k with
      | (k, None) => bind_any candidates backlog k
      | (k, Some h) =>
          let (k, _) := set_option ReuseAddress h true k in
          let (k, bound) := sy_bind h a k in
          if negb bound then bind_any candidates backlog (socket_close h k).1
          else
            let (k, ok) := sy_listen h backlog k in
            if negb ok then bind_any candidates backlog (socket_close h k).1 else (k, Some h)
      end
  end.

Definition listener_listen (e : Endpoint) (backlog : Z) (out : Listener) (p : Process K)
  : Process K * Listener * Status :=
  let (p, st) := initialize p in
  if negb (is_ok st) then (p, out, st)
  else
    match bind_any (sy_resolve e true (pr_sys p)) backlog (pr_sys p) with
    | (k, None) => (with_sys k p, out, fail0 Outcome.Unreachable Reason.DependencyUnreachable)
    | (k, Some h) =>
        let port := default (ep_port e) (sy_name h k) in
        let '(k, socket, _) := socket_assign (ls_socket out) h k in
        (with_sys k p, mkListener socket (mkEndpoint (ep_host e) port) port false, status_ok)
    end.

(** [stopping] is the flag at the time the call of the system returns. *)
Definition listener_accept (l : Listener) (stopping : bool) (out : Z) (k : K) : K * Z * Status :=
  if negb (socket_valid (ls_socket l)) then (k, out, fail0 Outcome.Closed Reason.ConnectionClosed)
  else
    match sy_accept (ls_socket l) k with
    | (k, None) =>
        (k, out, if stopping then fail0 Outcome.Closed Reason.ShutdownInProgress
                 else mkStatus Outcome.Unreachable Reason.ConnectionClosed (u64 (sy_errno k)))
    | (k, Some h) =>
        if stopping then (sy_close h k, out, fail0 Outcome.Closed Reason.ShutdownInProgress)
        else
          let (k, _) := set_option NoDelay h true k in
          let '(k, out, _) := socket_assign out h k in (k, out, status_ok)
    end.

Definition listener_stop (l : Listener) (p : Process K) : Process K * Listener :=
  if negb (socket_valid (ls_socket l)) then (p, l)
  else if ls_stopping l then (p, l)
  else
    let p := with_sys (socket_shutdown (ls_socket l) (pr_sys p)) p in
    let '(p, probe, st) := connect (ls_endpoint l) no_handle p in
    let (k, probe) := if is_ok st then socket_close probe (pr_sys p) else (pr_sys p, probe) in
    let (k, _) := socket_close probe k in
    let (k, socket) := socket_close (ls_socket l) k in
    (with_sys k p, mkListener socket (ls_endpoint l) (ls_port l) true).

(** [operator=] between two listeners: the target, then the source. *)
Definition listener_assign (target source : Listener) (p : Process K)
  : Process K * Listener * Listener :=
  let (p, target) := listener_stop target p in
  let '(k, socket, rest) := socket_assign (ls_socket target) (ls_socket source) (pr_sys p) in
  (with_sys k p, mkListener socket (ls_endpoint source) (ls_port source) (ls_stopping source),
   mkListener rest (ls_endpoint source) 0 (ls_stopping source)).

(** [~Listener], then the destructor of its socket. *)
Definition listener_destroy (l : Listener) (p : Process K) : Process K :=
  let (p, l) := listener_stop l p in
  with_sys (socket_close (ls_socket l) (pr_sys p)).1 p.

(** ** The interface of the clients *)

(** The [Kernel] of a client: its process and the handle of its socket. *)
Definition client_kernel : Kernel (Process K * Z) := {|
  sys_up := λ c, is_ok (initialize c.1).2;
  sys_resolve := λ e c, sy_resolve e false (pr_sys c.1);
  sys_dial := λ a c, let '(k, h, ok) := dial a c.2 (pr_sys c.1) in ((with_sys k c.1, h), ok);
  sys_send := λ bs c, let (k, r) := sy_write c.2 bs (pr_sys c.1) in ((with_sys k c.1, c.2), r);
  sys_recv := λ n c, let (k, r) := sy_read c.2 n (pr_sys c.1) in ((with_sys k c.1, c.2), r);
  sys_hangup := λ c,
    let (k, h) := socket_close c.2 (socket_shutdown c.2 (pr_sys c.1)) in (with_sys k c.1, h)
|}.

Definition socket_write (h : Z) (bs : bytes) (p : Process K) : Process K * Status :=
  let '((p, _), st) := @write_all _ client_kernel (socket_valid h) bs (p, h) in (p, st).

Definition socket_read (h max : Z) (p : Process K) : Process K * result bytes :=
  let '((p, _), r) := @read_some _ client_kernel (socket_valid h) max (p, h) in (p, r).

(** ** The objects of a process *)

(** A socket, a listener, or a handle that was released to the caller. *)
Inductive Object := OSocket (h : Z) | OListener (l : Listener) | OHandle (h : Z).

Definition handle_of (o : Object) : Z :=
  match o with OSocket h => h | OListener l => ls_socket l | OHandle h => h end.

Record Machine := mkMachine { mc_process : Process K; mc_objects : gmap nat Object }.

(** What a program does with its objects, by name. *)
Inductive Act :=
  | NewSocket (i : nat)
  | NewListener (i : nat)
  | Connect (i : nat) (e : Endpoint)
  | Listen (i : nat) (e : Endpoint) (backlog : Z)
  | Accept (l i : nat) (stopping : bool)
  | Stop (l : nat)
  | Close (i : nat)
  | ShutDown (i : nat)
  | SetOption (i : nat) (o : SocketOption) (enabled : bool)
  | WaitReadable (i : nat) (milliseconds : Z)
  | Write (i : nat) (bs : bytes)
  | Read (i : nat) (max : Z)
  | Move (target source : nat)
  | ReleaseTo (i j : nat)
  | Adopt (i : nat)
  | Destroy (i : nat)
  | Initialize
  | NetShutdown.

Definition put (p : Process K) (i : nat) (o : Object) (m : Machine) : Machine :=
  mkMachine p (<[i := o]> (mc_objects m)).

(** A new object needs a name that is free. *)
Definition create (i : nat) (o : Object) (m : Machine) : Machine :=
  match mc_objects m !! i with None => put (mc_process m) i o m | Some _ => m end.

(** An operation of a socket: its handle may change. *)
Definition on_socket (i : nat) (f : Z → Process K → Process K * Z) (m : Machine) : Machine :=
  match mc_objects m !! i with
  | Some (OSocket h) => let (p, h) := f h (mc_process m) in put p i (OSocket h) m
  | _ => m
  end.

(** An operation that leaves the handle alone. *)
Definition with_handle (i : nat) (f : Z → K → K) : Machine → Machine :=
  on_socket i (λ h p, (with_sys (f h (pr_sys p)) p, h)).

Definition on_listener (i : nat) (f : Listener → Process K → Process K * Listener) (m : Machine)
  : Machine :=
  match mc_objects m !! i with
  | Some (OListener l) => let (p, l) := f l (mc_process m) in put p i (OListener l) m
  | _ => m
  end.

Definition move_object (i j : nat) (m : Machine) : Machine :=
  let p := mc_process m in
  if Nat.eqb i j then m
  else
    match mc_objects m !! i, mc_objects m !! j with
    | Some (OSocket target), Some (OSocket source) =>
        let '(k, h, h') := socket_assign target source (pr_sys p) in
        put (with_sys k p) i (OSocket h) (put p j (OSocket h') m)
    | Some (OListener target), Some (OListener source) =>
        let '(p, l, l') := listener_assign target source p in
        put p i (OListener l) (put p j (OListener l') m)
    | _, _ => m
    end.

Definition destroy (i : nat) (m : Machine) : Machine :=
  let p := mc_process m in
  match mc_objects m !! i with
  | Some (OSocket h) => mkMachine (with_sys (socket_close h (pr_sys p)).1 p) (delete i (mc_objects m))
  | Some (OListener l) => mkMachine (listener_destroy l p) (delete i (mc_objects m))
  | _ => m
  end.

Definition act (a : Act) (m : Machine) : Machine :=
  match a with
  | NewSocket i => create i (OSocket no_handle) m
  | NewListener i => create i (OListener listener0) m
  | Connect i e => on_socket i (λ h p, (connect e h p).1) m
  | Listen i e backlog => on_listener i (λ l p, (listener_listen e backlog l p).1) m
  | Accept l i stopping =>
      match mc_objects m !! l with
      | Some (OListener l) =>
          on_socket i (λ h p,
            let '(k, h, _) := listener_accept l stopping h (pr_sys p) in (with_sys k p, h)) m
      | _ => m
      end
  | Stop l => on_listener l listener_stop m
  | Close i => on_socket i (λ h p, let (k, h) := socket_close h (pr_sys p) in (with_sys k p, h)) m
  | ShutDown i => with_handle i socket_shutdown m
  | SetOption i o enabled => with_handle i (λ h k, (set_option o h enabled k).1) m
  | WaitReadable i ms => with_handle i (λ h k, (wait_readable h ms k).1.1) m
  | Write i bs => on_socket i (λ h p, ((socket_write h bs p).1, h)) m
  | Read i max => on_socket i (λ h p, ((socket_read h max p).1, h)) m
  | Move i j => move_object i j m
  | ReleaseTo i j =>
      match mc_objects m !! i, mc_objects m !! j with
      | Some (OSocket h), None =>
          let (given, kept) := socket_release h in
          put (mc_process m) j (OHandle given) (put (mc_process m) i (OSocket kept) m)
      | _, _ => m
      end
  | Adopt i =>
      match mc_objects m !! i with
      | Some (OHandle h) => put (mc_process m) i (OSocket h) m
      | _ => m
      end
  | Destroy i => destroy i m
  | Initialize => mkMachine (initialize (mc_process m)).1 (mc_objects m)
  | NetShutdown => mkMachine (net_shutdown (mc_process m)) (mc_objects m)
  end.

Definition acts (l : list Act) (m : Machine) : Machine := foldl (λ m a, act a m) m l.
End sockets.

(** ** What is documented of descriptors *)

Section laws.
Context {K : Type} (held : K → gset Z) (misused : K → bool).

(** A call on an open descriptor opens and closes none and is no misuse. *)
Definition quiet (k k' : K) : Prop := held k' = held k ∧ misused k' = misused k.

(** A call that returns a descriptor returns one that was not open. *)
Definition opens (k k' : K) (r : option Z) : Prop :=
  misused k' = misused k ∧
  match r with
  | None => held k' = held k
  | Some h => 0 <= h ∧ h ∉ held k ∧ held k' = {[h]} ∪ held k
  end.
End laws.

(** The descriptors that are open, and whether a call was ever made on one that was
    not, a second close included. *)
Class Descriptors (K : Type) `{System K} := {
  held : K → gset Z;
  misused : K → bool;
  socket_law a k : opens held misused k (sy_socket a k).1 (sy_socket a k).2;
  accept_law h k : h ∈ held k → opens held misused k (sy_accept h k).1 (sy_accept h k).2;
  close_law h k : h ∈ held k →
    held (sy_close h k) = held k ∖ {[h]} ∧ misused (sy_close h k) = misused k;
  bind_law h a k : h ∈ held k → quiet held misused k (sy_bind h a k).1;
  listen_law h n k : h ∈ held k → quiet held misused k (sy_listen h n k).1;
  connect_law h a k : h ∈ held k → quiet held misused k (sy_connect h a k).1;
  shut_law h k : h ∈ held k → quiet held misused k (sy_shut h k);
  option_law h o b k : h ∈ held k → quiet held misused k (sy_option h o b k).1;
  select_law h s u k : h ∈ held k → quiet held misused k (sy_select h s u k).1;
  write_law h bs k : h ∈ held k → quiet held misused k (sy_write h bs k).1;
  read_law h n k : h ∈ held k → quiet held misused k (sy_read h n k).1
}.

Section ownership.
Context {K : Type} `{Descriptors K} (base : gset Z).

(** Beside the descriptors [base] of others, exactly those of [S] are open. *)
Definition owns (S : gset Z) (k : K) : Prop :=
  held k = base ∪ S ∧ base ## S ∧ misused k = false ∧ ∀ h, h ∈ S → 0 <= h.

(** A handle of the program: none, or an owned descriptor. *)
Definition handle_ok (S : gset Z) (h : Z) : Prop := h = no_handle ∨ h ∈ S.

(** What happened to an owned handle: kept, closed, or replaced by a new one. *)
Definition moved (S S' : gset Z) (h h' : Z) : Prop :=
  (h' = h ∧ S' = S) ∨ (h' = no_handle ∧ S' = S ∖ {[h]}) ∨
  (h' ∉ S ∧ h' ≠ no_handle ∧ S' = {[h']} ∪ S ∖ {[h]}).

Lemma owns_held S k h : owns S k → h ∈ S → h ∈ held k.
Proof. intros (-> & _) ?. set_solver. Qed.

Lemma owns_no_handle S k : owns S k → no_handle ∉ S.
Proof. intros (_ & _ & _ & Hp) Hn%Hp. unfold no_handle in Hn. lia. Qed.

Lemma owns_quiet S k k' : owns S k → quiet held misused k k' → owns S k'.
Proof. intros (E & ? & ? & ?) [E1 E2]. split_and!; [congruence|done|congruence|done]. Qed.

Lemma owns_opens_none S k k' : owns S k → opens held misused k k' None → owns S k'.
Proof. intros Ho [? ?]. by eapply owns_quiet. Qed.

Lemma owns_opens S k k' h : owns S k → opens held misused k k' (Some h) →
  owns ({[h]} ∪ S) k' ∧ h ∉ S ∧ h ≠ no_handle.
Proof.
  intros (E & Hd & Hm & Hp) (Em & Hh & Hn & Eh). rewrite E in *. unfold no_handle.
  split_and!; [|set_solver|lia]. split_and!; [rewrite Eh; set_solver|set_solver|congruence|].
  intros x [->%elem_of_singleton|?%Hp]%elem_of_union; done.
Qed.

Lemma owns_closes S k h : owns S k → h ∈ S → owns (S ∖ {[h]}) (sy_close h k).
Proof.
  intros Ho Hh. destruct (close_law h k) as [E1 E2]; [by eapply owns_held|].
  destruct Ho as (E & Hd & Hm & Hp). split_and!; [rewrite E1, E; set_solver|set_solver|congruence|].
  intros x Hx. apply Hp. set_solver.
Qed.

Lemma owns_close S k h : owns S k → handle_ok S h →
  owns (S ∖ {[h]}) (socket_close h k).1 ∧ (socket_close h k).2 = no_handle.
Proof.
  intros Ho Hh. pose proof (owns_no_handle _ _ Ho) as Hn. unfold socket_close.
  destruct (Z.eqb_spec h no_handle) as [->|Hne]; cbn [fst snd].
  - split; [|done]. by replace (S ∖ {[no_handle]}) with S by set_solver.
  - destruct Hh as [?|Hh]; [done|]. split; [by apply owns_closes|done].
Qed.

Lemma moved_same S h : moved S S h h.
Proof. by left. Qed.

(** A handle that was just opened goes to a socket, whose old one is closed. *)
Lemma owns_assign_new S k h out : owns ({[h]} ∪ S) k → h ∉ S → h ≠ no_handle → handle_ok S out →
  ∃ k' S', socket_assign out h k = (k', h, no_handle) ∧ moved S S' out h ∧ owns S' k'.
Proof.
  intros Ho Hn Hh Hout. destruct (owns_close ({[h]} ∪ S) k out Ho) as [Hc _].
  { destruct Hout; [by left|right; set_solver]. }
  unfold socket_assign. destruct (socket_close out k) as [k' h']. cbn [fst] in Hc.
  assert (Hne : h ≠ out) by (destruct Hout; congruence).
  eexists k', _. split; [done|]. split; [right; right; split_and!; [done|done|reflexivity]|].
  by replace ({[h]} ∪ S ∖ {[out]}) with (({[h]} ∪ S) ∖ {[out]}) by set_solver.
Qed.

(** What was just opened is closed again. *)
Lemma owns_close_new S k h : owns ({[h]} ∪ S) k → h ∉ S → owns S (socket_close h k).1.
Proof.
  intros Ho Hn. destruct (owns_close _ _ h Ho) as [Hc _]; [right; set_solver|].
  by replace S with (({[h]} ∪ S) ∖ {[h]}) by set_solver.
Qed.

(** ** Operations of a socket *)

Lemma owns_option S k o h b : owns S k → handle_ok S h → owns S (set_option o h b k).1.
Proof.
  intros Ho Hh. unfold set_option. destruct (Z.eqb_spec h no_handle); [done|].
  destruct Hh; [done|]. by eapply owns_quiet, option_law, owns_held.
Qed.

Lemma owns_shutdown S k h : owns S k → handle_ok S h → owns S (socket_shutdown h k).
Proof.
  intros Ho Hh. unfold socket_shutdown. destruct (Z.eqb_spec h no_handle); [done|].
  destruct Hh; [done|]. by eapply owns_quiet, shut_law, owns_held.
Qed.

Lemma owns_wait S k h ms : owns S k → handle_ok S h → owns S (wait_readable h ms k).1.1.
Proof.
  intros Ho Hh. unfold wait_readable. destruct (Z.eqb_spec h no_handle); [done|].
  destruct Hh as [?|Hh]; [done|].
  pose proof (select_law h (ms / 1000) (u32 (ms mod 1000 * 1000)) k (owns_held _ _ _ Ho Hh)) as Hq.
  destruct (sy_select _ _ _ _) as [k' [rc isset]]. cbn [fst] in Hq.
  assert (owns S k') by by eapply owns_quiet. by destruct (rc <? 0).
Qed.

Lemma owns_write_loop S h fuel : h ∈ S → ∀ bs p, owns S (pr_sys p) →
  owns S (pr_sys (@write_loop _ client_kernel fuel bs (p, h)).1.1).
Proof.
  intros Hh. induction fuel as [|fuel IH]; intros bs p Ho; [done|]. destruct bs as [|b bs]; [done|].
  cbn [write_loop]. set (chunk := take _ _). cbn [sys_send client_kernel fst snd].
  pose proof (write_law h chunk (pr_sys p) (owns_held _ _ _ Ho Hh)) as Hq.
  destruct (sy_write _ _ _) as [k' [rc errno]]. cbn [fst] in Hq.
  assert (owns S k') by by eapply owns_quiet. destruct (rc <=? 0); [done|]. by apply IH.
Qed.

Lemma owns_write S h bs p : owns S (pr_sys p) → handle_ok S h → owns S (pr_sys (socket_write h bs p).1).
Proof.
  intros Ho Hh. unfold socket_write, write_all, socket_valid. destruct (Z.eqb_spec h no_handle); [done|].
  destruct Hh as [?|Hh]; [done|]. cbn [negb].
  pose proof (owns_write_loop S h (length bs) Hh bs p Ho) as Hw. by destruct (write_loop _ _ _) as [[p' h'] st].
Qed.

Lemma owns_read S h n p : owns S (pr_sys p) → handle_ok S h → owns S (pr_sys (socket_read h n p).1).
Proof.
  intros Ho Hh. unfold socket_read, read_some, socket_valid. destruct (Z.eqb_spec h no_handle); [done|].
  destruct Hh as [?|Hh]; [done|]. cbn [negb]. destruct (n =? 0); [done|]. cbn [sys_recv client_kernel fst snd].
  pose proof (read_law h (Z.min n kMaxCall) (pr_sys p) (owns_held _ _ _ Ho Hh)) as Hq.
  destruct (sy_read _ _ _) as [k' [data|errno]]; by eapply owns_quiet.
Qed.

(** ** [connect], [listen], [accept] *)

Lemma owns_dial S a out k k' out' ok : owns S k → handle_ok S out → dial a out k = (k', out', ok) →
  ∃ S', moved S S' out out' ∧ owns S' k' ∧ (ok = false → out' = out ∧ S' = S).
Proof.
  intros Ho Hout. unfold dial. pose proof (socket_law a k) as Hs.
  destruct (sy_socket a k) as [k1 [h|]]; cbn [fst snd] in Hs.
  2: { intros [= <- <- <-]. exists S. split; [apply moved_same|]. split; [by eapply owns_opens_none|done]. }
  destruct (owns_opens _ _ _ _ Ho Hs) as (Ho1 & Hn & Hh).
  assert (Hin : h ∈ {[h]} ∪ S) by set_solver.
  pose proof (connect_law h a k1 (owns_held _ _ _ Ho1 Hin)) as Hq.
  destruct (sy_connect h a k1) as [k2 done_]. cbn [fst] in Hq. apply (owns_quiet _ _ _ Ho1) in Hq.
  destruct done_; cbn [negb].
  - pose proof (owns_option _ _ NoDelay h true Hq (or_intror Hin)) as Hq3.
    destruct (set_option _ _ _ _) as [k3 b]. cbn [fst] in Hq3.
    destruct (owns_assign_new S k3 h out Hq3 Hn Hh Hout) as (k4 & S' & -> & Hm & Ho4).
    intros [= <- <- <-]. by exists S'.
  - intros [= <- <- <-]. exists S. split; [apply moved_same|]. split; [by apply owns_close_new|done].
Qed.

Lemma owns_dial_any S l out : handle_ok S out → ∀ k k' out' st, owns S k →
  dial_any l out k = (k', out', st) →
  ∃ S', moved S S' out out' ∧ owns S' k' ∧ (is_ok st = false → out' = out ∧ S' = S).
Proof.
  intros Hout. induction l as [|a l IH]; intros k k' out' st Ho; cbn [dial_any].
  { intros [= <- <- <-]. exists S. split; [apply moved_same|done]. }
  destruct (dial a out k) as [[k1 out1] ok] eqn:E.
  destruct (owns_dial _ _ _ _ _ _ _ Ho Hout E) as (S1 & Hm & Ho1 & Hf). destruct ok.
  - intros [= <- <- <-]. by exists S1.
  - destruct Hf as [-> ->]; [done|]. by apply IH.
Qed.

Lemma owns_connect S e out p p' out' st : owns S (pr_sys p) → handle_ok S out →
  connect e out p = (p', out', st) →
  ∃ S', moved S S' out out' ∧ owns S' (pr_sys p') ∧ (is_ok st = false → out' = out ∧ S' = S).
Proof.
  intros Ho Hout. unfold connect, initialize. set (up := if pr_once p then _ else _).
  destruct up; cbn [negb is_ok].
  2: { intros [= <- <- <-]. exists S. split; [apply moved_same|done]. }
  change (is_ok status_ok) with true. cbn [negb pr_sys].
  destruct (dial_any _ _ _) as [[k out1] st1] eqn:E. intros [= <- <- <-].
  by apply (owns_dial_any S _ _ Hout _ _ _ _ Ho E).
Qed.

Lemma owns_bind_any S l n : ∀ k k' r, owns S k → bind_any l n k = (k', r) →
  match r with Some h => owns ({[h]} ∪ S) k' ∧ h ∉ S ∧ h ≠ no_handle | None => owns S k' end.
Proof.
  induction l as [|a l IH]; intros k k' r Ho; cbn [bind_any]; [by intros [= <- <-]|].
  pose proof (socket_law a k) as Hs. destruct (sy_socket a k) as [k1 [h|]]; cbn [fst snd] in Hs.
  2: { apply IH. by eapply owns_opens_none. }
  destruct (owns_opens _ _ _ _ Ho Hs) as (Ho1 & Hn & Hh).
  assert (Hin : h ∈ {[h]} ∪ S) by set_solver.
  pose proof (owns_option _ _ ReuseAddress h true Ho1 (or_intror Hin)) as Ho2.
  destruct (set_option _ _ _ _) as [k2 b]. cbn [fst] in Ho2.
  pose proof (bind_law h a k2 (owns_held _ _ _ Ho2 Hin)) as Hq.
  destruct (sy_bind h a k2) as [k3 bound]. cbn [fst] in Hq. apply (owns_quiet _ _ _ Ho2) in Hq.
  destruct bound; cbn [negb]; [|by apply IH, owns_close_new].
  pose proof (listen_law h n k3 (owns_held _ _ _ Hq Hin)) as Hl.
  destruct (sy_listen h n k3) as [k4 ok]. cbn [fst] in Hl. apply (owns_quiet _ _ _ Hq) in Hl.
  destruct ok; cbn [negb]; [by intros [= <- <-]|by apply IH, owns_close_new].
Qed.

Lemma owns_listen S e n out p p' out' st : owns S (pr_sys p) → handle_ok S (ls_socket out) →
  listener_listen e n out p = (p', out', st) →
  ∃ S', moved S S' (ls_socket out) (ls_socket out') ∧ owns S' (pr_sys p').
Proof.
  intros Ho Hout. unfold listener_listen, initialize. set (up := if pr_once p then _ else _).
  destruct up; cbn [negb].
  2: { intros [= <- <- <-]. exists S. split; [apply moved_same|done]. }
  change (is_ok status_ok) with true. cbn [negb pr_sys].
  destruct (bind_any _ _ _) as [k [h|]] eqn:E; apply (owns_bind_any S _ _ _ _ _ Ho) in E.
  - destruct E as (Ho1 & Hn & Hh).
    destruct (owns_assign_new S k h _ Ho1 Hn Hh Hout) as (k4 & S' & -> & Hm & Ho4).
    intros [= <- <- <-]. by exists S'.
  - intros [= <- <- <-]. exists S. split; [apply moved_same|done].
Qed.

Lemma owns_accept S l stopping out k k' out' st : owns S k → handle_ok S (ls_socket l) →
  handle_ok S out → listener_accept l stopping out k = (k', out', st) →
  ∃ S', moved S S' out out' ∧ owns S' k'.
Proof.
  intros Ho Hl Hout. unfold listener_accept, socket_valid.
  destruct (Z.eqb_spec (ls_socket l) no_handle) as [_|Hne]; cbn [negb].
  { intros [= <- <- _]. exists S. split; [apply moved_same|done]. }
  destruct Hl as [?|Hl]; [done|]. pose proof (accept_law _ k (owns_held _ _ _ Ho Hl)) as Ha.
  destruct (sy_accept _ k) as [k1 [h|]]; cbn [fst snd] in Ha.
  2: { intros [= <- <- _]. exists S. split; [apply moved_same|by eapply owns_opens_none]. }
  destruct (owns_opens _ _ _ _ Ho Ha) as (Ho1 & Hn & Hh). destruct stopping.
  - intros [= <- <- _]. exists S. split; [apply moved_same|].
    pose proof (owns_close_new _ _ _ Ho1 Hn) as Hc. unfold socket_close in Hc.
    by destruct (Z.eqb_spec h no_handle).
  - pose proof (owns_option _ _ NoDelay h true Ho1 ltac:(right; set_solver)) as Hq3.
    destruct (set_option _ _ _ _) as [k3 b]. cbn [fst] in Hq3.
    destruct (owns_assign_new S k3 h out Hq3 Hn Hh Hout) as (k4 & S' & -> & Hm & Ho4).
    intros [= <- <- _]. by exists S'.
Qed.

Lemma moved_ok S S' h h' : moved S S' h h' → handle_ok S h → handle_ok S' h'.
Proof.
  unfold moved, handle_ok.
  intros [[-> ->]|[[-> ->]|(? & ? & ->)]] Hh; [done|by left|right; set_solver].
Qed.

Lemma moved_close S S' h h' : moved S S' h h' → no_handle ∉ S → S' ∖ {[h']} = S ∖ {[h]}.
Proof. intros [[-> ->]|[[-> ->]|(? & ? & ->)]] Hn; [done|set_solver|set_solver]. Qed.

Lemma owns_assign S k t s : owns S k → handle_ok S t →
  ∃ k', socket_assign t s k = (k', s, no_handle) ∧ owns (S ∖ {[t]}) k'.
Proof.
  intros Ho Ht. unfold socket_assign. destruct (owns_close S k t Ho Ht) as [Hc _].
  destruct (socket_close t k) as [k' h]. by eexists.
Qed.

Lemma owns_stop S l p p' l' : owns S (pr_sys p) → handle_ok S (ls_socket l) →
  listener_stop l p = (p', l') →
  ∃ S', moved S S' (ls_socket l) (ls_socket l') ∧ owns S' (pr_sys p').
Proof.
  intros Ho Hl. unfold listener_stop. destruct (negb (socket_valid _)).
  { intros [= <- <-]. exists S. split; [apply moved_same|done]. }
  destruct (ls_stopping l).
  { intros [= <- <-]. exists S. split; [apply moved_same|done]. }
  cbv zeta. set (p1 := with_sys _ p).
  assert (Ho1 : owns S (pr_sys p1)) by by apply owns_shutdown.
  destruct (connect _ _ p1) as [[p2 probe] st] eqn:E.
  destruct (owns_connect S _ _ _ _ _ _ Ho1 (or_introl eq_refl) E) as (S2 & Hm & Ho2 & Hf).
  pose proof (owns_no_handle _ _ Ho) as Hn. pose proof (owns_no_handle _ _ Ho2) as Hn2.
  assert (Hp : handle_ok S2 probe) by (apply (moved_ok _ _ _ _ Hm); by left).
  destruct (if is_ok st then _ else _) as [k3 probe'] eqn:E3.
  assert (H3 : ∃ S3, moved S2 S3 probe probe' ∧ owns S3 k3).
  { destruct (is_ok st).
    - destruct (owns_close S2 _ probe Ho2 Hp) as [Hc Hcn]. rewrite E3 in Hc, Hcn. cbn in Hc, Hcn. subst.
      eexists. split; [right; left; done|done].
    - injection E3 as <- <-. exists S2. split; [apply moved_same|done]. }
  destruct H3 as (S3 & Hm3 & Ho3).
  destruct (owns_close S3 k3 probe' Ho3 (moved_ok _ _ _ _ Hm3 Hp)) as [Ho4 _].
  rewrite (moved_close _ _ _ _ Hm3 Hn2), (moved_close _ _ _ _ Hm Hn) in Ho4.
  replace (S ∖ {[no_handle]}) with S in Ho4 by set_solver.
  destruct (socket_close probe' k3) as [k4 h4]. cbn [fst] in Ho4.
  destruct (owns_close S k4 _ Ho4 Hl) as [Ho5 Hh5].
  destruct (socket_close (ls_socket l) k4) as [k5 h5]. cbn [fst snd] in Ho5, Hh5. subst h5.
  intros [= <- <-]. eexists. split; [right; left; done|done].
Qed.

(** ** The objects of a process *)

(** The owned descriptors are those of the objects, each held by one of them. *)
Record tracks (objs : gmap nat Object) (S : gset Z) : Prop := {
  tr_in : ∀ i o, objs !! i = Some o → handle_ok S (handle_of o);
  tr_out : ∀ h, h ∈ S → ∃ i o, objs !! i = Some o ∧ handle_of o = h;
  tr_one : ∀ i j o o', objs !! i = Some o → objs !! j = Some o' →
    handle_of o = handle_of o' → handle_of o ≠ no_handle → i = j
}.

Lemma tracks_put objs S S' i o o' : tracks objs S → no_handle ∉ S → objs !! i = Some o →
  moved S S' (handle_of o) (handle_of o') → tracks (<[i := o']> objs) S'.
Proof.
  intros [Ti To Tu] Hn Hi Hm. pose proof (Ti _ _ Hi) as Hok. pose proof (moved_ok _ _ _ _ Hm Hok) as Hok'.
  assert (Hother : ∀ j oj, j ≠ i → objs !! j = Some oj → handle_of oj ≠ no_handle →
    handle_of oj ∈ S ∧ handle_of oj ≠ handle_of o).
  { intros j oj Hne Hj Hv. split; [by destruct (Ti _ _ Hj)|]. intros E. apply Hne. by eapply Tu. }
  assert (Hstay : ∀ j oj, j ≠ i → objs !! j = Some oj → handle_of oj ≠ no_handle →
    handle_of oj ∈ S' ∧ handle_of oj ≠ handle_of o').
  { intros j oj Hne Hj Hv. destruct (Hother j oj Hne Hj Hv) as [Hin Hd].
    destruct Hm as [[-> ->]|[[-> ->]|(Hf & _ & ->)]]; [done|split; [|done]|split; [|congruence]];
      clear - Hin Hd; set_solver. }
  split.
  - intros j oj [[<- <-]|[Hne Hj]]%lookup_insert_Some; [done|].
    destruct (decide (handle_of oj = no_handle)) as [|Hv]; [by left|right]. by eapply Hstay.
  - intros h Hh. destruct (decide (h = handle_of o')) as [->|Hd].
    { exists i, o'. by rewrite lookup_insert_eq. }
    assert (Hs : h ∈ S ∧ h ≠ handle_of o).
    { destruct Hm as [[E ->]|[[E ->]|(? & ? & ->)]]; [split; [done|congruence]| |];
        clear - Hh Hd; set_solver. }
    destruct Hs as [Hs Hne]. destruct (To h Hs) as (j & oj & Hj & <-). exists j, oj.
    rewrite lookup_insert_ne; [done|]. intros <-. congruence.
  - intros j1 j2 o1 o2 [[<- <-]|[Hn1 H1]]%lookup_insert_Some [[<- <-]|[Hn2 H2]]%lookup_insert_Some Eh Hv.
    + done.
    + destruct (Hstay j2 o2) as [_ ?]; congruence.
    + destruct (Hstay j1 o1) as [_ ?]; congruence.
    + by eapply Tu.
Qed.

Lemma tracks_new objs S i o : tracks objs S → objs !! i = None → handle_of o = no_handle →
  tracks (<[i := o]> objs) S.
Proof.
  intros [Ti To Tu] Hi Hh. split.
  - intros j oj [[<- <-]|[Hne Hj]]%lookup_insert_Some; [by left|by eapply Ti].
  - intros h Hs. destruct (To h Hs) as (j & oj & Hj & E). exists j, oj.
    rewrite lookup_insert_ne; [done|congruence].
  - intros j1 j2 o1 o2 [[<- <-]|[_ H1]]%lookup_insert_Some [[<- <-]|[_ H2]]%lookup_insert_Some Eh Hv;
      [done|congruence|congruence|by eapply Tu].
Qed.

Lemma tracks_closed objs S i o : tracks objs S → no_handle ∉ S → objs !! i = Some o →
  handle_of o = no_handle → tracks (delete i objs) S.
Proof.
  intros [Ti To Tu] Hn Hi Hh. split.
  - intros j oj [_ Hj]%lookup_delete_Some. by eapply Ti.
  - intros h Hs. destruct (To h Hs) as (j & oj & Hj & E). exists j, oj.
    rewrite lookup_delete_ne; [done|congruence].
  - intros j1 j2 o1 o2 [_ H1]%lookup_delete_Some [_ H2]%lookup_delete_Some. by eapply Tu.
Qed.

(** An object that goes away takes its descriptor with it. *)
Lemma tracks_delete objs S i o : tracks objs S → no_handle ∉ S → objs !! i = Some o →
  tracks (delete i objs) (S ∖ {[handle_of o]}).
Proof.
  intros T Hn Hi. rewrite <-(delete_insert_eq objs i (OSocket no_handle)).
  eapply tracks_closed; [|set_solver|by rewrite lookup_insert_eq|done].
  eapply tracks_put; [done|done|done|by right; left].
Qed.

(** A descriptor that changes hands between two objects. *)
Lemma tracks_hand_over objs S i j oj oi' oj' : tracks objs S → no_handle ∉ S → i ≠ j →
  match objs !! i with Some o => handle_of o = no_handle | None => True end →
  objs !! j = Some oj → handle_of oi' = handle_of oj → handle_of oj' = no_handle →
  tracks (<[i := oi']> (<[j := oj']> objs)) S.
Proof.
  intros T Hn Hij Hi Hj Ei Ej.
  assert (Ti : tracks (delete i objs) S).
  { destruct (objs !! i) as [o|] eqn:E; [by eapply tracks_closed|]. by rewrite delete_id. }
  assert (Td : tracks (<[i := oi']> (delete j (delete i objs))) S).
  { destruct Ti as [Ai Ao Au]. assert (Hj' : delete i objs !! j = Some oj) by by rewrite lookup_delete_ne.
    split.
    - intros x ox [[<- <-]|[_ [_ Hx]%lookup_delete_Some]]%lookup_insert_Some;
        [rewrite Ei; by eapply Ai|by eapply Ai].
    - intros h Hs. destruct (Ao h Hs) as (x & ox & Hx & E). destruct (decide (x = j)) as [->|Hxj].
      + exists i, oi'. rewrite lookup_insert_eq. split; [done|congruence].
      + exists x, ox. apply lookup_delete_Some in Hx as Hx'. destruct Hx' as [Hxi _].
        by rewrite lookup_insert_ne, lookup_delete_ne.
    - intros x y ox oy [[<- <-]|[? [Hxj Hx]%lookup_delete_Some]]%lookup_insert_Some
        [[<- <-]|[? [Hyj Hy]%lookup_delete_Some]]%lookup_insert_Some Eh Hv; [done| | |by eapply Au].
      + destruct Hyj. eapply Au; [exact Hj'|exact Hy|congruence|congruence].
      + destruct Hxj. eapply Au; [exact Hj'|exact Hx|congruence|congruence]. }
  replace (<[i := oi']> (<[j := oj']> objs)) with (<[j := oj']> (<[i := oi']> (delete j (delete i objs)))).
  { apply tracks_new; [done| |done]. by rewrite lookup_insert_ne, lookup_delete_eq. }
  apply map_eq. intros x. destruct (decide (x = i)) as [->|]; [|destruct (decide (x = j)) as [->|]];
    by simplify_map_eq.
Qed.

(** Nothing is open that no object holds, nothing held that is not open. *)
Definition good (m : Machine) : Prop :=
  ∃ S, tracks (mc_objects m) S ∧ owns S (pr_sys (mc_process m)).

Lemma good_put p m i o o' S S' : tracks (mc_objects m) S → no_handle ∉ S → mc_objects m !! i = Some o →
  moved S S' (handle_of o) (handle_of o') → owns S' (pr_sys p) → good (put p i o' m).
Proof. intros T Hn Hi Hm Ho. exists S'. split; [by eapply tracks_put|done]. Qed.

Lemma good_on_socket i f m :
  (∀ S h p, tracks (mc_objects m) S → owns S (pr_sys p) → handle_ok S h →
     ∃ S', moved S S' h (f h p).2 ∧ owns S' (pr_sys (f h p).1)) →
  good m → good (on_socket i f m).
Proof.
  intros Hf (S & T & Ho). unfold on_socket. destruct (mc_objects m !! i) as [[h| |]|] eqn:E;
    try by exists S. destruct (Hf S h _ T Ho (tr_in _ _ T _ _ E)) as (S' & Hm & Ho').
  destruct (f h _) as [p h']. eapply good_put; [exact T|by eapply owns_no_handle|exact E|exact Hm|done].
Qed.

Lemma good_with_handle i f m : (∀ S h k, owns S k → handle_ok S h → owns S (f h k)) →
  good m → good (with_handle i f m).
Proof.
  intros Hf. apply good_on_socket. intros S h p _ Ho Hh. exists S. split; [apply moved_same|by apply Hf].
Qed.

Lemma good_on_listener i f m :
  (∀ S l p, owns S (pr_sys p) → handle_ok S (ls_socket l) →
     ∃ S', moved S S' (ls_socket l) (ls_socket (f l p).2) ∧ owns S' (pr_sys (f l p).1)) →
  good m → good (on_listener i f m).
Proof.
  intros Hf (S & T & Ho). unfold on_listener. destruct (mc_objects m !! i) as [[|l|]|] eqn:E;
    try by exists S. destruct (Hf S l _ Ho (tr_in _ _ T _ _ E)) as (S' & Hm & Ho').
  destruct (f l _) as [p l']. eapply good_put; [exact T|by eapply owns_no_handle|exact E|exact Hm|done].
Qed.

Lemma good_create i o m : handle_of o = no_handle → good m → good (create i o m).
Proof.
  intros Hh (S & T & Ho). unfold create. destruct (mc_objects m !! i) eqn:E; exists S; [done|].
  split; [by apply tracks_new|done].
Qed.

(** The handle of one object goes to another, whose own is closed first. *)
Lemma good_hand_over p m i j oi oj oi' oj' S : tracks (mc_objects m) S → no_handle ∉ S → i ≠ j →
  mc_objects m !! i = Some oi → mc_objects m !! j = Some oj → handle_of oi' = handle_of oj →
  handle_of oj' = no_handle → owns (S ∖ {[handle_of oi]}) (pr_sys p) →
  good (put p i oi' (put p j oj' m)).
Proof.
  intros T Hn Hij Hi Hj Ei Ej Ho. exists (S ∖ {[handle_of oi]}). split; [|done]. cbn [mc_objects put].
  assert (T1 : tracks (<[i := OSocket no_handle]> (mc_objects m)) (S ∖ {[handle_of oi]})).
  { eapply tracks_put; [exact T|done|exact Hi|by right; left]. }
  assert (E : <[i := oi']> (<[j := oj']> (mc_objects m)) =
              <[i := oi']> (<[j := oj']> (<[i := OSocket no_handle]> (mc_objects m)))).
  { apply map_eq. intros x. destruct (decide (x = i)) as [->|]; [|destruct (decide (x = j)) as [->|]];
      by simplify_map_eq. }
  rewrite E. eapply tracks_hand_over; [exact T1|set_solver|done| | |exact Ei|done];
    [by rewrite lookup_insert_eq|by rewrite lookup_insert_ne].
Qed.

Lemma good_move i j m : good m → good (move_object i j m).
Proof.
  intros (S & T & Ho). pose proof (owns_no_handle _ _ Ho) as Hn. unfold move_object. cbv zeta.
  destruct (Nat.eqb_spec i j) as [|Hij]; [by exists S|].
  destruct (mc_objects m !! i) as [oi|] eqn:Ei; [|by exists S]. pose proof (tr_in _ _ T _ _ Ei) as Hi.
  destruct oi as [t|t|t], (mc_objects m !! j) as [[s|s|s]|] eqn:Ej; try by exists S.
  - destruct (owns_assign S _ t s Ho Hi) as (k' & -> & Ho').
    by eapply (good_hand_over (with_sys k' _) m i j _ _ _ _ S).
  - unfold listener_assign. destruct (listener_stop t _) as [p1 t1] eqn:Es.
    destruct (owns_stop S t _ _ _ Ho Hi Es) as (S1 & Hm & Ho1).
    destruct (owns_assign S1 _ (ls_socket t1) (ls_socket s) Ho1 (moved_ok _ _ _ _ Hm Hi)) as (k' & -> & Ho').
    rewrite (moved_close _ _ _ _ Hm Hn) in Ho'.
    by eapply (good_hand_over (with_sys k' p1) m i j _ _ _ _ S).
Qed.

Lemma good_destroy i m : good m → good (destroy i m).
Proof.
  intros (S & T & Ho). pose proof (owns_no_handle _ _ Ho) as Hn. unfold destroy. cbv zeta.
  destruct (mc_objects m !! i) as [[h|l|h]|] eqn:E; try by exists S.
  all: pose proof (tr_in _ _ T _ _ E) as Hh; cbn [handle_of] in Hh.
  - exists (S ∖ {[h]}). split; [by eapply (tracks_delete _ _ i (OSocket h))|].
    by apply owns_close.
  - exists (S ∖ {[ls_socket l]}). split; [by eapply (tracks_delete _ _ i (OListener l))|].
    unfold listener_destroy. destruct (listener_stop l _) as [p1 l1] eqn:Es.
    destruct (owns_stop S l _ _ _ Ho Hh Es) as (S1 & Hm & Ho1).
    rewrite <-(moved_close _ _ _ _ Hm Hn). by apply owns_close, (moved_ok _ _ _ _ Hm).
Qed.

Lemma good_release i j m : good m → good (act (ReleaseTo i j) m).
Proof.
  intros (S & T & Ho). pose proof (owns_no_handle _ _ Ho) as Hn. cbn [act socket_release].
  destruct (mc_objects m !! i) as [[h| |]|] eqn:Ei; try by exists S.
  destruct (mc_objects m !! j) as [|] eqn:Ej; [by exists S|]. exists S. split; [|done].
  cbn [mc_objects put]. eapply tracks_hand_over; [exact T|done|congruence|by rewrite Ej|exact Ei|done|done].
Qed.

Lemma good_act a m : good m → good (act a m).
Proof.
  destruct a; cbn [act];
    try (apply good_with_handle; intros; by auto using owns_shutdown, owns_option, owns_wait);
    try by apply good_create.
  - apply good_on_socket. intros S h p _ Ho Hh. destruct (connect e h p) as [[p' h'] st] eqn:E.
    destruct (owns_connect _ _ _ _ _ _ _ Ho Hh E) as (S' & ? & ? & _). by exists S'.
  - apply good_on_listener. intros S l p Ho Hl. destruct (listener_listen _ _ _ _) as [[p' l'] st] eqn:E.
    by apply (owns_listen _ _ _ _ _ _ _ _ Ho Hl E).
  - intros Hg. destruct (mc_objects m !! l) as [[|ls|]|] eqn:El; try done. revert Hg.
    apply good_on_socket. intros S h p T Ho Hh. pose proof (tr_in _ _ T _ _ El) as Hl.
    destruct (listener_accept _ _ _ _) as [[k' h'] st] eqn:E.
    by apply (owns_accept _ _ _ _ _ _ _ _ Ho Hl Hh E).
  - apply good_on_listener. intros S ls p Ho Hl. destruct (listener_stop _ _) as [p' l'] eqn:E.
    by apply (owns_stop _ _ _ _ _ Ho Hl E).
  - apply good_on_socket. intros S h p _ Ho Hh. destruct (owns_close _ _ _ Ho Hh) as [Hc Hn].
    destruct (socket_close h _) as [k h']. cbn [fst snd] in *. eexists. split; [right; left; done|done].
  - apply good_on_socket. intros S h p _ Ho Hh. exists S. split; [apply moved_same|by apply owns_write].
  - apply good_on_socket. intros S h p _ Ho Hh. exists S. split; [apply moved_same|by apply owns_read].
  - apply good_move.
  - apply good_release.
  - intros (S & T & Ho). destruct (mc_objects m !! i) as [[|l|h]|] eqn:E; try by exists S.
    eapply (good_put _ m i _ _ S S); [done|by eapply owns_no_handle|exact E|apply moved_same|done].
  - apply good_destroy.
  - intros (S & T & Ho). by exists S.
  - intros (S & T & Ho). by exists S.
Qed.

Lemma good_acts l m : good m → good (acts l m).
Proof. revert m. induction l as [|a l IH]; intros m Hg; [done|]. by apply IH, good_act. Qed.

Lemma tracks_empty : tracks ∅ ∅.
Proof. split; [done|set_solver|done]. Qed.
End ownership.

Module Owners.
Section owners.
Context {K : Type} `{Descriptors K}.

(** C25: A descriptor has one owner.  Whatever a program does with sockets and
    listeners - connect, listen, accept, stop, move, release, read, write, destroy,
    in any order, on objects in any state, whatever the system answers - no call
    is made on a descriptor that is not open and none is closed twice; what is
    open is what was open before and what the objects hold, each held by one of
    them alone; and when the last object is gone, nothing is left open. *)
Theorem descriptors_owned (p : Process K) (l : list Act) (m : Machine) :
  misused (pr_sys p) = false → acts l (mkMachine p ∅) = m →
  let k := pr_sys (mc_process m) in
  misused k = false ∧
  (∀ h, h ∈ held k ↔ h ∈ held (pr_sys p) ∨
     h ≠ no_handle ∧ ∃ i o, mc_objects m !! i = Some o ∧ handle_of o = h) ∧
  (∀ i j o o', mc_objects m !! i = Some o → mc_objects m !! j = Some o' →
     handle_of o = handle_of o' → handle_of o ≠ no_handle → i = j ∧ handle_of o ∉ held (pr_sys p)) ∧
  (mc_objects m = ∅ → held k = held (pr_sys p)).
Proof.
  intros Hm <-. cbv zeta. set (base := held (pr_sys p)).
  destruct (good_acts base l (mkMachine p ∅)) as (S & T & Ho).
  { exists ∅. split; [apply tracks_empty|]. unfold owns. cbn. split_and!; [set_solver|set_solver|done|set_solver]. }
  pose proof (owns_no_handle _ _ _ Ho) as Hn. destruct Ho as (E & Hd & Hu & _). rewrite E.
  destruct T as [Ti To Tu]. split; [done|]. split; [|split].
  - intros h. rewrite elem_of_union. apply or_iff_compat_l. split.
    + intros Hh. split; [by intros ->|by apply To].
    + intros (Hv & i & o & Hi & <-). by destruct (Ti _ _ Hi).
  - intros i j o o' Hi Hj Eh Hv. split; [by eapply Tu|]. destruct (Ti _ _ Hi) as [?|Hs]; [done|].
    intros Hb. by apply (Hd (handle_of o)).
  - intros Ee. apply set_eq. intros h. split; [|set_solver]. intros [?|Hh]%elem_of_union; [done|].
    destruct (To h Hh) as (i & o & Hi & _). rewrite Ee in Hi. by rewrite lookup_empty in Hi.
Qed.
End owners.
End Owners.

(** ** What clients and services rely on *)

Section contracts.
Context {K : Type} `{System K}.

(** What a client does through [Net] is what [connect] and [close] do. *)
Lemma initialize_again (p : Process K) : initialize (initialize p).1 = initialize p.
Proof. done. Qed.

Lemma dial_first_dials l : ∀ (p : Process K) out,
  @dial_first _ client_kernel l (p, out) =
  let '(k, out, st) := dial_any l out (pr_sys p) in ((with_sys k p, out), st).
Proof.
  induction l as [|a l IH]; intros p out; cbn [dial_first dial_any]; [by destruct p|].
  cbn [sys_dial client_kernel fst snd]. destruct (dial a out (pr_sys p)) as [[k h] ok].
  destruct ok; [done|]. by rewrite IH.
Qed.

Lemma net_connect_connects (e : Endpoint) (out : Z) (p : Process K) :
  @net_connect _ client_kernel e ((initialize p).1, out) =
  let '(p, out, st) := connect e out p in ((p, out), st).
Proof.
  unfold net_connect, connect. cbn [sys_up sys_resolve client_kernel fst snd].
  rewrite initialize_again. unfold initialize. set (up := if pr_once p then _ else _).
  destruct up; [|done]. cbn [negb fst snd]. change (is_ok status_ok) with true. cbn [negb].
  rewrite dial_first_dials. cbn [pr_sys]. by destruct (dial_any _ _ _) as [[k h] st].
Qed.

(** A connection that arrives once a stop has begun is not handed out, and a
    stopped listener accepts no more. *)
Lemma accept_stopping (l : Listener) (out : Z) (k : K) :
  (listener_accept l true out k).1.2 = out ∧ outcome (listener_accept l true out k).2 = Outcome.Closed.
Proof.
  unfold listener_accept. destruct (negb _); [done|]. by destruct (sy_accept _ k) as [? [?|]].
Qed.

Lemma stop_ends (l : Listener) (p : Process K) (stopping : bool) (out : Z) (k : K) :
  ls_stopping l = false →
  listener_accept (listener_stop l p).2 stopping out k =
  (k, out, fail0 Outcome.Closed Reason.ConnectionClosed).
Proof.
  intros Hs. unfold listener_stop, socket_valid. rewrite Hs.
  destruct (Z.eqb_spec (ls_socket l) no_handle) as [E|Hne]; cbn [negb].
  { unfold listener_accept, socket_valid. cbn [snd]. by rewrite E. }
  cbv zeta. destruct (connect _ _ _) as [[p2 probe] st]. destruct (if is_ok st then _ else _) as [k3 h3].
  destruct (socket_close h3 k3) as [k4 h4]. unfold socket_close.
  rewrite (proj2 (Z.eqb_neq _ _)) by done. done.
Qed.
End contracts.

(** ** A system with a table of descriptors *)

Record Desk := mkDesk { dk_open : gset Z; dk_misused : bool }.

(** A call on [h] is a misuse unless it is open. *)
Definition touch (h : Z) (k : Desk) : Desk :=
  mkDesk (dk_open k) (dk_misused k || negb (bool_decide (h ∈ dk_open k))).

(** The lowest descriptor that is free. *)
Definition lowest (k : Desk) : Desk * option Z :=
  match List.find (λ h, bool_decide (h ∉ dk_open k)) (seqZ 0 64) with
  | Some h => (mkDesk ({[h]} ∪ dk_open k) (dk_misused k), Some h)
  | None => (k, None)
  end.

(** Every name has two addresses, of which the second works. *)
#[export] Instance desk_system : System Desk := {|
  sy_resolve := λ _ _ _, [1; 2];
  sy_socket := λ _ k, lowest k;
  sy_bind := λ h a k, (touch h k, a =? 2);
  sy_listen := λ h _ k, (touch h k, true);
  sy_name := λ _ _, Some 40000;
  sy_accept := λ h k, lowest (touch h k);
  sy_connect := λ h a k, (touch h k, a =? 2);
  sy_shut := touch;
  sy_close := λ h k, mkDesk (dk_open k ∖ {[h]}) (dk_misused (touch h k));
  sy_option := λ h _ _ k, (touch h k, true);
  sy_select := λ h _ _ k, (touch h k, (1, true));
  sy_write := λ h bs k, (touch h k, SentResult (zlen bs) 0);
  sy_read := λ h _ k, (touch h k, ReceivedBytes []);
  sy_errno := λ _, 0
|}.

Lemma touch_open h k : h ∈ dk_open k → touch h k = k.
Proof.
  intros Hh. unfold touch. rewrite bool_decide_true by done. rewrite orb_false_r. by destruct k.
Qed.

Lemma lowest_opens k : opens dk_open dk_misused k (lowest k).1 (lowest k).2.
Proof.
  unfold lowest. destruct (List.find _ _) as [h|] eqn:E; [|done].
  apply find_some in E as [Hin Hh]. apply bool_decide_eq_true in Hh.
  apply list_elem_of_In in Hin. apply elem_of_seqZ in Hin.
  unfold opens. cbn. by split_and!; [|lia| |].
Qed.

#[export] Instance desk_descriptors : Descriptors Desk.
Proof.
  refine {| held := dk_open; misused := dk_misused |}; cbn -[touch lowest]; intros.
  1: apply lowest_opens.
  1: rewrite touch_open by done; apply lowest_opens.
  all: by rewrite touch_open.
Defined.

Definition demo_endpoint : Endpoint := mkEndpoint (str "localhost") 9000.

(** A listener, a connection to it from each side, one moved over the other. *)
Definition demo_acts : list Act :=
  [NewListener 0; Listen 0 demo_endpoint 64; NewSocket 1; Accept 0 1 false; NewSocket 2;
   Connect 2 demo_endpoint; Write 2 (str "hello"); WaitReadable 1 25; Read 1 16; Move 2 1; Stop 0].
Definition demo_end : list Act := [Close 2; Destroy 0; Destroy 1; Destroy 2].
Definition demo_process : Process Desk := mkProcess (mkDesk {[0; 1; 2]} false) false false.

Lemma demo_two_sockets :
  held (pr_sys (mc_process (acts (take 6 demo_acts) (mkMachine demo_process ∅)))) = {[0; 1; 2; 3; 4; 5]}.
Proof. refine (bool_decide_eq_true_1 _ _). vm_compute. reflexivity. Qed.

Lemma descriptors_owned_witness :
  held (pr_sys (mc_process (acts (demo_acts ++ demo_end) (mkMachine demo_process ∅)))) = {[0; 1; 2]}.
Proof.
  destruct (Owners.descriptors_owned demo_process (demo_acts ++ demo_end)
    (acts (demo_acts ++ demo_end) (mkMachine demo_process ∅))) as (_ & _ & _ & E); [done|done|].
  apply E. vm_compute. reflexivity.
Defined.
