(* ===== verification/Hub.v ===== *)
(** * Connections and shutdown

    Models [src/conn_hub.hpp] and the threads around it: the accept loop of
    [RegistryService::run] and [WitnessService::run], the worker of a connection
    reduced to where it is in its loop, and the caller of [stop].  Each constructor
    of [turns] is what one thread does between two points where another may run;
    a system call is assumed to return.  Sockets are numbered as they are accepted;
    a null pointer is never registered. *)
From S2P Require Import Prelude Order Status.
Open Scope Z_scope.

(** ** [class ConnectionHub] *)

Definition SocketRef : Set := nat.

Record Hub := mkHub {
  hb_live : list SocketRef;
  hb_active : Z;
  hb_stopping : bool
}.

Definition hub0 : Hub := mkHub [] 0 false.

(** The part of [add] under the lock: whether the socket is to be shut down. *)
Definition hub_add (p : SocketRef) (h : Hub) : Hub * bool :=
  (mkHub (hb_live h ++ [p]) (u64 (hb_active h + 1)) (hb_stopping h), hb_stopping h).

(** [live_.erase(it)] at the first entry of the socket. *)
Fixpoint erase_first (p : SocketRef) (l : list SocketRef) : list SocketRef :=
  match l with
  | [] => []
  | q :: l => if bool_decide (q = p) then l else q :: erase_first p l
  end.

Definition hub_remove (p : SocketRef) (h : Hub) : Hub :=
  mkHub (erase_first p (hb_live h))
    (if 0 <? hb_active h then hb_active h - 1 else hb_active h) (hb_stopping h).

(** The part of [begin_stop] under the lock: the sockets to shut down. *)
Definition hub_begin_stop (h : Hub) : Hub * list SocketRef :=
  if hb_stopping h then (h, []) else (mkHub (hb_live h) (hb_active h) true, hb_live h).

(** [wait_drained] returns when no connection is active. *)
Definition hub_drained (h : Hub) : option Hub :=
  if hb_active h =? 0 then Some (mkHub [] (hb_active h) (hb_stopping h)) else None.

(** ** The threads of a service *)

(** Where a worker is: at the top of its loop, in a turn of it, past the loop, or
    with its socket closed. *)
Inductive WorkerPhase : Set := AtTop | InTurn | Leaving | Shut.

(** Where [run] is. *)
Inductive ServicePhase : Set :=
  | Starting                                (* the hub is not published yet *)
  | LoopTop
  | Accepting
  | Accepted (p : SocketRef)
  | Registered (p : SocketRef) (shut : bool) (* in [add], past the lock *)
  | Spawning (p : SocketRef)
  | LoopLeft
  | HubStopping (victims : list SocketRef)   (* in [begin_stop], past the lock *)
  | Draining
  | Finished.

#[export] Instance service_phase_eq_dec : EqDecision ServicePhase.
Proof. solve_decision. Defined.

(** Where the caller of [stop] is. *)
Inductive StopPhase : Set :=
  | NotAsked
  | Asked                                    (* stopping_ is set *)
  | ShuttingDown (victims : list SocketRef)  (* in [begin_stop], past the lock *)
  | Returned.

Record System := mkSystem {
  sy_hub : Hub;
  sy_stopping : bool;                        (* the service's stopping_ *)
  sy_shut : list SocketRef;                  (* sockets shut down so far *)
  sy_next : nat;                             (* the next socket's number *)
  sy_service : ServicePhase;
  sy_stop : StopPhase;
  sy_workers : list (SocketRef * WorkerPhase)
}.

Definition system0 : System := mkSystem hub0 false [] 0 Starting NotAsked [].

Definition at_service (ph : ServicePhase) (s : System) : System :=
  mkSystem (sy_hub s) (sy_stopping s) (sy_shut s) (sy_next s) ph (sy_stop s) (sy_workers s).
Definition at_stop (ph : StopPhase) (s : System) : System :=
  mkSystem (sy_hub s) (sy_stopping s) (sy_shut s) (sy_next s) (sy_service s) ph (sy_workers s).
Definition with_hub (h : Hub) (s : System) : System :=
  mkSystem h (sy_stopping s) (sy_shut s) (sy_next s) (sy_service s) (sy_stop s) (sy_workers s).
Definition with_workers (ws : list (SocketRef * WorkerPhase)) (s : System) : System :=
  mkSystem (sy_hub s) (sy_stopping s) (sy_shut s) (sy_next s) (sy_service s) (sy_stop s) ws.
(** [socket->shutdown()]. *)
Definition shut_down (p : SocketRef) (s : System) : System :=
  mkSystem (sy_hub s) (sy_stopping s) (p :: sy_shut s) (sy_next s) (sy_service s) (sy_stop s)
    (sy_workers s).

(** [stopping_.store(true)]. *)
Definition set_stopping (s : System) : System :=
  mkSystem (sy_hub s) true (sy_shut s) (sy_next s) (sy_service s) (sy_stop s) (sy_workers s).

(** One turn of the thread of [run]. *)
Inductive service_turn (s : System) : System → Prop :=
  | turn_start : sy_service s = Starting → service_turn s (at_service LoopTop s)
  | turn_loop : sy_service s = LoopTop → sy_stopping s = false → service_turn s (at_service Accepting s)
  | turn_asked : sy_service s = LoopTop → sy_stopping s = true → service_turn s (at_service LoopLeft s)
  | turn_accepted : sy_service s = Accepting →
      service_turn s
        (mkSystem (sy_hub s) (sy_stopping s) (sy_shut s) (S (sy_next s)) (Accepted (sy_next s))
           (sy_stop s) (sy_workers s))
  | turn_accept_closed : sy_service s = Accepting → service_turn s (at_service LoopLeft s)
  | turn_accept_failed : sy_service s = Accepting → service_turn s (at_service LoopTop s)
  | turn_dropped p : sy_service s = Accepted p → sy_stopping s = true →
      service_turn s (at_service LoopLeft s)
  | turn_add p h shut : sy_service s = Accepted p → sy_stopping s = false →
      hub_add p (sy_hub s) = (h, shut) → service_turn s (at_service (Registered p shut) (with_hub h s))
  | turn_added p shut : sy_service s = Registered p shut →
      service_turn s (at_service (Spawning p) (if shut then shut_down p s else s))
  | turn_spawn p : sy_service s = Spawning p →
      service_turn s (at_service LoopTop (with_workers ((p, AtTop) :: sy_workers s) s))
  | turn_begin_stop h victims : sy_service s = LoopLeft →
      hub_begin_stop (sy_hub s) = (h, victims) →
      service_turn s (at_service (HubStopping victims) (with_hub h s))
  | turn_victim p victims : sy_service s = HubStopping (p :: victims) →
      service_turn s (at_service (HubStopping victims) (shut_down p s))
  | turn_wait : sy_service s = HubStopping [] → service_turn s (at_service Draining s)
  | turn_drained h : sy_service s = Draining → hub_drained (sy_hub s) = Some h →
      service_turn s (at_service Finished (with_hub h s)).

(** One turn of the caller of [stop]; it returns at once when [stopping_] was set
    already, by an earlier caller or by a worker. *)
Inductive stop_turn (s : System) : System → Prop :=
  | stop_ask : sy_stop s = NotAsked → sy_stopping s = false →
      stop_turn s
        (mkSystem (sy_hub s) true (sy_shut s) (sy_next s) (sy_service s) Asked (sy_workers s))
  | stop_late : sy_stop s = NotAsked → sy_stopping s = true → stop_turn s (at_stop Returned s)
  | stop_no_hub : sy_stop s = Asked → sy_service s = Starting → stop_turn s (at_stop Returned s)
  | stop_begin h victims : sy_stop s = Asked → sy_service s ≠ Starting →
      hub_begin_stop (sy_hub s) = (h, victims) →
      stop_turn s (at_stop (ShuttingDown victims) (with_hub h s))
  | stop_victim p victims : sy_stop s = ShuttingDown (p :: victims) →
      stop_turn s (at_stop (ShuttingDown victims) (shut_down p s))
  | stop_return : sy_stop s = ShuttingDown [] → stop_turn s (at_stop Returned s).

(** One turn of a worker, anywhere among the workers.  [worker_asks] is the turn
    that answered a shutdown request: the stop flag is set, the listener stopped
    and the connection left. *)
Inductive worker_turn (s : System) : System → Prop :=
  | worker_stops l1 l2 p : sy_workers s = l1 ++ (p, AtTop) :: l2 → hb_stopping (sy_hub s) = true →
      worker_turn s (with_workers (l1 ++ (p, Leaving) :: l2) s)
  | worker_begins l1 l2 p : sy_workers s = l1 ++ (p, AtTop) :: l2 → hb_stopping (sy_hub s) = false →
      worker_turn s (with_workers (l1 ++ (p, InTurn) :: l2) s)
  | worker_continues l1 l2 p : sy_workers s = l1 ++ (p, InTurn) :: l2 →
      worker_turn s (with_workers (l1 ++ (p, AtTop) :: l2) s)
  | worker_breaks l1 l2 p : sy_workers s = l1 ++ (p, InTurn) :: l2 →
      worker_turn s (with_workers (l1 ++ (p, Leaving) :: l2) s)
  | worker_asks l1 l2 p : sy_workers s = l1 ++ (p, InTurn) :: l2 →
      worker_turn s (with_workers (l1 ++ (p, Leaving) :: l2) (set_stopping s))
  | worker_closes l1 l2 p : sy_workers s = l1 ++ (p, Leaving) :: l2 →
      worker_turn s (shut_down p (with_workers (l1 ++ (p, Shut) :: l2) s))
  | worker_removes l1 l2 p : sy_workers s = l1 ++ (p, Shut) :: l2 →
      worker_turn s (with_hub (hub_remove p (sy_hub s)) (with_workers (l1 ++ l2) s)).

Inductive turns (s s' : System) : Prop :=
  | by_service : service_turn s s' → turns s s'
  | by_stop : stop_turn s s' → turns s s'
  | by_worker : worker_turn s s' → turns s s'.

(** ** What holds between turns *)

(** The socket in [add] or about to get its thread, and the one just accepted. *)
Definition adding (ph : ServicePhase) : list SocketRef :=
  match ph with Registered p _ | Spawning p => [p] | _ => [] end.
Definition accepted (ph : ServicePhase) : list SocketRef :=
  match ph with Accepted p => [p] | _ => [] end.

(** The sockets some thread is responsible for. *)
Definition held (s : System) : list SocketRef := (sy_workers s).*1 ++ adding (sy_service s).

(** Shutdowns under way. *)
Definition service_victims (ph : ServicePhase) : list SocketRef :=
  match ph with HubStopping l => l | Registered p true => [p] | _ => [] end.
Definition stop_victims (ph : StopPhase) : list SocketRef :=
  match ph with ShuttingDown l => l | _ => [] end.
Definition covered (s : System) : list SocketRef :=
  sy_shut s ++ service_victims (sy_service s) ++ stop_victims (sy_stop s).

(** Past [begin_stop]. *)
Definition past_loop (ph : ServicePhase) : bool :=
  match ph with HubStopping _ | Draining | Finished => true | _ => false end.

#[global] Arguments held _ : simpl never.
#[global] Arguments covered _ : simpl never.

Record hub_inv (s : System) : Prop := {
  hi_live : sy_service s ≠ Finished → hb_live (sy_hub s) ≡ₚ held s;
  hi_active : hb_active (sy_hub s) = zlen (held s);
  hi_fresh : NoDup (held s ++ accepted (sy_service s)) ∧
             Forall (λ p, (p < sy_next s)%nat) (held s ++ accepted (sy_service s));
  hi_covered : hb_stopping (sy_hub s) = true → ∀ p, p ∈ held s → p ∈ covered s;
  hi_cause : hb_stopping (sy_hub s) = true → sy_stopping s = true ∨ past_loop (sy_service s) = true;
  hi_past : past_loop (sy_service s) = true → hb_stopping (sy_hub s) = true;
  hi_finished : sy_service s = Finished → sy_workers s = [] ∧ hb_live (sy_hub s) = [];
  hi_asked : sy_stop s = NotAsked ∨ sy_stopping s = true
}.

Lemma hub_inv0 : hub_inv system0.
Proof. by split; [..|split; constructor| | | | |left]. Qed.

Lemma erase_first_permutation p l k : l ≡ₚ p :: k → erase_first p l ≡ₚ k.
Proof.
  revert k. induction l as [|q l IH]; simpl; intros k Hp; [by apply Permutation_nil_cons in Hp|].
  case_bool_decide as E; [subst; by apply Permutation_cons_inv in Hp|].
  assert (Hq : q ∈ p :: k) by (rewrite <-Hp; left). apply elem_of_cons in Hq as [|Hq]; [done|].
  apply elem_of_Permutation in Hq as [k' Hk]. rewrite Hk in Hp.
  rewrite Hk. constructor. apply IH. apply (Permutation_cons_inv (a:=q)). rewrite Hp. constructor.
Qed.

(** The sockets of the workers, one of them in the middle. *)
Lemma workers_fst (l1 l2 : list (SocketRef * WorkerPhase)) p ph :
  (l1 ++ (p, ph) :: l2).*1 = l1.*1 ++ p :: l2.*1.
Proof. by rewrite fmap_app. Qed.

(** A worker that only changes its phase. *)
Lemma hub_inv_phase s l1 l2 p ph ph' : hub_inv s → sy_workers s = l1 ++ (p, ph) :: l2 →
  hub_inv (with_workers (l1 ++ (p, ph') :: l2) s).
Proof.
  intros [H1 H2 H3 H4 H5 H6 H7 H8] Ew.
  assert (Eh : held (with_workers (l1 ++ (p, ph') :: l2) s) = held s).
  { unfold held. cbn [sy_workers with_workers sy_service]. by rewrite Ew, !workers_fst. }
  split; cbn [sy_hub sy_service sy_next sy_stopping with_workers]; rewrite ?Eh; try done.
  intros Hf. destruct (H7 Hf) as [E _]. rewrite Ew in E. by destruct l1.
Qed.

Lemma hub_inv_shut s p : hub_inv s → hub_inv (shut_down p s).
Proof.
  intros [H1 H2 H3 H4 H5 H6 H7 H8]. split; cbn; try done.
  intros Hs q Hq. specialize (H4 Hs q Hq). unfold covered in *. cbn. rewrite elem_of_cons. auto.
Qed.

Lemma hub_inv_set_stopping s : hub_inv s → hub_inv (set_stopping s).
Proof. intros [H1 H2 H3 H4 H5 H6 H7 H8]. split; cbn; try done; auto. Qed.

Definition next_monotone (s s' : System) : Prop := (sy_next s <= sy_next s')%nat.
Lemma turns_next s s' : turns s s' → next_monotone s s'.
Proof.
  unfold next_monotone. intros [T|T|T]; destruct T; cbn; try lia. by destruct shut.
Qed.

(** As many sockets as were accepted. *)
Lemma below_length (l : list nat) n : NoDup l → Forall (λ p, (p < n)%nat) l → (length l <= n)%nat.
Proof.
  intros Hn Hl. rewrite Forall_forall in Hl.
  pose proof (submseteq_length l (seq 0 n)) as H. rewrite length_seq in H. apply H.
  apply NoDup_submseteq; [done|]. intros x Hx. apply elem_of_seq. specialize (Hl x Hx). lia.
Qed.

Lemma hub_inv_active s : hub_inv s → Z.of_nat (sy_next s) < u64_max → u64 (hb_active (sy_hub s) + 1) = zlen (held s) + 1.
Proof.
  intros H Hn. rewrite (hi_active _ H). destruct (hi_fresh _ H) as [F1 F2].
  pose proof (below_length _ _ F1 F2) as F. rewrite length_app in F. apply u64_id.
  unfold is_u64, zlen, u64_max in *. lia.
Qed.

Lemma nodup_submseteq {A} (l k : list A) : NoDup k → l ⊆+ k → NoDup l.
Proof.
  intros Hk (r & E)%submseteq_Permutation. rewrite E in Hk. by apply NoDup_app in Hk as [? _].
Qed.

(** A turn that keeps the hub and what is held. *)
Lemma hub_inv_keep s s' : hub_inv s →
  sy_hub s' = sy_hub s → held s' ≡ₚ held s → accepted (sy_service s') ⊆+ accepted (sy_service s) →
  (sy_next s <= sy_next s')%nat → (sy_stopping s = true → sy_stopping s' = true) →
  sy_stop s' = sy_stop s → (∀ p, p ∈ covered s → p ∈ covered s') →
  past_loop (sy_service s') = past_loop (sy_service s) →
  sy_service s' ≠ Finished → sy_service s ≠ Finished → hub_inv s'.
Proof.
  intros [H1 H2 [H3 H3'] H4 H5 H6 H7 H8] Eh Ed Ha Hn Hs Et Hc Hp Hf' Hf. split; rewrite ?Eh, ?Hp; try done.
  - intros _. rewrite Ed. by apply H1.
  - rewrite H2. unfold zlen. by rewrite Ed.
  - assert (Hsub : held s' ++ accepted (sy_service s') ⊆+ held s ++ accepted (sy_service s)).
    { rewrite Ed. by apply submseteq_skips_l. }
    split; [by eapply nodup_submseteq|]. rewrite Forall_forall in *. intros x Hx.
    assert (x < sy_next s)%nat; [|lia]. apply H3'. by eapply elem_of_submseteq.
  - intros Hst q Hq. apply Hc, H4; [done|]. by rewrite <-Ed.
  - intros Hst. destruct (H5 Hst); auto.
  - rewrite Et. destruct H8; auto.
Qed.

(** [begin_stop] leaves every registered socket to be shut down. *)
Lemma hub_begin_stop_cases h h' victims : hub_begin_stop h = (h', victims) →
  hb_live h' = hb_live h ∧ hb_active h' = hb_active h ∧ hb_stopping h' = true ∧
  (hb_stopping h = false → victims = hb_live h).
Proof. unfold hub_begin_stop. destruct (hb_stopping h) eqn:E; by intros [= <- <-]. Qed.

Lemma service_turn_inv s s' : service_turn s s' → Z.of_nat (sy_next s') < u64_max → hub_inv s → hub_inv s'.
Proof.
  intros T Hn Hi. destruct T as [E|E F|E F|E|E|E|p E F|p h shut E F Eh|p shut E|p E|h victims E Eh|p victims E|E|h E Eh].
  1-3,5-7: apply (hub_inv_keep s); rewrite ?E; try done; try (unfold held, covered; cbn; rewrite ?E; cbn; done);
    cbn; apply submseteq_nil_l.
  - (* a new socket *)
    destruct Hi as [H1 H2 [H3 H3'] H4 H5 H6 H7 H8]. unfold held, covered in *. rewrite E in *. cbn in *.
    rewrite !app_nil_r in *.
    split; unfold held, covered; cbn; rewrite ?app_nil_r; try done; [by auto|].
    split.
    + apply NoDup_app. split; [done|]. split; [|apply NoDup_singleton].
      intros x Hx ->%list_elem_of_singleton. rewrite Forall_forall in H3'. specialize (H3' _ Hx). lia.
    + apply Forall_app. split; [|repeat constructor]. eapply Forall_impl; [exact H3'|]. cbn. lia.
  - (* registered *)
    pose proof (hub_inv_active s Hi) as Hact.
    destruct Hi as [H1 H2 [H3 H3'] H4 H5 H6 H7 H8]. unfold hub_add in Eh. injection Eh as <- <-.
    specialize (Hact ltac:(cbn in Hn; lia)).
    unfold held, covered in *. rewrite E in *. cbn in *. rewrite !app_nil_r in *.
    split; unfold held, covered; cbn; rewrite ?app_nil_r; try done.
    + intros _. by rewrite (H1 ltac:(done)).
    + rewrite Hact, zlen_app. done.
    + intros Hs q. rewrite Hs. rewrite !elem_of_app. intros [Hq|Hq]; [specialize (H4 Hs q Hq); set_solver|set_solver].
  - (* shut down if asked for *)
    assert (Hi' : hub_inv (if shut then shut_down p s else s)) by (destruct shut; [by apply hub_inv_shut|done]).
    destruct shut; apply (hub_inv_keep _ _ Hi'); cbn; rewrite ?E; try done;
      unfold held, covered; cbn; rewrite ?E; cbn; try done; set_solver.
  - (* a worker *)
    apply (hub_inv_keep s); rewrite ?E; try done; unfold held, covered; cbn; rewrite ?E; cbn; try done.
    rewrite app_nil_r. apply Permutation_cons_append.
  - (* begin_stop *)
    apply hub_begin_stop_cases in Eh as (L & A & S & V).
    destruct Hi as [H1 H2 [H3 H3'] H4 H5 H6 H7 H8]. unfold held, covered in *. rewrite E in *. cbn in *.
    rewrite !app_nil_r in *.
    split; unfold held, covered; cbn; rewrite ?app_nil_r, ?L, ?A; try done.
    + intros _. by apply H1.
    + intros _ q Hq. destruct (hb_stopping (sy_hub s)) eqn:Es; [specialize (H4 eq_refl q Hq); set_solver|].
      rewrite V by done. rewrite !elem_of_app, (H1 ltac:(done)). auto.
    + by right.
  - apply (hub_inv_keep s); rewrite ?E; try done; unfold held, covered; cbn; rewrite ?E; cbn; try done.
    set_solver.
  - apply (hub_inv_keep s); rewrite ?E; try done; unfold held, covered; cbn; rewrite ?E; cbn; done.
  - (* drained *)
    unfold hub_drained in Eh. destruct (Z.eqb_spec (hb_active (sy_hub s)) 0) as [Ez|]; [|done]. injection Eh as <-.
    destruct Hi as [H1 H2 [H3 H3'] H4 H5 H6 H7 H8]. unfold held, covered in *. rewrite E in *. cbn in *.
    rewrite !app_nil_r in *.
    assert (Hw : sy_workers s = []).
    { rewrite Ez in H2. unfold zlen in H2. destruct (sy_workers s); [done|]. simpl in H2. lia. }
    split; unfold held, covered; cbn; rewrite ?app_nil_r; try done.
Qed.

Lemma stop_turn_inv s s' : stop_turn s s' → hub_inv s → hub_inv s'.
Proof.
  intros T Hi. destruct T as [E F|E F|E F|h victims E F Eh|p victims E|E].
  - destruct Hi as [H1 H2 H3 H4 H5 H6 H7 H8]. split; try done.
    + intros Hs q Hq. specialize (H4 Hs q Hq). unfold covered in *. cbn. rewrite E in H4. done.
    + by left.
    + by right.
  - destruct Hi as [H1 H2 H3 H4 H5 H6 H7 H8]. split; try done.
    + intros Hs q Hq. specialize (H4 Hs q Hq). unfold covered in *. cbn. rewrite E in H4. done.
    + by right.
  - destruct Hi as [H1 H2 H3 H4 H5 H6 H7 H8]. split; try done.
    + intros Hs q Hq. specialize (H4 Hs q Hq). unfold covered in *. cbn. rewrite E in H4. done.
    + right. cbn. by destruct H8 as [H8|]; [rewrite E in H8|].
  - apply hub_begin_stop_cases in Eh as (L & A & S & V).
    destruct Hi as [H1 H2 H3 H4 H5 H6 H7 H8].
    split; cbn; rewrite ?L, ?A; try done.
    + intros _ q Hq. unfold covered in *. cbn. rewrite E in H4. cbn in H4. change (q ∈ held s) in Hq.
      destruct (hb_stopping (sy_hub s)) eqn:Es; [specialize (H4 eq_refl q Hq); set_solver|].
      rewrite V by done. rewrite !elem_of_app. right; right. rewrite H1; [done|].
      intros Hf. rewrite Hf in H6. by specialize (H6 eq_refl).
    + intros _. left. by destruct H8 as [H8|]; [rewrite E in H8|].
    + right. by destruct H8 as [H8|]; [rewrite E in H8|].
  - apply (hub_inv_shut s p) in Hi as [H1 H2 H3 H4 H5 H6 H7 H8]. split; try done.
    + intros Hs q Hq. specialize (H4 Hs q Hq). unfold covered in *. cbn in *. rewrite E in H4. cbn in H4. set_solver.
    + right. cbn in H8. by destruct H8 as [H8|]; [rewrite E in H8|].
  - destruct Hi as [H1 H2 H3 H4 H5 H6 H7 H8]. split; try done.
    + intros Hs q Hq. specialize (H4 Hs q Hq). unfold covered in *. cbn. rewrite E in H4. done.
    + right. cbn. by destruct H8 as [H8|]; [rewrite E in H8|].
Qed.

Lemma worker_turn_inv s s' : worker_turn s s' → hub_inv s → hub_inv s'.
Proof.
  intros T Hi. destruct T as [l1 l2 p E F|l1 l2 p E F|l1 l2 p E|l1 l2 p E|l1 l2 p E|l1 l2 p E|l1 l2 p E];
    [by eapply hub_inv_phase..|by eapply hub_inv_phase; [apply hub_inv_set_stopping|]|
     by apply hub_inv_shut; eapply hub_inv_phase|].
  assert (Hp : held s ≡ₚ p :: (l1.*1 ++ l2.*1) ++ adding (sy_service s)).
  { unfold held. rewrite E, workers_fst. by rewrite <-Permutation_middle. }
  destruct Hi as [H1 H2 [H3 H3'] H4 H5 H6 H7 H8].
  assert (Ew : (l1 ++ l2).*1 = l1.*1 ++ l2.*1) by apply fmap_app.
  assert (Hf : sy_service s ≠ Finished).
  { intros Hf. destruct (H7 Hf) as [Hw _]. rewrite Hw in E. by destruct l1. }
  split; unfold held; cbn; rewrite ?Ew; try done.
  - intros _. apply erase_first_permutation. by rewrite <-Hp, H1.
  - assert (zlen (held s) = 1 + zlen ((l1.*1 ++ l2.*1) ++ adding (sy_service s))) as Hl.
    { unfold zlen. rewrite Hp. simpl. lia. }
    pose proof (zlen_nonneg ((l1.*1 ++ l2.*1) ++ adding (sy_service s))).
    rewrite H2, Hl. destruct (Z.ltb_spec 0 (1 + zlen ((l1.*1 ++ l2.*1) ++ adding (sy_service s)))); lia.
  - assert (Hsub : ((l1.*1 ++ l2.*1) ++ adding (sy_service s)) ++ accepted (sy_service s) ⊆+
      held s ++ accepted (sy_service s)).
    { rewrite Hp. simpl. by constructor. }
    split; [by eapply nodup_submseteq|]. rewrite Forall_forall in *. intros x Hx. apply H3'.
    by eapply elem_of_submseteq.
  - intros Hs q Hq. apply (H4 Hs). rewrite Hp. by right.
Qed.

Lemma turns_inv s s' : turns s s' → Z.of_nat (sy_next s') < u64_max → hub_inv s → hub_inv s'.
Proof.
  intros [T|T|T] Hn Hi; [by eapply service_turn_inv|by eapply stop_turn_inv|by eapply worker_turn_inv].
Qed.

(** Fewer sockets accepted than a counter can hold. *)
Definition countable_sockets (s : System) : Prop := Z.of_nat (sy_next s) < u64_max.

Lemma turns_countable s s' : rtc turns s s' → countable_sockets s' → countable_sockets s.
Proof.
  unfold countable_sockets. induction 1 as [|x y z T _ IH]; [done|]. intros Hn.
  apply turns_next in T. unfold next_monotone in T. specialize (IH Hn). lia.
Qed.

Lemma turns_run_inv s s' : rtc turns s s' → countable_sockets s' → hub_inv s → hub_inv s'.
Proof.
  induction 1 as [|x y z T Hr IH]; [done|]. intros Hn Hi. apply IH; [done|].
  eapply turns_inv; [done|by eapply turns_countable|done].
Qed.

(** ** Every turn of a stopping service is a step towards its end *)

Definition worker_load (w : SocketRef * WorkerPhase) : nat :=
  match w.2 with InTurn => 4 | AtTop => 3 | Leaving => 2 | Shut => 1 end.
Definition service_load (ph : ServicePhase) : nat :=
  match ph with
  | Registered _ _ => 19 | Spawning _ => 18 | Starting => 15 | Accepting => 14 | Accepted _ => 13
  | LoopTop => 12 | LoopLeft => 9 | HubStopping l => 5 + length l | Draining => 3 | Finished => 0
  end.
Definition stop_load (ph : StopPhase) : nat :=
  match ph with NotAsked => 6 | Asked => 5 | ShuttingDown l => 2 + length l | Returned => 0 end.
Definition load (s : System) : nat :=
  service_load (sy_service s) + stop_load (sy_stop s) + sum_list_with worker_load (sy_workers s).

Lemma load_decreases s s' : turns s s' → hub_inv s → hb_stopping (sy_hub s) = true →
  (load s' < load s)%nat ∧ hb_stopping (sy_hub s') = true.
Proof.
  intros T Hi Hs. pose proof (hi_cause _ Hi Hs) as Hc.
  destruct T as [T|T|T].
  - destruct T as [E|E F|E F|E|E|E|p E F|p h shut E F Eh|p shut E|p E|h victims E Eh|p victims E|E|h E Eh];
      rewrite E in Hc; try (rewrite F in Hc; by destruct Hc); unfold load; rewrite ?E; cbn; try (split; [lia|done]).
    + destruct shut; cbn; split; try lia; done.
    + unfold hub_begin_stop in Eh. rewrite Hs in Eh. injection Eh as <- <-. cbn. split; [lia|done].
    + unfold hub_drained in Eh. destruct (_ =? 0); [|done]. injection Eh as <-. split; [lia|done].
  - destruct T as [E F|E F|E F|h victims E F Eh|p victims E|E]; unfold load; rewrite ?E; cbn; try (split; [lia|done]).
    unfold hub_begin_stop in Eh. rewrite Hs in Eh. injection Eh as <- <-. cbn. split; [lia|done].
  - destruct T as [l1 l2 p E F|l1 l2 p E F|l1 l2 p E|l1 l2 p E|l1 l2 p E|l1 l2 p E|l1 l2 p E]; try congruence;
      unfold load; rewrite E; cbn; rewrite !sum_list_with_app; cbn; split; try lia; done.
Qed.

Lemma worker_enabled s : sy_workers s ≠ [] → ∃ s', turns s s'.
Proof.
  destruct (sy_workers s) as [|[p ph] ws] eqn:E; [done|]. intros _.
  destruct ph; [destruct (hb_stopping (sy_hub s)) eqn:F| | |]; eexists; apply by_worker.
  - by apply (worker_stops s [] ws p).
  - by apply (worker_begins s [] ws p).
  - by apply (worker_breaks s [] ws p).
  - by apply (worker_closes s [] ws p).
  - by apply (worker_removes s [] ws p).
Qed.

(** Nothing blocks but the end. *)
Lemma turn_enabled s : hub_inv s → sy_service s = Finished ∨ ∃ s', turns s s'.
Proof.
  intros Hi. destruct (sy_service s) as [| | |p|p shut|p| |l| |] eqn:E; [right..|by left].
  - eexists. apply by_service. by apply turn_start.
  - destruct (sy_stopping s) eqn:F; eexists; apply by_service; [by apply turn_asked|by apply turn_loop].
  - eexists. apply by_service. by apply turn_accept_failed.
  - destruct (sy_stopping s) eqn:F; eexists; apply by_service; [by eapply turn_dropped|by eapply turn_add].
  - eexists. apply by_service. by eapply turn_added.
  - eexists. apply by_service. by eapply turn_spawn.
  - destruct (hub_begin_stop (sy_hub s)) as [h victims] eqn:F.
    eexists. apply by_service. by eapply turn_begin_stop.
  - destruct l; eexists; apply by_service; [by apply turn_wait|by eapply turn_victim].
  - destruct (decide (sy_workers s = [])) as [Hw|]; [|by apply worker_enabled].
    eexists. apply by_service. eapply turn_drained; [done|]. unfold hub_drained.
    rewrite (hi_active _ Hi). unfold held. by rewrite Hw, E.
Qed.

Module Shutdown.

(** No connection slips past a shutdown.  In every interleaving of the accept
    loop, the workers and the caller of [stop], once the hub is stopping each
    registered connection has been shut down or is about to be by a thread that is
    under way: when none is, every live socket is shut down. *)
Theorem no_connection_slips_in (s : System) :
  rtc turns system0 s → countable_sockets s → hb_stopping (sy_hub s) = true →
  service_victims (sy_service s) = [] → stop_victims (sy_stop s) = [] →
  ∀ p, p ∈ hb_live (sy_hub s) → p ∈ sy_shut s.
Proof.
  intros Hr Hn Hs V1 V2 p Hp. pose proof (turns_run_inv _ _ Hr Hn hub_inv0) as Hi.
  destruct (decide (sy_service s = Finished)) as [Hf|Hf].
  { destruct (hi_finished _ Hi Hf) as [_ El]. rewrite El in Hp. by apply elem_of_nil in Hp. }
  rewrite (hi_live _ Hi Hf) in Hp. apply (hi_covered _ Hi Hs) in Hp. unfold covered in Hp.
  by rewrite V1, V2, !app_nil_r in Hp.
Qed.

(** C15: A shutdown always completes.  Once the hub is stopping every turn of any
    thread reduces the work that is left, so no interleaving goes on for longer
    than that; and wherever it ends - no thread has a turn left - the service has
    finished, and no worker and no registered connection remains. *)
Theorem stop_drains (s : System) :
  rtc turns system0 s → hb_stopping (sy_hub s) = true →
  (∀ n s', nsteps turns n s s' → countable_sockets s' → (n <= load s)%nat) ∧
  (∀ s', rtc turns s s' → countable_sockets s' → (∀ s'', ¬ turns s' s'') →
     sy_service s' = Finished ∧ sy_workers s' = [] ∧ hb_live (sy_hub s') = []).
Proof.
  intros Hr Hs. split.
  - intros n s' H Hn. revert Hr Hs. induction H as [|n x y z T H IH]; intros Hr Hs; [lia|].
    assert (Hy : countable_sockets y) by (eapply turns_countable; [by eapply rtc_nsteps_2|done]).
    assert (Hx : countable_sockets x) by (eapply turns_countable; [by apply rtc_once|done]).
    destruct (load_decreases x y T (turns_run_inv _ _ Hr Hx hub_inv0) Hs) as [Hl Hs'].
    specialize (IH Hn (rtc_r _ _ _ Hr T) Hs'). lia.
  - intros s' H Hn Hstuck. assert (Hi : hub_inv s') by (eapply (turns_run_inv system0); [by etransitivity|done|apply hub_inv0]).
    destruct (turn_enabled s' Hi) as [Hf|[s'' T]]; [|by destruct (Hstuck s'')].
    split; [done|]. exact (hi_finished _ Hi Hf).
Qed.
End Shutdown.

(** ** One connection, accepted and then stopped *)

Definition demo_connected : System :=
  mkSystem (mkHub [0%nat] 1 false) false [] 1 LoopTop NotAsked [(0%nat, AtTop)].
Definition demo_stopped : System :=
  mkSystem (mkHub [0%nat] 1 true) true [0%nat] 1 LoopTop (ShuttingDown []) [(0%nat, AtTop)].

Lemma demo_connects : rtc turns system0 demo_connected.
Proof.
  eapply rtc_l; [by apply by_service, turn_start|].
  eapply rtc_l; [by apply by_service, turn_loop|].
  eapply rtc_l; [by apply by_service, turn_accepted|].
  eapply rtc_l; [by apply by_service; eapply turn_add|].
  eapply rtc_l; [by apply by_service; eapply turn_added|].
  eapply rtc_l; [by apply by_service; eapply turn_spawn|]. apply rtc_refl.
Qed.

Lemma demo_stops : rtc turns system0 demo_stopped.
Proof.
  etransitivity; [exact demo_connects|].
  eapply rtc_l; [by apply by_stop, stop_ask|].
  eapply rtc_l; [by apply by_stop; eapply stop_begin|].
  eapply rtc_l; [by apply by_stop; eapply stop_victim|]. apply rtc_refl.
Qed.

Lemma demo_countable : countable_sockets demo_stopped.
Proof. unfold countable_sockets, u64_max. cbn. lia. Qed.

Lemma no_connection_slips_in_witness : 0%nat ∈ hb_live (sy_hub demo_stopped) ∧ 0%nat ∈ sy_shut demo_stopped.
Proof.
  assert (Hl : 0%nat ∈ hb_live (sy_hub demo_stopped)) by left. split; [exact Hl|].
  exact (Shutdown.no_connection_slips_in demo_stopped demo_stops demo_countable eq_refl eq_refl eq_refl 0%nat Hl).
Defined.

Lemma stop_drains_witness : load demo_stopped = 17%nat ∧
  ∀ n s', nsteps turns n demo_stopped s' → countable_sockets s' → (n <= 17)%nat.
Proof. split; [reflexivity|]. exact (proj1 (Shutdown.stop_drains demo_stopped demo_stops eq_refl)). Defined.
