(* ===== verification/Digest.v ===== *)
(** * CRC-32C and SHA-256

    Models [include/sbf/digest.hpp] and [src/digest.cpp]: the table-driven
    CRC-32C with its streaming builder, the SHA-256 builder (buffering,
    compression, padding) and the hexadecimal form of a digest. *)
From S2P Require Import Prelude Order Status Ids Text.
Open Scope Z_scope.

(** ** CRC-32C (Castagnoli, reflected) *)
Module Crc.
(** One turn of the inner loop of [Crc32cTable]. *)
Definition table_bit (crc : Z) : Z :=
  if Z.land crc 1 =? 1 then Z.lxor (Z.shiftr crc 1) 0x82F63B78 else Z.shiftr crc 1.

Definition table_entry (i : Z) : Z := Nat.iter 8 table_bit i.

(** [kCrcTable]. *)
Definition table : list Z := table_entry <$> seqZ 0 256.

Definition lookup_table (i : Z) : Z := nth (Z.to_nat i) table 0.

(** The body of the loop of [Crc32cBuilder::update]. *)
Definition step (crc : Z) (b : byte) : Z :=
  Z.lxor (lookup_table (Z.land (Z.lxor crc (byte_to_Z b)) 255)) (Z.shiftr crc 8).

(** [Crc32cBuilder::update]: [state_] is kept complemented between calls. *)
Definition update (state : Z) (data : bytes) : Z :=
  Z.lxor (foldl step (Z.lxor state 0xFFFFFFFF) data) 0xFFFFFFFF.
End Crc.

Definition crc32c (data : bytes) : Z := Crc.update 0 data.

(** ** SHA-256 *)
Abbreviation Digest256 := bytes (only parsing).

Module Sha.
Definition rotate_right (value count : Z) : Z :=
  Z.lor (Z.shiftr value count) (u32 (Z.shiftl value (32 - count))).

Definition K : list Z :=
  [0x428A2F98; 0x71374491; 0xB5C0FBCF; 0xE9B5DBA5; 0x3956C25B; 0x59F111F1; 0x923F82A4;
   0xAB1C5ED5; 0xD807AA98; 0x12835B01; 0x243185BE; 0x550C7DC3; 0x72BE5D74; 0x80DEB1FE;
   0x9BDC06A7; 0xC19BF174; 0xE49B69C1; 0xEFBE4786; 0x0FC19DC6; 0x240CA1CC; 0x2DE92C6F;
   0x4A7484AA; 0x5CB0A9DC; 0x76F988DA; 0x983E5152; 0xA831C66D; 0xB00327C8; 0xBF597FC7;
   0xC6E00BF3; 0xD5A79147; 0x06CA6351; 0x14292967; 0x27B70A85; 0x2E1B2138; 0x4D2C6DFC;
   0x53380D13; 0x650A7354; 0x766A0ABB; 0x81C2C92E; 0x92722C85; 0xA2BFE8A1; 0xA81A664B;
   0xC24B8B70; 0xC76C51A3; 0xD192E819; 0xD6990624; 0xF40E3585; 0x106AA070; 0x19A4C116;
   0x1E376C08; 0x2748774C; 0x34B0BCB5; 0x391C0CB3; 0x4ED8AA4A; 0x5B9CCA4F; 0x682E6FF3;
   0x748F82EE; 0x78A5636F; 0x84C87814; 0x8CC70208; 0x90BEFFFA; 0xA4506CEB; 0xBEF9A3F7;
   0xC67178F2].

Record words8 := W8 { wa : Z; wb : Z; wc : Z; wd : Z; we : Z; wf : Z; wg : Z; wh : Z }.

Definition initial : words8 :=
  W8 0x6A09E667 0xBB67AE85 0x3C6EF372 0xA54FF53A 0x510E527F 0x9B05688C 0x1F83D9AB 0x5BE0CD19.

(** The sixteen big-endian words of a block. *)
Fixpoint block_words (b : bytes) : list Z :=
  match b with
  | b0 :: b1 :: b2 :: b3 :: r =>
      Z.lor (Z.lor (Z.lor (Z.shiftl (byte_to_Z b0) 24) (Z.shiftl (byte_to_Z b1) 16))
                   (Z.shiftl (byte_to_Z b2) 8)) (byte_to_Z b3) :: block_words r
  | _ => []
  end.

(** One turn of the message-schedule loop; [w] holds [w[i-1]], [w[i-2]], ... *)
Definition extend (w : list Z) : list Z :=
  let at_ k := nth (k - 1)%nat w 0 in
  let s0 := Z.lxor (Z.lxor (rotate_right (at_ 15%nat) 7) (rotate_right (at_ 15%nat) 18))
                   (Z.shiftr (at_ 15%nat) 3) in
  let s1 := Z.lxor (Z.lxor (rotate_right (at_ 2%nat) 17) (rotate_right (at_ 2%nat) 19))
                   (Z.shiftr (at_ 2%nat) 10) in
  u32 (at_ 16%nat + s0 + at_ 7%nat + s1) :: w.

Definition schedule (block : bytes) : list Z :=
  reverse (Nat.iter 48 extend (reverse (block_words block))).

Definition round (s : words8) (kw : Z * Z) : words8 :=
  let '(W8 a b c d e f g h) := s in
  let s1 := Z.lxor (Z.lxor (rotate_right e 6) (rotate_right e 11)) (rotate_right e 25) in
  let ch := Z.lxor (Z.land e f) (Z.land (Z.lxor e 0xFFFFFFFF) g) in
  let temp1 := u32 (h + s1 + ch + kw.1 + kw.2) in
  let s0 := Z.lxor (Z.lxor (rotate_right a 2) (rotate_right a 13)) (rotate_right a 22) in
  let maj := Z.lxor (Z.lxor (Z.land a b) (Z.land a c)) (Z.land b c) in
  let temp2 := u32 (s0 + maj) in
  W8 (u32 (temp1 + temp2)) a b c (u32 (d + temp1)) e f g.

Definition compress (s : words8) (block : bytes) : words8 :=
  let r := foldl round s (zip K (schedule block)) in
  W8 (u32 (wa s + wa r)) (u32 (wb s + wb r)) (u32 (wc s + wc r)) (u32 (wd s + wd r))
     (u32 (we s + we r)) (u32 (wf s + wf r)) (u32 (wg s + wg r)) (u32 (wh s + wh r)).

(** [Sha256Builder]: [buffer] is [buffer_[0 .. buffer_length_)]. *)
Record Sha256Builder := mkBuilder { state : words8; buffer : bytes; bit_length : Z }.

Definition fresh : Sha256Builder := mkBuilder initial [] 0.

(** The loop of [update]: fill the buffer, compress when it reaches 64
    bytes.  Every turn consumes at least one byte, so [length data] turns
    are enough fuel. *)
Fixpoint absorb (fuel : nat) (s : words8) (buf data : bytes) : words8 * bytes :=
  match fuel with
  | O => (s, buf)
  | S fuel' =>
      match data with
      | [] => (s, buf)
      | _ =>
          let take_ := Nat.min (length data) (64 - length buf) in
          let buf' := buf ++ take take_ data in
          if (length buf' =? 64)%nat
          then absorb fuel' (compress s buf') [] (drop take_ data)
          else absorb fuel' s buf' (drop take_ data)
      end
  end.

Definition update (b : Sha256Builder) (data : bytes) : Sha256Builder :=
  let '(s, buf) := absorb (length data) (state b) (buffer b) data in
  mkBuilder s buf (u64 (bit_length b + u64 (zlen data * 8))).

Definition word_bytes (w : Z) : bytes :=
  [byte_of_Z (Z.shiftr w 24); byte_of_Z (Z.shiftr w 16); byte_of_Z (Z.shiftr w 8); byte_of_Z w].

Definition zeros (n : nat) : bytes := replicate n x00.

Definition finish (b : Sha256Builder) : Digest256 :=
  let bits := bit_length b in
  let buf := buffer b ++ [byte_of_Z 0x80] in
  let '(s, buf) :=
    if (56 <? length buf)%nat
    then (compress (state b) (buf ++ zeros (64 - length buf)), [])
    else (state b, buf) in
  let buf := buf ++ zeros (56 - length buf) in
  let tail := (λ i, byte_of_Z (Z.shiftr bits (i * 8))) <$> [7; 6; 5; 4; 3; 2; 1; 0] in
  let '(W8 a b c d e f g h) := compress s (buf ++ tail) in
  word_bytes a ++ word_bytes b ++ word_bytes c ++ word_bytes d ++
  word_bytes e ++ word_bytes f ++ word_bytes g ++ word_bytes h.
End Sha.

(** [Digest256::of]. *)
Definition Digest256_of (data : bytes) : Digest256 := Sha.finish (Sha.update Sha.fresh data).

(** [Digest256{}]. *)
Definition Digest256_zero : Digest256 := replicate 32 x00.

(** [Digest256::hex]. *)
Definition Digest256_hex (d : Digest256) : bytes :=
  d ≫= λ b, [hex_digit (Z.land (Z.shiftr (byte_to_Z b) 4) 15); hex_digit (Z.land (byte_to_Z b) 15)].

Definition hex_nibble (c : byte) : option Z :=
  let z := byte_to_Z c in
  if in_range 48 57 z then Some (z - 48)
  else if in_range 97 102 z then Some (z - 97 + 10)
  else if in_range 65 70 z then Some (z - 65 + 10)
  else None.

(** The loop of [Digest256::parse]; [i] is the position of the next character. *)
Fixpoint digest_parse_loop (i : Z) (hex : bytes) : result Digest256 :=
  match hex with
  | c :: d :: r =>
      match hex_nibble c, hex_nibble d with
      | None, _ => Err (mkStatus Outcome.Invalid Reason.IdCharset i)
      | _, None => Err (mkStatus Outcome.Invalid Reason.IdCharset (i + 1))
      | Some h, Some l =>
          let* rest := digest_parse_loop (i + 2) r in
          Ret (byte_of_Z (Z.lor (Z.shiftl h 4) l) :: rest)
      end
  | _ => Ret []
  end.

Definition Digest256_parse (hex : bytes) : result Digest256 :=
  if negb (zlen hex =? 64) then Err (mkStatus Outcome.Invalid Reason.ValueOutOfRange (zlen hex))
  else digest_parse_loop 0 hex.

(** ** Bounds and bit facts *)

Lemma lxor_bound n a b : 0 <= n → 0 <= a < 2 ^ n → 0 <= b < 2 ^ n → 0 <= Z.lxor a b < 2 ^ n.
Proof.
  intros Hn Ha Hb.
  assert (E : Z.lxor a b = Z.lxor a b mod 2 ^ n).
  { rewrite <-(Z.mod_small a (2 ^ n)) at 1 by done.
    rewrite <-(Z.mod_small b (2 ^ n)) at 1 by done.
    rewrite <-!Z.land_ones by done. apply Z.bits_inj'. intros k Hk.
    rewrite ?Z.lxor_spec, ?Z.land_spec, ?Z.lxor_spec.
    destruct (Z.testbit (Z.ones n) k); rewrite ?andb_true_r, ?andb_false_r; done. }
  rewrite E. apply Z.mod_pos_bound. lia.
Qed.

Lemma shiftr_bound n k a : 0 <= k <= n → 0 <= a < 2 ^ n → 0 <= Z.shiftr a k < 2 ^ (n - k).
Proof.
  intros Hk Ha. rewrite Z.shiftr_div_pow2 by lia.
  assert (0 < 2 ^ k) by (apply Z.pow_pos_nonneg; lia).
  split; [apply Z.div_pos; lia|]. apply Z.div_lt_upper_bound; [lia|].
  rewrite <-Z.pow_add_r by lia. replace (k + (n - k)) with n by lia. lia.
Qed.

Lemma land255 a : Z.land a 255 = a mod 256.
Proof. change 255 with (Z.ones 8). by rewrite Z.land_ones by lia. Qed.

Lemma lxor_cancel_l a b c : Z.lxor a b = Z.lxor a c → b = c.
Proof.
  intros E. apply (f_equal (Z.lxor a)) in E.
  by rewrite <-!Z.lxor_assoc, !Z.lxor_nilpotent, !Z.lxor_0_l in E.
Qed.

Lemma lxor_cancel_r a b c : Z.lxor b a = Z.lxor c a → b = c.
Proof. rewrite !(Z.lxor_comm _ a). apply lxor_cancel_l. Qed.

Lemma lxor_twice a m : Z.lxor (Z.lxor a m) m = a.
Proof. by rewrite Z.lxor_assoc, Z.lxor_nilpotent, Z.lxor_0_r. Qed.

(** ** CRC-32C detects corruption *)
Section crc_facts.
Import Crc.

Lemma lookup_table_entry i : 0 <= i < 256 → lookup_table i = table_entry i.
Proof.
  intros Hi. unfold lookup_table, table. rewrite nth_lookup, list_lookup_fmap.
  rewrite lookup_seqZ_lt by lia. simpl. f_equal. lia.
Qed.

(** The table as computed: in range, and with pairwise distinct top bytes. *)
Lemma table_range i : 0 <= i < 256 → 0 <= table_entry i < 2 ^ 32.
Proof.
  intros Hi.
  assert (Forall (λ i, 0 <= table_entry i < 2 ^ 32) (seqZ 0 256)) as HF.
  { apply (bool_decide_unpack _). by vm_compute. }
  rewrite Forall_forall in HF. apply HF, elem_of_seqZ. lia.
Qed.

Lemma table_top_inj i j : 0 <= i < 256 → 0 <= j < 256 →
  Z.shiftr (table_entry i) 24 = Z.shiftr (table_entry j) 24 → i = j.
Proof.
  intros Hi Hj E.
  assert (NoDup ((λ i, Z.shiftr (table_entry i) 24) <$> seqZ 0 256)) as HN.
  { apply (bool_decide_unpack _). by vm_compute. }
  assert (Z.to_nat i = Z.to_nat j); [|lia].
  eapply NoDup_lookup; [exact HN| |];
    rewrite list_lookup_fmap, lookup_seqZ_lt by lia; simpl; [done|].
  f_equal. rewrite !Z2Nat.id by lia. by rewrite !Z.add_0_l.
Qed.

Lemma index_range crc b : 0 <= Z.land (Z.lxor crc (byte_to_Z b)) 255 < 256.
Proof. rewrite land255. apply Z.mod_pos_bound. lia. Qed.

Lemma step_range crc b : 0 <= crc < 2 ^ 32 → 0 <= step crc b < 2 ^ 32.
Proof.
  intros Hc. unfold step. apply lxor_bound; [lia| |].
  - rewrite lookup_table_entry by apply index_range. apply table_range, index_range.
  - pose proof (shiftr_bound 32 8 crc). change (2 ^ (32 - 8)) with (2 ^ 24) in *. lia.
Qed.

Lemma step_top crc b : 0 <= crc < 2 ^ 32 →
  Z.shiftr (step crc b) 24 = Z.shiftr (table_entry (Z.land (Z.lxor crc (byte_to_Z b)) 255)) 24.
Proof.
  intros Hc. unfold step. rewrite lookup_table_entry by apply index_range.
  rewrite Z.shiftr_lxor, Z.shiftr_shiftr by lia. simpl (8 + 24).
  rewrite (Z.shiftr_div_pow2 crc) by lia. rewrite (Z.div_small crc) by lia.
  by rewrite Z.lxor_0_r.
Qed.

Lemma mod256_lxor a b : Z.lxor a b mod 256 = Z.lxor (a mod 256) (b mod 256).
Proof.
  rewrite <-!land255. apply Z.bits_inj'. intros k Hk.
  rewrite !Z.lxor_spec, !Z.land_spec, Z.lxor_spec.
  destruct (Z.testbit 255 k); by rewrite ?andb_true_r, ?andb_false_r.
Qed.

(** A step loses no information: two states (or two bytes) that differ
    lead to states that differ. *)
Lemma step_inj c1 c2 b1 b2 : 0 <= c1 < 2 ^ 32 → 0 <= c2 < 2 ^ 32 →
  step c1 b1 = step c2 b2 → Z.shiftr c1 8 = Z.shiftr c2 8 ∧
  Z.lxor (c1 mod 256) (byte_to_Z b1) = Z.lxor (c2 mod 256) (byte_to_Z b2).
Proof.
  intros H1 H2 E.
  assert (Ei : Z.land (Z.lxor c1 (byte_to_Z b1)) 255 = Z.land (Z.lxor c2 (byte_to_Z b2)) 255).
  { apply table_top_inj; [apply index_range..|]. rewrite <-!step_top by done. by rewrite E. }
  split.
  - unfold step in E. rewrite Ei in E. by apply lxor_cancel_l in E.
  - rewrite !land255, !mod256_lxor in Ei.
    rewrite (Z.mod_small (byte_to_Z b1)), (Z.mod_small (byte_to_Z b2)) in Ei
      by apply byte_to_Z_range. done.
Qed.

Lemma step_inj_state c1 c2 b : 0 <= c1 < 2 ^ 32 → 0 <= c2 < 2 ^ 32 →
  step c1 b = step c2 b → c1 = c2.
Proof.
  intros H1 H2 E. apply step_inj in E as [E8 El]; [|done..].
  apply lxor_cancel_r in El. rewrite !Z.shiftr_div_pow2 in E8 by lia.
  change (2 ^ 8) with 256 in E8.
  rewrite (Z.div_mod c1 256), (Z.div_mod c2 256) by lia. by rewrite E8, El.
Qed.

Lemma step_inj_byte c b1 b2 : 0 <= c < 2 ^ 32 → step c b1 = step c b2 → b1 = b2.
Proof.
  intros Hc E. apply step_inj in E as [_ El]; [|done..].
  apply lxor_cancel_l in El. by apply (inj byte_to_Z).
Qed.

Lemma foldl_step_range s l : 0 <= s < 2 ^ 32 → 0 <= foldl step s l < 2 ^ 32.
Proof. revert s. induction l as [|b l IH]; simpl; auto using step_range. Qed.

Lemma foldl_step_inj s1 s2 l : 0 <= s1 < 2 ^ 32 → 0 <= s2 < 2 ^ 32 →
  foldl step s1 l = foldl step s2 l → s1 = s2.
Proof.
  revert s1 s2. induction l as [|b l IH]; simpl; [done|]. intros s1 s2 H1 H2 E.
  apply IH in E; [|by apply step_range..]. by apply step_inj_state in E.
Qed.

Lemma update_range s l : 0 <= s < 2 ^ 32 → 0 <= update s l < 2 ^ 32.
Proof.
  intros. unfold update. apply lxor_bound; [lia| |lia].
  apply foldl_step_range, lxor_bound; lia.
Qed.

Lemma crc32c_range l : is_u32 (crc32c l).
Proof. apply update_range. lia. Qed.

Lemma update_app s a b : update (update s a) b = update s (a ++ b).
Proof. unfold update. by rewrite lxor_twice, foldl_app. Qed.

(** Replacing one byte of a message by a different one changes its CRC. *)
Theorem crc32c_detects_byte (pre post : bytes) (b c : byte) :
  b ≠ c → crc32c (pre ++ b :: post) ≠ crc32c (pre ++ c :: post).
Proof.
  intros Hne E. unfold crc32c, update in E. apply lxor_cancel_r in E.
  rewrite !foldl_app in E. simpl in E.
  set (s := foldl step _ pre) in E.
  assert (Hs : 0 <= s < 2 ^ 32) by (apply foldl_step_range; vm_compute; split; congruence).
  apply foldl_step_inj in E; [|by apply step_range..].
  by apply step_inj_byte in E.
Qed.

Lemma crc32c_insert (l : bytes) i b c : l !! i = Some b → b ≠ c →
  crc32c (<[i:=c]> l) ≠ crc32c l.
Proof.
  intros Hi Hne. rewrite <-(take_drop_middle l i b Hi) at 2.
  rewrite insert_take_drop by (by eapply lookup_lt_Some).
  intros E. symmetry in E. by apply crc32c_detects_byte in E.
Qed.
End crc_facts.

(** ** SHA-256 against its block-wise definition *)

(** The first [n] 64-byte blocks of a message. *)
Fixpoint blocks (n : nat) (l : bytes) : list bytes :=
  match n with O => [] | S m => take 64 l :: blocks m (drop 64 l) end.

(** FIPS 180-4 padding: [0x80], zeros up to 56 modulo 64, the bit length as
    eight big-endian bytes. *)
Definition sha_length_bytes (len : Z) : bytes :=
  (λ i, byte_of_Z (Z.shiftr (u64 (len * 8)) (i * 8))) <$> [7; 6; 5; 4; 3; 2; 1; 0].

Definition sha_pad (m : bytes) : bytes :=
  m ++ byte_of_Z 0x80 :: Sha.zeros ((119 - length m mod 64) mod 64) ++ sha_length_bytes (zlen m).

Definition sha_output (s : Sha.words8) : Digest256 :=
  let '(Sha.W8 a b c d e f g h) := s in
  Sha.word_bytes a ++ Sha.word_bytes b ++ Sha.word_bytes c ++ Sha.word_bytes d ++
  Sha.word_bytes e ++ Sha.word_bytes f ++ Sha.word_bytes g ++ Sha.word_bytes h.

(** The reference: compress every block of the padded message in order. *)
Definition sha256_reference (m : bytes) : Digest256 :=
  let p := sha_pad m in
  sha_output (foldl Sha.compress Sha.initial (blocks (length p / 64) p)).

Lemma blocks_app n m l k : (length l = 64 * n)%nat →
  blocks (n + m) (l ++ k) = blocks n l ++ blocks m k.
Proof.
  revert l. induction n as [|n IH]; intros l Hl; simpl.
  - apply length_zero_iff_nil in Hl. by subst.
  - rewrite take_app_le, drop_app_le by lia. f_equal. apply IH.
    rewrite length_drop. lia.
Qed.

(** The absorb loop: full blocks are compressed in order, the rest is kept. *)
Lemma absorb_spec fuel s buf data : (length data <= fuel)%nat → (length buf < 64)%nat →
  Sha.absorb fuel s buf data =
    let n := (length (buf ++ data) / 64)%nat in
    (foldl Sha.compress s (blocks n (buf ++ data)), drop (64 * n) (buf ++ data)).
Proof.
  revert s buf data. induction fuel as [|fuel IH]; intros s buf data Hf Hb.
  { assert (data = []) as -> by (destruct data; simpl in *; [done|lia]).
    rewrite app_nil_r, Nat.div_small by done. done. }
  cbn [Sha.absorb]. destruct data as [|d data'] eqn:Ed.
  { rewrite app_nil_r, Nat.div_small by done. done. }
  rewrite <-Ed in *. assert (0 < length data)%nat by (subst; simpl; lia). clear Ed d data'.
  set (t := Nat.min (length data) (64 - length buf)).
  rewrite length_app, length_take.
  destruct (Nat.eqb_spec (length buf + Nat.min t (length data)) 64) as [E|E].
  - rewrite IH by (rewrite ?length_drop; simpl; lia). cbv zeta. rewrite app_nil_l.
    assert (Hsplit : buf ++ data = (buf ++ take t data) ++ drop t data)
      by (by rewrite <-app_assoc, take_drop).
    assert (Hl : length (buf ++ take t data) = 64%nat)
      by (rewrite length_app, length_take; lia).
    rewrite Hsplit, length_app, Hl.
    replace ((64 + length (drop t data)) / 64)%nat with (1 + length (drop t data) / 64)%nat.
    2: { replace (64 + length (drop t data))%nat with (1 * 64 + length (drop t data))%nat by lia.
         rewrite Nat.div_add_l by lia. done. }
    rewrite (blocks_app 1) by lia. rewrite foldl_app. f_equal.
    + cbn [blocks foldl]. by rewrite (take_ge (buf ++ _)) by (rewrite Hl; lia).
    + rewrite drop_app_ge by (rewrite Hl; lia). rewrite Hl. f_equal. lia.
  - assert (t = length data) by lia. rewrite drop_ge by lia.
    rewrite (take_ge data) by lia.
    assert (Hlt : (length (buf ++ data) < 64)%nat) by (rewrite length_app; lia).
    rewrite (Nat.div_small _ 64) by done. simpl.
    destruct fuel; [by rewrite ?drop_0|]. simpl. done.
Qed.

Lemma length_blocks_rest (l : bytes) :
  length (drop (64 * (length l / 64)) l) = (length l mod 64)%nat.
Proof. rewrite length_drop. pose proof (Nat.div_mod_eq (length l) 64). lia. Qed.

(** [Sha256Builder] buffers, compresses and pads exactly as the block-wise
    definition prescribes, whatever the message length. *)
Theorem sha256_is_reference (m : bytes) : Digest256_of m = sha256_reference m.
Proof.
  unfold Digest256_of, Sha.update, Sha.fresh. cbn [Sha.state Sha.buffer Sha.bit_length].
  rewrite absorb_spec by (simpl; lia). cbv zeta. rewrite app_nil_l.
  set (n := (length m / 64)%nat). set (s := foldl _ _ (blocks n m)).
  set (buf := drop (64 * n) m). set (r := (length m mod 64)%nat).
  assert (Hbuf : length buf = r) by apply length_blocks_rest.
  assert (Hr : (r < 64)%nat) by (apply Nat.mod_upper_bound; lia).
  assert (Hm : m = take (64 * n) m ++ buf) by (unfold buf; by rewrite take_drop).
  assert (Ht : length (take (64 * n) m) = (64 * n)%nat).
  { rewrite length_take. pose proof (Nat.div_mod_eq (length m) 64). unfold n. lia. }
  assert (Hblk : blocks n m = blocks n (take (64 * n) m)).
  { rewrite Hm at 1. rewrite <-(Nat.add_0_r n) at 1. rewrite blocks_app by done.
    by rewrite app_nil_r. }
  unfold Sha.finish. cbn [Sha.state Sha.buffer Sha.bit_length].
  rewrite Z.add_0_l. replace (u64 (u64 (zlen m * 8))) with (u64 (zlen m * 8))
    by (unfold u64; by rewrite Z.mod_mod by lia).
  fold (sha_length_bytes (zlen m)).
  assert (Hlen8 : length (sha_length_bytes (zlen m)) = 8%nat) by done.
  unfold sha256_reference, sha_pad. fold r.
  rewrite length_app, Hbuf. cbn [length].
  destruct (Nat.ltb_spec 56 (r + 1)) as [L|L].
  - replace ((119 - r) mod 64)%nat with (119 - r)%nat by (symmetry; apply Nat.mod_small; lia).
    cbn [app]. rewrite Nat.sub_0_r.
    set (b1 := (buf ++ [byte_of_Z 128]) ++ Sha.zeros (64 - (r + 1))).
    set (b2 := Sha.zeros 56 ++ sha_length_bytes (zlen m)).
    assert (Hb1 : length b1 = 64%nat)
      by (unfold b1, Sha.zeros; rewrite !length_app, length_replicate, Hbuf; simpl; lia).
    assert (Hb2 : length b2 = 64%nat)
      by (unfold b2, Sha.zeros; rewrite length_app, length_replicate, Hlen8; lia).
    assert (Hp : m ++ byte_of_Z 128 :: Sha.zeros (119 - r) ++ sha_length_bytes (zlen m)
                 = take (64 * n) m ++ b1 ++ b2).
    { rewrite Hm at 1. unfold b1, b2, Sha.zeros. rewrite <-!app_assoc. do 2 f_equal.
      cbn [app]. f_equal. rewrite app_assoc, <-replicate_add. do 2 f_equal. lia. }
    rewrite Hp. rewrite !length_app, Ht, Hb1, Hb2.
    replace ((64 * n + (64 + 64)) / 64)%nat with (n + (1 + 1))%nat
      by (replace (64 * n + (64 + 64))%nat with ((n + 2) * 64)%nat by lia; rewrite Nat.div_mul; lia).
    rewrite blocks_app by done. rewrite (blocks_app 1 1) by lia.
    rewrite !foldl_app, <-Hblk. fold s. cbn [blocks foldl].
    rewrite (take_ge b1), (take_ge b2) by lia. done.
  - replace ((119 - r) mod 64)%nat with (55 - r)%nat.
    2: { replace (119 - r)%nat with (55 - r + 1 * 64)%nat by lia.
         rewrite Nat.Div0.mod_add, Nat.mod_small; lia. }
    rewrite length_app, Hbuf. cbn [length].
    set (b1 := ((buf ++ [byte_of_Z 128]) ++ Sha.zeros (56 - (r + 1))) ++ sha_length_bytes (zlen m)).
    assert (Hb1 : length b1 = 64%nat)
      by (unfold b1, Sha.zeros; rewrite !length_app, length_replicate, Hbuf, Hlen8; simpl; lia).
    assert (Hp : m ++ byte_of_Z 128 :: Sha.zeros (55 - r) ++ sha_length_bytes (zlen m)
                 = take (64 * n) m ++ b1).
    { rewrite Hm at 1. unfold b1. rewrite <-!app_assoc. do 2 f_equal. cbn [app]. do 3 f_equal. lia. }
    rewrite Hp. rewrite !length_app, Ht, Hb1.
    replace ((64 * n + 64) / 64)%nat with (n + 1)%nat
      by (replace (64 * n + 64)%nat with ((n + 1) * 64)%nat by lia; rewrite Nat.div_mul; lia).
    rewrite blocks_app by done.
    rewrite !foldl_app, <-Hblk. fold s. cbn [blocks foldl].
    rewrite (take_ge b1) by lia. done.
Qed.

Lemma length_digest m : length (Digest256_of m) = 32%nat.
Proof.
  unfold Digest256_of, Sha.finish. destruct (56 <? _)%nat; by destruct (Sha.compress _ _).
Qed.

(** ** Hexadecimal form *)

Lemma byte_nibbles b :
  hex_nibble (hex_digit (Z.land (Z.shiftr (byte_to_Z b) 4) 15)) = Some (byte_to_Z b / 16) ∧
  hex_nibble (hex_digit (Z.land (byte_to_Z b) 15)) = Some (byte_to_Z b mod 16) ∧
  byte_of_Z (Z.lor (Z.shiftl (byte_to_Z b / 16) 4) (byte_to_Z b mod 16)) = b.
Proof. by destruct b. Qed.

Lemma digest_parse_hex i d : digest_parse_loop i (Digest256_hex d) = Ret d.
Proof.
  revert i. induction d as [|b d IH]; intros i; [done|].
  pose proof (byte_nibbles b) as (H1 & H2 & H3). csimpl. rewrite H1, H2.
  change (d ≫= _) with (Digest256_hex d). by rewrite IH, H3.
Qed.

Lemma length_digest_hex d : length (Digest256_hex d) = (2 * length d)%nat.
Proof.
  induction d as [|b d IH]; [done|]. change (Digest256_hex (b :: d)) with
    ([hex_digit (Z.land (Z.shiftr (byte_to_Z b) 4) 15); hex_digit (Z.land (byte_to_Z b) 15)] ++ Digest256_hex d).
  rewrite length_app, IH. simpl. lia.
Qed.

Lemma digest_hex_inj d1 d2 : Digest256_hex d1 = Digest256_hex d2 → d1 = d2.
Proof.
  intros E. assert (Ret d1 = Ret d2) as [=]; [|done].
  by rewrite <-(digest_parse_hex 0 d1), <-(digest_parse_hex 0 d2), E.
Qed.

(** [parse] inverts [hex] on every 32-byte digest. *)
Lemma digest_hex_roundtrip d : length d = 32%nat → Digest256_parse (Digest256_hex d) = Ret d.
Proof.
  intros Hd. unfold Digest256_parse, zlen. rewrite length_digest_hex, Hd. apply digest_parse_hex.
Qed.

(** Digests are computed only by evaluation on closed terms, never by [simpl]. *)
#[global] Arguments Digest256_of : simpl never.
#[global] Arguments crc32c : simpl never.
