(* ===== verification/Canonical.v ===== *)
(** * Deterministic canonical encoding

    Models [include/sbf/canonical.hpp] and [src/canonical.cpp].  A method of
    [CanonicalWriter] is the byte string it appends; [CanonicalReader] is the
    offset consumed so far (error positions report it) and the bytes left.
    [decodes d x e] is the contract every codec of the development is proved
    against: reading [e] followed by anything yields [x] and consumes [e]. *)
From S2P Require Import Prelude Order Status Ids Text Digest.
Open Scope Z_scope.

(** ** [class CanonicalWriter] *)

Definition w_u8 (v : Z) : bytes := [byte_of_Z v].

Definition put_u16 (v : Z) : bytes :=
  [byte_of_Z (Z.land v 255); byte_of_Z (Z.land (Z.shiftr v 8) 255)].

Definition put_u32 (v : Z) : bytes :=
  [byte_of_Z (Z.land v 255); byte_of_Z (Z.land (Z.shiftr v 8) 255);
   byte_of_Z (Z.land (Z.shiftr v 16) 255); byte_of_Z (Z.land (Z.shiftr v 24) 255)].

Definition put_u64 (v : Z) : bytes :=
  put_u32 (u32 (Z.land v 0xFFFFFFFF)) ++ put_u32 (u32 (Z.land (Z.shiftr v 32) 0xFFFFFFFF)).

Definition w_u16 (v : Z) : bytes := put_u16 v.
Definition w_u32 (v : Z) : bytes := put_u32 v.
Definition w_u64 (v : Z) : bytes := put_u64 v.
Definition w_i64 (v : Z) : bytes := w_u64 (u64 v).
Definition w_boolean (v : bool) : bytes := w_u8 (if v then 1 else 0).
Definition w_text (v : bytes) : bytes := w_u16 (u16 (zlen v)) ++ v.
Definition w_blob (v : bytes) : bytes := w_u32 (u32 (zlen v)) ++ v.
Definition w_digest (v : Digest256) : bytes := v.
Definition w_outcome (v : Outcome) : bytes := w_u16 (Outcome.code v).
Definition w_reason (v : Reason) : bytes := w_u16 (Reason.code v).
Definition w_counter (v : Z) : bytes := w_u64 v.

Definition w_sequence {A} (fn : A → bytes) (l : list A) : bytes :=
  w_u32 (u32 (zlen l)) ++ (l ≫= fn).

(** [optional(present, fn)]: the flag, then the value when present. *)
Definition w_optional (present : bool) (e : bytes) : bytes :=
  w_boolean present ++ (if present then e else []).

(** ** [class CanonicalReader] *)

Record reader := Rd { rd_offset : Z; rd_rest : bytes }.

Definition reader_of (data : bytes) : reader := Rd 0 data.

Definition remaining (r : reader) : Z := zlen (rd_rest r).

Definition truncated (r : reader) : Status :=
  mkStatus Outcome.Invalid Reason.TruncatedFrame (rd_offset r).

Definition r_u8 (r : reader) : result (Z * reader) :=
  match rd_rest r with
  | b0 :: l => Ret (byte_to_Z b0, Rd (rd_offset r + 1) l)
  | _ => Err (truncated r)
  end.

Definition r_u16 (r : reader) : result (Z * reader) :=
  match rd_rest r with
  | b0 :: b1 :: l =>
      Ret (Z.lor (byte_to_Z b0) (u16 (Z.shiftl (byte_to_Z b1) 8)), Rd (rd_offset r + 2) l)
  | _ => Err (truncated r)
  end.

Definition le32 (b0 b1 b2 b3 : byte) : Z :=
  Z.lor (Z.lor (Z.lor (byte_to_Z b0) (u32 (Z.shiftl (byte_to_Z b1) 8)))
               (u32 (Z.shiftl (byte_to_Z b2) 16))) (u32 (Z.shiftl (byte_to_Z b3) 24)).

Definition r_u32 (r : reader) : result (Z * reader) :=
  match rd_rest r with
  | b0 :: b1 :: b2 :: b3 :: l => Ret (le32 b0 b1 b2 b3, Rd (rd_offset r + 4) l)
  | _ => Err (truncated r)
  end.

Definition r_u64 (r : reader) : result (Z * reader) :=
  let* (low, r) := r_u32 r in
  let* (high, r) := r_u32 r in
  Ret (Z.lor low (u64 (Z.shiftl high 32)), r).

Definition r_i64 (r : reader) : result (Z * reader) :=
  let* (raw, r) := r_u64 r in Ret (i64 raw, r).

Definition r_boolean (r : reader) : result (bool * reader) :=
  let* (raw, r) := r_u8 r in
  if 1 <? raw then Err (mkStatus Outcome.Invalid Reason.InvalidEnum raw)
  else Ret (raw =? 1, r).

(** [out.assign(data_.substr(offset_, n)); offset_ += n]. *)
Definition r_bytes (n : Z) (r : reader) : result (bytes * reader) :=
  if remaining r <? n then Err (truncated r)
  else Ret (take (Z.to_nat n) (rd_rest r), Rd (rd_offset r + n) (drop (Z.to_nat n) (rd_rest r))).

Definition r_text (r : reader) : result (bytes * reader) :=
  let* (length_, r) := r_u16 r in r_bytes length_ r.

Definition r_blob (r : reader) : result (bytes * reader) :=
  let* (length_, r) := r_u32 r in
  if kMaxSnapshotBytes <? length_
  then Err (mkStatus Outcome.Invalid Reason.ImpossibleLength length_)
  else r_bytes length_ r.

Definition r_digest (r : reader) : result (Digest256 * reader) := r_bytes 32 r.

Definition r_outcome (r : reader) : result (Outcome * reader) :=
  let* (raw, r) := r_u16 r in
  match Outcome.of_code raw with
  | Some o => Ret (o, r)
  | None => Err (mkStatus Outcome.Invalid Reason.InvalidEnum raw)
  end.

Definition r_reason (r : reader) : result (Reason * reader) :=
  let* (raw, r) := r_u16 r in
  match Reason.of_code raw with
  | Some o => Ret (o, r)
  | None => Err (mkStatus Outcome.Invalid Reason.InvalidEnum raw)
  end.

Definition r_counter (r : reader) : result (Z * reader) := r_u64 r.

(** [count(bound, out)]: refused before anything is allocated. *)
Definition r_count (bound : Z) (r : reader) : result (Z * reader) :=
  let* (raw, r) := r_u32 r in
  if bound <? raw then Err (mkStatus Outcome.Exhausted Reason.ImpossibleLength raw)
  else if remaining r <? raw then Err (mkStatus Outcome.Invalid Reason.ImpossibleLength raw)
  else Ret (raw, r).

(** [for (i = 0; i < n; ++i)] over an element decoder. *)
Fixpoint r_repeat {A} (n : nat) (fn : reader → result (A * reader)) (r : reader)
  : result (list A * reader) :=
  match n with
  | O => Ret ([], r)
  | S m => let* (x, r) := fn r in
           let* (l, r) := r_repeat m fn r in
           Ret (x :: l, r)
  end.

Definition r_sequence {A} (bound : Z) (fn : reader → result (A * reader)) (r : reader)
  : result (list A * reader) :=
  let* (n, r) := r_count bound r in r_repeat (Z.to_nat n) fn r.

Definition r_optional {A} (fn : reader → result (A * reader)) (r : reader)
  : result (option A * reader) :=
  let* (present, r) := r_boolean r in
  if present then let* (x, r) := fn r in Ret (Some x, r) else Ret (None, r).

Definition exhausted (r : reader) : bool := remaining r =? 0.

Definition finish (r : reader) : result unit :=
  if negb (exhausted r)
  then Err (mkStatus Outcome.Invalid Reason.TrailingGarbage (remaining r))
  else Ret tt.

(** [CanonicalReader nested(blob); decode(nested, out); nested.finish();]. *)
Definition decode_all {A} (fn : reader → result (A * reader)) (blob : bytes) : result A :=
  let* (x, r) := fn (reader_of blob) in
  let* _ := finish r in
  Ret x.

Definition r_nested {A} (fn : reader → result (A * reader)) (r : reader) : result (A * reader) :=
  let* (blob, r) := r_blob r in
  let* x := decode_all fn blob in
  Ret (x, r).

(** ** The codec contract *)

Definition decodes {A} (d : reader → result (A * reader)) (x : A) (e : bytes) : Prop :=
  ∀ off tl, d (Rd off (e ++ tl)) = Ret (x, Rd (off + zlen e) tl).

Section decodes_rules.
Context {A B : Type}.

Lemma decodes_ret (x : A) : decodes (λ r, Ret (x, r)) x [].
Proof. intros off tl. by rewrite Z.add_0_r. Qed.

Lemma decodes_bind (d : reader → result (A * reader)) (f : A → reader → result (B * reader))
    x y e1 e2 :
  decodes d x e1 → decodes (f x) y e2 →
  decodes (λ r, let* (x, r) := d r in f x r) y (e1 ++ e2).
Proof.
  intros H1 H2 off tl. rewrite <-app_assoc, H1, H2. do 3 f_equal. rewrite zlen_app. lia.
Qed.

Lemma decodes_bind_last (d : reader → result (A * reader)) (f : A → reader → result (B * reader))
    x y e1 :
  decodes d x e1 → decodes (f x) y [] →
  decodes (λ r, let* (x, r) := d r in f x r) y e1.
Proof. intros. rewrite <-(app_nil_r e1). by eapply decodes_bind. Qed.

Lemma decodes_pure (m : result A) (f : A → reader → result (B * reader)) x y e :
  m = Ret x → decodes (f x) y e → decodes (λ r, let* x := m in f x r) y e.
Proof. by intros -> ?. Qed.

Lemma decodes_guard (c : bool) s (f : reader → result (B * reader)) y e :
  c = false → decodes f y e → decodes (λ r, if c then Err s else f r) y e.
Proof. by intros -> ?. Qed.

Lemma decodes_match (o : option A) s (f : A → reader → result (B * reader)) x y e :
  o = Some x → decodes (f x) y e →
  decodes (λ r, match o with Some x => f x r | None => Err s end) y e.
Proof. by intros -> ?. Qed.

(** A complete decode of exactly the encoded bytes. *)
Lemma decodes_all (d : reader → result (A * reader)) x e :
  decodes d x e → decode_all d e = Ret x.
Proof.
  intros Hd. specialize (Hd 0 []). rewrite app_nil_r in Hd.
  unfold decode_all, reader_of. by rewrite Hd.
Qed.
End decodes_rules.

(** One field of a decoder at a time; what it cannot discharge is left. *)
Ltac decode_step :=
  lazymatch goal with
  | |- decodes (λ r, Ret (_, r)) _ [] => apply decodes_ret
  | |- decodes (λ r, match ?m with Ret _ => _ | Err _ => _ end) _ (_ ++ _) =>
      first [ eapply decodes_bind | eapply decodes_pure ]
  | |- decodes (λ r, match ?m with Ret _ => _ | Err _ => _ end) _ _ =>
      first [ eapply decodes_bind_last | eapply decodes_pure ]
  | |- decodes (λ r, if _ then Err _ else _) _ _ => eapply decodes_guard
  | |- decodes (λ r, match ?o with Some _ => _ | None => Err _ end) _ _ => eapply decodes_match
  end.

(** ** Primitive codecs *)

Lemma land_ff z : Z.land z 255 = z mod 256.
Proof. apply land255. Qed.

Lemma byte_field v k : 0 <= k →
  byte_to_Z (byte_of_Z (Z.land (Z.shiftr v k) 255)) = (v / 2 ^ k) mod 256.
Proof.
  intros. rewrite byte_to_of_Z, land_ff, Z.mod_mod by lia. by rewrite Z.shiftr_div_pow2.
Qed.

Lemma lor_shiftl_add a b k : 0 <= k → 0 <= a < 2 ^ k → 0 <= b →
  Z.lor a (Z.shiftl b k) = a + b * 2 ^ k.
Proof.
  intros Hk Ha Hb.
  assert (Z.land a (Z.shiftl b k) = 0) as E.
  { apply Z.bits_inj'. intros n Hn. rewrite Z.land_spec, Z.bits_0.
    destruct (decide (n < k)).
    - rewrite (Z.shiftl_spec_low b) by lia. by rewrite andb_false_r.
    - rewrite <-(Z.mod_small a (2 ^ k)) by done.
      rewrite Z.mod_pow2_bits_high by lia. done. }
  rewrite <-Z.lxor_lor, <-Z.add_nocarry_lxor by done. by rewrite Z.shiftl_mul_pow2.
Qed.

Lemma le32_value b0 b1 b2 b3 :
  le32 b0 b1 b2 b3 =
    byte_to_Z b0 + byte_to_Z b1 * 256 + byte_to_Z b2 * 65536 + byte_to_Z b3 * 16777216.
Proof.
  unfold le32, u32.
  pose proof (byte_to_Z_range b0). pose proof (byte_to_Z_range b1).
  pose proof (byte_to_Z_range b2). pose proof (byte_to_Z_range b3).
  rewrite !(Z.mod_small (Z.shiftl _ _)) by (rewrite Z.shiftl_mul_pow2 by lia; lia).
  rewrite (lor_shiftl_add (byte_to_Z b0)), (lor_shiftl_add (_ + _) (byte_to_Z b2)),
    (lor_shiftl_add (_ + _) (byte_to_Z b3)) by lia. lia.
Qed.

Lemma le32_range b0 b1 b2 b3 : is_u32 (le32 b0 b1 b2 b3).
Proof.
  rewrite le32_value. unfold is_u32.
  pose proof (byte_to_Z_range b0). pose proof (byte_to_Z_range b1).
  pose proof (byte_to_Z_range b2). pose proof (byte_to_Z_range b3). lia.
Qed.

Lemma le32_inj a0 a1 a2 a3 b0 b1 b2 b3 : le32 a0 a1 a2 a3 = le32 b0 b1 b2 b3 →
  a0 = b0 ∧ a1 = b1 ∧ a2 = b2 ∧ a3 = b3.
Proof.
  rewrite !le32_value. intros E.
  pose proof (byte_to_Z_range a0). pose proof (byte_to_Z_range a1).
  pose proof (byte_to_Z_range a2). pose proof (byte_to_Z_range a3).
  pose proof (byte_to_Z_range b0). pose proof (byte_to_Z_range b1).
  pose proof (byte_to_Z_range b2). pose proof (byte_to_Z_range b3).
  split_and!; apply (inj byte_to_Z); lia.
Qed.

Lemma split256 v k : 0 <= k → v / 2 ^ k = (v / 2 ^ k) mod 256 + 256 * (v / 2 ^ (k + 8)).
Proof.
  intros. rewrite Z.pow_add_r, <-Z.div_div by (lia || apply Z.pow_nonzero; lia).
  change (2 ^ 8) with 256. pose proof (Z.div_mod (v / 2 ^ k) 256). lia.
Qed.

Lemma decodes_u8 v : 0 <= v < 256 → decodes r_u8 v (w_u8 v).
Proof.
  intros Hv off tl. unfold w_u8, r_u8. simpl. rewrite byte_to_of_Z, Z.mod_small by done. done.
Qed.

Lemma decodes_u16 v : is_u16 v → decodes r_u16 v (w_u16 v).
Proof.
  intros Hv off tl. unfold w_u16, put_u16, r_u16. cbn [rd_rest app rd_offset].
  rewrite (byte_field v 8) by lia. rewrite byte_to_of_Z, land_ff, Z.mod_mod by lia.
  unfold is_u16, u16 in *. pose proof (split256 v 0). pose proof (split256 v 8).
  change (2 ^ 0) with 1 in *. change (2 ^ 8) with 256 in *.
  rewrite Z.div_1_r in *. change (2 ^ (0 + 8)) with 256 in *. change (2 ^ (8 + 8)) with 65536 in *.
  rewrite (Z.div_small v 65536) in * by lia.
  pose proof (Z.mod_pos_bound v 256). pose proof (Z.mod_pos_bound (v / 256) 256).
  rewrite (Z.mod_small (Z.shiftl _ _)) by (rewrite Z.shiftl_mul_pow2 by lia; lia).
  rewrite lor_shiftl_add by lia. change (zlen [_; _]) with 2. do 3 f_equal. lia.
Qed.

Lemma decodes_u32 v : is_u32 v → decodes r_u32 v (w_u32 v).
Proof.
  intros Hv off tl. unfold w_u32, put_u32, r_u32. cbn [rd_rest app rd_offset].
  rewrite le32_value, !byte_field by lia. rewrite byte_to_of_Z, land_ff, Z.mod_mod by lia.
  unfold is_u32 in *. pose proof (split256 v 0). pose proof (split256 v 8).
  pose proof (split256 v 16). pose proof (split256 v 24).
  change (2 ^ 0) with 1 in *. rewrite Z.div_1_r in *.
  change (0 + 8) with 8 in *. change (8 + 8) with 16 in *. change (16 + 8) with 24 in *.
  change (24 + 8) with 32 in *. rewrite (Z.div_small v (2 ^ 32)) in * by lia.
  change (zlen [_; _; _; _]) with 4. do 3 f_equal. lia.
Qed.

Lemma decodes_u64 v : is_u64 v → decodes r_u64 v (w_u64 v).
Proof.
  intros Hv. unfold w_u64, put_u64, r_u64.
  change 0xFFFFFFFF with (Z.ones 32). rewrite !Z.land_ones by lia.
  unfold u32. rewrite !Z.mod_mod by lia.
  rewrite Z.shiftr_div_pow2 by lia. unfold is_u64 in Hv.
  assert (0 <= v / 2 ^ 32 < 2 ^ 32).
  { split; [apply Z.div_pos; lia|]. apply Z.div_lt_upper_bound; lia. }
  assert (E : Z.lor (v mod 2 ^ 32) (u64 (Z.shiftl (v / 2 ^ 32 mod 2 ^ 32) 32)) = v).
  { rewrite (Z.mod_small (v / 2 ^ 32)) by done.
    rewrite u64_id by (unfold is_u64; rewrite Z.shiftl_mul_pow2; lia).
    rewrite lor_shiftl_add by (try apply Z.mod_pos_bound; lia).
    pose proof (Z.div_mod v (2 ^ 32)). lia. }
  rewrite <-E at 1. clear E.
  eapply decodes_bind; [apply decodes_u32, Z.mod_pos_bound; lia|].
  eapply decodes_bind_last; [apply decodes_u32, Z.mod_pos_bound; lia|]. apply decodes_ret.
Qed.

Lemma decodes_i64 v : is_i64 v → decodes r_i64 v (w_i64 v).
Proof.
  intros Hv. unfold r_i64, w_i64. rewrite <-(i64_id v) at 1 by done.
  eapply decodes_bind_last; [apply decodes_u64, u64_is|]. apply decodes_ret.
Qed.

Lemma decodes_boolean v : decodes r_boolean v (w_boolean v).
Proof.
  unfold r_boolean, w_boolean.
  eapply decodes_bind_last; [apply decodes_u8; destruct v; lia|]. by destruct v; apply decodes_ret.
Qed.

Lemma decodes_bytes v : decodes (r_bytes (zlen v)) v v.
Proof.
  intros off tl. unfold r_bytes, remaining. cbn [rd_rest rd_offset].
  destruct (Z.ltb_spec (zlen (v ++ tl)) (zlen v)) as [L|L].
  - rewrite zlen_app in L. pose proof (zlen_nonneg tl). lia.
  - unfold zlen. rewrite Nat2Z.id, take_app_length, drop_app_length. done.
Qed.

Lemma decodes_text v : is_u16 (zlen v) → decodes r_text v (w_text v).
Proof.
  intros Hv. unfold r_text, w_text, u16. rewrite Z.mod_small by done.
  eapply decodes_bind; [by apply decodes_u16|]. apply decodes_bytes.
Qed.

Lemma decodes_blob v : zlen v <= kMaxSnapshotBytes → decodes r_blob v (w_blob v).
Proof.
  intros Hv. unfold r_blob, w_blob, u32, kMaxSnapshotBytes in *. pose proof (zlen_nonneg v).
  rewrite Z.mod_small by lia.
  eapply decodes_bind; [apply decodes_u32; unfold is_u32; lia|].
  apply decodes_guard; [|apply decodes_bytes]. apply Z.ltb_ge. lia.
Qed.

Lemma decodes_digest v : length v = 32%nat → decodes r_digest v (w_digest v).
Proof.
  intros Hv. unfold r_digest, w_digest. replace 32 with (zlen v); [apply decodes_bytes|].
  unfold zlen. lia.
Qed.

Lemma decodes_outcome v : decodes r_outcome v (w_outcome v).
Proof.
  unfold r_outcome, w_outcome. eapply decodes_bind_last.
  - apply decodes_u16. pose proof (Outcome.outcome_code_range v). unfold is_u16. lia.
  - eapply decodes_match; [apply Outcome.outcome_of_code|apply decodes_ret].
Qed.

Lemma decodes_reason v : decodes r_reason v (w_reason v).
Proof.
  unfold r_reason, w_reason. eapply decodes_bind_last.
  - apply decodes_u16. pose proof (Reason.reason_code_range v). unfold is_u16. lia.
  - eapply decodes_match; [apply Reason.reason_of_code|apply decodes_ret].
Qed.

Lemma decodes_repeat {A} (fn : reader → result (A * reader)) enc l :
  (∀ x, x ∈ l → decodes fn x (enc x)) → decodes (r_repeat (length l) fn) l (l ≫= enc).
Proof.
  induction l as [|x l IH]; intros Hl; csimpl; [apply decodes_ret|].
  eapply decodes_bind; [apply Hl; set_solver|].
  eapply decodes_bind_last; [apply IH; set_solver|apply decodes_ret].
Qed.

Lemma zlen_bind_ge {A} (enc : A → bytes) l : (∀ x, x ∈ l → 1 <= zlen (enc x)) →
  zlen l <= zlen (l ≫= enc).
Proof.
  induction l as [|x l IH]; intros Hl; csimpl; [done|].
  rewrite zlen_app. specialize (IH ltac:(set_solver)). specialize (Hl x ltac:(set_solver)).
  unfold zlen in *. simpl. lia.
Qed.

Lemma decodes_sequence {A} bound (fn : reader → result (A * reader)) enc l :
  zlen l <= bound → is_u32 bound →
  (∀ x, x ∈ l → decodes fn x (enc x)) → (∀ x, x ∈ l → 1 <= zlen (enc x)) →
  decodes (r_sequence bound fn) l (w_sequence enc l).
Proof.
  intros Hb Hu Hl H1 off tl. unfold r_sequence, w_sequence, u32, is_u32 in *.
  pose proof (zlen_nonneg l). rewrite Z.mod_small by lia.
  unfold r_count. rewrite <-app_assoc, decodes_u32 by (unfold is_u32; lia).
  destruct (Z.ltb_spec bound (zlen l)); [lia|].
  unfold remaining. cbn [rd_rest].
  destruct (Z.ltb_spec (zlen ((l ≫= enc) ++ tl)) (zlen l)) as [L|_].
  { rewrite zlen_app in L. pose proof (zlen_bind_ge enc l H1). pose proof (zlen_nonneg tl). lia. }
  unfold zlen at 1. rewrite Nat2Z.id, (decodes_repeat fn enc l Hl).
  do 3 f_equal. rewrite zlen_app. lia.
Qed.

Lemma decodes_nested {A} (fn : reader → result (A * reader)) x e :
  zlen e <= kMaxSnapshotBytes → decodes fn x e → decodes (r_nested fn) x (w_blob e).
Proof.
  intros Hlen He. unfold r_nested. eapply decodes_bind_last; [by apply decodes_blob|].
  eapply decodes_pure; [by apply decodes_all|apply decodes_ret].
Qed.

(** ** Lengths of encodings *)

Lemma zlen_u16 v : zlen (w_u16 v) = 2. Proof. done. Qed.
Lemma zlen_u32 v : zlen (w_u32 v) = 4. Proof. done. Qed.
Lemma zlen_u64 v : zlen (w_u64 v) = 8. Proof. done. Qed.
Lemma zlen_counter v : zlen (w_counter v) = 8. Proof. done. Qed.
Lemma zlen_boolean v : zlen (w_boolean v) = 1. Proof. done. Qed.
Lemma zlen_reason v : zlen (w_reason v) = 2. Proof. done. Qed.
Lemma zlen_text v : zlen (w_text v) = 2 + zlen v.
Proof. unfold w_text. by rewrite zlen_app. Qed.
Lemma zlen_blob v : zlen (w_blob v) = 4 + zlen v.
Proof. unfold w_blob. by rewrite zlen_app. Qed.

#[export] Hint Rewrite @zlen_app zlen_u16 zlen_u32 zlen_u64 zlen_counter zlen_boolean
  zlen_reason zlen_text zlen_blob : zlen.

#[export] Hint Resolve decodes_ret decodes_u16 decodes_u32 decodes_u64 decodes_i64 decodes_boolean
  decodes_text decodes_digest decodes_outcome decodes_reason : codec.
#[export] Hint Extern 2 (decodes r_counter _ (w_counter _)) => apply decodes_u64 : codec.
