(* ===== verification/Scope.v ===== *)
(** * Fabric scopes and the overlap index

    Models [include/sbf/scope.hpp] and [src/scope.cpp].  A [Scope] is its
    sorted, duplicate-free extent vector; [Scope{}] is the empty one.  The
    two-pointer algorithms are proved to compute set intersection,
    containment and overlap, and the index to answer exactly. *)
From S2P Require Import Prelude Order SortedVec Status Ids Text Digest Canonical.
Open Scope Z_scope.

Abbreviation Scope := (list bytes) (only parsing).

Definition scope_empty (s : Scope) : bool := match s with [] => true | _ => false end.

(** The loop of [Scope::make] that rejects equal neighbours, with its index. *)
Fixpoint first_duplicate (i : Z) (l : list ExtentId) : option Z :=
  match l with
  | x :: ((y :: _) as r) => if eqb y x then Some i else first_duplicate (i + 1) r
  | _ => None
  end.

Definition scope_make (extents : list ExtentId) : result Scope :=
  match extents with
  | [] => Err (fail0 Outcome.Invalid Reason.EmptyExtentSet)
  | _ =>
      if kMaxExtentsPerScope <? zlen extents
      then Err (mkStatus Outcome.Exhausted Reason.ScopeTooLarge (zlen extents))
      else if existsb id_empty extents then Err (fail0 Outcome.Invalid Reason.EmptyValue)
      else
        let sorted := sort_by ltb extents in
        match first_duplicate 1 sorted with
        | Some i => Err (mkStatus Outcome.Invalid Reason.DuplicateExtent i)
        | None => Ret sorted
        end
  end.

Fixpoint parse_fields (fields : list bytes) : result (list ExtentId) :=
  match fields with
  | [] => Ret []
  | f :: r =>
      let trimmed := trim f in
      let* id := of_option (id_try_make trimmed)
                   (mkStatus Outcome.Invalid Reason.IdCharset (zlen trimmed)) in
      let* ids := parse_fields r in
      Ret (id :: ids)
  end.

Definition scope_parse (text : bytes) : result Scope :=
  let fields := split text (byte_of_Z 44) in
  match fields with
  | [] => Err (fail0 Outcome.Invalid Reason.EmptyExtentSet)
  | _ =>
      if kMaxExtentsPerScope <? zlen fields
      then Err (mkStatus Outcome.Exhausted Reason.ScopeTooLarge (zlen fields))
      else let* ids := parse_fields fields in scope_make ids
  end.

Definition contains_extent (s : Scope) (e : ExtentId) : bool :=
  match sv_find id e s with Some _ => true | None => false end.

(** The two-pointer loop of [Scope::overlaps]. *)
Fixpoint overlaps (a : Scope) : Scope → bool :=
  fix go (b : Scope) : bool :=
    match a, b with
    | x :: a', y :: b' =>
        if eqb x y then true else if ltb x y then overlaps a' b else go b'
    | _, _ => false
    end.

(** [a.is_superset_of(b)]. *)
Fixpoint is_superset_of (a : Scope) : Scope → bool :=
  fix go (b : Scope) : bool :=
    match a, b with
    | _, [] => true
    | [], _ :: _ => false
    | x :: a', y :: b' =>
        if eqb x y then is_superset_of a' b' else if ltb x y then is_superset_of a' b else false
    end.

Definition encode_scope (s : Scope) : bytes := w_sequence w_text s.

Definition scope_digest (s : Scope) : Digest256 := Digest256_of (encode_scope s).

Definition scope_csv (s : Scope) : bytes := join (str ",") s.

Definition intersect_reference (a b : Scope) : list ExtentId :=
  unique_adj (sort_by ltb (List.filter (λ left, existsb (eqb left) b) a)).

Fixpoint intersect_merge (a : Scope) : Scope → list ExtentId :=
  fix go (b : Scope) : list ExtentId :=
    match a, b with
    | x :: a', y :: b' =>
        if eqb x y then x :: intersect_merge a' b'
        else if ltb x y then intersect_merge a' b else go b'
    | _, _ => []
    end.

(** ** [class ScopeIndex] *)

Inductive SearchResult : Set := Found | Absent | Indeterminate.

#[export] Instance search_result_eq_dec : EqDecision SearchResult.
Proof. solve_decision. Defined.

(** [entries_], ordered by extent, then claim. *)
Abbreviation ScopeIndex := (list (ExtentId * ClaimId)) (only parsing).

(** The loop of [ScopeIndex::add]: entries already inserted stay when the
    table fills up half-way. *)
Fixpoint index_add_loop (entries : ScopeIndex) (claim : ClaimId) (extents : list ExtentId)
  : ScopeIndex * Status :=
  match extents with
  | [] => (entries, status_ok)
  | e :: r =>
      if kMaxIndexedExtents <=? zlen entries
      then (entries, mkStatus Outcome.Exhausted Reason.BoundedTableFull (zlen entries))
      else index_add_loop (sv_set id (e, claim) entries) claim r
  end.

Definition index_add (entries : ScopeIndex) (claim : ClaimId) (scope : Scope)
  : ScopeIndex * Status :=
  if id_empty claim then (entries, fail0 Outcome.Invalid Reason.EmptyValue)
  else if scope_empty scope then (entries, fail0 Outcome.Invalid Reason.EmptyExtentSet)
  else index_add_loop entries claim scope.

Definition index_remove (entries : ScopeIndex) (claim : ClaimId) : ScopeIndex :=
  List.filter (λ e, negb (eqb e.2 claim)) entries.

(** [while (it != end() && it->extent == extent) ++it]: a run of the table. *)
Fixpoint run_of (extent : ExtentId) (l : ScopeIndex) : ScopeIndex :=
  match l with
  | e :: r => if eqb e.1 extent then e :: run_of extent r else []
  | [] => []
  end.

Definition run_at (entries : ScopeIndex) (extent : ExtentId) : ScopeIndex :=
  run_of extent (lower_bound id (extent, []) entries).2.

(** Visit claims one node at a time; [None] when the budget runs out. *)
Fixpoint visit (budget nodes : Z) (l : list ClaimId) (out : list ClaimId)
  : option (Z * list ClaimId) :=
  match l with
  | [] => Some (nodes, out)
  | c :: r => if budget <? nodes + 1 then None else visit budget (nodes + 1) r (out ++ [c])
  end.

Fixpoint query_loop (entries : ScopeIndex) (budget nodes : Z) (extents : list ExtentId)
    (out : list ClaimId) : option (list ClaimId) :=
  match extents with
  | [] => Some out
  | e :: r =>
      match visit budget nodes (snd <$> run_at entries e) out with
      | None => None
      | Some (nodes, out) => query_loop entries budget nodes r out
      end
  end.

Definition index_query (entries : ScopeIndex) (query : Scope) (budget : Z)
  : SearchResult * list ClaimId :=
  match query_loop entries budget 0 query [] with
  | None => (Indeterminate, [])
  | Some out =>
      let out := unique_adj (sort_by ltb out) in
      (match out with [] => Absent | _ => Found end, out)
  end.

(** The pairs [a < b] of one run; equal claims are visited but not reported. *)
Fixpoint visit_pairs (budget nodes : Z) (a : ClaimId) (l : list ClaimId)
    (out : list (ClaimId * ClaimId)) : option (Z * list (ClaimId * ClaimId)) :=
  match l with
  | [] => Some (nodes, out)
  | b :: r =>
      if budget <? nodes + 1 then None
      else visit_pairs budget (nodes + 1) a r (if eqb a b then out else out ++ [(a, b)])
  end.

Fixpoint pairs_loop (budget nodes : Z) (entries : ScopeIndex)
    (out : list (ClaimId * ClaimId)) : option (list (ClaimId * ClaimId)) :=
  match entries with
  | [] => Some out
  | e :: r =>
      match visit_pairs budget nodes e.2 (snd <$> run_of e.1 r) out with
      | None => None
      | Some (nodes, out) => pairs_loop budget nodes r out
      end
  end.

Definition overlapping_pairs (entries : ScopeIndex) (budget : Z)
  : SearchResult * list (ClaimId * ClaimId) :=
  match pairs_loop budget 0 entries [] with
  | None => (Indeterminate, [])
  | Some out =>
      let out := unique_adj (sort_by ltb out) in
      (match out with [] => Absent | _ => Found end, out)
  end.

(** ** The class invariant *)

Definition canonical (s : Scope) : Prop := StronglySorted (λ x y, ltb x y = true) s.

(** What [Scope::make] establishes. *)
Definition scope_wf (s : Scope) : Prop :=
  s ≠ [] ∧ zlen s <= kMaxExtentsPerScope ∧ canonical s ∧ Forall id_valid s.

Lemma canonical_nil : canonical [].
Proof. constructor. Qed.

Lemma canonical_cons x s : canonical (x :: s) ↔ Forall (λ y, ltb x y = true) s ∧ canonical s.
Proof. unfold canonical. apply StronglySorted_cons. Qed.

Lemma canonical_NoDup s : canonical s → NoDup s.
Proof. intros Hs. rewrite <-(list_fmap_id s). by apply sv_sorted_NoDup. Qed.

Lemma scope_empty_false s : scope_empty s = false ↔ s ≠ [].
Proof. by destruct s. Qed.

Lemma canonical_notin x y a : ltb x y = true → canonical (y :: a) → x ∉ y :: a.
Proof.
  rewrite canonical_cons, Forall_forall. intros Hxy [Hy _].
  rewrite elem_of_cons. intros [->|Hin].
  - by rewrite ltb_irrefl in Hxy.
  - apply Hy in Hin. apply (ltb_asym x y) in Hxy. congruence.
Qed.

Lemma ltb_ltb_false (x y : bytes) : eqb x y = false → ltb x y = false → ltb y x = true.
Proof. rewrite eqb_neq, ltb_ge. naive_solver. Qed.

(** One induction principle for the three two-pointer loops. *)
Lemma two_pointer_ind (P : Scope → Scope → Prop) :
  (∀ b, P [] b) → (∀ a, P a []) →
  (∀ x a b, P a b → P (x :: a) (x :: b)) →
  (∀ x a y b, ltb x y = true → P a (y :: b) → P (x :: a) (y :: b)) →
  (∀ x a y b, ltb y x = true → P (x :: a) b → P (x :: a) (y :: b)) →
  ∀ a b, P a b.
Proof.
  intros H1 H2 H3 H4 H5 a. induction a as [|x a IHa]; [done|].
  intros b. induction b as [|y b IHb]; [done|].
  destruct (eqb x y) eqn:E1.
  - apply eqb_eq in E1 as ->. auto.
  - destruct (ltb x y) eqn:E2; [auto|]. apply H5; [by apply ltb_ltb_false|done].
Qed.

Lemma overlaps_cons x a y b :
  overlaps (x :: a) (y :: b) =
    if eqb x y then true else if ltb x y then overlaps a (y :: b) else overlaps (x :: a) b.
Proof. done. Qed.
Lemma is_superset_cons x a y b :
  is_superset_of (x :: a) (y :: b) =
    if eqb x y then is_superset_of a b
    else if ltb x y then is_superset_of a (y :: b) else false.
Proof. done. Qed.
Lemma intersect_merge_cons x a y b :
  intersect_merge (x :: a) (y :: b) =
    if eqb x y then x :: intersect_merge a b
    else if ltb x y then intersect_merge a (y :: b) else intersect_merge (x :: a) b.
Proof. done. Qed.

Lemma ltb_eqb_false (x y : bytes) : ltb x y = true → eqb x y = false.
Proof. intros H%ltb_neq. by apply eqb_neq. Qed.
Lemma gtb_eqb_false (x y : bytes) : ltb y x = true → eqb x y = false.
Proof. intros H%ltb_neq. apply eqb_neq. congruence. Qed.

(** The merge computes the intersection of canonical scopes. *)
Lemma elem_of_intersect_merge a b e : canonical a → canonical b →
  e ∈ intersect_merge a b ↔ e ∈ a ∧ e ∈ b.
Proof.
  revert b. apply (two_pointer_ind (λ a b, canonical a → canonical b →
    e ∈ intersect_merge a b ↔ e ∈ a ∧ e ∈ b)); clear a.
  - intros b _ _. destruct b; simpl; set_solver.
  - intros a _ _. destruct a; simpl; set_solver.
  - intros x a b IH Ha Hb. rewrite intersect_merge_cons, eqb_refl.
    pose proof (canonical_NoDup _ Ha). pose proof (canonical_NoDup _ Hb).
    rewrite canonical_cons in Ha, Hb. rewrite elem_of_cons, IH by naive_solver. set_solver.
  - intros x a y b Hlt IH Ha Hb. rewrite intersect_merge_cons, ltb_eqb_false, Hlt by done.
    pose proof (canonical_notin x y b Hlt Hb).
    rewrite canonical_cons in Ha. rewrite IH by naive_solver. set_solver.
  - intros x a y b Hlt IH Ha Hb. rewrite intersect_merge_cons, gtb_eqb_false by done.
    rewrite (ltb_asym y x Hlt). pose proof (canonical_notin y x a Hlt Ha).
    rewrite canonical_cons in Hb. rewrite IH by naive_solver. set_solver.
Qed.

Lemma overlaps_merge a b : overlaps a b = negb (scope_empty (intersect_merge a b)).
Proof.
  revert b. apply (two_pointer_ind (λ a b, overlaps a b = negb (scope_empty (intersect_merge a b))));
    clear a.
  - by intros [].
  - by intros [].
  - intros x a b _. by rewrite overlaps_cons, intersect_merge_cons, !eqb_refl.
  - intros x a y b Hlt IH. by rewrite overlaps_cons, intersect_merge_cons, ltb_eqb_false, Hlt.
  - intros x a y b Hlt IH.
    by rewrite overlaps_cons, intersect_merge_cons, gtb_eqb_false, (ltb_asym y x).
Qed.

Lemma overlaps_spec a b : canonical a → canonical b →
  overlaps a b = true ↔ ∃ e, e ∈ a ∧ e ∈ b.
Proof.
  intros Ha Hb. rewrite overlaps_merge. setoid_rewrite <-elem_of_intersect_merge; [|done..].
  destruct (intersect_merge a b) as [|e l]; simpl; [set_solver|]. split; [|done].
  intros _. exists e. set_solver.
Qed.

Lemma overlaps_false a b : canonical a → canonical b →
  overlaps a b = false ↔ ∀ e, e ∈ a → e ∈ b → False.
Proof.
  intros Ha Hb. rewrite <-not_true_iff_false, overlaps_spec by done. naive_solver.
Qed.

Lemma overlaps_sym a b : canonical a → canonical b → overlaps a b = overlaps b a.
Proof.
  intros. apply eq_true_iff_eq. rewrite !overlaps_spec by done. naive_solver.
Qed.

Lemma overlaps_refl s : canonical s → s ≠ [] → overlaps s s = true.
Proof.
  intros Hc Hs. apply overlaps_spec; [done..|]. destruct s as [|e s]; [done|].
  exists e. set_solver.
Qed.

Lemma is_superset_spec a b : canonical a → canonical b →
  is_superset_of a b = true ↔ b ⊆ a.
Proof.
  revert b. apply (two_pointer_ind (λ a b, canonical a → canonical b →
    is_superset_of a b = true ↔ b ⊆ a)); clear a.
  - intros [|y b] _ _; simpl; [set_solver|]. split; [done|].
    intros Hs. specialize (Hs y). set_solver.
  - intros [|x a] _ _; simpl; set_solver.
  - intros x a b IH Ha Hb. rewrite is_superset_cons, eqb_refl.
    pose proof (canonical_NoDup _ Hb) as [Hx _]%NoDup_cons.
    rewrite canonical_cons in Ha, Hb. rewrite IH by naive_solver. set_solver.
  - intros x a y b Hlt IH Ha Hb. rewrite is_superset_cons, ltb_eqb_false, Hlt by done.
    pose proof (canonical_notin x y b Hlt Hb).
    rewrite canonical_cons in Ha. rewrite IH by naive_solver. set_solver.
  - intros x a y b Hlt IH Ha Hb. rewrite is_superset_cons, gtb_eqb_false by done.
    rewrite (ltb_asym y x Hlt). pose proof (canonical_notin y x a Hlt Ha).
    split; [done|]. intros Hs. specialize (Hs y). set_solver.
Qed.

(** ** [Scope::make] *)

Lemma sort_bytes_sorted l : sorted_by ltb (sort_by (A:=bytes) ltb l).
Proof. apply sort_ltb_sorted. Qed.

Lemma first_duplicate_None i l : sorted_by (A:=bytes) ltb l →
  first_duplicate i l = None ↔ canonical l.
Proof.
  intros Hs. revert i. induction Hs as [|x l Hl IH Hx]; intros i;
    [by split; intros; [apply canonical_nil|]|].
  destruct l as [|y l]; simpl.
  { split; [|done]. intros _. repeat constructor. }
  destruct (eqb y x) eqn:E.
  - apply eqb_eq in E as ->. split; [done|]. rewrite canonical_cons, Forall_cons.
    intros [[H _] _]. by rewrite ltb_irrefl in H.
  - change (first_duplicate (i + 1) (y :: l) = None ↔ canonical (x :: y :: l)).
    rewrite IH, (canonical_cons x). split; [|naive_solver].
    intros Hc. split; [|done].
    assert (Hxy : ltb x y = true).
    { apply Forall_cons in Hx as [Hyx _]. apply eqb_neq in E.
      apply ltb_ge in Hyx as [->|]; [done|done]. }
    constructor; [done|]. apply canonical_cons in Hc as [Hy _].
    eapply Forall_impl; [exact Hy|]. intros z Hz. by eapply ltb_trans.
Qed.

Lemma existsb_id_empty l : existsb id_empty l = false ↔ Forall (λ e : bytes, e ≠ []) l.
Proof.
  induction l as [|e l IH]; simpl; [naive_solver|].
  rewrite orb_false_iff, IH, Forall_cons, id_empty_false. done.
Qed.

Lemma scope_make_ok l s : scope_make l = Ret s →
  s ≠ [] ∧ zlen s <= kMaxExtentsPerScope ∧ canonical s ∧ s ≡ₚ l ∧ Forall (λ e : bytes, e ≠ []) l.
Proof.
  intros Hm.
  assert (Hs : l ≠ [] ∧ zlen l <= kMaxExtentsPerScope ∧ existsb id_empty l = false ∧
               first_duplicate 1 (sort_by ltb l) = None ∧ s = sort_by ltb l).
  { unfold scope_make in Hm. destruct l as [|e l]; [done|]. revert Hm.
    generalize (sort_by ltb (e :: l)) as k. intros k.
    destruct (Z.ltb_spec kMaxExtentsPerScope (zlen (e :: l))); [done|].
    destruct (existsb id_empty (e :: l)); [done|].
    destruct (first_duplicate 1 k); naive_solver. }
  destruct Hs as (Hne & Hlen & Hemp & Hdup & ->). pose proof (sort_by_Permutation ltb l) as Hp.
  rewrite first_duplicate_None in Hdup by apply sort_bytes_sorted.
  rewrite existsb_id_empty in Hemp.
  split; [|split; [|split; [done|split; done]]].
  - intros E. rewrite E in Hp. by apply Permutation_nil in Hp.
  - unfold zlen in *. by rewrite length_sort_by.
Qed.

(** A canonical list of non-empty extents is its own [make]. *)
Lemma sort_canonical (s : Scope) : canonical s → sort_by ltb s = s.
Proof.
  induction s as [|x s IH]; [done|]. rewrite canonical_cons. intros [Hx Hs].
  simpl. rewrite IH by done. destruct s as [|y s]; [done|]. simpl.
  apply Forall_cons in Hx as [Hxy _]. by rewrite (ltb_asym x y).
Qed.

Lemma scope_make_canonical s : scope_wf s → scope_make s = Ret s.
Proof.
  intros (Hne & Hlen & Hc & Hv). unfold scope_make. destruct s as [|e l]; [done|].
  destruct (Z.ltb_spec kMaxExtentsPerScope (zlen (e :: l))); [lia|].
  assert (existsb id_empty (e :: l) = false) as ->.
  { apply existsb_id_empty. eapply Forall_impl; [exact Hv|]. by intros ? []. }
  rewrite sort_canonical by done.
  assert (first_duplicate 1 (e :: l) = None) as ->; [|done].
  apply first_duplicate_None; [|done].
  rewrite <-(sort_canonical (e :: l)) by done. apply sort_bytes_sorted.
Qed.

(** ** The overlap index *)

Definition index_wf (entries : ScopeIndex) : Prop := sv_sorted id entries.

Lemma visit_spec budget nodes l out r :
  visit budget nodes l out = Some r → r = (nodes + zlen l, out ++ l).
Proof.
  revert nodes out. induction l as [|c l IH]; intros nodes out; simpl.
  - intros [= <-]. rewrite app_nil_r. f_equal. unfold zlen; simpl. lia.
  - destruct (_ <? _); [done|]. intros ->%IH. rewrite <-app_assoc. f_equal.
    unfold zlen; simpl. lia.
Qed.

Lemma visit_total budget nodes l out :
  nodes + zlen l <= budget → visit budget nodes l out = Some (nodes + zlen l, out ++ l).
Proof.
  revert nodes out. induction l as [|c l IH]; intros nodes out Hb; simpl.
  - rewrite app_nil_r. do 2 f_equal. unfold zlen; simpl; lia.
  - unfold zlen in *; simpl in *. destruct (Z.ltb_spec budget (nodes + 1)); [lia|].
    rewrite IH by lia. rewrite <-app_assoc. do 2 f_equal; simpl; lia.
Qed.

Lemma lower_bound_app {V K} `{Cmp K} (key : V → K) k l :
  (lower_bound key k l).1 ++ (lower_bound key k l).2 = l.
Proof.
  induction l as [|x r IH]; simpl; [done|]. destruct (ltb _ _); [|done].
  destruct (lower_bound key k r); simpl in *. by f_equal.
Qed.

(** Entries below the probe are those with a smaller extent. *)
Lemma elem_of_run_at entries e c : index_wf entries →
  (e, c) ∈ run_at entries e ↔ (e, c) ∈ entries.
Proof.
  unfold index_wf, run_at. induction 1 as [|[x d] r Hr IH Hx]; [done|]. simpl.
  destruct (ltb (x, d) (e, [])) eqn:E.
  - destruct (lower_bound id (e, []) r) as [a b] eqn:El. simpl in *.
    rewrite IH, elem_of_cons. split; [auto|]. intros [[= -> ->]|]; [|done].
    exfalso. unfold ltb in E. rewrite prod_cmp_unfold, cmp_refl in E. simpl in E.
    unfold cmp, bytes_cmp in E. by destruct d.
  - clear IH. simpl. destruct (eqb x e) eqn:Exe.
    + apply eqb_eq in Exe as ->. rewrite !elem_of_cons.
      assert (Hrun : ∀ c, (e, c) ∈ run_of e r ↔ (e, c) ∈ r); [|by rewrite Hrun].
      clear - Hr Hx. intros c'.
      assert (Hhd : Forall (λ w : bytes * bytes, ltb w.1 e = false) r).
      { eapply Forall_impl; [exact Hx|]. intros [w ?] Hw. unfold ltb in Hw. simpl in *.
        rewrite prod_cmp_unfold in Hw. unfold ltb. rewrite (cmp_flip e w).
        by destruct (cmp e w). }
      clear Hx. induction Hr as [|[y f] r Hr IH Hy]; [done|]. simpl.
      apply Forall_cons in Hhd as [Hye Hhd]. simpl in Hye.
      destruct (eqb y e) eqn:Eye.
      * apply eqb_eq in Eye as ->. rewrite !elem_of_cons, IH by done. done.
      * split; [set_solver|]. rewrite elem_of_cons. intros [[= -> ->]|Hin].
        { by rewrite eqb_refl in Eye. }
        exfalso. rewrite Forall_forall in Hy. apply Hy in Hin. unfold ltb in Hin. simpl in Hin.
        rewrite prod_cmp_unfold in Hin. apply ltb_ge in Hye as [->|Hey].
        { by rewrite eqb_refl in Eye. }
        apply ltb_lt in Hey. rewrite (cmp_flip e y), Hey in Hin. done.
    + split; [set_solver|]. intros Hin. exfalso.
      rewrite elem_of_cons in Hin. destruct Hin as [[= -> ->]|Hin].
      { by rewrite eqb_refl in Exe. }
      rewrite Forall_forall in Hx. apply Hx in Hin. unfold ltb in Hin, E. simpl in Hin.
      rewrite prod_cmp_unfold in Hin, E. unfold eqb in Exe.
      destruct (cmp x e); done.
Qed.

Lemma run_at_extent entries e x : x ∈ run_at entries e → x.1 = e.
Proof.
  unfold run_at. generalize (lower_bound id (e, []) entries).2 as l.
  induction l as [|y l IH]; [set_solver|]. simpl.
  destruct (eqb y.1 e) eqn:E; [|set_solver]. apply eqb_eq in E. set_solver.
Qed.

Lemma elem_of_claims_at entries e c : index_wf entries →
  c ∈ snd <$> run_at entries e ↔ (e, c) ∈ entries.
Proof.
  intros Hwf. rewrite list_elem_of_fmap, <-elem_of_run_at by done. split.
  - intros ([x d] & -> & Hin). pose proof (run_at_extent _ _ _ Hin) as <-. done.
  - intros Hin. by exists (e, c).
Qed.

Lemma query_loop_spec entries budget nodes q out out' : index_wf entries →
  query_loop entries budget nodes q out = Some out' →
  ∀ c, c ∈ out' ↔ c ∈ out ∨ ∃ e, e ∈ q ∧ (e, c) ∈ entries.
Proof.
  intros Hwf. revert nodes out. induction q as [|e q IH]; intros nodes out; simpl.
  - intros [= <-] c. set_solver.
  - destruct (visit _ _ _ _) as [[n o]|] eqn:E; [|done]. apply visit_spec in E as [= -> ->].
    intros Hq c. rewrite (IH _ _ Hq c), elem_of_app, elem_of_claims_at by done. set_solver.
Qed.

Lemma index_add_loop_wf entries claim l : index_wf entries →
  index_wf (index_add_loop entries claim l).1.
Proof.
  revert entries. induction l as [|e l IH]; intros entries Hwf; simpl; [done|].
  destruct (_ <=? _); [done|]. apply IH. by apply sv_set_sorted.
Qed.

Lemma index_add_wf entries claim s : index_wf entries → index_wf (index_add entries claim s).1.
Proof.
  unfold index_add. intros. destruct (id_empty claim); [done|].
  destruct (scope_empty s); [done|]. by apply index_add_loop_wf.
Qed.

Lemma index_remove_wf entries claim : index_wf entries → index_wf (index_remove entries claim).
Proof.
  unfold index_wf, sv_sorted, index_remove. induction 1 as [|x r Hr IH Hx]; [constructor|].
  simpl. destruct (negb _); [|done]. constructor; [done|].
  apply Forall_forall. intros y Hy. rewrite Forall_forall in Hx. apply Hx.
  apply list_elem_of_In in Hy. apply list_elem_of_In. apply filter_In in Hy. tauto.
Qed.

Lemma elem_of_index_set entries (x y : ExtentId * ClaimId) : index_wf entries →
  x ∈ sv_set id y entries ↔ x = y ∨ x ∈ entries.
Proof.
  intros Hwf. split; [apply elem_of_sv_set_1|].
  pose proof (sv_set_sorted id y entries Hwf) as Hs.
  assert (Hk : ∀ z, z ∈ sv_set id y entries ↔ sv_find id z (sv_set id y entries) = Some z).
  { intros z. rewrite sv_find_Some by done. naive_solver. }
  intros [->|Hin]; apply Hk; [apply (sv_find_set_eq id)|].
  rewrite (sv_find_set id) by done. unfold id at 1. case_decide; [by subst|].
  by apply sv_find_Some.
Qed.

Lemma index_add_ok entries claim s x : index_wf entries →
  (index_add entries claim s).2 = status_ok →
  x ∈ (index_add entries claim s).1 ↔ x ∈ entries ∨ (x.1 ∈ s ∧ x.2 = claim).
Proof.
  unfold index_add. intros Hwf. destruct (id_empty claim); [done|].
  destruct (scope_empty s); [done|]. revert entries Hwf.
  induction s as [|e s IH]; intros entries Hwf; simpl; [set_solver|].
  destruct (_ <=? _); [done|]. intros Hok.
  rewrite IH by (auto; by apply sv_set_sorted). rewrite elem_of_index_set by done.
  destruct x as [x c]; simpl. set_solver.
Qed.

#[export] Hint Resolve canonical_nil index_add_wf index_remove_wf : sbf.
#[global] Arguments scope_digest : simpl never.

(** ** Canonical sequences are determined by their elements *)

Lemma canonical_ext a b : canonical a → canonical b → (∀ e, e ∈ a ↔ e ∈ b) → a = b.
Proof.
  intros Ha Hb Hab. apply (StronglySorted_unique_strong (λ x y, ltb x y = true)); [|done..|].
  - intros x y _ _ H1 H2. apply (ltb_asym x y) in H1. congruence.
  - apply NoDup_Permutation; [by apply canonical_NoDup..|done].
Qed.

Lemma unique_adj_canonical (l : list bytes) : sorted_by ltb l → canonical (unique_adj l).
Proof. apply unique_adj_sorted. Qed.

Lemma intersect_merge_canonical a b : canonical a → canonical b →
  canonical (intersect_merge a b).
Proof.
  revert b. apply (two_pointer_ind (λ a b, canonical a → canonical b →
    canonical (intersect_merge a b))); clear a.
  - intros [] _ _; apply canonical_nil.
  - intros [] _ _; apply canonical_nil.
  - intros x a b IH Ha Hb. rewrite intersect_merge_cons, eqb_refl.
    rewrite canonical_cons in Ha, Hb |- *. split; [|naive_solver].
    apply Forall_forall. intros z Hz. apply elem_of_intersect_merge in Hz; [|naive_solver..].
    destruct Ha as [Ha _]. rewrite Forall_forall in Ha. naive_solver.
  - intros x a y b Hlt IH Ha Hb. rewrite intersect_merge_cons, ltb_eqb_false, Hlt by done.
    rewrite canonical_cons in Ha. naive_solver.
  - intros x a y b Hlt IH Ha Hb.
    rewrite intersect_merge_cons, gtb_eqb_false, (ltb_asym y x) by done.
    rewrite canonical_cons in Hb. naive_solver.
Qed.

Lemma elem_of_intersect_reference a b e : e ∈ intersect_reference a b ↔ e ∈ a ∧ e ∈ b.
Proof.
  unfold intersect_reference. rewrite elem_of_unique_adj, elem_of_sort_by, list_elem_of_In.
  rewrite filter_In, <-list_elem_of_In, existsb_exists.
  setoid_rewrite <-list_elem_of_In. setoid_rewrite eqb_eq. naive_solver.
Qed.

(** ** What a query costs: the claims it visits *)

Definition query_cost (entries : ScopeIndex) (q : Scope) : Z :=
  foldr (λ e n, zlen (run_at entries e) + n) 0 q.

Lemma query_cost_nonneg entries q : 0 <= query_cost entries q.
Proof. induction q as [|e q IH]; simpl; [lia|]. pose proof (zlen_nonneg (run_at entries e)). lia. Qed.

Lemma visit_none budget nodes l out : visit budget nodes l out = None → budget < nodes + zlen l.
Proof.
  intros E. destruct (decide (nodes + zlen l <= budget)); [|lia].
  by rewrite visit_total in E.
Qed.

Lemma visit_some_le budget nodes l out r :
  visit budget nodes l out = Some r → nodes <= budget → nodes + zlen l <= budget.
Proof.
  revert nodes out. induction l as [|c l IH]; intros nodes out; simpl.
  - unfold zlen; simpl; lia.
  - destruct (Z.ltb_spec budget (nodes + 1)); [done|]. intros Hv _.
    apply IH in Hv; [|lia]. unfold zlen in *; simpl; lia.
Qed.

Lemma query_loop_budget entries budget nodes q out : nodes <= budget →
  query_loop entries budget nodes q out = None ↔ budget < nodes + query_cost entries q.
Proof.
  revert nodes out. induction q as [|e q IH]; intros nodes out Hn; simpl.
  - split; [done|lia].
  - destruct (visit _ _ _ _) as [[n o]|] eqn:E.
    + pose proof (visit_some_le _ _ _ _ _ E Hn) as Hle.
      apply visit_spec in E as [= -> ->]. unfold zlen in *. rewrite length_fmap in *.
      rewrite IH by done. lia.
    + apply visit_none in E. unfold zlen in *. rewrite length_fmap in E.
      pose proof (query_cost_nonneg entries q). naive_solver lia.
Qed.

Module Scopes.

(** The merge that the library runs agrees with the quadratic reference the
    tests compare it with. *)
Theorem merge_is_reference (a b : Scope) : canonical a → canonical b →
  intersect_merge a b = intersect_reference a b.
Proof.
  intros Ha Hb. apply canonical_ext.
  - by apply intersect_merge_canonical.
  - apply unique_adj_canonical, sort_bytes_sorted.
  - intros e. rewrite elem_of_intersect_reference, elem_of_intersect_merge by done. done.
Qed.

Lemma merge_is_reference_witness :
  intersect_merge [str "a"; str "b"; str "d"] [str "b"; str "c"; str "d"] = [str "b"; str "d"].
Proof.
  rewrite (merge_is_reference [str "a"; str "b"; str "d"] [str "b"; str "c"; str "d"]).
  - vm_compute. reflexivity.
  - repeat constructor.
  - repeat constructor.
Defined.

(** A scope that [make] accepts is canonical, and the extents are exactly
    those presented; the two-pointer predicates are then the set relations. *)
Theorem make_sound (l : list ExtentId) (s t : Scope) (k : list ExtentId) :
  scope_make l = Ret s → scope_make k = Ret t →
  canonical s ∧ s ≡ₚ l ∧
  (overlaps s t = true ↔ ∃ e, e ∈ l ∧ e ∈ k) ∧
  (is_superset_of s t = true ↔ k ⊆ l).
Proof.
  intros (_ & _ & Hs & Hsl & _)%scope_make_ok (_ & _ & Ht & Htk & _)%scope_make_ok.
  split; [done|]. split; [done|]. split.
  - rewrite overlaps_spec by done. by setoid_rewrite Hsl; setoid_rewrite Htk.
  - rewrite is_superset_spec by done. by rewrite <-Hsl, <-Htk.
Qed.

Lemma make_sound_witness : canonical [str "n1"; str "n2"].
Proof.
  refine (proj1 (make_sound [str "n2"; str "n1"] [str "n1"; str "n2"] [str "n1"] [str "n1"] _ _)).
  - vm_compute. reflexivity.
  - vm_compute. reflexivity.
Defined.

(** The index answers exactly: [Found] with the sorted claims whose scope
    holds a queried extent, [Absent] when there is none, and
    [Indeterminate] precisely when the visit would exceed the budget. *)
Theorem query_exact (entries : ScopeIndex) (q : Scope) (budget : Z) :
  index_wf entries → 0 <= budget →
  let '(answer, out) := index_query entries q budget in
  (answer = Indeterminate ↔ budget < query_cost entries q) ∧
  (answer = Indeterminate → out = []) ∧
  (answer ≠ Indeterminate →
     canonical out ∧ (∀ c, c ∈ out ↔ ∃ e, e ∈ q ∧ (e, c) ∈ entries) ∧
     (answer = Absent ↔ out = [])).
Proof.
  intros Hwf Hb. unfold index_query.
  pose proof (query_loop_budget entries budget 0 q [] Hb) as Hcost.
  destruct (query_loop entries budget 0 q []) as [out|] eqn:E.
  - assert (Hn : ¬ budget < query_cost entries q) by (intros ?; apply Hcost in H; done).
    pose proof (query_loop_spec _ _ _ _ _ _ Hwf E) as Hspec.
    pose proof (unique_adj_canonical _ (sort_bytes_sorted out)) as Hcan.
    assert (Hel : ∀ c, c ∈ unique_adj (sort_by ltb out) ↔ ∃ e, e ∈ q ∧ (e, c) ∈ entries).
    { intros c. rewrite elem_of_unique_adj, elem_of_sort_by, Hspec. set_solver. }
    destruct (unique_adj (sort_by ltb out)); naive_solver.
  - naive_solver.
Qed.

Definition sample : ScopeIndex :=
  (index_add (index_add [] (str "c1") [str "a"; str "b"]).1 (str "c2") [str "b"; str "c"]).1.

Lemma query_exact_witness : index_query sample [str "b"] 10 = (Found, [str "c1"; str "c2"]) ∧
  ¬ 10 < query_cost sample [str "b"].
Proof.
  assert (E : index_query sample [str "b"] 10 = (Found, [str "c1"; str "c2"]))
    by (vm_compute; reflexivity).
  split; [exact E|]. pose proof (query_exact sample [str "b"] 10) as H. rewrite E in H.
  destruct H as [H _]; [apply index_add_wf, index_add_wf; constructor|lia|].
  intros Hlt. by apply H in Hlt.
Defined.
End Scopes.
