(* ===== verification/Fence.v ===== *)
(** * The durable fence table

    Models [include/sbf/fence.hpp] and [src/fence.cpp]: per-extent high-water
    marks, the bounded audit history and the fenced incarnations and epochs.
    A method that may leave a partially updated table behind returns the
    table it leaves together with its [Status]. *)
From S2P Require Import Prelude Order SortedVec Status Ids Digest Scope.
Open Scope Z_scope.

(** [struct FenceRecord]; [fr_scope] is the digest of the fenced extents. *)
Record FenceRecord := mkFenceRecord {
  fr_token : FenceToken;
  fr_domain : DomainId;
  fr_scope : Digest256;
  fr_epoch : Epoch;
  fr_incarnation : IncarnationId;
  fr_cause : Reason;
  fr_issued_at : Step;
  fr_superseded : GrantId;
  fr_sequence : Sequence;
  fr_previous : FenceToken
}.

Record ExtentFenceState := mkExtentState {
  es_extent : ExtentId;
  es_token : FenceToken;
  es_epoch : Epoch;
  es_owner : IncarnationId;
  es_grant : GrantId;
  es_updated : Step
}.

Record FenceAdmission := mkAdmission {
  fa_admitted : bool;
  fa_status : Status;
  fa_explanation : Explanation;
  fa_high_water : FenceToken
}.

Record FenceTable := mkFenceTable {
  ft_extents : list ExtentFenceState;
  ft_records : list FenceRecord;
  ft_incarnations : list IncarnationId;
  ft_epochs : list (bytes * Z);
  ft_generation : Generation
}.

Definition fence_table0 : FenceTable := mkFenceTable [] [] [] [] 1.

#[export] Instance fence_record_eq_dec : EqDecision FenceRecord.
Proof. solve_decision. Defined.
#[export] Instance extent_state_eq_dec : EqDecision ExtentFenceState.
Proof. solve_decision. Defined.

Definition fence_find (t : FenceTable) (e : ExtentId) : option ExtentFenceState :=
  sv_find es_extent e (ft_extents t).

Definition high_water (t : FenceTable) (e : ExtentId) : FenceToken :=
  match fence_find t e with Some s => es_token s | None => 0 end.

(** [bump_generation()]: saturates. *)
Definition bump (g : Generation) : Generation := (try_increment g 1).1.

(** The checking loop of [adopt]: the first extent that refuses the claim. *)
Fixpoint adopt_check (es : list ExtentFenceState) (token : FenceToken)
    (incarnation : IncarnationId) (scope : list ExtentId) : option Status :=
  match scope with
  | [] => None
  | e :: r =>
      match sv_find es_extent e es with
      | Some s =>
          if token <? es_token s
          then Some (mkStatus Outcome.Fenced Reason.FenceTokenRegressed (es_token s))
          else if (es_token s =? token) && negb (es_owner s =? incarnation)
          then Some (mkStatus Outcome.Conflict Reason.StoreOwnerMismatch (es_owner s))
          else adopt_check es token incarnation r
      | None => adopt_check es token incarnation r
      end
  end.

Definition fence_adopt (t : FenceTable) (scope : Scope) (token : FenceToken) (epoch : Epoch)
    (incarnation : IncarnationId) (grant : GrantId) (now : Step) : FenceTable * Status :=
  if scope_empty scope then (t, fail0 Outcome.Invalid Reason.EmptyExtentSet)
  else if is_none token then (t, fail0 Outcome.Invalid Reason.FenceTokenMissing)
  else if is_none incarnation then (t, fail0 Outcome.Invalid Reason.ValueOutOfRange)
  else
    match adopt_check (ft_extents t) token incarnation scope with
    | Some st => (t, st)
    | None =>
        if kMaxIndexedExtents <? zlen (ft_extents t) + zlen scope
        then (t, mkStatus Outcome.Exhausted Reason.BoundedTableFull (zlen (ft_extents t)))
        else
          (mkFenceTable
             (foldl (λ es e, sv_set es_extent
                       (mkExtentState e token epoch incarnation grant now) es)
                    (ft_extents t) scope)
             (ft_records t) (ft_incarnations t) (ft_epochs t) (bump (ft_generation t)),
           status_ok)
    end.

(** The mark that a fence record leaves on an extent. *)
Definition fence_mark (r : FenceRecord) (e : ExtentId) (old : option ExtentFenceState)
  : ExtentFenceState :=
  mkExtentState e (fr_token r) (fr_epoch r)
    (match old with
     | Some s => if is_set (fr_incarnation r) then fr_incarnation r else es_owner s
     | None => fr_incarnation r
     end)
    (fr_superseded r) (fr_issued_at r).

(** The loop of [apply]: extents already raised stay raised when a later one
    is refused. *)
Fixpoint apply_extents (r : FenceRecord) (es : list ExtentFenceState) (scope : list ExtentId)
  : list ExtentFenceState * Status :=
  match scope with
  | [] => (es, status_ok)
  | e :: rest =>
      let old := sv_find es_extent e es in
      match old with
      | Some s =>
          if fr_token r <? es_token s
          then (es, mkStatus Outcome.Fenced Reason.FenceTokenRegressed (es_token s))
          else apply_extents r (sv_set es_extent (fence_mark r e old) es) rest
      | None => apply_extents r (sv_set es_extent (fence_mark r e old) es) rest
      end
  end.

(** Insert into a bounded sorted set; a full set silently keeps its contents. *)
Definition bounded_insert {K} `{Cmp K} (k : K) (l : list K) : list K :=
  match sv_find id k l with
  | Some _ => l
  | None => if zlen l <? kMaxFenceRecords then sv_set id k l else l
  end.

Definition fence_apply (t : FenceTable) (r : FenceRecord) (scope : Scope) : FenceTable * Status :=
  if scope_empty scope then (t, fail0 Outcome.Invalid Reason.EmptyExtentSet)
  else if is_none (fr_token r) then (t, fail0 Outcome.Invalid Reason.FenceTokenMissing)
  else
    let records := if kMaxFenceRecords <=? zlen (ft_records t)
                   then tail (ft_records t) else ft_records t in
    let t1 := mkFenceTable (ft_extents t) records (ft_incarnations t) (ft_epochs t)
                (ft_generation t) in
    if kMaxIndexedExtents <? zlen (ft_extents t) + zlen scope
    then (t1, mkStatus Outcome.Exhausted Reason.BoundedTableFull (zlen (ft_extents t)))
    else
      let '(es, st) := apply_extents r (ft_extents t) scope in
      if negb (is_ok st)
      then (mkFenceTable es records (ft_incarnations t) (ft_epochs t) (ft_generation t), st)
      else
        (mkFenceTable es (records ++ [r])
           (if is_set (fr_incarnation r)
            then bounded_insert (fr_incarnation r) (ft_incarnations t) else ft_incarnations t)
           (if negb (id_empty (fr_domain r)) && is_set (fr_epoch r)
            then bounded_insert (fr_domain r, fr_epoch r) (ft_epochs t) else ft_epochs t)
           (bump (ft_generation t)),
         status_ok).

Definition refused_admission (st : Status) (r : Reason) (hw : FenceToken) : FenceAdmission :=
  mkAdmission false st (expl_add no_explanation r) hw.

Fixpoint admit_loop (t : FenceTable) (presented : FenceToken) (incarnation : IncarnationId)
    (grant : GrantId) (highest : FenceToken) (scope : list ExtentId) : FenceAdmission :=
  match scope with
  | [] => mkAdmission true status_ok no_explanation highest
  | e :: r =>
      match fence_find t e with
      | None => admit_loop t presented incarnation grant highest r
      | Some s =>
          if presented <? es_token s
          then refused_admission (mkStatus Outcome.Fenced Reason.TokenFloorRejected (es_token s))
                 Reason.TokenFloorRejected (es_token s)
          else if (es_token s =? presented) && negb (es_owner s =? incarnation)
          then refused_admission (mkStatus Outcome.Conflict Reason.StoreOwnerMismatch (es_owner s))
                 Reason.StoreOwnerMismatch (es_token s)
          else if (es_token s =? presented) && is_set (es_grant s) && negb (es_grant s =? grant)
          then refused_admission (mkStatus Outcome.Conflict Reason.StoreOwnerMismatch (es_grant s))
                 Reason.StoreOwnerMismatch (es_token s)
          else admit_loop t presented incarnation grant
                 (if highest <? es_token s then es_token s else highest) r
      end
  end.

(** [FenceTable::admit]. *)
Definition fence_admission (t : FenceTable) (presented : FenceToken) (scope : Scope)
    (incarnation : IncarnationId) (grant : GrantId) : FenceAdmission :=
  if scope_empty scope
  then refused_admission (fail0 Outcome.Invalid Reason.EmptyExtentSet) Reason.EmptyExtentSet 0
  else if is_none presented
  then refused_admission (fail0 Outcome.Invalid Reason.FenceTokenMissing)
         Reason.FenceTokenMissing 0
  else admit_loop t presented incarnation grant 0 scope.

Definition binary_search {K} `{Cmp K} (k : K) (l : list K) : bool :=
  match sv_find id k l with Some _ => true | None => false end.

Definition incarnation_fenced (t : FenceTable) (i : IncarnationId) : bool :=
  if is_none i then false else binary_search i (ft_incarnations t).

Definition epoch_fenced (t : FenceTable) (domain : DomainId) (epoch : Epoch) : bool :=
  if id_empty domain || is_none epoch then false
  else binary_search (domain, epoch) (ft_epochs t).

Fixpoint validate_extents (i : Z) (previous : option ExtentFenceState)
    (l : list ExtentFenceState) : Status :=
  match l with
  | [] => status_ok
  | s :: r =>
      if id_empty (es_extent s) then mkStatus Outcome.Corrupt Reason.EmptyValue i
      else if is_none (es_token s) then mkStatus Outcome.Corrupt Reason.FenceTokenMissing i
      else if (match previous with
               | Some p => negb (ltb (es_extent p) (es_extent s))
               | None => false
               end)
      then mkStatus Outcome.Corrupt Reason.DuplicateEntry i
      else validate_extents (i + 1) (Some s) r
  end.

Definition fence_validate (t : FenceTable) : Status := validate_extents 0 None (ft_extents t).

(** [extent_state_less]. *)
Definition extent_state_less (a b : ExtentFenceState) : bool := ltb (es_extent a) (es_extent b).

(** [FenceTable::import]: the table is replaced only when the rows validate. *)
Definition fence_import (extents : list ExtentFenceState) (records : list FenceRecord)
  : result FenceTable :=
  if kMaxIndexedExtents <? zlen extents
  then Err (mkStatus Outcome.Exhausted Reason.BoundedTableFull (zlen extents))
  else
    let sorted := sort_by extent_state_less extents in
    let st := validate_extents 0 None sorted in
    if negb (is_ok st) then Err st
    else
      let kept := if kMaxFenceRecords <? zlen records
                  then drop (Z.to_nat (zlen records - kMaxFenceRecords)) records else records in
      let incarnations :=
        List.filter is_set (fr_incarnation <$> kept) ++ List.filter is_set (es_owner <$> sorted) in
      let epochs :=
        (λ r, (fr_domain r, fr_epoch r)) <$>
          List.filter (λ r, negb (id_empty (fr_domain r)) && is_set (fr_epoch r)) kept in
      Ret (mkFenceTable sorted kept (unique_adj (sort_by ltb incarnations))
             (unique_adj (sort_by ltb epochs)) 1).

(** ** Marks: what a list of extent states promises *)

Definition mark (es : list ExtentFenceState) (e : ExtentId) : FenceToken :=
  match sv_find es_extent e es with Some s => es_token s | None => 0 end.

(** [marks_le es es']: no mark was lowered. *)
Definition marks_le (es es' : list ExtentFenceState) : Prop := ∀ e, mark es e <= mark es' e.

#[export] Instance marks_le_preorder : PreOrder marks_le.
Proof. split; [intros es e; lia|]. intros a b c H1 H2 e. specialize (H1 e). specialize (H2 e). lia. Qed.

Lemma high_water_mark t e : high_water t e = mark (ft_extents t) e.
Proof. done. Qed.

Definition es_ok (s : ExtentFenceState) : Prop := es_extent s ≠ [] ∧ 0 < es_token s.

(** The invariant of [FenceTable::extents_]. *)
Definition extents_wf (es : list ExtentFenceState) : Prop :=
  sv_sorted es_extent es ∧ Forall es_ok es.

Definition fence_wf (t : FenceTable) : Prop :=
  extents_wf (ft_extents t) ∧ zlen (ft_extents t) <= kMaxIndexedExtents ∧
  sv_sorted id (ft_incarnations t) ∧ sv_sorted id (ft_epochs t).

Lemma mark_set v es e : sv_sorted es_extent es →
  mark (sv_set es_extent v es) e = if decide (e = es_extent v) then es_token v else mark es e.
Proof. intros Hs. unfold mark. rewrite sv_find_set by done. by repeat case_decide. Qed.

Lemma extents_wf_set v es : extents_wf es → es_ok v → extents_wf (sv_set es_extent v es).
Proof.
  intros [Hs Hf] Hv. split; [by apply sv_set_sorted|by apply sv_set_Forall].
Qed.

Lemma mark_nonneg es e : extents_wf es → 0 <= mark es e.
Proof.
  intros [_ Hf]. unfold mark. destruct (sv_find _ _ _) as [s|] eqn:E; [|lia].
  apply sv_find_elem in E as [Hin _]. rewrite Forall_forall in Hf. destruct (Hf s Hin). lia.
Qed.

Lemma zlen_sv_set {V K} `{CmpLaws K} (key : V → K) v l :
  zlen (sv_set key v l) <= zlen l + 1 ∧ zlen l <= zlen (sv_set key v l).
Proof. unfold zlen. rewrite length_sv_set. destruct (sv_find _ _ _); lia. Qed.

Definition nonempty_extents (scope : list ExtentId) : Prop := Forall (λ e : bytes, e ≠ []) scope.

Lemma scope_wf_nonempty s : scope_wf s → nonempty_extents s.
Proof. intros (_ & _ & _ & Hv). eapply Forall_impl; [exact Hv|]. by intros e []. Qed.

(** ** [adopt] *)

Section adopt.
Context (token : FenceToken) (epoch : Epoch) (incarnation : IncarnationId).
Context (grant : GrantId) (now : Step).
Definition adopt_marks : list ExtentFenceState → list ExtentId → list ExtentFenceState :=
  foldl (λ es e, sv_set es_extent (mkExtentState e token epoch incarnation grant now) es).

Lemma adopt_marks_wf scope es : 0 < token → nonempty_extents scope → extents_wf es →
  extents_wf (adopt_marks es scope).
Proof.
  intros Ht. revert es. induction scope as [|e r IH]; intros es Hne Hwf; simpl; [done|].
  inversion Hne; subst. apply IH; [done|]. by apply extents_wf_set.
Qed.

Lemma adopt_marks_find scope es e : sv_sorted es_extent es →
  sv_find es_extent e (adopt_marks es scope) =
    if decide (e ∈ scope) then Some (mkExtentState e token epoch incarnation grant now)
    else sv_find es_extent e es.
Proof.
  revert es. induction scope as [|x r IH]; intros es Hs.
  - by rewrite decide_False by set_solver.
  - change (adopt_marks es (x :: r)) with
      (adopt_marks (sv_set es_extent (mkExtentState x token epoch incarnation grant now) es) r).
    rewrite IH by by apply sv_set_sorted. rewrite sv_find_set by done.
    cbn [es_extent]. repeat case_decide; set_solver.
Qed.

Lemma adopt_marks_sorted scope es : sv_sorted es_extent es →
  sv_sorted es_extent (adopt_marks es scope).
Proof.
  revert es. induction scope as [|x r IH]; intros es Hs; simpl; [done|].
  by apply IH, sv_set_sorted.
Qed.

Lemma adopt_marks_length scope es : zlen (adopt_marks es scope) <= zlen es + zlen scope.
Proof.
  revert es. induction scope as [|x r IH]; intros es; simpl; [unfold zlen; simpl; lia|].
  etrans; [apply IH|]. pose proof (zlen_sv_set es_extent
    (mkExtentState x token epoch incarnation grant now) es). unfold zlen in *; simpl; lia.
Qed.

Lemma adopt_check_None es scope : adopt_check es token incarnation scope = None ↔
  ∀ e s, e ∈ scope → sv_find es_extent e es = Some s →
    es_token s < token ∨ (es_token s = token ∧ es_owner s = incarnation).
Proof.
  induction scope as [|x r IH]; simpl; [set_solver|].
  destruct (sv_find es_extent x es) as [s|] eqn:E.
  - destruct (Z.ltb_spec token (es_token s)) as [L|L]; simpl.
    { split; [done|]. intros Ha. destruct (Ha x s) as [?|[??]]; [set_solver|done|lia|lia]. }
    destruct (Z.eqb_spec (es_token s) token) as [Et|Et]; simpl;
      [destruct (Z.eqb_spec (es_owner s) incarnation) as [Eo|Eo]; simpl|].
    + rewrite IH. split; [|set_solver]. intros Ha e s' [->|Hin]%elem_of_cons Hs'; [|eauto].
      right. naive_solver.
    + split; [done|]. intros Ha. destruct (Ha x s) as [?|[??]]; [set_solver|done|lia|done].
    + rewrite IH. split; [|set_solver]. intros Ha e s' [->|Hin]%elem_of_cons Hs'; [|eauto].
      left. replace s' with s by congruence. lia.
  - rewrite IH. split; [|set_solver]. intros Ha e s' [->|Hin]%elem_of_cons Hs'; [|eauto].
    congruence.
Qed.

Lemma adopt_marks_le es scope : 0 < token → sv_sorted es_extent es →
  adopt_check es token incarnation scope = None → marks_le es (adopt_marks es scope).
Proof.
  intros Ht Hs. rewrite adopt_check_None. intros Hc e. unfold mark.
  rewrite adopt_marks_find by done. case_decide as Hin; [|lia]. simpl.
  destruct (sv_find es_extent e es) as [s|] eqn:E; [|lia].
  destruct (Hc e s Hin E) as [?|[??]]; lia.
Qed.
End adopt.

Lemma adopt_check_refuses es token incarnation scope :
  adopt_check es token incarnation scope ≠ Some status_ok.
Proof.
  induction scope as [|x r IH]; simpl; [done|].
  destruct (sv_find _ _ _); [|done]. by repeat case_match.
Qed.

(** Everything a successful [adopt] establishes. *)
Lemma fence_adopt_ok t scope token epoch incarnation grant now t' :
  fence_adopt t scope token epoch incarnation grant now = (t', status_ok) →
  scope ≠ [] ∧ token ≠ 0 ∧ incarnation ≠ 0 ∧
  adopt_check (ft_extents t) token incarnation scope = None ∧
  zlen (ft_extents t) + zlen scope <= kMaxIndexedExtents ∧
  t' = mkFenceTable (adopt_marks token epoch incarnation grant now (ft_extents t) scope)
         (ft_records t) (ft_incarnations t) (ft_epochs t) (bump (ft_generation t)).
Proof.
  unfold fence_adopt, is_none. destruct (scope_empty scope) eqn:E1; [done|].
  apply scope_empty_false in E1.
  destruct (Z.eqb_spec token 0); [done|]. destruct (Z.eqb_spec incarnation 0); [done|].
  destruct (adopt_check _ _ _ _) as [st|] eqn:Ec.
  - intros [= <- ->]. by apply adopt_check_refuses in Ec.
  - destruct (Z.ltb_spec kMaxIndexedExtents (zlen (ft_extents t) + zlen scope)); [done|].
    intros [= <-]. done.
Qed.

(** A refused [adopt] leaves the table alone. *)
Lemma fence_adopt_refused t scope token epoch incarnation grant now t' st :
  fence_adopt t scope token epoch incarnation grant now = (t', st) → st ≠ status_ok → t' = t.
Proof. unfold fence_adopt. intros E Hst. repeat case_match; naive_solver. Qed.

(** ** [apply] *)

Section apply.
Context (r : FenceRecord).

Lemma apply_extents_wf scope es : 0 < fr_token r → nonempty_extents scope → extents_wf es →
  extents_wf (apply_extents r es scope).1.
Proof.
  intros Ht. revert es. induction scope as [|e l IH]; intros es Hne Hwf; simpl; [done|].
  inversion Hne; subst.
  assert (Hw : extents_wf (sv_set es_extent (fence_mark r e (sv_find es_extent e es)) es))
    by by apply extents_wf_set.
  destruct (sv_find _ _ _) as [s|] eqn:E; [|by apply IH].
  destruct (_ <? _); [done|by apply IH].
Qed.

Lemma apply_extents_length scope es :
  zlen (apply_extents r es scope).1 <= zlen es + zlen scope.
Proof.
  revert es. induction scope as [|e l IH]; intros es; simpl; [unfold zlen; simpl; lia|].
  assert (H : ∀ v, zlen (apply_extents r (sv_set es_extent v es) l).1 <= zlen es + zlen (e :: l)).
  { intros v. etrans; [apply IH|]. pose proof (zlen_sv_set es_extent v es).
    unfold zlen in *; simpl; lia. }
  destruct (sv_find _ _ _) as [s|]; [|done].
  destruct (_ <? _); [|done]. simpl. unfold zlen; simpl; lia.
Qed.

Lemma apply_extents_le scope es : 0 < fr_token r → sv_sorted es_extent es →
  marks_le es (apply_extents r es scope).1.
Proof.
  intros Ht. revert es. induction scope as [|e l IH]; intros es Hs; simpl; [done|].
  destruct (sv_find es_extent e es) as [s|] eqn:E;
    [destruct (Z.ltb_spec (fr_token r) (es_token s)); [done|]|];
    (etrans; [|apply IH; by apply sv_set_sorted]; intros x; rewrite mark_set by done;
     simpl; case_decide; [subst|lia]; unfold mark; rewrite E; lia).
Qed.

Lemma apply_extents_find scope es e : sv_sorted es_extent es → NoDup scope →
  (apply_extents r es scope).2 = status_ok →
  sv_find es_extent e (apply_extents r es scope).1 =
    if decide (e ∈ scope) then Some (fence_mark r e (sv_find es_extent e es))
    else sv_find es_extent e es.
Proof.
  revert es. induction scope as [|x l IH]; intros es Hs Hnd Hok.
  { by rewrite decide_False by set_solver. }
  apply NoDup_cons in Hnd as [Hx Hnd]. cbn [apply_extents] in *.
  set (es' := sv_set es_extent (fence_mark r x (sv_find es_extent x es)) es) in *.
  assert (Hs' : sv_sorted es_extent es') by by apply sv_set_sorted.
  assert (Hstep : (apply_extents r es' l).2 = status_ok →
    sv_find es_extent e (apply_extents r es' l).1 =
      if decide (e ∈ x :: l) then Some (fence_mark r e (sv_find es_extent e es))
      else sv_find es_extent e es).
  { intros Hok'. rewrite IH by done. unfold es'. rewrite sv_find_set by done.
    cbn [es_extent fence_mark]. repeat case_decide; set_solver. }
  destruct (sv_find es_extent x es) as [s|] eqn:E; [|by apply Hstep].
  destruct (_ <? _); [done|by apply Hstep].
Qed.

(** [apply] succeeds exactly when no extent carries a higher mark. *)
Lemma apply_extents_ok scope es : sv_sorted es_extent es → NoDup scope →
  (apply_extents r es scope).2 = status_ok ↔
  ∀ e s, e ∈ scope → sv_find es_extent e es = Some s → es_token s <= fr_token r.
Proof.
  revert es. induction scope as [|x l IH]; intros es Hs Hnd; simpl; [set_solver|].
  apply NoDup_cons in Hnd as [Hx Hnd].
  assert (Hstep : ∀ v, es_extent v = x →
    ((apply_extents r (sv_set es_extent v es) l).2 = status_ok ↔
     ∀ e s, e ∈ l → sv_find es_extent e es = Some s → es_token s <= fr_token r)).
  { intros v Hv. rewrite IH by (done || by apply sv_set_sorted).
    split; intros Ha e s He Hf; apply (Ha e s He).
    - rewrite sv_find_set by done. case_decide; set_solver.
    - rewrite sv_find_set in Hf by done. case_decide; set_solver. }
  destruct (sv_find es_extent x es) as [s|] eqn:E.
  - destruct (Z.ltb_spec (fr_token r) (es_token s)); simpl.
    + split; [done|]. intros Ha. specialize (Ha x s ltac:(set_solver) E). lia.
    + rewrite Hstep by done. split; [|set_solver].
      intros Ha e s' [->|He]%elem_of_cons Hf; [naive_solver|eauto].
  - rewrite Hstep by done. split; [|set_solver].
    intros Ha e s' [->|He]%elem_of_cons Hf; [naive_solver|eauto].
Qed.
End apply.

Lemma bounded_insert_sorted {K} `{CmpLaws K} (k : K) l :
  sv_sorted id l → sv_sorted id (bounded_insert k l).
Proof.
  intros Hs. unfold bounded_insert. destruct (sv_find _ _ _); [done|].
  destruct (_ <? _); [by apply sv_set_sorted|done].
Qed.

Lemma binary_search_spec {K} `{CmpLaws K} (k : K) l : sv_sorted id l →
  binary_search k l = true ↔ k ∈ l.
Proof.
  intros Hs. unfold binary_search. split.
  - destruct (sv_find id k l) as [v|] eqn:E; [|done]. intros _.
    apply sv_find_elem in E as [Hv <-]. done.
  - intros Hin. by rewrite (proj2 (sv_find_Some id k k l Hs) (conj Hin eq_refl)).
Qed.

Lemma elem_of_bounded_insert {K} `{CmpLaws K} (k x : K) l : sv_sorted id l →
  (x ∈ l → x ∈ bounded_insert k l) ∧ (zlen l < kMaxFenceRecords → k ∈ bounded_insert k l).
Proof.
  intros Hs. unfold bounded_insert. destruct (sv_find id k l) as [v|] eqn:E.
  - apply sv_find_elem in E as [Hv <-]. done.
  - destruct (Z.ltb_spec (zlen l) kMaxFenceRecords); [|naive_solver lia].
    assert (Hk : k ∈ sv_set id k l).
    { eapply (sv_find_elem id k). apply (sv_find_set_eq id). }
    split; [|done]. intros Hx. destruct (decide (x = k)) as [->|Hne]; [done|].
    by apply elem_of_sv_set_2.
Qed.

Lemma apply_extents_status r es scope :
  is_ok (apply_extents r es scope).2 = true ↔ (apply_extents r es scope).2 = status_ok.
Proof.
  split; [|by intros ->]. revert es. induction scope as [|x l IH]; intros es; simpl; [done|].
  destruct (sv_find _ _ _); [|apply IH]. destruct (_ <? _); [done|apply IH].
Qed.

(** Everything a successful [apply] establishes. *)
Lemma fence_apply_ok t r scope t' : fence_apply t r scope = (t', status_ok) →
  scope ≠ [] ∧ fr_token r ≠ 0 ∧
  (apply_extents r (ft_extents t) scope).2 = status_ok ∧
  ft_extents t' = (apply_extents r (ft_extents t) scope).1 ∧
  ft_incarnations t' = (if is_set (fr_incarnation r)
    then bounded_insert (fr_incarnation r) (ft_incarnations t) else ft_incarnations t) ∧
  ft_epochs t' = (if negb (id_empty (fr_domain r)) && is_set (fr_epoch r)
    then bounded_insert (fr_domain r, fr_epoch r) (ft_epochs t) else ft_epochs t).
Proof.
  unfold fence_apply, is_none. destruct (scope_empty scope) eqn:E1; [done|].
  apply scope_empty_false in E1. destruct (Z.eqb_spec (fr_token r) 0); [done|].
  destruct (_ <? _); [done|].
  pose proof (apply_extents_status r (ft_extents t) scope) as Hst.
  destruct (apply_extents r (ft_extents t) scope) as [es st]. simpl in *.
  destruct (is_ok st) eqn:E; simpl.
  - intros [= <-]. naive_solver.
  - intros [= <- ->]. done.
Qed.

Lemma fence_apply_sets t r scope :
  let t' := (fence_apply t r scope).1 in
  (ft_incarnations t' = ft_incarnations t ∨
   ft_incarnations t' = bounded_insert (fr_incarnation r) (ft_incarnations t)) ∧
  (ft_epochs t' = ft_epochs t ∨
   ft_epochs t' = bounded_insert (fr_domain r, fr_epoch r) (ft_epochs t)) ∧
  (ft_extents t' = ft_extents t ∨
   (fr_token r ≠ 0 ∧ zlen (ft_extents t) + zlen scope <= kMaxIndexedExtents ∧
    ft_extents t' = (apply_extents r (ft_extents t) scope).1)).
Proof.
  unfold fence_apply, is_none. destruct (scope_empty scope); [simpl; auto|].
  destruct (Z.eqb_spec (fr_token r) 0); [simpl; auto|].
  destruct (Z.ltb_spec kMaxIndexedExtents (zlen (ft_extents t) + zlen scope)); [simpl; auto|].
  destruct (apply_extents r (ft_extents t) scope) as [es st]. simpl.
  destruct (is_ok st); simpl; [|auto 6].
  repeat case_match; auto 8.
Qed.

(** ** Histories of the table *)

(** One call on the table, successful or not. *)
Inductive fence_step : FenceTable → FenceTable → Prop :=
  | step_adopt t scope token epoch incarnation grant now :
      scope_wf scope → is_u64 token →
      fence_step t (fence_adopt t scope token epoch incarnation grant now).1
  | step_apply t r scope :
      scope_wf scope → is_u64 (fr_token r) → fence_step t (fence_apply t r scope).1.

Lemma fence_adopt_cases t scope token epoch incarnation grant now :
  (fence_adopt t scope token epoch incarnation grant now).1 = t ∨
  (fence_adopt t scope token epoch incarnation grant now).2 = status_ok.
Proof. unfold fence_adopt. repeat case_match; auto. Qed.

Lemma fence_step_wf t t' : fence_step t t' → fence_wf t → fence_wf t'.
Proof.
  intros Hstep (Hx & Hlen & Hi & He).
  destruct Hstep as [t scope token epoch incarnation grant now Hsc Ht|t r scope Hsc Ht].
  - destruct (fence_adopt _ _ _ _ _ _ _) as [t' st] eqn:E.
    pose proof (fence_adopt_cases t scope token epoch incarnation grant now) as Hc.
    rewrite E in Hc. simpl in *. destruct Hc as [->| ->]; [done|].
    apply fence_adopt_ok in E as (_ & Hz & _ & Hc & Hb & ->). unfold fence_wf; simpl.
    unfold is_u64 in Ht. split; [apply adopt_marks_wf; [lia|by apply scope_wf_nonempty|done]|].
    split; [|done]. etrans; [apply adopt_marks_length|done].
  - destruct (fence_apply_sets t r scope) as (Hi' & He' & Hx').
    destruct (fence_apply t r scope) as [t' st]; simpl in *. unfold is_u64 in Ht.
    split; [|split; [|split]].
    + destruct Hx' as [->|(Hz & _ & ->)]; [done|].
      apply apply_extents_wf; [lia|by apply scope_wf_nonempty|done].
    + destruct Hx' as [->|(_ & Hb & ->)]; [done|]. etrans; [apply apply_extents_length|done].
    + destruct Hi' as [-> | ->]; [done|by apply bounded_insert_sorted].
    + destruct He' as [-> | ->]; [done|by apply bounded_insert_sorted].
Qed.

Lemma fence_step_marks t t' : fence_step t t' → fence_wf t →
  marks_le (ft_extents t) (ft_extents t').
Proof.
  intros Hstep ((Hs & Hf) & _).
  destruct Hstep as [t scope token epoch incarnation grant now Hsc Ht|t r scope Hsc Ht];
    unfold is_u64 in Ht.
  - destruct (fence_adopt _ _ _ _ _ _ _) as [t' st] eqn:E.
    pose proof (fence_adopt_cases t scope token epoch incarnation grant now) as Hc.
    rewrite E in Hc. simpl in *. destruct Hc as [->| ->]; [done|].
    apply fence_adopt_ok in E as (_ & Hz & _ & Hc & _ & ->). simpl.
    apply adopt_marks_le; [lia|done..].
  - destruct (fence_apply_sets t r scope) as (_ & _ & [->|(Hz & _ & ->)]); [done|].
    apply apply_extents_le; [lia|done].
Qed.

Lemma fence_step_fenced t t' : fence_step t t' → fence_wf t →
  (∀ i, incarnation_fenced t i = true → incarnation_fenced t' i = true) ∧
  (∀ d e, epoch_fenced t d e = true → epoch_fenced t' d e = true).
Proof.
  intros Hstep Hwf. pose proof (fence_step_wf _ _ Hstep Hwf) as Hwf'.
  destruct Hwf as (_ & _ & Hi & He), Hwf' as (_ & _ & Hi' & He').
  assert (Hsub : ft_incarnations t ⊆ ft_incarnations t' ∧ ft_epochs t ⊆ ft_epochs t').
  { destruct Hstep as [t scope token epoch incarnation grant now Hsc Ht|t r scope Hsc Ht].
    - unfold fence_adopt. by repeat case_match.
    - destruct (fence_apply_sets t r scope) as ([-> | ->] & [-> | ->] & _); split; try done;
        intros x; by apply elem_of_bounded_insert. }
  destruct Hsub as [H1 H2]. unfold incarnation_fenced, epoch_fenced. split.
  - intros i. destruct (is_none i); [done|]. rewrite !binary_search_spec by done. apply H1.
  - intros d e. destruct (_ || _); [done|]. rewrite !binary_search_spec by done. apply H2.
Qed.

Lemma fence_steps_wf t t' : rtc fence_step t t' → fence_wf t → fence_wf t'.
Proof. induction 1; eauto using fence_step_wf. Qed.

Lemma fence_steps_marks t t' : rtc fence_step t t' → fence_wf t →
  marks_le (ft_extents t) (ft_extents t').
Proof.
  induction 1 as [|x y z Hxy _ IH]; intros Hwf; [done|].
  etrans; [by apply fence_step_marks|]. apply IH. by eapply fence_step_wf.
Qed.

Lemma fence_steps_fenced t t' : rtc fence_step t t' → fence_wf t →
  ∀ i, incarnation_fenced t i = true → incarnation_fenced t' i = true.
Proof.
  induction 1 as [|x y z Hxy _ IH]; intros Hwf i Hi; [done|].
  apply IH; [by eapply fence_step_wf|]. by eapply fence_step_fenced.
Qed.

(** ** [admit] *)

(** What the gate demands of one extent. *)
Definition extent_admits (t : FenceTable) (presented : FenceToken) (incarnation : IncarnationId)
    (grant : GrantId) (e : ExtentId) : Prop :=
  match fence_find t e with
  | None => True
  | Some s => es_token s < presented ∨
              (es_token s = presented ∧ es_owner s = incarnation ∧
               (es_grant s = 0 ∨ es_grant s = grant))
  end.

Lemma admit_loop_exact t presented incarnation grant scope : ∀ highest,
  fa_admitted (admit_loop t presented incarnation grant highest scope) = true ↔
  Forall (extent_admits t presented incarnation grant) scope.
Proof.
  induction scope as [|e r IH]; intros highest; simpl; [done|].
  rewrite Forall_cons. unfold extent_admits at 1.
  destruct (fence_find t e) as [s|]; [|rewrite IH; naive_solver].
  destruct (Z.ltb_spec presented (es_token s)); simpl; [naive_solver lia|].
  destruct (Z.eqb_spec (es_token s) presented); simpl;
    [|rewrite IH; split; [split; [left; lia|done]|naive_solver]].
  destruct (Z.eqb_spec (es_owner s) incarnation); simpl; [|naive_solver lia].
  unfold is_set. destruct (Z.eqb_spec (es_grant s) 0); simpl; [rewrite IH; naive_solver|].
  destruct (Z.eqb_spec (es_grant s) grant); simpl; [rewrite IH; naive_solver|naive_solver lia].
Qed.

Lemma admission_marks t presented scope incarnation grant e :
  fa_admitted (fence_admission t presented scope incarnation grant) = true → e ∈ scope →
  0 <= presented → high_water t e <= presented.
Proof.
  unfold fence_admission. destruct (scope_empty scope); [done|].
  destruct (is_none presented); [done|]. rewrite admit_loop_exact, Forall_forall.
  intros Ha He Hp. specialize (Ha e He). unfold extent_admits, high_water in *.
  destruct (fence_find t e); lia.
Qed.

(** ** [import] *)

Lemma validate_extents_ok i p l : is_ok (validate_extents i p l) = true ↔
  Forall (λ s, es_extent s ≠ [] ∧ es_token s ≠ 0) l ∧
  Sorted (λ a b, ltb (es_extent a) (es_extent b) = true) (option_list p ++ l).
Proof.
  revert i p. induction l as [|s r IH]; intros i p; simpl.
  - split; [|done]. intros _. split; [done|]. destruct p; repeat constructor.
  - rewrite Forall_cons, <-id_empty_false. unfold is_none.
    destruct (id_empty (es_extent s)); [naive_solver|].
    destruct (Z.eqb_spec (es_token s) 0); [naive_solver|].
    destruct p as [p|]; simpl.
    + destruct (ltb (es_extent p) (es_extent s)) eqn:E; simpl.
      * rewrite IH. simpl. split; [|by intros [[_ ?] [? ?]%Sorted_inv]].
        intros [Hf Hs]. split; [done|]. by constructor; [|constructor].
      * split; [done|]. intros [_ [_ H]%Sorted_inv]. apply HdRel_inv in H. congruence.
    + rewrite IH. simpl. naive_solver.
Qed.

Lemma import_sorted es rs t : fence_import es rs = Ret t →
  ft_extents t ≡ₚ es ∧ sv_sorted es_extent (ft_extents t) ∧
  Forall (λ s, es_extent s ≠ [] ∧ es_token s ≠ 0) (ft_extents t) ∧
  zlen (ft_extents t) <= kMaxIndexedExtents.
Proof.
  unfold fence_import. destruct (Z.ltb_spec kMaxIndexedExtents (zlen es)); [done|].
  destruct (is_ok (validate_extents _ _ _)) eqn:E; [|done]. intros [= <-]. simpl.
  apply validate_extents_ok in E as [Hf Hs].
  split; [apply sort_by_Permutation|]. split.
  { apply Sorted_StronglySorted; [|exact Hs]. intros a b c. apply ltb_trans. }
  split; [done|]. unfold zlen in *. by rewrite length_sort_by.
Qed.

(** A later state of the table: a call on it, or a restart that imports the
    rows and records it had. *)
Inductive fence_evolves : FenceTable → FenceTable → Prop :=
  | evolves_step t t' : fence_step t t' → fence_evolves t t'
  | evolves_restart t t' :
      fence_import (ft_extents t) (ft_records t) = Ret t' → fence_evolves t t'.

Lemma import_sets_sorted es rs t : fence_import es rs = Ret t →
  sv_sorted id (ft_incarnations t) ∧ sv_sorted id (ft_epochs t).
Proof.
  unfold fence_import. destruct (_ <? _); [done|]. destruct (negb _); [done|].
  intros [= <-]. simpl. split; apply unique_sort_sorted.
Qed.

Lemma sv_sorted_perm (l k : list ExtentFenceState) :
  sv_sorted es_extent l → sv_sorted es_extent k → l ≡ₚ k → l = k.
Proof.
  intros Hl Hk. eapply StronglySorted_unique_strong; [|exact Hl|exact Hk].
  intros x y _ _ H1 H2. apply (ltb_asym (es_extent x)) in H1. congruence.
Qed.

(** A restart keeps the rows of a well-formed table exactly. *)
Lemma restart_extents t t' : fence_wf t →
  fence_import (ft_extents t) (ft_records t) = Ret t' → ft_extents t' = ft_extents t ∧ fence_wf t'.
Proof.
  intros ((Hs & Hf) & Hlen & _) Hi. pose proof (import_sets_sorted _ _ _ Hi).
  destruct (import_sorted _ _ _ Hi) as (Hp & Hs' & _).
  assert (E : ft_extents t' = ft_extents t) by by apply sv_sorted_perm.
  split; [done|]. unfold fence_wf, extents_wf. rewrite E. naive_solver.
Qed.

Lemma fence_evolves_spec t t' : rtc fence_evolves t t' → fence_wf t →
  fence_wf t' ∧ marks_le (ft_extents t) (ft_extents t').
Proof.
  induction 1 as [|x y z Hxy _ IH]; intros Hwf; [done|].
  assert (fence_wf y ∧ marks_le (ft_extents x) (ft_extents y)) as [Hy Hle].
  { destruct Hxy as [t t' Hst|t t' Hi].
    - split; [by eapply fence_step_wf|by apply fence_step_marks].
    - destruct (restart_extents _ _ Hwf Hi) as [-> ?]. done. }
  destruct (IH Hy) as [? ?]. split; [done|]. by etrans.
Qed.

(** The abstraction of the table: extents to their marks. *)
Definition fence_map (t : FenceTable) : gmap ExtentId ExtentFenceState :=
  sv_map es_extent (ft_extents t).

(** A table at its bound, asked about an extent it already holds. *)
Lemma full_table_cannot_fence t r scope : zlen (ft_extents t) = kMaxIndexedExtents →
  scope ≠ [] → fr_token r ≠ 0 →
  (fence_apply t r scope).2 = mkStatus Outcome.Exhausted Reason.BoundedTableFull 4096.
Proof.
  intros Hlen Hs Ht. unfold fence_apply, is_none. destruct scope as [|e l]; [done|]. simpl.
  destruct (Z.eqb_spec (fr_token r) 0); [done|]. rewrite Hlen.
  destruct (Z.ltb_spec kMaxIndexedExtents (kMaxIndexedExtents + zlen (e :: l))); [done|].
  unfold zlen in *; simpl in *; lia.
Qed.

Module Fencing.

(** The gate at the effect boundary admits a token exactly when the scope
    and the token are present and every extent carries a lower mark, or
    the same token owned by this incarnation and this grant. *)
Theorem gate_exact (t : FenceTable) (presented : FenceToken) (scope : Scope)
    (incarnation : IncarnationId) (grant : GrantId) :
  fa_admitted (fence_admission t presented scope incarnation grant) = true ↔
  scope ≠ [] ∧ presented ≠ 0 ∧ Forall (extent_admits t presented incarnation grant) scope.
Proof.
  unfold fence_admission, is_none. rewrite <-scope_empty_false.
  destruct (scope_empty scope); simpl; [naive_solver|].
  destruct (Z.eqb_spec presented 0); simpl; [naive_solver|].
  rewrite admit_loop_exact. naive_solver.
Qed.

(** Fencing is for good: after a fence record is applied, no sequence of
    adoptions, further fences or restarts lets a lower token through on a
    scope that shares an extent with the fenced one. *)
Theorem fenced_for_good (t t1 t2 : FenceTable) (r : FenceRecord) (scope q : Scope)
    (presented : FenceToken) (incarnation : IncarnationId) (grant : GrantId) (e : ExtentId) :
  fence_wf t → scope_wf scope → is_u64 (fr_token r) →
  fence_apply t r scope = (t1, status_ok) → rtc fence_evolves t1 t2 →
  e ∈ scope → e ∈ q → 0 <= presented < fr_token r →
  fa_admitted (fence_admission t2 presented q incarnation grant) = false.
Proof.
  intros Hwf Hsc Hu Happ Hrun He Hq Hlt.
  assert (Hwf1 : fence_wf t1).
  { replace t1 with (fence_apply t r scope).1 by by rewrite Happ.
    eapply fence_step_wf; [by apply step_apply|done]. }
  destruct (fence_evolves_spec _ _ Hrun Hwf1) as [_ Hle].
  apply fence_apply_ok in Happ as (_ & _ & Hok & Hex & _).
  assert (Hmark : mark (ft_extents t1) e = fr_token r).
  { unfold mark. rewrite Hex, apply_extents_find; [|by destruct Hwf as [[??] ?]| |done].
    - by rewrite decide_True.
    - destruct Hsc as (_ & _ & Hc & _). by apply canonical_NoDup. }
  apply not_true_is_false. intros Ha.
  pose proof (admission_marks _ _ _ _ _ e Ha Hq ltac:(lia)) as Hhw.
  rewrite high_water_mark in Hhw. specialize (Hle e). lia.
Qed.

(** [adopt] succeeds exactly when the arguments are present, no extent
    refuses and the table has room, and then the table maps every extent
    of the scope to the new owner and leaves every other extent alone. *)
Theorem adopt_refines_map (t : FenceTable) (scope : Scope) (token : FenceToken) (epoch : Epoch)
    (incarnation : IncarnationId) (grant : GrantId) (now : Step) :
  fence_wf t →
  let '(t', st) := fence_adopt t scope token epoch incarnation grant now in
  (st = status_ok ↔
     scope ≠ [] ∧ token ≠ 0 ∧ incarnation ≠ 0 ∧
     (∀ e s, e ∈ scope → fence_map t !! e = Some s →
        es_token s < token ∨ (es_token s = token ∧ es_owner s = incarnation)) ∧
     zlen (ft_extents t) + zlen scope <= kMaxIndexedExtents) ∧
  (st ≠ status_ok → t' = t) ∧
  (st = status_ok → ∀ e, fence_map t' !! e =
     if decide (e ∈ scope) then Some (mkExtentState e token epoch incarnation grant now)
     else fence_map t !! e).
Proof.
  intros ((Hs & Hf) & _). destruct (fence_adopt _ _ _ _ _ _ _) as [t' st] eqn:E.
  assert (Hm : ∀ k, fence_map t !! k = sv_find es_extent k (ft_extents t))
    by (intros k; by apply sv_map_lookup).
  setoid_rewrite Hm.
  split; [|split; [by eapply fence_adopt_refused|]].
  - split.
    + intros ->. apply fence_adopt_ok in E as (? & ? & ? & Hc & ? & _).
      rewrite adopt_check_None in Hc. naive_solver.
    + intros (H1 & H2 & H3 & Hc & Hb). unfold fence_adopt, is_none in E.
      rewrite (proj2 (adopt_check_None _ _ _ _) Hc) in E.
      rewrite (proj2 (scope_empty_false _) H1) in E.
      destruct (Z.eqb_spec token 0); [done|]. destruct (Z.eqb_spec incarnation 0); [done|].
      destruct (Z.ltb_spec kMaxIndexedExtents (zlen (ft_extents t) + zlen scope)); [lia|].
      congruence.
  - intros -> e. apply fence_adopt_ok in E as (? & ? & ? & Hc & ? & ->). simpl.
    unfold fence_map. simpl. rewrite sv_map_lookup by by apply adopt_marks_sorted.
    rewrite adopt_marks_find by done. by repeat case_decide.
Qed.

(** [apply] raises every extent of the scope to the fence token exactly
    when none carries a higher one, and records the fenced incarnation
    while there is room for it. *)
Theorem apply_exact (t : FenceTable) (r : FenceRecord) (scope : Scope) :
  fence_wf t → canonical scope → scope ≠ [] → fr_token r ≠ 0 →
  zlen (ft_extents t) + zlen scope <= kMaxIndexedExtents →
  let '(t', st) := fence_apply t r scope in
  (st = status_ok ↔ ∀ e s, e ∈ scope → fence_find t e = Some s → es_token s <= fr_token r) ∧
  (st = status_ok →
    (∀ e, fence_find t' e =
       if decide (e ∈ scope) then Some (fence_mark r e (fence_find t e)) else fence_find t e) ∧
    (fr_incarnation r ≠ 0 → zlen (ft_incarnations t) < kMaxFenceRecords →
       incarnation_fenced t' (fr_incarnation r) = true)).
Proof.
  intros ((Hs & Hf) & _ & Hi & _) Hc Hne Ht Hb.
  assert (Hnd : NoDup scope) by by apply canonical_NoDup.
  destruct (fence_apply t r scope) as [t' st] eqn:E. split.
  - unfold fence_find. rewrite <-apply_extents_ok by done. revert E.
    unfold fence_apply, is_none. rewrite (proj2 (scope_empty_false _) Hne).
    destruct (Z.eqb_spec (fr_token r) 0); [done|].
    destruct (Z.ltb_spec kMaxIndexedExtents (zlen (ft_extents t) + zlen scope)); [lia|].
    pose proof (apply_extents_status r (ft_extents t) scope) as Hst.
    destruct (apply_extents r (ft_extents t) scope) as [es st']. simpl in *.
    destruct (is_ok st') eqn:Eok; simpl; [naive_solver|].
    intros [= _ ->]. done.
  - intros ->. apply fence_apply_ok in E as (_ & _ & Hok & Hex & Hin & _). split.
    + intros e. unfold fence_find. rewrite Hex. by apply apply_extents_find.
    + intros H0 Hroom. unfold incarnation_fenced, is_none.
      destruct (Z.eqb_spec (fr_incarnation r) 0); [done|]. rewrite Hin. unfold is_set.
      destruct (Z.eqb_spec (fr_incarnation r) 0); [done|]. simpl.
      apply binary_search_spec; [by apply bounded_insert_sorted|].
      exact (proj2 (elem_of_bounded_insert _ 0 _ Hi) Hroom).
Qed.

Definition scope_ab : Scope := [str "a"; str "b"].
Definition scope_bc : Scope := [str "b"; str "c"].
Definition record7 : FenceRecord :=
  mkFenceRecord 7 (str "d1") (Digest256_zero) 1 3 Reason.IncarnationFenced 10 5 2 0.
Definition fenced7 : FenceTable := (fence_apply fence_table0 record7 scope_ab).1.

Lemma fence_table0_wf : fence_wf fence_table0.
Proof. split; [split; constructor|]. split; [by vm_compute|]. split; constructor. Qed.

Lemma scope_ab_wf : scope_wf scope_ab.
Proof.
  split; [done|]. split; [by vm_compute|]. split; [repeat constructor|].
  repeat (constructor; [by vm_compute|]). constructor.
Qed.

Lemma fenced_for_good_witness :
  fa_admitted (fence_admission fenced7 6 scope_bc 9 1) = false.
Proof.
  refine (fenced_for_good fence_table0 fenced7 fenced7 record7 scope_ab scope_bc 6 9 1 (str "b")
            fence_table0_wf scope_ab_wf _ _ (rtc_refl _ _) _ _ _).
  - unfold is_u64. simpl. lia.
  - vm_compute. reflexivity.
  - right. left.
  - left.
  - simpl. lia.
Defined.

Lemma adopt_refines_map_witness : fence_map (fence_adopt fence_table0 scope_ab 4 1 3 2 8).1
    !! str "b" = Some (mkExtentState (str "b") 4 1 3 2 8).
Proof.
  pose proof (adopt_refines_map fence_table0 scope_ab 4 1 3 2 8 fence_table0_wf) as H.
  destruct (fence_adopt fence_table0 scope_ab 4 1 3 2 8) as [t' st] eqn:E.
  vm_compute in E. injection E as <- <-. destruct H as (_ & _ & H).
  exact (H eq_refl (str "b")).
Defined.

Lemma apply_exact_witness : incarnation_fenced fenced7 3 = true.
Proof.
  pose proof (apply_exact fence_table0 record7 scope_ab fence_table0_wf) as H.
  unfold fenced7. destruct (fence_apply fence_table0 record7 scope_ab) as [t' st] eqn:E.
  assert (Est : st = status_ok).
  { change st with (t', st).2. rewrite <-E. vm_compute. reflexivity. }
  apply H; [|done|done|vm_compute; done|exact Est|done|vm_compute; done].
  repeat constructor.
Defined.
End Fencing.
