(* ===== verification/Lineage.v ===== *)
(** * The durable lineage: grants, boots and reconciliation

    Models [include/sbf/lineage.hpp] and [src/lineage.cpp].  The
    [std::set]s and [std::map]s local to an import or a validation are
    [gset]s and [gmap]s; the [std::map] keyed by grant id of [reconcile]
    is a sorted vector because the code enumerates it. *)
From S2P Require Import Prelude Order SortedVec Status Ids Digest Scope.
Open Scope Z_scope.

Inductive GrantState : Set := GrantOpen | GrantClosed | GrantFenced | GrantInterrupted.

#[export] Instance grant_state_eq_dec : EqDecision GrantState.
Proof. solve_decision. Defined.

Definition grant_state_code (s : GrantState) : Z :=
  match s with GrantOpen => 0 | GrantClosed => 1 | GrantFenced => 2 | GrantInterrupted => 3 end.

Definition grant_state_of_code (z : Z) : option GrantState :=
  match z with
  | 0 => Some GrantOpen | 1 => Some GrantClosed | 2 => Some GrantFenced
  | 3 => Some GrantInterrupted | _ => None
  end.

Definition grant_state_to_string (s : GrantState) : bytes :=
  str match s with
      | GrantOpen => "Open" | GrantClosed => "Closed" | GrantFenced => "Fenced"
      | GrantInterrupted => "Interrupted"
      end.

Record EpochGrant := mkGrant {
  eg_id : GrantId;
  eg_domain : DomainId;
  eg_scope : Digest256;
  eg_extents : Scope;
  eg_attempt : Sequence;
  eg_epoch : Epoch;
  eg_incarnation : IncarnationId;
  eg_boot : BootId;
  eg_token : FenceToken;
  eg_opened : Step;
  eg_closed : Step;
  eg_state : GrantState;
  eg_sequence : Sequence;
  eg_lineage_gen : Generation;
  eg_policy_gen : Generation;
  eg_evidence_gen : Generation;
  eg_close_reason : Reason
}.

Record BootRecord := mkBoot {
  br_boot : BootId;
  br_incarnation : IncarnationId;
  br_node : NodeId;
  br_started : Step;
  br_ended : Step;
  br_clean : bool;
  br_interrupted : bool;
  br_sequence : Sequence
}.

Record LineageTable := mkLineage {
  lt_grants : list EpochGrant;
  lt_boots : list BootRecord;
  lt_generation : Generation
}.

Definition lineage0 : LineageTable := mkLineage [] [] 1.

#[export] Instance epoch_grant_eq_dec : EqDecision EpochGrant.
Proof. solve_decision. Defined.
#[export] Instance boot_record_eq_dec : EqDecision BootRecord.
Proof. solve_decision. Defined.

Definition bump_generation (g : Generation) : Generation := (try_increment g 1).1.

Definition is_open (g : EpochGrant) : bool := bool_decide (eg_state g = GrantOpen).

(** ** [class LineageTable] *)

Definition find_grant (t : LineageTable) (id : GrantId) : option EpochGrant :=
  List.find (λ g, eg_id g =? id) (lt_grants t).

Definition max_epoch_of (domain : DomainId) (l : list EpochGrant) : Epoch :=
  foldl (λ highest g,
           if eqb (eg_domain g) domain && (highest <? eg_epoch g) then eg_epoch g else highest)
        0 l.

Definition max_epoch (t : LineageTable) (domain : DomainId) : Epoch :=
  max_epoch_of domain (lt_grants t).

Definition open_grant_for (t : LineageTable) (domain : DomainId) (scope : Digest256)
  : option EpochGrant :=
  List.find (λ g, is_open g && eqb (eg_domain g) domain && eqb (eg_scope g) scope) (lt_grants t).

Definition open_grants (t : LineageTable) : list EpochGrant :=
  sort_by (λ a b, eg_id a <? eg_id b) (List.filter is_open (lt_grants t)).

Definition grants_for (t : LineageTable) (domain : DomainId) : list EpochGrant :=
  sort_by (λ a b, match lex (Z.compare (eg_epoch a) (eg_epoch b))
                            (Z.compare (eg_id a) (eg_id b)) with Lt => true | _ => false end)
          (List.filter (λ g, eqb (eg_domain g) domain) (lt_grants t)).

(** [grants_.erase(find_if(..., state != Open))]. *)
Fixpoint erase_first_closed (l : list EpochGrant) : option (list EpochGrant) :=
  match l with
  | [] => None
  | g :: r => if negb (is_open g) then Some r
              else match erase_first_closed r with Some r' => Some (g :: r') | None => None end
  end.

(** The eviction loop; the boolean says whether it made room.  Every
    iteration drops a grant, so the length of the table is fuel enough. *)
Fixpoint evict (fuel : nat) (l : list EpochGrant) : list EpochGrant * bool :=
  if kMaxLineageEntries <=? zlen l then
    match fuel, erase_first_closed l with
    | S fuel, Some l' => evict fuel l'
    | _, _ => (l, false)
    end
  else (l, true).

Definition open_grant (t : LineageTable) (grant : EpochGrant) : LineageTable * Status :=
  if is_none (eg_id grant) then (t, fail0 Outcome.Invalid Reason.ValueOutOfRange)
  else if id_empty (eg_domain grant) then (t, fail0 Outcome.Invalid Reason.EmptyValue)
  else if is_none (eg_epoch grant) then (t, fail0 Outcome.Invalid Reason.EpochUnknown)
  else if is_none (eg_incarnation grant) then (t, fail0 Outcome.Invalid Reason.ValueOutOfRange)
  else if is_none (eg_token grant) then (t, fail0 Outcome.Invalid Reason.FenceTokenMissing)
  else if negb (is_open grant) then (t, fail0 Outcome.Invalid Reason.ValueOutOfRange)
  else if bool_decide (is_Some (find_grant t (eg_id grant)))
  then (t, mkStatus Outcome.AlreadyExists Reason.DuplicateEntry (eg_id grant))
  else
    let highest := max_epoch t (eg_domain grant) in
    if eg_epoch grant <? highest
    then (t, mkStatus Outcome.Stale Reason.EpochRegression highest)
    else if bool_decide (is_Some (open_grant_for t (eg_domain grant) (eg_scope grant)))
    then (t, mkStatus Outcome.Conflict Reason.OverlappingExclusiveClaim (eg_id grant))
    else
      let '(kept, room) := evict (length (lt_grants t)) (lt_grants t) in
      if negb room
      then (mkLineage kept (lt_boots t) (lt_generation t),
            mkStatus Outcome.Exhausted Reason.BoundedTableFull (zlen kept))
      else (mkLineage (kept ++ [grant]) (lt_boots t) (bump_generation (lt_generation t)), status_ok).

Definition grant_closed (g : EpochGrant) (state : GrantState) (why : Reason) (now : Step)
  : EpochGrant :=
  mkGrant (eg_id g) (eg_domain g) (eg_scope g) (eg_extents g) (eg_attempt g) (eg_epoch g)
    (eg_incarnation g) (eg_boot g) (eg_token g) (eg_opened g) now state (eg_sequence g)
    (eg_lineage_gen g) (eg_policy_gen g) (eg_evidence_gen g) why.

(** The first grant of that id; [None] when there is none. *)
Fixpoint close_in (id : GrantId) (state : GrantState) (why : Reason) (now : Step)
    (l : list EpochGrant) : list EpochGrant * option Status :=
  match l with
  | [] => ([], None)
  | g :: r =>
      if eg_id g =? id
      then if negb (is_open g)
           then (l, Some (mkStatus Outcome.AlreadyExists Reason.DuplicateEntry id))
           else (grant_closed g state why now :: r, Some status_ok)
      else let '(r', st) := close_in id state why now r in (g :: r', st)
  end.

Definition lineage_close_grant (t : LineageTable) (id : GrantId) (state : GrantState)
    (why : Reason) (now : Step) : LineageTable * Status :=
  if bool_decide (state = GrantOpen) then (t, fail0 Outcome.Invalid Reason.ValueOutOfRange)
  else
    let '(l, st) := close_in id state why now (lt_grants t) in
    match st with
    | None => (t, mkStatus Outcome.NotFound Reason.GrantNotRegistered id)
    | Some s =>
        (mkLineage l (lt_boots t)
           (if is_ok s then bump_generation (lt_generation t) else lt_generation t), s)
    end.

Definition find_boot (t : LineageTable) (boot : BootId) : option BootRecord :=
  List.find (λ b, br_boot b =? boot) (lt_boots t).

Definition begin_boot (t : LineageTable) (record : BootRecord) : LineageTable * Status :=
  if is_none (br_boot record) || is_none (br_incarnation record)
  then (t, fail0 Outcome.Invalid Reason.ValueOutOfRange)
  else if bool_decide (is_Some (find_boot t (br_boot record)))
  then (t, mkStatus Outcome.AlreadyExists Reason.DuplicateEntry (br_boot record))
  else
    let boots := if kMaxLineageEntries <=? zlen (lt_boots t)
                 then tail (lt_boots t) else lt_boots t in
    (mkLineage (lt_grants t) (boots ++ [record]) (bump_generation (lt_generation t)), status_ok).

Fixpoint end_in (boot : BootId) (now : Step) (clean : bool) (l : list BootRecord)
  : list BootRecord * option Status :=
  match l with
  | [] => ([], None)
  | b :: r =>
      if br_boot b =? boot
      then if is_set (br_ended b)
           then (l, Some (mkStatus Outcome.AlreadyExists Reason.DuplicateEntry boot))
           else (mkBoot (br_boot b) (br_incarnation b) (br_node b) (br_started b) now clean
                   (negb clean) (br_sequence b) :: r, Some status_ok)
      else let '(r', st) := end_in boot now clean r in (b :: r', st)
  end.

Definition end_boot (t : LineageTable) (boot : BootId) (now : Step) (clean : bool)
  : LineageTable * Status :=
  let '(l, st) := end_in boot now clean (lt_boots t) in
  match st with
  | None => (t, fail0 Outcome.NotFound Reason.BootNotRegistered)
  | Some s =>
      (mkLineage (lt_grants t) l
         (if is_ok s then bump_generation (lt_generation t) else lt_generation t), s)
  end.

(** The loop that [import] and [validate] share after their first check
    ([guard]): the ids seen, the highest epoch per domain, the open keys. *)
Fixpoint check_grants (guard : EpochGrant → Status) (ids : gset Z) (highest : gmap bytes Z)
    (open_keys : gset (bytes * bytes)) (l : list EpochGrant) : Status :=
  match l with
  | [] => status_ok
  | g :: r =>
      if negb (is_ok (guard g)) then guard g
      else if bool_decide (eg_id g ∈ ids)
      then mkStatus Outcome.Corrupt Reason.DuplicateEntry (eg_id g)
      else
        let top := default 0 (highest !! eg_domain g) in
        if eg_epoch g <? top
        then mkStatus Outcome.Corrupt Reason.EpochRegression (eg_epoch g)
        else
          let key := (eg_domain g, Digest256_hex (eg_scope g)) in
          if is_open g && bool_decide (key ∈ open_keys)
          then mkStatus Outcome.Corrupt Reason.OverlappingExclusiveClaim (eg_id g)
          else check_grants guard ({[eg_id g]} ∪ ids) (<[eg_domain g := eg_epoch g]> highest)
                 (if is_open g then {[key]} ∪ open_keys else open_keys) r
  end.

Definition import_guard (g : EpochGrant) : Status :=
  if is_none (eg_id g) || id_empty (eg_domain g) || is_none (eg_epoch g)
  then mkStatus Outcome.Corrupt Reason.ValueOutOfRange (eg_id g) else status_ok.

Definition validate_guard (g : EpochGrant) : Status :=
  if is_none (eg_id g) then fail0 Outcome.Corrupt Reason.ValueOutOfRange else status_ok.

Fixpoint check_boots (ids : gset Z) (l : list BootRecord) : Status :=
  match l with
  | [] => status_ok
  | b :: r =>
      if is_none (br_boot b) || is_none (br_incarnation b)
      then mkStatus Outcome.Corrupt Reason.ValueOutOfRange (br_boot b)
      else if bool_decide (br_boot b ∈ ids)
      then mkStatus Outcome.Corrupt Reason.DuplicateEntry (br_boot b)
      else check_boots ({[br_boot b]} ∪ ids) r
  end.

Definition lineage_import (grants : list EpochGrant) (boots : list BootRecord)
  : result LineageTable :=
  if (kMaxLineageEntries <? zlen grants) || (kMaxLineageEntries <? zlen boots)
  then Err (mkStatus Outcome.Exhausted Reason.BoundedTableFull (Z.max (zlen grants) (zlen boots)))
  else
    let st := check_grants import_guard ∅ ∅ ∅ grants in
    if negb (is_ok st) then Err st
    else
      let st := check_boots ∅ boots in
      if negb (is_ok st) then Err st else Ret (mkLineage grants boots 1).

Definition lineage_validate (t : LineageTable) : Status :=
  check_grants validate_guard ∅ ∅ ∅ (lt_grants t).

(** ** [reconcile] *)

Inductive ReconciliationKind : Set := Identical | LocalAhead | RemoteAhead | Divergent.

Record ReconciliationConflict := mkConflict {
  rc_scope : Digest256;
  rc_domain : DomainId;
  rc_local_epoch : Epoch;
  rc_remote_epoch : Epoch;
  rc_local_incarnation : IncarnationId;
  rc_remote_incarnation : IncarnationId;
  rc_kind : ReconciliationKind;
  rc_reason : Reason
}.

Record ReconciliationResult := mkReconciliation {
  rr_status : Status;
  rr_outcome : Outcome;
  rr_merged : list EpochGrant;
  rr_conflicts : list ReconciliationConflict;
  rr_surfaced : Z;
  rr_dropped : Z;
  rr_requires_operator : bool
}.

(** The five fields two rows of one grant id must agree on. *)
Definition same_grant (a b : EpochGrant) : bool :=
  eqb (eg_domain a) (eg_domain b) && eqb (eg_scope a) (eg_scope b) &&
  (eg_epoch a =? eg_epoch b) && (eg_incarnation a =? eg_incarnation b) &&
  (eg_token a =? eg_token b).

Definition conflict_of (existing grant : EpochGrant) : ReconciliationConflict :=
  mkConflict (eg_scope existing) (eg_domain existing) (eg_epoch existing) (eg_epoch grant)
    (eg_incarnation existing) (eg_incarnation grant) Divergent Reason.LineageDivergence.

(** [by_id] after the local history; a repeated id is refused. *)
Fixpoint merge_local (by_id : list EpochGrant) (l : list EpochGrant) : result (list EpochGrant) :=
  match l with
  | [] => Ret by_id
  | g :: r =>
      match sv_find eg_id (eg_id g) by_id with
      | Some _ => Err (mkStatus Outcome.Corrupt Reason.DuplicateEntry (eg_id g))
      | None => merge_local (sv_set eg_id g by_id) r
      end
  end.

Fixpoint merge_remote (by_id : list EpochGrant) (conflicts : list ReconciliationConflict)
    (dropped : Z) (l : list EpochGrant)
  : list EpochGrant * list ReconciliationConflict * Z :=
  match l with
  | [] => (by_id, conflicts, dropped)
  | g :: r =>
      match sv_find eg_id (eg_id g) by_id with
      | None => merge_remote (sv_set eg_id g by_id) conflicts dropped r
      | Some existing =>
          if same_grant existing g then merge_remote by_id conflicts dropped r
          else if zlen conflicts <? kMaxReconcileConflicts
          then merge_remote by_id (conflicts ++ [conflict_of existing g]) dropped r
          else merge_remote by_id conflicts (u64 (dropped + 1)) r
      end
  end.

Definition history_less (a b : EpochGrant) : bool :=
  if negb (eg_sequence a =? eg_sequence b) then eg_sequence a <? eg_sequence b
  else eg_id a <? eg_id b.

Definition reconcile (local remote : list EpochGrant) : ReconciliationResult :=
  if (kMaxReconcileInputs <? zlen local) || (kMaxReconcileInputs <? zlen remote)
  then mkReconciliation
         (mkStatus Outcome.Exhausted Reason.BoundedTableFull (Z.max (zlen local) (zlen remote)))
         Outcome.Exhausted [] [] 0 0 false
  else
    match merge_local [] local with
    | Err st => mkReconciliation st Outcome.Corrupt [] [] 0 0 false
    | Ret by_id =>
        let '(by_id, conflicts, dropped) := merge_remote by_id [] 0 remote in
        let merged := sort_by history_less by_id in
        match conflicts with
        | [] => mkReconciliation status_ok Outcome.Ok merged [] 0 dropped false
        | _ => mkReconciliation
                 (mkStatus Outcome.Conflict Reason.ReconciliationRequired (zlen conflicts))
                 Outcome.Conflict merged conflicts (zlen conflicts) dropped true
        end
    end.

(** ** The invariant of the grant history *)

Definition open_keys (l : list EpochGrant) : list (bytes * Digest256) :=
  (λ g, (eg_domain g, eg_scope g)) <$> List.filter is_open l.

(** Later grants of a domain never carry a lower epoch. *)
Definition epochs_monotone (l : list EpochGrant) : Prop :=
  StronglySorted (λ a b, eg_domain a = eg_domain b → eg_epoch a <= eg_epoch b) l.

Definition grants_wf (l : list EpochGrant) : Prop :=
  NoDup (eg_id <$> l) ∧ epochs_monotone l ∧ NoDup (open_keys l) ∧
  Forall (λ g, eg_id g ≠ 0 ∧ 0 <= eg_epoch g) l.

Lemma sublist_StronglySorted {A} (R : A → A → Prop) l k :
  l `sublist_of` k → StronglySorted R k → StronglySorted R l.
Proof.
  induction 1 as [|x l k Hlk IH|x l k Hlk IH]; intros Hs; [constructor|..];
    apply StronglySorted_inv in Hs as [Hs Hx]; [|auto].
  constructor; [auto|]. rewrite Forall_forall in *. intros y Hy. apply Hx.
  by eapply sublist_subseteq.
Qed.

Lemma sublist_filter_mono {A} (f : A → bool) l k :
  l `sublist_of` k → List.filter f l `sublist_of` List.filter f k.
Proof.
  induction 1 as [|x l k _ IH|x l k _ IH]; simpl; [done|..]; destruct (f x);
    [by constructor|done|by constructor|done].
Qed.

Lemma grants_wf_sublist l k : l `sublist_of` k → grants_wf k → grants_wf l.
Proof.
  intros Hlk (H1 & H2 & H3 & H4). split; [|split; [|split]].
  - eapply sublist_NoDup; [exact H1|]. by apply fmap_sublist.
  - by eapply sublist_StronglySorted.
  - eapply sublist_NoDup; [exact H3|]. apply fmap_sublist. by apply sublist_filter_mono.
  - rewrite Forall_forall in *. intros g Hg. apply H4. by eapply sublist_subseteq.
Qed.

Lemma max_epoch_of_ge domain l : ∀ m,
  m <= foldl (λ highest g,
    if eqb (eg_domain g) domain && (highest <? eg_epoch g) then eg_epoch g else highest) m l ∧
  ∀ g, g ∈ l → eg_domain g = domain → eg_epoch g <= foldl (λ highest g,
    if eqb (eg_domain g) domain && (highest <? eg_epoch g) then eg_epoch g else highest) m l.
Proof.
  induction l as [|x l IH]; intros m; simpl; [split; [lia|set_solver]|].
  set (m' := if eqb (eg_domain x) domain && (m <? eg_epoch x) then eg_epoch x else m).
  destruct (IH m') as [H1 H2].
  assert (Hm : m <= m' ∧ (eg_domain x = domain → eg_epoch x <= m')).
  { unfold m'. destruct (eqb (eg_domain x) domain) eqn:E; simpl.
    - destruct (Z.ltb_spec m (eg_epoch x)); lia.
    - apply eqb_neq in E. split; [lia|done]. }
  split; [lia|]. intros g [->|Hg]%elem_of_cons Hd; [|eauto]. destruct Hm as [_ Hm].
  specialize (Hm Hd). lia.
Qed.

Lemma max_epoch_of_attained domain l : ∀ m,
  let top := foldl (λ highest g,
    if eqb (eg_domain g) domain && (highest <? eg_epoch g) then eg_epoch g else highest) m l in
  top = m ∨ ∃ g, g ∈ l ∧ eg_domain g = domain ∧ top = eg_epoch g.
Proof.
  induction l as [|x l IH]; intros m; simpl; [auto|].
  destruct (eqb (eg_domain x) domain && (m <? eg_epoch x)) eqn:E.
  - apply andb_true_iff in E as [E _]. apply eqb_eq in E.
    destruct (IH (eg_epoch x)) as [->|(g & ? & ? & ?)]; right; [exists x|exists g]; set_solver.
  - destruct (IH m) as [->|(g & ? & ? & ?)]; [auto|]. right. exists g. set_solver.
Qed.

Lemma max_epoch_ge t g : g ∈ lt_grants t → eg_epoch g <= max_epoch t (eg_domain g).
Proof. intros Hg. by apply (max_epoch_of_ge (eg_domain g) (lt_grants t) 0). Qed.

Lemma find_none {A} (f : A → bool) l : List.find f l = None ↔ ∀ x, x ∈ l → f x = false.
Proof.
  split.
  - intros E x Hx. eapply List.find_none; [exact E|]. by apply list_elem_of_In.
  - intros Hall. destruct (List.find f l) as [x|] eqn:E; [|done].
    apply List.find_some in E as [Hin Hf]. apply list_elem_of_In in Hin. by rewrite Hall in Hf.
Qed.

Lemma find_grant_elem t id g : find_grant t id = Some g → g ∈ lt_grants t ∧ eg_id g = id.
Proof.
  intros E. apply List.find_some in E as [Hin Hf]. split; [by apply list_elem_of_In|lia].
Qed.

Lemma elem_of_filter_true {A} (f : A → bool) l x : x ∈ List.filter f l ↔ x ∈ l ∧ f x = true.
Proof. by rewrite !list_elem_of_In, filter_In. Qed.

Lemma elem_of_open_keys k l : k ∈ open_keys l ↔
  ∃ g, g ∈ l ∧ is_open g = true ∧ k = (eg_domain g, eg_scope g).
Proof.
  unfold open_keys. rewrite list_elem_of_fmap. setoid_rewrite elem_of_filter_true. naive_solver.
Qed.

Lemma find_grant_None t id : find_grant t id = None ↔ id ∉ eg_id <$> lt_grants t.
Proof.
  unfold find_grant. rewrite find_none, list_elem_of_fmap. split.
  - intros Hall (g & -> & Hg). specialize (Hall g Hg). lia.
  - intros Hn g Hg. destruct (Z.eqb_spec (eg_id g) id); [|done]. subst. naive_solver.
Qed.

Lemma open_grant_for_None t domain scope :
  open_grant_for t domain scope = None ↔ (domain, scope) ∉ open_keys (lt_grants t).
Proof.
  unfold open_grant_for. rewrite find_none, elem_of_open_keys. split.
  - intros Hall (g & Hg & Ho & [= -> ->]). specialize (Hall g Hg).
    by rewrite Ho, !eqb_refl in Hall.
  - intros Hn g Hg. destruct (is_open g) eqn:Ho; simpl; [|done].
    destruct (eqb (eg_domain g) domain) eqn:E1; simpl; [|done].
    destruct (eqb (eg_scope g) scope) eqn:E2; [|done].
    apply eqb_eq in E1 as <-, E2 as <-. naive_solver.
Qed.

(** ** Eviction drops closed grants only *)

Lemma erase_first_closed_spec l l' : erase_first_closed l = Some l' →
  l' `sublist_of` l ∧ S (length l') = length l ∧ (∀ g, g ∈ l → is_open g = true → g ∈ l').
Proof.
  revert l'. induction l as [|g r IH]; intros l'; simpl; [done|].
  destruct (is_open g) eqn:E; simpl.
  - destruct (erase_first_closed r) as [r'|]; [|done]. intros [= <-].
    destruct (IH _ eq_refl) as (H1 & H2 & H3). split; [by constructor|]. split; [simpl; lia|].
    set_solver.
  - intros [= <-]. split; [by constructor|]. split; [done|].
    intros x [->|Hx]%elem_of_cons Ho; [congruence|done].
Qed.

Lemma evict_spec fuel l : let '(kept, room) := evict fuel l in
  kept `sublist_of` l ∧ (∀ g, g ∈ l → is_open g = true → g ∈ kept) ∧
  (room = true → zlen kept < kMaxLineageEntries).
Proof.
  revert l. induction fuel as [|fuel IH]; intros l; simpl;
    destruct (Z.leb_spec kMaxLineageEntries (zlen l)); try done.
  destruct (erase_first_closed l) as [l'|] eqn:E; [|done].
  apply erase_first_closed_spec in E as (H1 & _ & H3). specialize (IH l').
  destruct (evict fuel l') as [kept room]. destruct IH as (I1 & I2 & I3).
  split; [by etrans|]. split; [eauto|done].
Qed.

(** The fuel is enough: the loop stops short only without a closed grant. *)
Lemma evict_stuck fuel l kept : (length l <= fuel)%nat → evict fuel l = (kept, false) →
  kMaxLineageEntries <= zlen kept ∧ Forall (λ g, is_open g = true) kept.
Proof.
  revert l. induction fuel as [|fuel IH]; intros l Hf; simpl;
    destruct (Z.leb_spec kMaxLineageEntries (zlen l)) as [L|L]; try done.
  - unfold zlen, kMaxLineageEntries in L. lia.
  - destruct (erase_first_closed l) as [l'|] eqn:E.
    + apply erase_first_closed_spec in E as (_ & H2 & _). apply IH. lia.
    + intros [= <-]. split; [done|]. clear -E. induction l as [|g r IHr]; [constructor|].
      simpl in E. destruct (is_open g) eqn:Eg; [|done].
      constructor; [done|]. apply IHr. by destruct (erase_first_closed r).
Qed.

(** ** [open_grant] *)

Lemma open_grant_ok t g t' : open_grant t g = (t', status_ok) →
  eg_id g ≠ 0 ∧ eg_domain g ≠ [] ∧ eg_epoch g ≠ 0 ∧ eg_incarnation g ≠ 0 ∧ eg_token g ≠ 0 ∧
  is_open g = true ∧ find_grant t (eg_id g) = None ∧ max_epoch t (eg_domain g) <= eg_epoch g ∧
  open_grant_for t (eg_domain g) (eg_scope g) = None ∧
  lt_boots t' = lt_boots t ∧
  ∃ kept, lt_grants t' = kept ++ [g] ∧ kept `sublist_of` lt_grants t ∧
    zlen kept < kMaxLineageEntries ∧
    (∀ x, x ∈ lt_grants t → is_open x = true → x ∈ kept).
Proof.
  unfold open_grant, is_none. intros E.
  destruct (Z.eqb_spec (eg_id g) 0); [done|].
  destruct (id_empty (eg_domain g)) eqn:Ed; [done|]. apply id_empty_false in Ed.
  destruct (Z.eqb_spec (eg_epoch g) 0); [done|].
  destruct (Z.eqb_spec (eg_incarnation g) 0); [done|].
  destruct (Z.eqb_spec (eg_token g) 0); [done|].
  destruct (is_open g) eqn:Eo; [|done]. simpl in E.
  case_bool_decide as Ef; [done|]. apply eq_None_not_Some in Ef.
  destruct (Z.ltb_spec (eg_epoch g) (max_epoch t (eg_domain g))); [done|].
  case_bool_decide as Ek; [done|]. apply eq_None_not_Some in Ek.
  pose proof (evict_spec (length (lt_grants t)) (lt_grants t)) as Hev.
  destruct (evict _ _) as [kept room]. destruct room; [|done]. simpl in E.
  injection E as <-. simpl. destruct Hev as (H1 & H2 & H3). naive_solver.
Qed.

(** Dropping history forgets epochs: when a full history drops the last grant of a
    domain to make room for another, that domain's epochs start again at 1. *)
Lemma epoch_forgotten t x l g t' : lt_grants t = x :: l → zlen (x :: l) = kMaxLineageEntries →
  is_open x = false → Forall (λ y, eg_domain y ≠ eg_domain x) l → eg_domain g ≠ eg_domain x →
  open_grant t g = (t', status_ok) → max_epoch t' (eg_domain x) = 0.
Proof.
  intros Ht Hl Hx Hd Hg E.
  assert (Ek : lt_grants t' = l ++ [g]).
  { revert E. unfold open_grant. do 7 (case_match; [done|]). cbv zeta.
    do 2 (case_match; [done|]). rewrite Ht. cbn [length evict]. rewrite Hl, Z.leb_refl. cbn [erase_first_closed]. rewrite Hx. cbn [negb].
    assert (Hn : evict (length l) l = (l, true)).
    { destruct (length l) eqn:Ell; cbn [evict]; rewrite (proj2 (Z.leb_gt _ _)); try done;
        unfold zlen, kMaxLineageEntries in *; cbn [length] in Hl; lia. }
    rewrite Hn. cbn [negb]. by intros [= <-]. }
  unfold max_epoch, max_epoch_of. rewrite Ek.
  destruct (max_epoch_of_attained (eg_domain x) (l ++ [g]) 0) as [->|(y & Hy & Ey & _)]; [done|].
  apply elem_of_app in Hy as [Hy|Hy]; [|apply list_elem_of_singleton in Hy; congruence].
  rewrite Forall_forall in Hd. by destruct (Hd y Hy).
Qed.

Lemma open_grant_refused t g t' st : open_grant t g = (t', st) → st ≠ status_ok →
  lt_boots t' = lt_boots t ∧ lt_grants t' `sublist_of` lt_grants t.
Proof.
  unfold open_grant. intros E Hst.
  pose proof (evict_spec (length (lt_grants t)) (lt_grants t)) as Hev.
  destruct (evict _ _) as [kept room]. destruct Hev as [Hs _].
  repeat case_match; simplify_eq; done.
Qed.

Lemma grants_wf_snoc kept g : grants_wf kept → eg_id g ∉ eg_id <$> kept → eg_id g ≠ 0 →
  0 <= eg_epoch g → (∀ x, x ∈ kept → eg_domain x = eg_domain g → eg_epoch x <= eg_epoch g) →
  (is_open g = true → (eg_domain g, eg_scope g) ∉ open_keys kept) → grants_wf (kept ++ [g]).
Proof.
  intros (H1 & H2 & H3 & H4) Hid H0 He Hep Hk. split; [|split; [|split]].
  - rewrite fmap_app. apply NoDup_app. split; [done|]. split; [|apply NoDup_singleton].
    intros x Hx Hx'. apply list_elem_of_singleton in Hx'. simpl in Hx'. congruence.
  - apply StronglySorted_app_2; [|done|repeat constructor].
    intros x y Hx ->%list_elem_of_singleton. auto.
  - unfold open_keys. rewrite List.filter_app, fmap_app. simpl. destruct (is_open g); simpl.
    + apply NoDup_app. split; [done|]. split; [|apply NoDup_singleton].
      intros x Hx ->%list_elem_of_singleton. by apply Hk.
    + by rewrite app_nil_r.
  - apply Forall_app. split; [done|]. by constructor.
Qed.

Lemma open_grant_wf t g : grants_wf (lt_grants t) → 0 <= eg_epoch g →
  grants_wf (lt_grants (open_grant t g).1).
Proof.
  intros Hwf He. destruct (open_grant t g) as [t' st] eqn:E.
  destruct (decide (st = status_ok)) as [->|Hst]; simpl.
  - apply open_grant_ok in E as (H0 & _ & _ & _ & _ & Ho & Hf & Hm & Hk & _ & kept & -> & Hs & _).
    apply grants_wf_snoc; [by eapply grants_wf_sublist| |done|done| |].
    + apply find_grant_None in Hf. intros Hin. apply Hf.
      eapply sublist_subseteq; [|exact Hin]. by apply fmap_sublist.
    + intros x Hx Hd. etrans; [|exact Hm]. rewrite <-Hd. apply max_epoch_ge.
      by eapply sublist_subseteq.
    + intros _. apply open_grant_for_None in Hk. intros Hin. apply Hk.
      apply elem_of_open_keys in Hin as (x & Hx & ? & ?). apply elem_of_open_keys.
      exists x. split; [|done]. by eapply sublist_subseteq.
  - apply open_grant_refused in E as [_ Hs]; [|done]. by eapply grants_wf_sublist.
Qed.

(** ** [close_grant] *)

Lemma close_in_spec id state why now l :
  match close_in id state why now l with
  | (l', None) => l' = l ∧ id ∉ eg_id <$> l
  | (l', Some s) =>
      (s = status_ok ∧ ∃ a g b, l = a ++ g :: b ∧ id ∉ eg_id <$> a ∧ eg_id g = id ∧
         is_open g = true ∧ l' = a ++ grant_closed g state why now :: b) ∨
      (s = mkStatus Outcome.AlreadyExists Reason.DuplicateEntry id ∧ l' = l ∧
         ∃ g, g ∈ l ∧ eg_id g = id ∧ is_open g = false)
  end.
Proof.
  induction l as [|g r IH]; simpl; [set_solver|].
  destruct (Z.eqb_spec (eg_id g) id) as [<-|Hne].
  - destruct (is_open g) eqn:E; simpl.
    + left. split; [done|]. exists [], g, r. set_solver.
    + right. split; [done|]. split; [done|]. exists g. set_solver.
  - destruct (close_in id state why now r) as [l' [s|]].
    + destruct IH as [(-> & a & x & b & -> & Ha & ? & ? & ->)|(-> & -> & x & ? & ? & ?)].
      * left. split; [done|]. exists (g :: a), x, b. set_solver.
      * right. split; [done|]. split; [done|]. exists x. set_solver.
    + destruct IH as [-> ?]. split; [done|]. set_solver.
Qed.

Lemma grants_wf_close a g b state why now : state ≠ GrantOpen →
  grants_wf (a ++ g :: b) → grants_wf (a ++ grant_closed g state why now :: b).
Proof.
  intros Hst (H1 & H2 & H3 & H4). split; [|split; [|split]].
  - by rewrite !fmap_app in *.
  - unfold epochs_monotone in *. apply StronglySorted_app in H2 as (I1 & I2 & I3).
    apply StronglySorted_inv in I3 as [I3 I4].
    apply StronglySorted_app_2; [|done|by constructor].
    intros x y Hx [->|Hy]%elem_of_cons; [|set_solver].
    apply (I1 x g Hx). set_solver.
  - eapply sublist_NoDup; [exact H3|]. unfold open_keys.
    apply fmap_sublist. rewrite !List.filter_app. apply sublist_app; [done|]. simpl.
    unfold is_open at 1. simpl. rewrite bool_decide_false by done.
    destruct (is_open g); [by constructor|done].
  - rewrite Forall_app, Forall_cons in *. done.
Qed.

Lemma close_grant_wf t id state why now : grants_wf (lt_grants t) →
  grants_wf (lt_grants (lineage_close_grant t id state why now).1).
Proof.
  intros Hwf. unfold lineage_close_grant. case_bool_decide; [done|].
  pose proof (close_in_spec id state why now (lt_grants t)) as Hc.
  destruct (close_in _ _ _ _ _) as [l [s|]]; [|done]. simpl.
  destruct Hc as [(_ & a & g & b & E & _ & _ & _ & ->)|(_ & -> & _)]; [|done].
  rewrite E in Hwf. by apply grants_wf_close.
Qed.

(** ** [validate] decides the invariant *)

Definition hex_keys (l : list EpochGrant) : list (bytes * bytes) :=
  (λ g, (eg_domain g, Digest256_hex (eg_scope g))) <$> List.filter is_open l.

Lemma hex_keys_NoDup l : NoDup (hex_keys l) ↔ NoDup (open_keys l).
Proof.
  assert (E : hex_keys l = (λ k, (k.1, Digest256_hex k.2)) <$> open_keys l).
  { unfold hex_keys, open_keys. by rewrite <-list_fmap_compose. }
  rewrite E. split; [apply NoDup_fmap_1|]. apply NoDup_fmap_2.
  intros [a b] [c d] [= -> ?%digest_hex_inj]. by subst.
Qed.

(** The keys still to come, once [x] is among the seen ones. *)
Lemma seen_cons {K} `{Countable K} (x : K) (ks : list K) (seen : gset K) : x ∉ seen →
  (NoDup ks ∧ ∀ k, k ∈ ks → k ∉ ({[x]} ∪ seen)) ↔
  (NoDup (x :: ks) ∧ ∀ k, k ∈ x :: ks → k ∉ seen).
Proof.
  intros Hx. rewrite NoDup_cons. split.
  - intros [Hn Hs]. split; [split; [|done]|].
    + intros Hin. apply (Hs x Hin). set_solver.
    + intros k [->|Hk]%elem_of_cons; [done|]. specialize (Hs k Hk). set_solver.
  - intros [[Hn Hd] Hs]. split; [done|]. intros k Hk. apply not_elem_of_union.
    split; [|apply Hs; set_solver]. apply not_elem_of_singleton. by intros ->.
Qed.

(** Every grant of [l] is at or above the epoch recorded for its domain. *)
Definition above (highest : gmap bytes Z) (l : list EpochGrant) : Prop :=
  ∀ g, g ∈ l → default 0 (highest !! eg_domain g) <= eg_epoch g.

Lemma above_cons highest g l : default 0 (highest !! eg_domain g) <= eg_epoch g →
  (epochs_monotone l ∧ above (<[eg_domain g:=eg_epoch g]> highest) l) ↔
  (epochs_monotone (g :: l) ∧ above highest (g :: l)).
Proof.
  intros Hg. unfold epochs_monotone, above. rewrite StronglySorted_cons, Forall_forall. split.
  - intros [Hm Hx]. split; [split; [|done]|].
    + intros x Hin Hd. specialize (Hx x Hin). by rewrite Hd, lookup_insert_eq in Hx.
    + intros x [->|Hin]%elem_of_cons; [done|]. specialize (Hx x Hin).
      destruct (decide (eg_domain g = eg_domain x)) as [E|E].
      * rewrite E, lookup_insert_eq in Hx. simpl in Hx. rewrite <-E. lia.
      * by rewrite lookup_insert_ne in Hx.
  - intros [[Hm1 Hm2] Hx]. split; [done|]. intros x Hin.
    destruct (decide (eg_domain g = eg_domain x)) as [E|E].
    + rewrite E, lookup_insert_eq. simpl. by apply Hm1.
    + rewrite lookup_insert_ne by done. apply Hx. set_solver.
Qed.

Lemma check_grants_ok guard l : ∀ ids highest keys,
  is_ok (check_grants guard ids highest keys l) = true ↔
  Forall (λ g, is_ok (guard g) = true) l ∧
  (NoDup (eg_id <$> l) ∧ ∀ k, k ∈ eg_id <$> l → k ∉ ids) ∧
  (epochs_monotone l ∧ above highest l) ∧
  (NoDup (hex_keys l) ∧ ∀ k, k ∈ hex_keys l → k ∉ keys).
Proof.
  induction l as [|g r IH]; intros ids highest keys.
  { split; [|done]. intros _. repeat split; try constructor; set_solver. }
  cbn [check_grants]. rewrite Forall_cons.
  destruct (is_ok (guard g)) eqn:Eg; simpl; [|rewrite Eg; naive_solver].
  case_bool_decide as Hid.
  { split; [done|]. intros (_ & [_ H] & _). exfalso. apply (H (eg_id g)); set_solver. }
  destruct (Z.ltb_spec (eg_epoch g) (default 0 (highest !! eg_domain g))) as [L|L].
  { split; [done|]. intros (_ & _ & [_ H] & _). specialize (H g ltac:(set_solver)). lia. }
  rewrite <-(above_cons highest g r L). csimpl. rewrite <-(seen_cons (eg_id g) _ ids Hid).
  unfold hex_keys. cbn [List.filter]. destruct (is_open g) eqn:Eo; cbn [andb fmap list_fmap].
  - case_bool_decide as Hk.
    { split; [done|]. intros (_ & _ & _ & _ & H). exfalso. eapply H; [left|done]. }
    rewrite IH, <-(seen_cons _ _ keys Hk). tauto.
  - rewrite IH. tauto.
Qed.

Lemma validate_iff t : Forall (λ g, 0 <= eg_epoch g) (lt_grants t) →
  is_ok (lineage_validate t) = true ↔ grants_wf (lt_grants t).
Proof.
  intros He. unfold lineage_validate, grants_wf.
  rewrite check_grants_ok, hex_keys_NoDup, Forall_and.
  assert (Hg : Forall (λ g, is_ok (validate_guard g) = true) (lt_grants t) ↔
    Forall (λ g, eg_id g ≠ 0) (lt_grants t)).
  { apply Forall_iff. intros g. unfold validate_guard, is_none.
    destruct (Z.eqb_spec (eg_id g) 0); naive_solver. }
  rewrite Hg. split; [tauto|]. intros (H1 & H2 & H3 & H4 & _).
  repeat split; try done; try set_solver.
  intros g Hgin. rewrite Forall_forall in He. rewrite lookup_empty. simpl. auto.
Qed.

Lemma import_grants_wf grants boots t : Forall (λ g, 0 <= eg_epoch g) grants →
  lineage_import grants boots = Ret t → t = mkLineage grants boots 1 ∧ grants_wf grants.
Proof.
  intros He. unfold lineage_import. destruct (_ || _); [done|].
  destruct (is_ok (check_grants _ _ _ _ _)) eqn:E; [|done]. simpl.
  destruct (is_ok (check_boots _ _)); [|done]. intros [= <-]. split; [done|].
  apply check_grants_ok in E as (H1 & [H2 _] & [H3 _] & [H4 _]).
  rewrite hex_keys_NoDup in H4. unfold grants_wf. rewrite Forall_and.
  repeat split; try done. eapply Forall_impl; [exact H1|]. intros g.
  unfold import_guard, is_none. simpl. by destruct (Z.eqb_spec (eg_id g) 0).
Qed.

(** The length of the history never exceeds its bound. *)
Lemma open_grant_length t g : zlen (lt_grants t) <= kMaxLineageEntries →
  zlen (lt_grants (open_grant t g).1) <= kMaxLineageEntries.
Proof.
  intros Hl. destruct (open_grant t g) as [t' st] eqn:E.
  destruct (decide (st = status_ok)) as [->|Hst]; simpl.
  - apply open_grant_ok in E as (_ & _ & _ & _ & _ & _ & _ & _ & _ & _ & kept & -> & _ & Hk & _).
    rewrite zlen_app. change (zlen [g]) with 1. lia.
  - apply open_grant_refused in E as [_ Hs%sublist_length]; [|done]. unfold zlen in *. lia.
Qed.

(** ** [reconcile] against its specification *)

Definition known_in (l : list EpochGrant) (g : EpochGrant) : bool :=
  match List.find (λ x, eg_id x =? eg_id g) l with Some _ => true | None => false end.

(** The rows of [remote] that contradict the row of that id in [local]. *)
Definition divergences (local remote : list EpochGrant) : list ReconciliationConflict :=
  omap (λ g, match List.find (λ x, eg_id x =? eg_id g) local with
             | Some x => if same_grant x g then None else Some (conflict_of x g)
             | None => None
             end) remote.

Lemma merge_local_spec l : ∀ by_id, sv_sorted eg_id by_id →
  NoDup (eg_id <$> l) → (∀ g, g ∈ l → sv_find eg_id (eg_id g) by_id = None) →
  ∃ k, merge_local by_id l = Ret k ∧ k ≡ₚ by_id ++ l ∧ sv_sorted eg_id k.
Proof.
  induction l as [|g r IH]; intros by_id Hs Hnd Hfresh; simpl.
  - exists by_id. by rewrite app_nil_r.
  - rewrite Hfresh by set_solver. csimpl in Hnd. apply NoDup_cons in Hnd as [Hg Hnd].
    destruct (IH (sv_set eg_id g by_id)) as (k & Hk & Hp & Hks); [by apply sv_set_sorted|done| |].
    + intros x Hx. rewrite sv_find_set_ne; [apply Hfresh; set_solver|done|].
      intros E. apply Hg. rewrite <-E. apply list_elem_of_fmap. eauto.
    + exists k. split; [done|]. split; [|done].
      rewrite Hp, sv_set_Permutation by (done || apply Hfresh; set_solver).
      simpl. apply Permutation_middle.
Qed.

Definition sv_divergences (by_id : list EpochGrant) (l : list EpochGrant)
  : list ReconciliationConflict :=
  omap (λ g, match sv_find eg_id (eg_id g) by_id with
             | Some x => if same_grant x g then None else Some (conflict_of x g)
             | None => None
             end) l.

Definition sv_unknown (by_id l : list EpochGrant) : list EpochGrant :=
  List.filter (λ g, match sv_find eg_id (eg_id g) by_id with Some _ => false | None => true end) l.

Lemma sv_fresh_set g by_id l : sv_sorted eg_id by_id → eg_id g ∉ eg_id <$> l →
  sv_divergences (sv_set eg_id g by_id) l = sv_divergences by_id l ∧
  sv_unknown (sv_set eg_id g by_id) l = sv_unknown by_id l.
Proof.
  intros Hs Hg. assert (Hf : ∀ x, x ∈ l →
    sv_find eg_id (eg_id x) (sv_set eg_id g by_id) = sv_find eg_id (eg_id x) by_id).
  { intros x Hx. apply sv_find_set_ne; [done|]. intros E. apply Hg.
    rewrite <-E. apply list_elem_of_fmap. eauto. }
  clear Hg. unfold sv_divergences, sv_unknown.
  induction l as [|x l IH]; csimpl; [done|].
  rewrite (Hf x) by set_solver. destruct IH as [I1 I2]; [set_solver|].
  rewrite I1, I2. done.
Qed.

Lemma merge_remote_spec l : ∀ by_id conflicts dropped, sv_sorted eg_id by_id →
  NoDup (eg_id <$> l) → zlen conflicts + zlen l <= kMaxReconcileConflicts →
  ∃ k, merge_remote by_id conflicts dropped l = (k, conflicts ++ sv_divergences by_id l, dropped) ∧
    k ≡ₚ by_id ++ sv_unknown by_id l ∧ sv_sorted eg_id k.
Proof.
  induction l as [|g r IH]; intros by_id conflicts dropped Hs Hnd Hb; cbn [merge_remote].
  { exists by_id. unfold sv_unknown, sv_divergences. simpl. by rewrite !app_nil_r. }
  csimpl in Hnd. apply NoDup_cons in Hnd as [Hg Hnd].
  assert (Hb' : zlen conflicts + 1 + zlen r <= kMaxReconcileConflicts)
    by (unfold zlen in *; simpl in *; lia).
  unfold sv_divergences, sv_unknown. csimpl. fold (sv_divergences by_id r) (sv_unknown by_id r).
  destruct (sv_find eg_id (eg_id g) by_id) as [x|] eqn:E; simpl.
  - destruct (same_grant x g); simpl.
    + destruct (IH by_id conflicts dropped) as (k & -> & ?); [done..|lia|]. by exists k.
    + pose proof (zlen_nonneg r).
      destruct (Z.ltb_spec (zlen conflicts) kMaxReconcileConflicts); [|lia].
      destruct (IH by_id (conflicts ++ [conflict_of x g]) dropped) as (k & -> & ?); [done..| |].
      { rewrite zlen_app. change (zlen [conflict_of x g]) with 1. lia. }
      exists k. by rewrite <-app_assoc.
  - destruct (sv_fresh_set g by_id r Hs Hg) as [E1 E2].
    destruct (IH (sv_set eg_id g by_id) conflicts dropped) as (k & -> & Hp & Hk);
      [by apply sv_set_sorted|done|lia|].
    rewrite E1. exists k. split; [done|]. split; [|done].
    rewrite Hp, E2, sv_set_Permutation by done. simpl. apply Permutation_middle.
Qed.

(** Searching the sorted rows is searching the history. *)
Lemma sv_find_history by_id local id : sv_sorted eg_id by_id → by_id ≡ₚ local →
  sv_find eg_id id by_id = List.find (λ x, eg_id x =? id) local.
Proof.
  intros Hs Hp. destruct (List.find _ local) as [x|] eqn:E.
  - apply List.find_some in E as [Hin Hid]. apply list_elem_of_In in Hin.
    apply sv_find_Some; [done|]. rewrite Hp. split; [done|lia].
  - apply sv_find_None_elem; [done|]. intros v Hv. rewrite Hp in Hv.
    rewrite find_none in E. specialize (E v Hv). simpl in E. lia.
Qed.

Lemma history_less_asym a b : history_less a b = true → history_less b a = false.
Proof.
  unfold history_less. rewrite (Z.eqb_sym (eg_sequence b)).
  destruct (_ =? _); simpl; intros; lia.
Qed.

Lemma history_less_negtrans a b c :
  history_less b a = false → history_less c b = false → history_less c a = false.
Proof.
  unfold history_less.
  destruct (Z.eqb_spec (eg_sequence b) (eg_sequence a)),
    (Z.eqb_spec (eg_sequence c) (eg_sequence b)),
    (Z.eqb_spec (eg_sequence c) (eg_sequence a)); simpl; lia.
Qed.

(** ** Histories of the table *)

Inductive lineage_step : LineageTable → LineageTable → Prop :=
  | step_open t g : 0 <= eg_epoch g → lineage_step t (open_grant t g).1
  | step_close t id state why now : lineage_step t (lineage_close_grant t id state why now).1
  | step_begin_boot t b : lineage_step t (begin_boot t b).1
  | step_end_boot t boot now clean : lineage_step t (end_boot t boot now clean).1
  | step_import t grants boots t' : Forall (λ g, 0 <= eg_epoch g) grants →
      lineage_import grants boots = Ret t' → lineage_step t t'.

Definition lineage_wf (t : LineageTable) : Prop :=
  grants_wf (lt_grants t) ∧ zlen (lt_grants t) <= kMaxLineageEntries.

Lemma begin_boot_grants t b : lt_grants (begin_boot t b).1 = lt_grants t.
Proof. unfold begin_boot. by repeat case_match. Qed.
Lemma end_boot_grants t boot now clean : lt_grants (end_boot t boot now clean).1 = lt_grants t.
Proof. unfold end_boot. by repeat case_match. Qed.

Lemma close_grant_length t id state why now :
  zlen (lt_grants (lineage_close_grant t id state why now).1) = zlen (lt_grants t).
Proof.
  unfold lineage_close_grant. case_bool_decide; [done|].
  pose proof (close_in_spec id state why now (lt_grants t)) as Hc.
  destruct (close_in _ _ _ _ _) as [l [s|]]; [|done]. simpl.
  destruct Hc as [(_ & a & g & b & E & _ & _ & _ & ->)|(_ & -> & _)]; [|done].
  by rewrite E, !zlen_app.
Qed.

Lemma lineage_step_wf t t' : lineage_step t t' → lineage_wf t → lineage_wf t'.
Proof.
  intros Hstep [Hwf Hlen]. unfold lineage_wf.
  destruct Hstep as [t g He| | | |t grants boots t' He Hi].
  - split; [by apply open_grant_wf|by apply open_grant_length].
  - split; [by apply close_grant_wf|by rewrite close_grant_length].
  - by rewrite begin_boot_grants.
  - by rewrite end_boot_grants.
  - pose proof Hi as Hi'. apply import_grants_wf in Hi as [-> ?]; [|done].
    split; [done|]. simpl. revert Hi'. unfold lineage_import.
    destruct (Z.ltb_spec kMaxLineageEntries (zlen grants)); done.
Qed.

Module Lineages.

(** C31: Whatever sequence of grants, closes, boots and restarts the lineage
    goes through, it stays valid: its own [validate] accepts it, grant ids
    are unique, epochs of a domain never regress in the history, at most
    one grant is open per domain and scope, and the bound holds. *)
Theorem always_valid (t : LineageTable) : rtc lineage_step lineage0 t →
  lineage_wf t ∧ is_ok (lineage_validate t) = true.
Proof.
  intros Hrun. assert (Hwf : lineage_wf t).
  { assert (H0 : lineage_wf lineage0) by (split; [repeat split; constructor|by vm_compute]).
    revert H0. induction Hrun; eauto using lineage_step_wf. }
  split; [done|]. destruct Hwf as [Hwf _]. apply validate_iff; [|done].
  destruct Hwf as (_ & _ & _ & Hf). eapply Forall_impl; [exact Hf|]. naive_solver.
Qed.

(** A grant is opened exactly when it is complete, new, not below the
    domain's highest epoch and its scope has no open grant for the domain;
    then every grant that was open is still in the history and the domain's
    highest epoch is the new one. *)
Theorem open_grant_exact (t : LineageTable) (g : EpochGrant) :
  let '(t', st) := open_grant t g in
  (st ≠ status_ok → lt_boots t' = lt_boots t ∧ lt_grants t' `sublist_of` lt_grants t) ∧
  (st = status_ok →
    find_grant t (eg_id g) = None ∧ max_epoch t (eg_domain g) <= eg_epoch g ∧
    open_grant_for t (eg_domain g) (eg_scope g) = None ∧
    g ∈ lt_grants t' ∧ (∀ x, x ∈ lt_grants t → is_open x = true → x ∈ lt_grants t') ∧
    (∀ x, x ∈ lt_grants t' → x = g ∨ x ∈ lt_grants t) ∧
    max_epoch t' (eg_domain g) = eg_epoch g).
Proof.
  destruct (open_grant t g) as [t' st] eqn:E. split; [by eapply open_grant_refused|]. intros ->.
  apply open_grant_ok in E
    as (_ & _ & _ & _ & _ & _ & Hf & Hm & Hk & _ & kept & Hg & Hs & _ & Ho).
  split; [done|]. split; [done|]. split; [done|]. rewrite Hg.
  split; [set_solver|]. split; [set_solver|]. split.
  - intros x [Hx|Hx]%elem_of_app; [right; by eapply sublist_subseteq|set_solver].
  - unfold max_epoch, max_epoch_of. rewrite Hg, foldl_app. simpl. rewrite eqb_refl. simpl.
    destruct (max_epoch_of_attained (eg_domain g) kept 0) as [->|(x & Hx & Hd & ->)].
    + destruct (Z.ltb_spec 0 (eg_epoch g)); [done|].
      pose proof (proj1 (max_epoch_of_ge (eg_domain g) (lt_grants t) 0)) as H0.
      unfold max_epoch, max_epoch_of in Hm. lia.
    + destruct (Z.ltb_spec (eg_epoch x) (eg_epoch g)); [done|].
      pose proof (max_epoch_ge t x (sublist_subseteq _ _ Hs x Hx)) as Hge.
      rewrite Hd in Hge. lia.
Qed.

(** Reconciling two histories yields their union by grant id in registry
    order, reports exactly the remote rows that contradict the local row of
    their id, and succeeds precisely when there is none. *)
Theorem reconcile_exact (local remote : list EpochGrant) :
  NoDup (eg_id <$> local) → NoDup (eg_id <$> remote) →
  zlen local <= kMaxReconcileInputs → zlen remote <= kMaxReconcileInputs →
  let r := reconcile local remote in
  rr_merged r ≡ₚ local ++ List.filter (λ g, negb (known_in local g)) remote ∧
  sorted_by history_less (rr_merged r) ∧
  rr_conflicts r = divergences local remote ∧ rr_dropped r = 0 ∧
  (is_ok (rr_status r) = true ↔ divergences local remote = []) ∧
  (rr_requires_operator r = true ↔ divergences local remote ≠ []).
Proof.
  intros Hl Hr Bl Br. unfold reconcile.
  destruct (Z.ltb_spec kMaxReconcileInputs (zlen local)); [lia|].
  destruct (Z.ltb_spec kMaxReconcileInputs (zlen remote)); [lia|]. simpl.
  destruct (merge_local_spec local []) as (k & -> & Hk & Hks); [constructor|done..|].
  destruct (merge_remote_spec remote k [] 0) as (k' & -> & Hp & Hs'); [done..| |].
    unfold kMaxReconcileConflicts, kMaxReconcileInputs in *.
    change (zlen (@nil ReconciliationConflict)) with 0. lia.
  assert (Ediv : sv_divergences k remote = divergences local remote).
  { unfold sv_divergences, divergences. apply list_omap_ext, Forall2_same_length_lookup.
    split; [done|]. intros i x y Hx Hy. simplify_eq. by rewrite (sv_find_history k local). }
  assert (Eunk : sv_unknown k remote = List.filter (λ g, negb (known_in local g)) remote).
  { unfold sv_unknown, known_in. apply List.filter_ext. intros x.
    rewrite (sv_find_history k local) by done. by destruct (List.find _ _). }
  rewrite app_nil_l, Ediv.
  assert (Hm : sort_by history_less k' ≡ₚ
    local ++ List.filter (λ g, negb (known_in local g)) remote).
  { by rewrite sort_by_Permutation, Hp, Eunk, Hk. }
  assert (Hsort : sorted_by history_less (sort_by history_less k')).
  { apply sort_by_sorted; [apply history_less_asym|apply history_less_negtrans]. }
  destruct (divergences local remote); simpl; naive_solver.
Qed.

Definition sample_grant (id : Z) (domain : string) (epoch : Z) : EpochGrant :=
  mkGrant id (str domain) Digest256_zero [str "n1"] 1 epoch 1 1 id 1 0 GrantOpen id 1 1 1
    Reason.None.

Definition sample_table : LineageTable := (open_grant lineage0 (sample_grant 1 "d" 2)).1.

Lemma always_valid_witness : is_ok (lineage_validate sample_table) = true.
Proof.
  refine (proj2 (always_valid sample_table _)).
  unfold sample_table. eapply rtc_once, step_open. simpl. lia.
Defined.

Lemma reconcile_exact_witness :
  rr_requires_operator (reconcile [sample_grant 1 "d" 2] [sample_grant 1 "d" 3]) = true.
Proof.
  pose proof (reconcile_exact [sample_grant 1 "d" 2] [sample_grant 1 "d" 3]) as H.
  apply H; [repeat constructor; set_solver|repeat constructor; set_solver
    |vm_compute; done|vm_compute; done|vm_compute; done].
Defined.
End Lineages.
