(* ===== verification/Evidence.v ===== *)
(** * Quorum evidence

    Models [include/sbf/evidence.hpp] and [src/evidence.cpp].  The local
    [std::map]s of the assessment are only searched and counted, so they are
    [gmap]s and a [gset]; [seen_sequence] is written and never read and has
    no counterpart. *)
From S2P Require Import Prelude Order SortedVec Status Ids Digest.
Open Scope Z_scope.

Inductive EvidenceState : Set :=
  | Current | EvStale | EvUnknown | EvConflict | EvInvalid | EvUnsupported.

#[export] Instance evidence_state_eq_dec : EqDecision EvidenceState.
Proof. solve_decision. Defined.

Definition evidence_state_code (s : EvidenceState) : Z :=
  match s with
  | Current => 0 | EvStale => 1 | EvUnknown => 2 | EvConflict => 3 | EvInvalid => 4
  | EvUnsupported => 5
  end.

Definition evidence_state_of_code (z : Z) : option EvidenceState :=
  match z with
  | 0 => Some Current | 1 => Some EvStale | 2 => Some EvUnknown | 3 => Some EvConflict
  | 4 => Some EvInvalid | 5 => Some EvUnsupported | _ => None
  end.

Record WitnessAttestation := mkAttestation {
  at_witness : WitnessId;
  at_domain : DomainId;
  at_scope : Digest256;
  at_epoch : Epoch;
  at_incarnation : IncarnationId;
  at_token : FenceToken;
  at_generation : Generation;
  at_policy_gen : Generation;
  at_issued : Step;
  at_valid_until : Step;
  at_sequence : Sequence;
  at_support : bool;
  at_observed : WallClockReading
}.

Record WitnessSlot := mkSlot { ws_witness : WitnessId; ws_fault : FaultDomainId }.

Inductive QuorumMode : Set :=
  | MajorityDistinctWitnesses | ThresholdDistinctWitnesses | UnanimousWitnesses.

Record QuorumProfile := mkProfile {
  qp_policy : PolicyId;
  qp_generation : Generation;
  qp_witnesses : list WitnessSlot;
  qp_mode : QuorumMode;
  qp_threshold : Z;
  qp_min_domains : Z;
  qp_horizon : Z
}.

Record Lease := mkLease {
  ls_id : LeaseId;
  ls_grant : GrantId;
  ls_domain : DomainId;
  ls_scope : Digest256;
  ls_epoch : Epoch;
  ls_incarnation : IncarnationId;
  ls_token : FenceToken;
  ls_generation : Generation;
  ls_policy_gen : Generation;
  ls_valid_from : Step;
  ls_valid_until : Step
}.

Record WitnessFloor := mkFloor {
  wf_witness : WitnessId; wf_sequence : Sequence; wf_generation : Generation }.

Record EvidenceBundle := mkBundle {
  eb_policy : PolicyId;
  eb_policy_gen : Generation;
  eb_as_of : Step;
  eb_fence_gen : Generation;
  eb_attestations : list WitnessAttestation;
  eb_has_lease : bool;
  eb_lease : Lease
}.

Record EvidenceRequest := mkEvidenceRequest {
  er_domain : DomainId;
  er_scope : Digest256;
  er_epoch : Epoch;
  er_incarnation : IncarnationId;
  er_token : FenceToken;
  er_as_of : Step
}.

Record EvidenceAssessment := mkAssessment {
  ea_state : EvidenceState;
  ea_status : Status;
  ea_outcome : Outcome;
  ea_reason : Reason;
  ea_required : Z;
  ea_supporting : Z;
  ea_domains : Z;
  ea_floor_gen : Generation;
  ea_ceiling_gen : Generation;
  ea_duplicates : Z;
  ea_replayed : Z;
  ea_rejected : Z;
  ea_earliest : Step;
  ea_lease_present : bool;
  ea_lease_until : Step
}.

#[export] Instance attestation_eq_dec : EqDecision WitnessAttestation.
Proof. solve_decision. Defined.
#[export] Instance witness_slot_eq_dec : EqDecision WitnessSlot.
Proof. solve_decision. Defined.
#[export] Instance quorum_mode_eq_dec : EqDecision QuorumMode.
Proof. solve_decision. Defined.
#[export] Instance quorum_profile_eq_dec : EqDecision QuorumProfile.
Proof. solve_decision. Defined.
#[export] Instance lease_eq_dec : EqDecision Lease.
Proof. solve_decision. Defined.

(** [friend operator<=>] of [WitnessSlot]. *)
Definition slot_key (s : WitnessSlot) : bytes * bytes := (ws_witness s, ws_fault s).

Definition required_witnesses (p : QuorumProfile) : Z :=
  let count := u32 (zlen (qp_witnesses p)) in
  match qp_mode p with
  | MajorityDistinctWitnesses => if count =? 0 then 0 else u32 (count / 2 + 1)
  | ThresholdDistinctWitnesses => qp_threshold p
  | UnanimousWitnesses => count
  end.

Fixpoint validate_slots (i : Z) (previous : option WitnessSlot) (l : list WitnessSlot) : Status :=
  match l with
  | [] => status_ok
  | s :: r =>
      if id_empty (ws_witness s) || id_empty (ws_fault s)
      then mkStatus Outcome.Invalid Reason.EmptyValue i
      else if (match previous with
               | Some p => negb (ltb (slot_key p) (slot_key s))
               | None => false
               end)
      then mkStatus Outcome.Invalid Reason.DuplicateEntry i
      else validate_slots (i + 1) (Some s) r
  end.

Definition profile_validate (p : QuorumProfile) : Status :=
  if id_empty (qp_policy p) then fail0 Outcome.Invalid Reason.PolicyNotRegistered
  else if is_none (qp_generation p) then fail0 Outcome.Invalid Reason.ValueOutOfRange
  else if zlen (qp_witnesses p) =? 0 then fail0 Outcome.Invalid Reason.NoAttestations
  else if kMaxWitnessesPerProfile <? zlen (qp_witnesses p)
  then mkStatus Outcome.Exhausted Reason.BoundedTableFull (zlen (qp_witnesses p))
  else
    let st := validate_slots 0 None (qp_witnesses p) in
    if negb (is_ok st) then st
    else
      let required := required_witnesses p in
      if (required =? 0) || (zlen (qp_witnesses p) <? required)
      then mkStatus Outcome.Invalid Reason.InsufficientDistinctWitnesses required
      else if (qp_min_domains p =? 0) || (zlen (qp_witnesses p) <? qp_min_domains p)
      then mkStatus Outcome.Invalid Reason.InsufficientFaultDomains (qp_min_domains p)
      else if (qp_horizon p =? 0) || (kMaxLeaseHorizonSteps <? qp_horizon p)
      then mkStatus Outcome.Invalid Reason.ValueOutOfRange (qp_horizon p)
      else status_ok.

(** ** [assess_evidence] *)

(** [attestation_less]. *)
Definition attestation_key (a : WitnessAttestation) : bytes * (Z * (Z * (Z * (Z * Z)))) :=
  (at_witness a, (at_epoch a, (at_incarnation a, (at_sequence a, (at_generation a, at_token a))))).

Definition attestation_less (a b : WitnessAttestation) : bool :=
  ltb (attestation_key a) (attestation_key b).

Definition floor_by_witness (floors : list WitnessFloor) : gmap WitnessId WitnessFloor :=
  foldl (λ m f, <[wf_witness f := f]> m) ∅ floors.

Definition fault_domains (p : QuorumProfile) : gmap WitnessId FaultDomainId :=
  foldl (λ m s, <[ws_witness s := ws_fault s]> m) ∅ (qp_witnesses p).

(** [latest_index], with the sequence found at that index. *)
Fixpoint latest_loop (i : nat) (l : list WitnessAttestation)
    (m : gmap WitnessId (nat * Sequence)) : gmap WitnessId (nat * Sequence) :=
  match l with
  | [] => m
  | a :: r =>
      latest_loop (S i) r
        (match m !! at_witness a with
         | Some (_, s) => if s <? at_sequence a then <[at_witness a := (i, at_sequence a)]> m else m
         | None => <[at_witness a := (i, at_sequence a)]> m
         end)
  end.

Inductive Flag : Set := FlagInvalid | FlagUnknown | FlagStale | FlagGeneration.

(** What the loop decides about one statement. *)
Inductive Judgment : Set :=
  | Superseded
  | Rejected (replayed : bool) (flag : Flag)
  | Accepted (fault : FaultDomainId).

Definition judge (request : EvidenceRequest) (profile : QuorumProfile)
    (domains : gmap WitnessId FaultDomainId) (floors : gmap WitnessId WitnessFloor)
    (latest : gmap WitnessId (nat * Sequence)) (index : nat) (a : WitnessAttestation) : Judgment :=
  if id_empty (at_witness a) then Rejected false FlagInvalid
  else if (match latest !! at_witness a with
           | Some (i, _) => negb (Nat.eqb i index)
           | None => false
           end) then Superseded
  else
    match domains !! at_witness a with
    | None => Rejected false FlagUnknown
    | Some fault =>
        if (match floors !! at_witness a with
            | Some f => at_sequence a <=? wf_sequence f
            | None => false
            end) then Rejected true FlagStale
        else if negb (eqb (at_scope a) (er_scope request)) then Rejected false FlagInvalid
        else if negb (eqb (at_domain a) (er_domain request)) then Rejected false FlagInvalid
        else if negb (at_epoch a =? er_epoch request) then Rejected false FlagStale
        else if negb (at_incarnation a =? er_incarnation request) then Rejected false FlagInvalid
        else if negb (at_token a =? er_token request) then Rejected false FlagStale
        else if negb (at_policy_gen a =? qp_generation profile)
        then Rejected false FlagGeneration
        else if is_none (at_generation a) then Rejected false FlagInvalid
        else if at_valid_until a <? er_as_of request then Rejected false FlagStale
        else if er_as_of request <? at_issued a then Rejected false FlagUnknown
        else Accepted fault
    end.

(** The locals of the loop. *)
Record Tally := mkTally {
  ty_duplicates : Z;
  ty_replayed : Z;
  ty_rejected : Z;
  ty_conflict : bool;
  ty_stale : bool;
  ty_unknown : bool;
  ty_invalid : bool;
  ty_generation : bool;
  ty_support : gmap WitnessId bool;
  ty_domains : gset FaultDomainId;
  ty_earliest : Step;
  ty_floor : Generation;
  ty_ceiling : Generation
}.

Definition tally0 : Tally :=
  mkTally 0 0 0 false false false false false ∅ ∅ u64_max u64_max 0.

Definition is_flag (f g : Flag) : bool :=
  match f, g with
  | FlagInvalid, FlagInvalid | FlagUnknown, FlagUnknown | FlagStale, FlagStale
  | FlagGeneration, FlagGeneration => true
  | _, _ => false
  end.

Definition tally_step (t : Tally) (a : WitnessAttestation) (j : Judgment) : Tally :=
  match j with
  | Superseded =>
      mkTally (ty_duplicates t + 1) (ty_replayed t + 1) (ty_rejected t) (ty_conflict t)
        (ty_stale t) (ty_unknown t) (ty_invalid t) (ty_generation t) (ty_support t) (ty_domains t)
        (ty_earliest t) (ty_floor t) (ty_ceiling t)
  | Rejected replayed flag =>
      mkTally (ty_duplicates t) (ty_replayed t + (if replayed then 1 else 0)) (ty_rejected t + 1)
        (ty_conflict t) (ty_stale t || is_flag flag FlagStale)
        (ty_unknown t || is_flag flag FlagUnknown) (ty_invalid t || is_flag flag FlagInvalid)
        (ty_generation t || is_flag flag FlagGeneration) (ty_support t) (ty_domains t)
        (ty_earliest t) (ty_floor t) (ty_ceiling t)
  | Accepted fault =>
      let previous := default false (ty_support t !! at_witness a) in
      let conflict := ty_conflict t || (previous && negb (at_support a)) in
      let support := <[at_witness a := at_support a]> (ty_support t) in
      if at_support a
      then mkTally (ty_duplicates t) (ty_replayed t) (ty_rejected t) conflict (ty_stale t)
             (ty_unknown t) (ty_invalid t) (ty_generation t) support ({[fault]} ∪ ty_domains t)
             (if at_valid_until a <? ty_earliest t then at_valid_until a else ty_earliest t)
             (if at_generation a <? ty_floor t then at_generation a else ty_floor t)
             (if ty_ceiling t <? at_generation a then at_generation a else ty_ceiling t)
      else mkTally (ty_duplicates t) (ty_replayed t) (ty_rejected t) true (ty_stale t)
             (ty_unknown t) (ty_invalid t) (ty_generation t) support (ty_domains t)
             (ty_earliest t) (ty_floor t) (ty_ceiling t)
  end.

Fixpoint assess_loop (judge_at : nat → WitnessAttestation → Judgment) (index : nat)
    (l : list WitnessAttestation) (t : Tally) : Tally :=
  match l with
  | [] => t
  | a :: r => assess_loop judge_at (S index) r (tally_step t a (judge_at index a))
  end.

(** The lease binding: the first mismatch, as its state and reason. *)
Definition check_lease (request : EvidenceRequest) (profile : QuorumProfile) (lease : Lease)
  : option (EvidenceState * Outcome * Reason) :=
  if is_none (ls_id lease) || is_none (ls_grant lease) || is_none (ls_generation lease)
  then Some (EvInvalid, Outcome.Invalid, Reason.LeaseMissing)
  else if negb (ls_policy_gen lease =? qp_generation profile)
  then Some (EvStale, Outcome.Stale, Reason.LeaseGenerationMismatch)
  else if negb (eqb (ls_scope lease) (er_scope request))
  then Some (EvInvalid, Outcome.Invalid, Reason.LeaseScopeMismatch)
  else if negb (eqb (ls_domain lease) (er_domain request))
  then Some (EvInvalid, Outcome.Invalid, Reason.LeaseDomainMismatch)
  else if negb (ls_epoch lease =? er_epoch request)
  then Some (EvStale, Outcome.Stale, Reason.LeaseEpochMismatch)
  else if negb (ls_incarnation lease =? er_incarnation request)
  then Some (EvStale, Outcome.Stale, Reason.LeaseIncarnationMismatch)
  else if negb (ls_token lease =? er_token request)
  then Some (EvStale, Outcome.Stale, Reason.FenceTokenRegressed)
  else if er_as_of request <? ls_valid_from lease
  then Some (EvUnknown, Outcome.Unknown, Reason.LeaseNotYetValid)
  else if ls_valid_until lease <? er_as_of request
  then Some (EvStale, Outcome.Stale, Reason.LeaseExpired)
  else None.

Definition count_supporting (m : gmap WitnessId bool) : Z :=
  Z.of_nat (size (filter (λ p, p.2 = true) m)).

(** The verdict once the tally and the lease are in. *)
Definition verdict_of (profile : QuorumProfile) (t : Tally) (supporting domains : Z)
  : EvidenceState * Status * Outcome * Reason :=
  if ty_conflict t
  then (EvConflict, mkStatus Outcome.Conflict Reason.ConflictingAttestations supporting,
        Outcome.Conflict, Reason.ConflictingAttestations)
  else if ty_invalid t
  then (EvInvalid, mkStatus Outcome.Invalid Reason.WitnessScopeMismatch (ty_rejected t),
        Outcome.Invalid, Reason.WitnessScopeMismatch)
  else if ty_generation t
  then (EvStale, fail0 Outcome.Stale Reason.WitnessGenerationMismatch,
        Outcome.Stale, Reason.WitnessGenerationMismatch)
  else if supporting <? required_witnesses profile
  then (if ty_stale t
        then (EvStale, mkStatus Outcome.Stale Reason.StaleAttestation supporting,
              Outcome.Stale, Reason.StaleAttestation)
        else (EvUnknown, mkStatus Outcome.Unknown Reason.InsufficientDistinctWitnesses supporting,
              Outcome.Unknown, Reason.InsufficientDistinctWitnesses))
  else if domains <? qp_min_domains profile
  then (EvUnknown, mkStatus Outcome.Unknown Reason.InsufficientFaultDomains domains,
        Outcome.Unknown, Reason.InsufficientFaultDomains)
  else if ty_stale t
  then (EvStale, mkStatus Outcome.Stale Reason.StaleAttestation (ty_rejected t),
        Outcome.Stale, Reason.StaleAttestation)
  else if ty_unknown t
  then (EvUnknown, mkStatus Outcome.Unknown Reason.WitnessEpochMismatch (ty_rejected t),
        Outcome.Unknown, Reason.WitnessEpochMismatch)
  else (Current, status_ok, Outcome.Ok, Reason.None).

(** The early returns, before any statement is looked at. *)
Definition early_assessment (profile : QuorumProfile) (s : EvidenceState) (st : Status)
    (o : Outcome) (r : Reason) : EvidenceAssessment :=
  mkAssessment s st o r (required_witnesses profile) 0 0 0 0 0 0 0 0 false 0.

Definition run_tally (request : EvidenceRequest) (profile : QuorumProfile)
    (bundle : EvidenceBundle) (floors : list WitnessFloor) : Tally :=
  let sorted := sort_by attestation_less (eb_attestations bundle) in
  assess_loop
    (judge request profile (fault_domains profile) (floor_by_witness floors)
       (latest_loop 0 sorted ∅))
    0 sorted tally0.

Definition assess_evidence (request : EvidenceRequest) (profile : QuorumProfile)
    (bundle : EvidenceBundle) (floors : list WitnessFloor) : EvidenceAssessment :=
  let st := profile_validate profile in
  if negb (is_ok st) then early_assessment profile EvInvalid st Outcome.Invalid (reason st)
  else if id_empty (eb_policy bundle) || negb (eqb (eb_policy bundle) (qp_policy profile))
  then early_assessment profile EvInvalid (fail0 Outcome.Invalid Reason.PolicyNotRegistered)
         Outcome.Invalid Reason.PolicyNotRegistered
  else if negb (eb_policy_gen bundle =? qp_generation profile)
  then early_assessment profile EvStale (fail0 Outcome.Stale Reason.PolicyGenerationMismatch)
         Outcome.Stale Reason.PolicyGenerationMismatch
  else if kMaxAttestationsPerBundle <? zlen (eb_attestations bundle)
  then early_assessment profile EvInvalid
         (mkStatus Outcome.Exhausted Reason.BoundedTableFull (zlen (eb_attestations bundle)))
         Outcome.Exhausted Reason.BoundedTableFull
  else
    let t := run_tally request profile bundle floors in
    let supporting := count_supporting (ty_support t) in
    let domains := Z.of_nat (size (ty_domains t)) in
    let floor_gen := if 0 <? supporting then ty_floor t else 0 in
    let ceiling_gen := if 0 <? supporting then ty_ceiling t else 0 in
    let fill s st o r earliest lease_present lease_until :=
      mkAssessment s st o r (required_witnesses profile) supporting domains floor_gen ceiling_gen
        (ty_duplicates t) (ty_replayed t) (ty_rejected t) earliest lease_present lease_until in
    let lease := eb_lease bundle in
    match (if eb_has_lease bundle then check_lease request profile lease else None) with
    | Some (s, o, r) => fill s (fail0 o r) o r (ty_earliest t) false 0
    | None =>
        let '(s, st, o, r) := verdict_of profile t supporting domains in
        if eb_has_lease bundle
        then fill s st o r
               (if ls_valid_until lease <? ty_earliest t then ls_valid_until lease
                else ty_earliest t) true (ls_valid_until lease)
        else fill s st o r (ty_earliest t) false 0
    end.

(** ** The loop *)

(** A judgment that leaves every flag as it was. *)
Definition clean (a : WitnessAttestation) (j : Judgment) : Prop :=
  match j with
  | Superseded => True
  | Rejected _ _ => False
  | Accepted _ => at_support a = true
  end.

Definition no_flags (t : Tally) : Prop :=
  ty_conflict t = false ∧ ty_stale t = false ∧ ty_unknown t = false ∧ ty_invalid t = false ∧
  ty_generation t = false.

Lemma tally_step_flags t a j : no_flags (tally_step t a j) ↔ no_flags t ∧ clean a j.
Proof.
  unfold no_flags. destruct j as [|replayed flag|fault]; simpl.
  - naive_solver.
  - rewrite !orb_false_iff. destruct flag; simpl; naive_solver.
  - destruct (at_support a); simpl; [rewrite andb_false_r, orb_false_r|]; naive_solver.
Qed.

Lemma assess_loop_flags J l : ∀ i t, no_flags (assess_loop J i l t) ↔
  no_flags t ∧ ∀ k a, l !! k = Some a → clean a (J (i + k)%nat a).
Proof.
  induction l as [|a r IH]; intros i t; simpl; [naive_solver|].
  rewrite IH, tally_step_flags. split.
  - intros [[Ht Ha] Hr]. split; [done|]. intros [|k] b; simpl.
    + intros [= <-]. by rewrite Nat.add_0_r.
    + intros Hb. rewrite Nat.add_succ_r. by apply Hr.
  - intros [Ht Hl]. split; [split; [done|]|].
    + specialize (Hl O a eq_refl). by rewrite Nat.add_0_r in Hl.
    + intros k b Hb. specialize (Hl (S k) b Hb). by rewrite Nat.add_succ_r in Hl.
Qed.

(** Support is recorded by an accepted statement of that witness. *)
Lemma assess_loop_support J l : ∀ i t w b, ty_support (assess_loop J i l t) !! w = Some b →
  ty_support t !! w = Some b ∨
  ∃ k a fault, l !! k = Some a ∧ at_witness a = w ∧ at_support a = b ∧
               J (i + k)%nat a = Accepted fault.
Proof.
  induction l as [|a r IH]; intros i t w b; simpl; [auto|]. intros H.
  apply IH in H as [H|(k & x & fault & ? & ? & ? & ?)].
  - destruct (J i a) as [| |fault] eqn:E; simpl in H; [auto..|].
    assert (Hs : <[at_witness a := at_support a]> (ty_support t) !! w = Some b)
      by (destruct (at_support a); exact H).
    apply lookup_insert_Some in Hs as [[<- <-]|[_ ?]]; [|auto].
    right. exists O, a, fault. by rewrite Nat.add_0_r.
  - right. exists (S k), x, fault. by rewrite Nat.add_succ_r.
Qed.

Lemma assess_loop_domains J l : ∀ i t f, f ∈ ty_domains (assess_loop J i l t) →
  f ∈ ty_domains t ∨
  ∃ k a, l !! k = Some a ∧ at_support a = true ∧ J (i + k)%nat a = Accepted f.
Proof.
  induction l as [|a r IH]; intros i t f; simpl; [auto|]. intros H.
  apply IH in H as [H|(k & x & ? & ? & ?)].
  - destruct (J i a) as [| |fault] eqn:E; simpl in H; [auto..|].
    destruct (at_support a) eqn:Es; simpl in H; [|auto].
    apply elem_of_union in H as [->%elem_of_singleton|]; [|auto].
    right. exists O, a. by rewrite Nat.add_0_r.
  - right. exists (S k), x. by rewrite Nat.add_succ_r.
Qed.

(** ** What an accepted statement says *)

(** The binding of a statement to the subject of the request. *)
Definition binds (request : EvidenceRequest) (profile : QuorumProfile) (a : WitnessAttestation)
  : Prop :=
  at_scope a = er_scope request ∧ at_domain a = er_domain request ∧
  at_epoch a = er_epoch request ∧ at_incarnation a = er_incarnation request ∧
  at_token a = er_token request ∧ at_policy_gen a = qp_generation profile ∧
  at_generation a ≠ 0 ∧ at_issued a <= er_as_of request <= at_valid_until a.

Definition above_floor (floors : list WitnessFloor) (a : WitnessAttestation) : Prop :=
  ∀ f, floor_by_witness floors !! at_witness a = Some f → wf_sequence f < at_sequence a.

Lemma judge_accepted request profile floors latest index a fault :
  judge request profile (fault_domains profile) (floor_by_witness floors) latest index a
    = Accepted fault →
  binds request profile a ∧ above_floor floors a ∧ at_witness a ≠ [] ∧
  fault_domains profile !! at_witness a = Some fault.
Proof.
  unfold judge, binds, above_floor, is_none.
  destruct (id_empty (at_witness a)) eqn:E0; [done|]. apply id_empty_false in E0.
  destruct (match latest !! at_witness a with Some (i, _) => _ | None => _ end); [done|].
  destruct (fault_domains profile !! at_witness a) as [fd|]; [|done].
  destruct (floor_by_witness floors !! at_witness a) as [f|];
    [destruct (Z.leb_spec (at_sequence a) (wf_sequence f)); [done|]|];
  (destruct (eqb (at_scope a) (er_scope request)) eqn:E1; [|done]; apply eqb_eq in E1;
   destruct (eqb (at_domain a) (er_domain request)) eqn:E2; [|done]; apply eqb_eq in E2;
   destruct (Z.eqb_spec (at_epoch a) (er_epoch request)); [|done];
   destruct (Z.eqb_spec (at_incarnation a) (er_incarnation request)); [|done];
   destruct (Z.eqb_spec (at_token a) (er_token request)); [|done];
   destruct (Z.eqb_spec (at_policy_gen a) (qp_generation profile)); [|done]; simpl;
   destruct (Z.eqb_spec (at_generation a) 0); [done|];
   destruct (Z.ltb_spec (at_valid_until a) (er_as_of request)); [done|];
   destruct (Z.ltb_spec (er_as_of request) (at_issued a)); [done|];
   intros [= <-]; naive_solver).
Qed.

Lemma fault_domains_fold l : ∀ (m : gmap WitnessId FaultDomainId) w f,
  foldl (λ m s, <[ws_witness s := ws_fault s]> m) m l !! w = Some f →
  m !! w = Some f ∨ mkSlot w f ∈ l.
Proof.
  induction l as [|[w0 f0] l IH]; intros m w f; simpl; [auto|].
  intros [H|H]%IH; [|set_solver].
  apply lookup_insert_Some in H as [[<- <-]|[_ ?]]; [set_solver|auto].
Qed.

Lemma fault_domains_slot profile w f :
  fault_domains profile !! w = Some f → mkSlot w f ∈ qp_witnesses profile.
Proof. intros [H|]%fault_domains_fold; [|done]. by rewrite lookup_empty in H. Qed.

(** The witnesses a profile names. *)
Definition profile_witnesses (p : QuorumProfile) : gset WitnessId :=
  list_to_set (ws_witness <$> qp_witnesses p).

Lemma size_profile_witnesses p : Z.of_nat (size (profile_witnesses p)) <= zlen (qp_witnesses p).
Proof.
  unfold profile_witnesses, zlen. rewrite <-(length_fmap ws_witness (qp_witnesses p)).
  generalize (ws_witness <$> qp_witnesses p) as l. intros l. apply Nat2Z.inj_le.
  induction l as [|x l IH]; [by rewrite list_to_set_nil, size_empty|].
  rewrite list_to_set_cons, size_union_alt, size_singleton. etrans; [|apply le_n_S, IH].
  apply le_n_S, subseteq_size. set_solver.
Qed.

(** ** The verdict *)

(** A set of witnesses of the profile, each with a supporting, current and
    fully bound statement in the bundle. *)
Definition proven_by (request : EvidenceRequest) (profile : QuorumProfile)
    (bundle : EvidenceBundle) (floors : list WitnessFloor) (Q : gset WitnessId) : Prop :=
  Q ⊆ profile_witnesses profile ∧
  ∀ w, w ∈ Q → ∃ a, a ∈ eb_attestations bundle ∧ at_witness a = w ∧ at_support a = true ∧
                    binds request profile a ∧ above_floor floors a.

Definition supporters (t : Tally) : gset WitnessId :=
  dom (filter (λ p : WitnessId * bool, p.2 = true) (ty_support t)).

Lemma count_supporters t : count_supporting (ty_support t) = Z.of_nat (size (supporters t)).
Proof. unfold count_supporting, supporters. by rewrite size_dom. Qed.

Lemma run_tally_proven request profile bundle floors :
  proven_by request profile bundle floors (supporters (run_tally request profile bundle floors)).
Proof.
  unfold run_tally. set (sorted := sort_by attestation_less (eb_attestations bundle)).
  set (t := assess_loop _ _ _ _).
  assert (H : ∀ w, w ∈ supporters t → ∃ a, a ∈ eb_attestations bundle ∧ at_witness a = w ∧
    at_support a = true ∧ binds request profile a ∧ above_floor floors a ∧
    ∃ f, fault_domains profile !! w = Some f).
  { intros w Hw. unfold supporters in Hw. apply elem_of_dom in Hw as [b Hb].
    apply map_lookup_filter_Some in Hb as [Hb Htrue]. simpl in Htrue. subst b.
    apply assess_loop_support in Hb as [Hb|(k & a & fault & Ha & <- & Hs & Hj)].
    { simpl in Hb. by rewrite lookup_empty in Hb. }
    apply judge_accepted in Hj as (? & ? & _ & ?).
    apply list_elem_of_lookup_2 in Ha. unfold sorted in Ha.
    rewrite elem_of_sort_by in Ha. exists a. split_and!; eauto. }
  split.
  - intros w Hw. destruct (H w Hw) as (a & _ & _ & _ & _ & _ & f & Hf).
    apply fault_domains_slot in Hf. unfold profile_witnesses.
    apply elem_of_list_to_set, list_elem_of_fmap. by exists (mkSlot w f).
  - intros w Hw. destruct (H w Hw) as (a & ? & ? & ? & ? & ? & _). eauto 10.
Qed.

Definition lease_binds (request : EvidenceRequest) (profile : QuorumProfile) (l : Lease) : Prop :=
  ls_id l ≠ 0 ∧ ls_grant l ≠ 0 ∧ ls_generation l ≠ 0 ∧ ls_policy_gen l = qp_generation profile ∧
  ls_scope l = er_scope request ∧ ls_domain l = er_domain request ∧
  ls_epoch l = er_epoch request ∧ ls_incarnation l = er_incarnation request ∧
  ls_token l = er_token request ∧ ls_valid_from l <= er_as_of request <= ls_valid_until l.

Lemma check_lease_None request profile l :
  check_lease request profile l = None ↔ lease_binds request profile l.
Proof.
  unfold check_lease, lease_binds, is_none.
  destruct (Z.eqb_spec (ls_id l) 0), (Z.eqb_spec (ls_grant l) 0),
    (Z.eqb_spec (ls_generation l) 0); simpl; try naive_solver.
  destruct (Z.eqb_spec (ls_policy_gen l) (qp_generation profile)); simpl; [|naive_solver].
  destruct (eqb (ls_scope l) (er_scope request)) eqn:E1; simpl;
    [apply eqb_eq in E1|apply eqb_neq in E1; naive_solver].
  destruct (eqb (ls_domain l) (er_domain request)) eqn:E2; simpl;
    [apply eqb_eq in E2|apply eqb_neq in E2; naive_solver].
  destruct (Z.eqb_spec (ls_epoch l) (er_epoch request)); simpl; [|naive_solver].
  destruct (Z.eqb_spec (ls_incarnation l) (er_incarnation request)); simpl; [|naive_solver].
  destruct (Z.eqb_spec (ls_token l) (er_token request)); simpl; [|naive_solver].
  destruct (Z.ltb_spec (er_as_of request) (ls_valid_from l)); [naive_solver lia|].
  destruct (Z.ltb_spec (ls_valid_until l) (er_as_of request)); naive_solver lia.
Qed.

Lemma check_lease_not_current request profile l s o r :
  check_lease request profile l = Some (s, o, r) → s ≠ Current.
Proof. unfold check_lease. intros H. repeat case_match; naive_solver. Qed.

Lemma verdict_current profile t supporting domains s st o r :
  verdict_of profile t supporting domains = (s, st, o, r) →
  s = Current ↔ no_flags t ∧ required_witnesses profile <= supporting ∧
                qp_min_domains profile <= domains.
Proof.
  unfold verdict_of, no_flags.
  destruct (ty_conflict t); [naive_solver|]. destruct (ty_invalid t); [naive_solver|].
  destruct (ty_generation t); [naive_solver|].
  destruct (Z.ltb_spec supporting (required_witnesses profile)).
  { destruct (ty_stale t); intros [= <- _ _ _]; (split; [done|]); intros (_ & ? & _); lia. }
  destruct (Z.ltb_spec domains (qp_min_domains profile)).
  { intros [= <- _ _ _]; (split; [done|]); intros (_ & _ & ?); lia. }
  destruct (ty_stale t); [naive_solver|]. destruct (ty_unknown t); naive_solver.
Qed.

Lemma current_iff request profile bundle floors :
  let t := run_tally request profile bundle floors in
  ea_state (assess_evidence request profile bundle floors) = Current ↔
  is_ok (profile_validate profile) = true ∧
  eb_policy bundle ≠ [] ∧ eb_policy bundle = qp_policy profile ∧
  eb_policy_gen bundle = qp_generation profile ∧
  zlen (eb_attestations bundle) <= kMaxAttestationsPerBundle ∧
  (eb_has_lease bundle = true → lease_binds request profile (eb_lease bundle)) ∧
  no_flags t ∧ required_witnesses profile <= Z.of_nat (size (supporters t)) ∧
  qp_min_domains profile <= Z.of_nat (size (ty_domains t)).
Proof.
  cbv zeta. unfold assess_evidence.
  destruct (is_ok (profile_validate profile)); simpl; [|naive_solver].
  destruct (id_empty (eb_policy bundle)) eqn:E0; simpl;
    [apply id_empty_true in E0; naive_solver|apply id_empty_false in E0].
  destruct (eqb (eb_policy bundle) (qp_policy profile)) eqn:E1; simpl;
    [apply eqb_eq in E1|apply eqb_neq in E1; naive_solver].
  destruct (Z.eqb_spec (eb_policy_gen bundle) (qp_generation profile)); simpl; [|naive_solver].
  destruct (Z.ltb_spec kMaxAttestationsPerBundle (zlen (eb_attestations bundle)));
    [simpl; naive_solver lia|].
  rewrite count_supporters. set (t := run_tally request profile bundle floors).
  destruct (verdict_of _ t _ _) as [[[s st] o] r] eqn:Ev. apply verdict_current in Ev.
  destruct (eb_has_lease bundle).
  - rewrite <-check_lease_None.
    destruct (check_lease request profile (eb_lease bundle)) as [[[s' o'] r']|] eqn:El; simpl.
    + apply check_lease_not_current in El. naive_solver.
    + rewrite Ev. naive_solver.
  - simpl. rewrite Ev. naive_solver.
Qed.

(** Required witnesses that any two quorums must share one of. *)
Definition intersecting (p : QuorumProfile) : Prop :=
  match qp_mode p with
  | ThresholdDistinctWitnesses => zlen (qp_witnesses p) < 2 * qp_threshold p
  | _ => True
  end.

Lemma profile_validate_bounds p : is_ok (profile_validate p) = true →
  0 < zlen (qp_witnesses p) <= kMaxWitnessesPerProfile.
Proof.
  unfold profile_validate. pose proof (zlen_nonneg (qp_witnesses p)).
  destruct (id_empty _); [done|]. destruct (is_none _); [done|].
  destruct (Z.eqb_spec (zlen (qp_witnesses p)) 0); [done|].
  destruct (Z.ltb_spec kMaxWitnessesPerProfile (zlen (qp_witnesses p))); [done|]. lia.
Qed.

Lemma intersecting_required p : is_ok (profile_validate p) = true → intersecting p →
  zlen (qp_witnesses p) < 2 * required_witnesses p.
Proof.
  intros Hb%profile_validate_bounds. unfold intersecting, required_witnesses, u32.
  unfold kMaxWitnessesPerProfile in Hb. rewrite Z.mod_small by lia.
  destruct (qp_mode p); intros; [|done|lia].
  destruct (Z.eqb_spec (zlen (qp_witnesses p)) 0); [lia|].
  pose proof (Z.div_mod (zlen (qp_witnesses p)) 2).
  pose proof (Z.mod_pos_bound (zlen (qp_witnesses p)) 2).
  rewrite Z.mod_small by lia. lia.
Qed.

(** Two sets of at least the required size share a witness. *)
Lemma quorums_meet (p : QuorumProfile) (Q R : gset WitnessId) :
  is_ok (profile_validate p) = true → intersecting p →
  Q ⊆ profile_witnesses p → R ⊆ profile_witnesses p →
  required_witnesses p <= Z.of_nat (size Q) → required_witnesses p <= Z.of_nat (size R) →
  ∃ w, w ∈ Q ∧ w ∈ R.
Proof.
  intros Hok Hi HQ HR SQ SR. pose proof (intersecting_required p Hok Hi) as Hn.
  pose proof (size_profile_witnesses p) as Hw.
  destruct (decide (Q ∩ R = ∅)) as [E|E].
  - exfalso. assert (Hd : Q ## R) by set_solver.
    pose proof (size_union Q R Hd) as Hu.
    assert (Hs : (size (Q ∪ R) <= size (profile_witnesses p))%nat)
      by (apply subseteq_size; set_solver). lia.
  - apply set_choose_L in E as [w Hw']. exists w. set_solver.
Qed.

(** Two current assessments share a witness. *)
Lemma common_witness (profile : QuorumProfile) (r1 r2 : EvidenceRequest)
    (b1 b2 : EvidenceBundle) (f1 f2 : list WitnessFloor) :
  intersecting profile →
  ea_state (assess_evidence r1 profile b1 f1) = Current →
  ea_state (assess_evidence r2 profile b2 f2) = Current →
  ∃ a1 a2, a1 ∈ eb_attestations b1 ∧ a2 ∈ eb_attestations b2 ∧
    at_witness a1 = at_witness a2 ∧ at_witness a1 ∈ profile_witnesses profile ∧
    at_support a1 = true ∧ at_support a2 = true ∧
    binds r1 profile a1 ∧ binds r2 profile a2.
Proof.
  rewrite !current_iff. intros Hi (H1 & _ & _ & _ & _ & _ & _ & S1 & _)
    (_ & _ & _ & _ & _ & _ & _ & S2 & _).
  destruct (run_tally_proven r1 profile b1 f1) as [Q1 P1].
  destruct (run_tally_proven r2 profile b2 f2) as [Q2 P2].
  destruct (quorums_meet profile _ _ H1 Hi Q1 Q2 S1 S2) as (w & W1 & W2).
  destruct (P1 w W1) as (a1 & ? & <- & ? & ? & _).
  destruct (P2 _ W2) as (a2 & ? & ? & ? & ? & _).
  exists a1, a2. split_and!; try (congruence || done). by apply Q1.
Qed.

Module Quorum.

(** Evidence is reported current only when a quorum proves it: the profile
    is valid, policy and generation match, the lease (if any) binds, at
    least the required number of distinct witnesses of the profile each
    made a supporting statement that matches the subject in every field,
    is valid now and is above the replay floor, and no statement that the
    verdict rests on was rejected or dissenting. *)
Theorem current_sound (request : EvidenceRequest) (profile : QuorumProfile)
    (bundle : EvidenceBundle) (floors : list WitnessFloor) :
  ea_state (assess_evidence request profile bundle floors) = Current →
  is_ok (profile_validate profile) = true ∧ eb_policy bundle = qp_policy profile ∧
  eb_policy_gen bundle = qp_generation profile ∧
  (eb_has_lease bundle = true → lease_binds request profile (eb_lease bundle)) ∧
  (∃ Q, proven_by request profile bundle floors Q ∧
        required_witnesses profile <= Z.of_nat (size Q)) ∧
  (∀ k a, sort_by attestation_less (eb_attestations bundle) !! k = Some a →
     clean a (judge request profile (fault_domains profile) (floor_by_witness floors)
       (latest_loop 0 (sort_by attestation_less (eb_attestations bundle)) ∅) k a)).
Proof.
  rewrite current_iff. intros (H1 & _ & H3 & H4 & _ & H6 & Hf & Hr & _).
  split; [done|]. split; [done|]. split; [done|]. split; [done|]. split.
  - exists (supporters (run_tally request profile bundle floors)).
    split; [apply run_tally_proven|done].
  - intros k a Ha. unfold run_tally in Hf. apply assess_loop_flags in Hf as [_ Hf].
    by apply (Hf k a).
Qed.

(** Quorum intersection: two current assessments under one profile, of
    whatever subjects and from whatever bundles, rest on a common witness
    that made a supporting statement for each of them.  A witness that
    never supports two incarnations in one epoch therefore excludes two
    current assessments for them. *)
Theorem quorum_intersection (profile : QuorumProfile) (r1 r2 : EvidenceRequest)
    (b1 b2 : EvidenceBundle) (f1 f2 : list WitnessFloor) :
  intersecting profile →
  ea_state (assess_evidence r1 profile b1 f1) = Current →
  ea_state (assess_evidence r2 profile b2 f2) = Current →
  ∃ a1 a2, a1 ∈ eb_attestations b1 ∧ a2 ∈ eb_attestations b2 ∧
    at_witness a1 = at_witness a2 ∧ at_support a1 = true ∧ at_support a2 = true ∧
    binds r1 profile a1 ∧ binds r2 profile a2.
Proof.
  intros Hi H1 H2. destruct (common_witness profile r1 r2 b1 b2 f1 f2 Hi H1 H2)
    as (a1 & a2 & ? & ? & ? & _ & ?). by exists a1, a2.
Qed.

(** The verdict is a function of the statement set: reordering a bundle
    whose statements differ in the fields they are ordered by changes
    nothing in the assessment. *)
Theorem order_independent (request : EvidenceRequest) (profile : QuorumProfile)
    (bundle : EvidenceBundle) (l : list WitnessAttestation) (floors : list WitnessFloor) :
  NoDup (attestation_key <$> eb_attestations bundle) → l ≡ₚ eb_attestations bundle →
  assess_evidence request profile
    (mkBundle (eb_policy bundle) (eb_policy_gen bundle) (eb_as_of bundle) (eb_fence_gen bundle) l
       (eb_has_lease bundle) (eb_lease bundle)) floors =
  assess_evidence request profile bundle floors.
Proof.
  intros Hnd Hp.
  assert (Hs : sort_by attestation_less l = sort_by attestation_less (eb_attestations bundle)).
  { unfold attestation_less. symmetry. by apply sort_by_key_unique. }
  assert (Hlen : zlen l = zlen (eb_attestations bundle)).
  { unfold zlen. by rewrite Hp. }
  assert (Ht : ∀ b, b = mkBundle (eb_policy bundle) (eb_policy_gen bundle) (eb_as_of bundle)
                          (eb_fence_gen bundle) l (eb_has_lease bundle) (eb_lease bundle) →
    run_tally request profile b floors = run_tally request profile bundle floors).
  { intros b ->. unfold run_tally. simpl. by rewrite Hs. }
  unfold assess_evidence. rewrite (Ht _ eq_refl). simpl. by rewrite Hlen.
Qed.

(** ** Witnesses on a profile of three *)

Definition profile3 : QuorumProfile :=
  mkProfile (str "p") 1
    [mkSlot (str "w1") (str "f1"); mkSlot (str "w2") (str "f2"); mkSlot (str "w3") (str "f3")]
    MajorityDistinctWitnesses 0 2 1000.
Definition request3 : EvidenceRequest := mkEvidenceRequest (str "d") [] 4 7 9 50.
Definition statement (w : string) (s : Sequence) : WitnessAttestation :=
  mkAttestation (str w) (str "d") [] 4 7 9 1 1 40 60 s true wallclock0.
Definition no_lease : Lease := mkLease 0 0 [] [] 0 0 0 0 0 0 0.
Definition bundle_of (l : list WitnessAttestation) : EvidenceBundle :=
  mkBundle (str "p") 1 50 1 l false no_lease.

Definition bundle3 : EvidenceBundle := bundle_of [statement "w3" 2; statement "w1" 5].

Lemma bundle3_current : ea_state (assess_evidence request3 profile3 bundle3 []) = Current.
Proof. vm_compute. reflexivity. Qed.

Lemma current_sound_witness : required_witnesses profile3 = 2 ∧
  is_ok (profile_validate profile3) = true.
Proof.
  split; [vm_compute; reflexivity|].
  exact (proj1 (current_sound request3 profile3 bundle3 [] bundle3_current)).
Defined.

Lemma quorum_intersection_witness : ∃ a1 a2 : WitnessAttestation,
  a1 ∈ eb_attestations bundle3 ∧ a2 ∈ eb_attestations bundle3 ∧
  at_witness a1 = at_witness a2 ∧ at_support a1 = true ∧ at_support a2 = true ∧
  binds request3 profile3 a1 ∧ binds request3 profile3 a2.
Proof.
  exact (quorum_intersection profile3 request3 request3 bundle3 bundle3 [] [] I
           bundle3_current bundle3_current).
Defined.

Lemma order_independent_witness :
  assess_evidence request3 profile3 (bundle_of [statement "w1" 5; statement "w3" 2]) [] =
  assess_evidence request3 profile3 bundle3 [].
Proof.
  refine (order_independent request3 profile3 bundle3 [statement "w1" 5; statement "w3" 2] [] _ _).
  - apply (bool_decide_unpack _). vm_compute. exact I.
  - apply perm_swap.
Defined.
End Quorum.
