(* ===== verification/Arbiter.v ===== *)
(** * Authority decisions

    Models [include/sbf/authority.hpp], [src/authority.cpp] and the decision
    and revocation parts of [include/sbf/arbiter.hpp] and [src/arbiter.cpp].
    The view's three pointers are options. *)
From S2P Require Import Prelude Order SortedVec Status Ids Text Digest Canonical Scope.
From S2P Require Import Fence Lineage Evidence.
Open Scope Z_scope.

Inductive AuthorityMode : Set :=
  | Observation | EligibilityProbe | RecommendationRequest | SharedRead | ExclusiveMutation.

Inductive AuthorityVerdict : Set :=
  | Authoritative | VFenced | ObserveOnly | Eligible | Recommended | Acknowledged | Applied
  | VUnknown | VStale | VConflict | VInvalid | VUnsupported | VRefused | VInterrupted.

#[export] Instance authority_mode_eq_dec : EqDecision AuthorityMode.
Proof. solve_decision. Defined.
#[export] Instance authority_verdict_eq_dec : EqDecision AuthorityVerdict.
Proof. solve_decision. Defined.

Definition mode_code (m : AuthorityMode) : Z :=
  match m with
  | Observation => 0 | EligibilityProbe => 1 | RecommendationRequest => 2 | SharedRead => 3
  | ExclusiveMutation => 4
  end.

Definition mode_of_code (z : Z) : option AuthorityMode :=
  match z with
  | 0 => Some Observation | 1 => Some EligibilityProbe | 2 => Some RecommendationRequest
  | 3 => Some SharedRead | 4 => Some ExclusiveMutation | _ => None
  end.

Definition verdict_code (v : AuthorityVerdict) : Z :=
  match v with
  | Authoritative => 0 | VFenced => 1 | ObserveOnly => 2 | Eligible => 3 | Recommended => 4
  | Acknowledged => 5 | Applied => 6 | VUnknown => 7 | VStale => 8 | VConflict => 9
  | VInvalid => 10 | VUnsupported => 11 | VRefused => 12 | VInterrupted => 13
  end.

Definition verdict_of_code (z : Z) : option AuthorityVerdict :=
  match z with
  | 0 => Some Authoritative | 1 => Some VFenced | 2 => Some ObserveOnly | 3 => Some Eligible
  | 4 => Some Recommended | 5 => Some Acknowledged | 6 => Some Applied | 7 => Some VUnknown
  | 8 => Some VStale | 9 => Some VConflict | 10 => Some VInvalid | 11 => Some VUnsupported
  | 12 => Some VRefused | 13 => Some VInterrupted | _ => None
  end.

Definition verdict_to_string (v : AuthorityVerdict) : bytes :=
  str match v with
      | Authoritative => "AUTHORITATIVE" | VFenced => "FENCED" | ObserveOnly => "OBSERVE_ONLY"
      | Eligible => "ELIGIBLE" | Recommended => "RECOMMENDED" | Acknowledged => "ACKNOWLEDGED"
      | Applied => "APPLIED" | VUnknown => "UNKNOWN" | VStale => "STALE"
      | VConflict => "CONFLICT" | VInvalid => "INVALID" | VUnsupported => "UNSUPPORTED"
      | VRefused => "REFUSED" | VInterrupted => "INTERRUPTED"
      end.

Definition verdict_carries_authority (v : AuthorityVerdict) : bool :=
  bool_decide (v = Authoritative).
Definition verdict_permits_mutation (v : AuthorityVerdict) : bool :=
  bool_decide (v = Authoritative).

Record AuthorityVector := mkVector {
  av_domain : DomainId;
  av_scope : Digest256;
  av_epoch : Epoch;
  av_incarnation : IncarnationId;
  av_token : FenceToken;
  av_grant : GrantId;
  av_sequence : Sequence;
  av_policy_gen : Generation;
  av_evidence_gen : Generation;
  av_fence_gen : Generation
}.

Record AuthorityRequest := mkRequest {
  rq_claim : ClaimId;
  rq_domain : DomainId;
  rq_scope : Scope;
  rq_epoch : Epoch;
  rq_incarnation : IncarnationId;
  rq_boot : BootId;
  rq_token : FenceToken;
  rq_mode : AuthorityMode;
  rq_attempt : Sequence;
  rq_evidence : EvidenceBundle;
  rq_requested_at : WallClockReading
}.

Record CompetingClaim := mkCompeting {
  cc_claim : ClaimId;
  cc_domain : DomainId;
  cc_scope : Scope;
  cc_epoch : Epoch;
  cc_incarnation : IncarnationId;
  cc_token : FenceToken;
  cc_grant : GrantId;
  cc_mode : AuthorityMode;
  cc_evidence : EvidenceState;
  cc_active : bool
}.

Record AuthorityDecision := mkDecision {
  ad_verdict : AuthorityVerdict;
  ad_status : Status;
  ad_explanation : Explanation;
  ad_vector : AuthorityVector;
  ad_claim : ClaimId;
  ad_scope : Scope;
  ad_valid_from : Step;
  ad_valid_until : Step;
  ad_must_fence : list ClaimId;
  ad_fenced_extents : list ExtentId;
  ad_sequence : Sequence;
  ad_revocable : bool
}.

Record RevocationCheck := mkRevocation {
  rv_revoked : bool; rv_reason : Reason; rv_explanation : Explanation }.

Definition is_authoritative (d : AuthorityDecision) : bool :=
  verdict_carries_authority (ad_verdict d).

Definition encode_vector (v : AuthorityVector) : bytes :=
  w_text (av_domain v) ++ w_digest (av_scope v) ++ w_counter (av_epoch v) ++
  w_counter (av_incarnation v) ++ w_counter (av_token v) ++ w_counter (av_grant v) ++
  w_counter (av_sequence v) ++ w_counter (av_policy_gen v) ++ w_counter (av_evidence_gen v) ++
  w_counter (av_fence_gen v).

Definition vector_digest (v : AuthorityVector) : Digest256 := Digest256_of (encode_vector v).

Definition decision_bytes (d : AuthorityDecision) : bytes :=
  w_u16 (verdict_code (ad_verdict d)) ++ w_outcome (outcome (ad_status d)) ++
  w_reason (reason (ad_status d)) ++ w_u64 (aux (ad_status d)) ++ encode_vector (ad_vector d) ++
  w_counter (ad_sequence d) ++ w_boolean (ad_revocable d).

Definition decision_digest (d : AuthorityDecision) : Digest256 :=
  Digest256_of (decision_bytes d).

Definition describe_vector (v : AuthorityVector) : bytes :=
  str "domain=" ++ av_domain v ++ str " scope=" ++ take 16 (Digest256_hex (av_scope v)) ++
  str " epoch=" ++ hex_u64 (av_epoch v) ++ str " incarnation=" ++ hex_u64 (av_incarnation v) ++
  str " token=" ++ hex_u64 (av_token v) ++ str " grant=" ++ hex_u64 (av_grant v).

Definition describe (d : AuthorityDecision) : bytes :=
  describe_vector (ad_vector d) ++ str " verdict=" ++ verdict_to_string (ad_verdict d) ++
  str " status=" ++ status_to_string (ad_status d).

(** ** The policy and the view *)

Record ArbiterPolicy := mkPolicy {
  ap_policy : PolicyId;
  ap_generation : Generation;
  ap_quorum : QuorumProfile;
  ap_require_quorum : bool;
  ap_require_lease : bool;
  ap_allow_non_overlapping : bool;
  ap_fence_lower : bool;
  ap_equal_fatal : bool;
  ap_lease_horizon : Z
}.

Record ArbiterView := mkView {
  vw_policy : option ArbiterPolicy;
  vw_fences : option FenceTable;
  vw_lineage : option LineageTable;
  vw_now : Step;
  vw_registry_gen : Generation;
  vw_domain_gen : Generation;
  vw_competing : list CompetingClaim;
  vw_floors : list WitnessFloor
}.

#[export] Instance arbiter_policy_eq_dec : EqDecision ArbiterPolicy.
Proof. solve_decision. Defined.

Definition policy_validate (p : ArbiterPolicy) : Status :=
  if id_empty (ap_policy p) then fail0 Outcome.Invalid Reason.PolicyNotRegistered
  else if is_none (ap_generation p) then fail0 Outcome.Invalid Reason.ValueOutOfRange
  else if (ap_lease_horizon p =? 0) || (kMaxLeaseHorizonSteps <? ap_lease_horizon p)
  then mkStatus Outcome.Invalid Reason.ValueOutOfRange (ap_lease_horizon p)
  else profile_validate (ap_quorum p).

(** [claim_precedes]: the canonical preference order of the planner. *)
Definition claim_precedes (a b : AuthorityRequest) : bool :=
  if negb (rq_epoch a =? rq_epoch b) then rq_epoch b <? rq_epoch a
  else if negb (rq_token a =? rq_token b) then rq_token b <? rq_token a
  else if negb (eqb (rq_domain a) (rq_domain b)) then ltb (rq_domain a) (rq_domain b)
  else ltb (rq_claim a) (rq_claim b).

Definition is_exclusive (m : AuthorityMode) : bool := bool_decide (m = ExclusiveMutation).

Definition mutually_exclusive (a b : AuthorityRequest) : bool :=
  if negb (is_exclusive (rq_mode a)) || negb (is_exclusive (rq_mode b)) then false
  else overlaps (rq_scope a) (rq_scope b).

(** ** [decide_authority] *)

(** [fail(decision, verdict, outcome, reason, aux)]. *)
Definition fail (d : AuthorityDecision) (v : AuthorityVerdict) (o : Outcome) (r : Reason)
    (aux_ : Z) : AuthorityDecision :=
  mkDecision v (mkStatus o r aux_) (expl_add (ad_explanation d) r) (ad_vector d) (ad_claim d)
    (ad_scope d) (ad_valid_from d) (ad_valid_until d) (ad_must_fence d) (ad_fenced_extents d)
    (ad_sequence d) true.

(** Assigning [verdict] and [status] and adding one code. *)
Definition conclude (d : AuthorityDecision) (v : AuthorityVerdict) (st : Status) (r : Reason)
  : AuthorityDecision :=
  mkDecision v st (expl_add (ad_explanation d) r) (ad_vector d) (ad_claim d) (ad_scope d)
    (ad_valid_from d) (ad_valid_until d) (ad_must_fence d) (ad_fenced_extents d)
    (ad_sequence d) (ad_revocable d).

(** [decision.must_fence.push_back(claim)]. *)
Definition push_must_fence (d : AuthorityDecision) (c : ClaimId) : AuthorityDecision :=
  mkDecision (ad_verdict d) (ad_status d) (ad_explanation d) (ad_vector d) (ad_claim d)
    (ad_scope d) (ad_valid_from d) (ad_valid_until d) (ad_must_fence d ++ [c])
    (ad_fenced_extents d) (ad_sequence d) (ad_revocable d).

Definition set_fenced_extents (d : AuthorityDecision) (l : list ExtentId) : AuthorityDecision :=
  mkDecision (ad_verdict d) (ad_status d) (ad_explanation d) (ad_vector d) (ad_claim d)
    (ad_scope d) (ad_valid_from d) (ad_valid_until d) (ad_must_fence d) l
    (ad_sequence d) (ad_revocable d).

Definition set_evidence_gen (d : AuthorityDecision) (g : Generation) : AuthorityDecision :=
  let v := ad_vector d in
  mkDecision (ad_verdict d) (ad_status d) (ad_explanation d)
    (mkVector (av_domain v) (av_scope v) (av_epoch v) (av_incarnation v) (av_token v)
       (av_grant v) (av_sequence v) (av_policy_gen v) g (av_fence_gen v))
    (ad_claim d) (ad_scope d) (ad_valid_from d) (ad_valid_until d) (ad_must_fence d)
    (ad_fenced_extents d) (ad_sequence d) (ad_revocable d).

Definition initial_decision (request : AuthorityRequest) (view : ArbiterView)
  : AuthorityDecision :=
  mkDecision VUnknown status_ok no_explanation
    (mkVector (rq_domain request) (scope_digest (rq_scope request)) (rq_epoch request)
       (rq_incarnation request) (rq_token request) 0 1
       (match vw_policy view with Some p => ap_generation p | None => 0 end) 0
       (match vw_fences view with Some f => ft_generation f | None => 0 end))
    (rq_claim request) (rq_scope request) 0 0 [] [] (rq_attempt request) true.

(** The verdict on evidence that is not current. *)
Definition evidence_verdict (d : AuthorityDecision) (mode : AuthorityMode)
    (a : EvidenceAssessment) : option AuthorityDecision :=
  match ea_state a with
  | EvConflict => Some (fail d VConflict Outcome.Conflict (ea_reason a) (ea_supporting a))
  | EvInvalid => Some (fail d VInvalid Outcome.Invalid (ea_reason a) 0)
  | EvUnsupported => Some (fail d VUnsupported Outcome.Unsupported (ea_reason a) 0)
  | EvStale => Some (fail d VStale Outcome.Stale (ea_reason a) (ea_rejected a))
  | EvUnknown =>
      Some match mode with
           | EligibilityProbe =>
               conclude (fail d VStale Outcome.Unknown (ea_reason a) 0) Eligible
                 (mkStatus Outcome.Unknown Reason.EligibilityNotAuthorization (ea_supporting a))
                 Reason.EligibilityNotAuthorization
           | RecommendationRequest =>
               conclude d Recommended (fail0 Outcome.Unknown Reason.RecommendationNotAuthority)
                 Reason.RecommendationNotAuthority
           | _ => fail d VUnknown Outcome.Unknown (ea_reason a) (ea_supporting a)
           end
  | Current => None
  end.

(** The first loop over the overlapping claims: [inl] when it returned,
    [inr] the decision so far when it fell through. *)
Fixpoint compete (request : AuthorityRequest) (policy : ArbiterPolicy) (l : list CompetingClaim)
    (d : AuthorityDecision) : AuthorityDecision + AuthorityDecision :=
  match l with
  | [] => inr d
  | c :: r =>
      if negb (is_exclusive (cc_mode c)) then compete request policy r d
      else if rq_epoch request <? cc_epoch c then
        inl (if bool_decide (cc_evidence c = Current)
             then fail d VConflict Outcome.Conflict Reason.HigherEpochClaimant (cc_epoch c)
             else fail d VUnknown Outcome.Unknown Reason.QuorumUnreachable (cc_epoch c))
      else if (cc_epoch c =? rq_epoch request) &&
              negb (cc_incarnation c =? rq_incarnation request) && ap_equal_fatal policy then
        let d := push_must_fence d (cc_claim c) in
        inl (if bool_decide (cc_evidence c = Current)
             then push_must_fence
                    (fail d VConflict Outcome.Conflict Reason.EqualEpochConflict (cc_epoch c))
                    (rq_claim request)
             else fail d VUnknown Outcome.Unknown Reason.EqualEpochConflict (cc_epoch c))
      else if (cc_epoch c <? rq_epoch request) && ap_fence_lower policy then
        let d := push_must_fence d (cc_claim c) in
        if cc_active c
        then inl (fail d VConflict Outcome.Conflict Reason.CompensatingFenceRequired (cc_epoch c))
        else compete request policy r d
      else compete request policy r d
  end.

(** The second loop: the same incarnation holding another claim or token. *)
Fixpoint compete_same (request : AuthorityRequest) (l : list CompetingClaim)
    (d : AuthorityDecision) : option AuthorityDecision :=
  match l with
  | [] => None
  | c :: r =>
      if negb (is_exclusive (cc_mode c)) then compete_same request r d
      else if (cc_epoch c =? rq_epoch request) && (cc_incarnation c =? rq_incarnation request) then
        if negb (cc_token c =? rq_token request)
        then Some (fail d VConflict Outcome.Conflict Reason.StoreOwnerMismatch (cc_token c))
        else if negb (eqb (cc_claim c) (rq_claim request))
        then Some (fail d VRefused Outcome.Refused Reason.OverlappingExclusiveClaim (cc_token c))
        else compete_same request r d
      else compete_same request r d
  end.

Definition overlapping_claims (request : AuthorityRequest) (view : ArbiterView)
  : list CompetingClaim :=
  sort_by (λ a b, ltb (cc_claim a) (cc_claim b))
    (List.filter (λ c, negb (eqb (cc_claim c) (rq_claim request)) &&
                       overlaps (rq_scope request) (cc_scope c)) (vw_competing view)).

(** The granted decision. *)
Definition authorize (d : AuthorityDecision) (policy : ArbiterPolicy) (now : Step)
    (a : EvidenceAssessment) : AuthorityDecision :=
  mkDecision Authoritative status_ok (ad_explanation d) (ad_vector d) (ad_claim d) (ad_scope d)
    now
    (if ea_lease_present a then ea_lease_until a else u64 (now + qp_horizon (ap_quorum policy)))
    (unique_adj (sort_by ltb (ad_must_fence d))) (ad_fenced_extents d) (ad_sequence d) true.

(** From the competing claims on. *)
Definition decide_competing (request : AuthorityRequest) (view : ArbiterView)
    (policy : ArbiterPolicy) (a : EvidenceAssessment) (d : AuthorityDecision)
  : AuthorityDecision :=
  let overlapping := overlapping_claims request view in
  match compete request policy overlapping d with
  | inl d => d
  | inr d =>
      match compete_same request overlapping d with
      | Some d => d
      | None =>
          if negb (zlen overlapping =? 0) && negb (ap_allow_non_overlapping policy)
          then fail d VConflict Outcome.Conflict Reason.OverlappingExclusiveClaim
                 (zlen overlapping)
          else authorize d policy (vw_now view) a
      end
  end.

(** From the evidence on. *)
Definition decide_evidence (request : AuthorityRequest) (view : ArbiterView)
    (policy : ArbiterPolicy) (d : AuthorityDecision) : AuthorityDecision :=
  let er := mkEvidenceRequest (rq_domain request) (scope_digest (rq_scope request))
              (rq_epoch request) (rq_incarnation request) (rq_token request) (vw_now view) in
  let a := assess_evidence er (ap_quorum policy) (rq_evidence request) (vw_floors view) in
  let d := set_evidence_gen d (ea_floor_gen a) in
  match evidence_verdict d (rq_mode request) a with
  | Some d => d
  | None =>
      if ap_require_lease policy && is_exclusive (rq_mode request) && negb (ea_lease_present a)
      then fail d VRefused Outcome.Refused Reason.LeaseMissing 0
      else
        match rq_mode request with
        | EligibilityProbe =>
            conclude d Eligible (fail0 Outcome.Ok Reason.EligibilityNotAuthorization)
              Reason.EligibilityNotAuthorization
        | RecommendationRequest | SharedRead =>
            conclude d Recommended (fail0 Outcome.Ok Reason.RecommendationNotAuthority)
              Reason.RecommendationNotAuthority
        | _ => decide_competing request view policy a d
        end
  end.

(** From the mode gate on: epoch, lifecycle and fence-token floor. *)
Definition decide_lifecycle (request : AuthorityRequest) (view : ArbiterView)
    (policy : ArbiterPolicy) (fences : FenceTable) (lineage : LineageTable)
    (d : AuthorityDecision) : AuthorityDecision :=
  if bool_decide (rq_mode request = Observation)
  then conclude (fail d ObserveOnly Outcome.Ok Reason.ObservationNotAuthority 0) ObserveOnly
         status_ok Reason.ObservationNotAuthority
  else
    let highest := max_epoch lineage (rq_domain request) in
    if rq_epoch request <? highest
    then fail d VStale Outcome.Stale Reason.StaleEpoch highest
    else if incarnation_fenced fences (rq_incarnation request)
    then fail d VFenced Outcome.Fenced Reason.IncarnationFenced (rq_incarnation request)
    else if epoch_fenced fences (rq_domain request) (rq_epoch request)
    then fail d VFenced Outcome.Fenced Reason.EpochFenced (rq_epoch request)
    else
      match List.filter (λ e, rq_token request <? high_water fences e) (rq_scope request) with
      | [] => decide_evidence request view policy d
      | fenced =>
          set_fenced_extents
            (fail (set_fenced_extents d fenced) VFenced Outcome.Fenced
               Reason.TokenFloorRejected (zlen fenced))
            (sort_by ltb fenced)
      end.

Definition decide_authority (request : AuthorityRequest) (view : ArbiterView)
  : AuthorityDecision :=
  let d := initial_decision request view in
  if id_empty (rq_claim request)
  then fail d VInvalid Outcome.Invalid Reason.ClaimNotRegistered 0
  else if id_empty (rq_domain request)
  then fail d VInvalid Outcome.Invalid Reason.DomainNotRegistered 0
  else if scope_empty (rq_scope request)
  then fail d VInvalid Outcome.Invalid Reason.EmptyExtentSet 0
  else if is_none (rq_epoch request) || is_none (rq_incarnation request)
  then fail d VInvalid Outcome.Invalid Reason.ValueOutOfRange 0
  else if is_none (rq_token request)
  then fail d VInvalid Outcome.Invalid Reason.FenceTokenMissing 0
  else
    match vw_policy view, vw_fences view, vw_lineage view with
    | Some policy, Some fences, Some lineage =>
        let st := policy_validate policy in
        if negb (is_ok st)
        then conclude d VUnsupported (mkStatus Outcome.Unsupported (reason st) (aux st)) (reason st)
        else if negb (eqb (eb_policy (rq_evidence request)) (ap_policy policy))
        then fail d VStale Outcome.Stale Reason.PolicyGenerationMismatch 0
        else if negb (eb_policy_gen (rq_evidence request) =? ap_generation policy)
        then fail d VStale Outcome.Stale Reason.PolicyGenerationMismatch 0
        else if negb (id_empty (ap_policy policy)) && id_empty (eb_policy (rq_evidence request))
        then fail d VInvalid Outcome.Invalid Reason.PolicyNotRegistered 0
        else decide_lifecycle request view policy fences lineage d
    | _, _, _ => fail d VUnknown Outcome.Unknown Reason.DependencyUnreachable 0
    end.

(** ** [check_revocation] *)

Definition revoked (r : Reason) : RevocationCheck :=
  mkRevocation true r (expl_add no_explanation r).

(** A competing exclusive claim of another domain, at a higher epoch with
    current evidence. *)
Definition supersedes (d : AuthorityDecision) (c : CompetingClaim) : bool :=
  is_exclusive (cc_mode c) && (av_epoch (ad_vector d) <? cc_epoch c) &&
  bool_decide (cc_evidence c = Current) && negb (eqb (cc_domain c) (av_domain (ad_vector d))).

Definition check_revocation (d : AuthorityDecision) (view : ArbiterView) : RevocationCheck :=
  if negb (is_authoritative d)
  then revoked (if bool_decide (reason (ad_status d) = Reason.None) then Reason.PlanInvalid
                else reason (ad_status d))
  else
    match vw_fences view, vw_lineage view, vw_policy view with
    | Some fences, Some lineage, Some policy =>
        let v := ad_vector d in
        if negb (ap_generation policy =? av_policy_gen v)
        then revoked Reason.PolicyGenerationMismatch
        else if negb (ft_generation fences =? av_fence_gen v) then revoked Reason.ExtentFenced
        else if av_epoch v <? max_epoch lineage (av_domain v) then revoked Reason.StaleEpoch
        else if incarnation_fenced fences (av_incarnation v)
        then revoked Reason.IncarnationFenced
        else if ad_valid_until d <? vw_now view then revoked Reason.LeaseExpired
        else if existsb (supersedes d) (vw_competing view)
        then mkRevocation true Reason.HigherEpochClaimant
               (if negb (zlen (lt_grants lineage) =? 0)
                then expl_add no_explanation Reason.HigherEpochClaimant else no_explanation)
        else mkRevocation false Reason.None no_explanation
    | _, _, _ => revoked Reason.DependencyUnreachable
    end.

#[global] Arguments vector_digest : simpl never.
#[global] Arguments decision_digest : simpl never.

(** ** Competing claims *)

(** What an exclusive competitor must look like for the claim to stand. *)
Definition yields (request : AuthorityRequest) (policy : ArbiterPolicy) (c : CompetingClaim) : Prop :=
  (cc_epoch c < rq_epoch request ∧ (ap_fence_lower policy = true → cc_active c = false)) ∨
  (cc_epoch c = rq_epoch request ∧ cc_incarnation c ≠ rq_incarnation request ∧
   ap_equal_fatal policy = false).

Lemma compete_inl request policy l : ∀ d d',
  compete request policy l d = inl d' → ad_verdict d' ≠ Authoritative.
Proof.
  induction l as [|c r IH]; intros d d'; simpl; [done|].
  destruct (negb _); [apply IH|]. destruct (_ <? _); [intros [= <-]; by case_bool_decide|].
  destruct (_ && ap_equal_fatal policy); [intros [= <-]; by case_bool_decide|].
  destruct (_ && ap_fence_lower policy); [|apply IH].
  destruct (cc_active c); [by intros [= <-]|apply IH].
Qed.

Lemma compete_inr request policy l : ∀ d d', compete request policy l d = inr d' →
  Forall (λ c, cc_mode c = ExclusiveMutation →
    cc_epoch c <= rq_epoch request ∧
    (cc_epoch c = rq_epoch request → cc_incarnation c ≠ rq_incarnation request →
       ap_equal_fatal policy = false) ∧
    (cc_epoch c < rq_epoch request → ap_fence_lower policy = true → cc_active c = false)) l ∧
  ad_vector d' = ad_vector d ∧ ad_claim d' = ad_claim d ∧ ad_scope d' = ad_scope d ∧
  ad_must_fence d' = ad_must_fence d ++
    (cc_claim <$> List.filter (λ c, is_exclusive (cc_mode c) &&
        (cc_epoch c <? rq_epoch request) && ap_fence_lower policy) l).
Proof.
  induction l as [|c r IH]; intros d d'; simpl.
  { intros [= <-]. rewrite app_nil_r. split; [constructor|done]. }
  unfold is_exclusive. case_bool_decide as Em; simpl.
  2: { intros (? & ? & ? & ? & ?)%IH. split; [by constructor|done]. }
  destruct (Z.ltb_spec (rq_epoch request) (cc_epoch c)); [done|].
  destruct (Z.eqb_spec (cc_epoch c) (rq_epoch request)) as [Ee|Ee]; simpl.
  - destruct (Z.ltb_spec (cc_epoch c) (rq_epoch request)); [lia|]. simpl.
    destruct (Z.eqb_spec (cc_incarnation c) (rq_incarnation request)) as [Ei|Ei]; simpl.
    + intros (? & ? & ? & ? & ?)%IH. split; [|done]. constructor; [|done].
      intros _. split; [lia|]. split; [done|lia].
    + destruct (ap_equal_fatal policy) eqn:Ef; [done|].
      intros (? & ? & ? & ? & ?)%IH. split; [|done]. constructor; [|done].
      intros _. split; [lia|]. split; [done|lia].
  - destruct (Z.ltb_spec (cc_epoch c) (rq_epoch request)); [|lia]. simpl.
    destruct (ap_fence_lower policy) eqn:Ef; simpl.
    + destruct (cc_active c) eqn:Ea; [done|].
      intros (? & ? & ? & ? & E)%IH. simpl in *. rewrite <-app_assoc in E.
      split; [|done]. constructor; [|done]. intros _. split; [lia|]. split; [lia|done].
    + intros (? & ? & ? & ? & ?)%IH. split; [|done]. constructor; [|done].
      intros _. split; [lia|]. split; [lia|done].
Qed.

Lemma compete_same_Some request l d d' :
  compete_same request l d = Some d' → ad_verdict d' ≠ Authoritative.
Proof.
  induction l as [|c r IH]; simpl; [done|]. destruct (negb _); [apply IH|].
  destruct (_ && _); [|apply IH]. destruct (negb _); [by intros [= <-]|].
  destruct (negb _); [by intros [= <-]|apply IH].
Qed.

Lemma compete_same_None request l d : compete_same request l d = None →
  Forall (λ c, cc_mode c = ExclusiveMutation → cc_claim c ≠ rq_claim request →
    cc_epoch c = rq_epoch request → cc_incarnation c ≠ rq_incarnation request) l.
Proof.
  induction l as [|c r IH]; simpl; [constructor|].
  unfold is_exclusive. case_bool_decide as Em; simpl; [|intros ?; constructor; naive_solver].
  destruct (Z.eqb_spec (cc_epoch c) (rq_epoch request)); simpl;
    [|intros ?; constructor; naive_solver].
  destruct (Z.eqb_spec (cc_incarnation c) (rq_incarnation request)); simpl;
    [|intros ?; constructor; naive_solver].
  destruct (negb (cc_token c =? rq_token request)); [done|].
  destruct (eqb (cc_claim c) (rq_claim request)) eqn:E; simpl; [|done].
  apply eqb_eq in E. intros ?. constructor; naive_solver.
Qed.

Lemma elem_of_overlapping request view c : c ∈ overlapping_claims request view ↔
  c ∈ vw_competing view ∧ cc_claim c ≠ rq_claim request ∧
  overlaps (rq_scope request) (cc_scope c) = true.
Proof.
  unfold overlapping_claims. rewrite elem_of_sort_by, elem_of_filter_true, andb_true_iff.
  rewrite negb_true_iff, eqb_neq. done.
Qed.

(** ** When a decision is authoritative *)

Lemma decide_competing_auth request view policy a d :
  ad_verdict (decide_competing request view policy a d) = Authoritative →
  (∀ c, c ∈ vw_competing view → cc_claim c ≠ rq_claim request →
     overlaps (rq_scope request) (cc_scope c) = true → cc_mode c = ExclusiveMutation →
     yields request policy c) ∧
  (ap_allow_non_overlapping policy = false → overlapping_claims request view = []) ∧
  let d' := decide_competing request view policy a d in
  ad_vector d' = ad_vector d ∧ ad_claim d' = ad_claim d ∧ ad_scope d' = ad_scope d ∧
  ad_valid_from d' = vw_now view ∧
  ad_valid_until d' = (if ea_lease_present a then ea_lease_until a
                       else u64 (vw_now view + qp_horizon (ap_quorum policy))).
Proof.
  unfold decide_competing.
  destruct (compete request policy (overlapping_claims request view) d) as [d1|d1] eqn:E1.
  { intros H. by apply compete_inl in E1. }
  destruct (compete_same request (overlapping_claims request view) d1) as [d2|] eqn:E2.
  { intros H. by apply compete_same_Some in E2. }
  apply compete_inr in E1 as (F1 & V1 & V2 & V3 & _). apply compete_same_None in E2.
  destruct (negb (zlen (overlapping_claims request view) =? 0) && _) eqn:E3; [done|].
  intros _. simpl. split; [|split; [|done]].
  - intros c Hc Hne Ho Hm.
    assert (Hin : c ∈ overlapping_claims request view) by by apply elem_of_overlapping.
    rewrite Forall_forall in F1, E2. destruct (F1 c Hin Hm) as (H1 & H2 & H3).
    specialize (E2 c Hin Hm Hne). unfold yields.
    destruct (decide (cc_epoch c = rq_epoch request)); [right; auto|left].
    split; [lia|]. apply H3. lia.
  - intros Ha. rewrite Ha, andb_true_r in E3. apply negb_false_iff, Z.eqb_eq in E3.
    by apply zlen_nil_iff.
Qed.

Definition evidence_request (request : AuthorityRequest) (now : Step) : EvidenceRequest :=
  mkEvidenceRequest (rq_domain request) (scope_digest (rq_scope request)) (rq_epoch request)
    (rq_incarnation request) (rq_token request) now.

(** The assessment the decision rests on. *)
Definition decision_evidence (request : AuthorityRequest) (view : ArbiterView)
    (policy : ArbiterPolicy) : EvidenceAssessment :=
  assess_evidence (evidence_request request (vw_now view)) (ap_quorum policy)
    (rq_evidence request) (vw_floors view).

Lemma evidence_verdict_Some d mode a d' :
  evidence_verdict d mode a = Some d' → ad_verdict d' ≠ Authoritative.
Proof. unfold evidence_verdict. intros H. repeat case_match; naive_solver. Qed.

Lemma decide_evidence_auth request view policy d :
  ad_verdict (decide_evidence request view policy d) = Authoritative →
  let a := decision_evidence request view policy in
  ea_state a = Current ∧ rq_mode request ∈ [Observation; ExclusiveMutation] ∧
  (rq_mode request = ExclusiveMutation → ap_require_lease policy = true →
     ea_lease_present a = true) ∧
  decide_evidence request view policy d =
    decide_competing request view policy a (set_evidence_gen d (ea_floor_gen a)) ∧
  ad_verdict (decide_competing request view policy a (set_evidence_gen d (ea_floor_gen a)))
    = Authoritative.
Proof.
  unfold decide_evidence. fold (evidence_request request (vw_now view)).
  fold (decision_evidence request view policy).
  set (a := decision_evidence request view policy). cbv zeta.
  destruct (evidence_verdict _ _ a) as [d'|] eqn:E.
  { intros H. by apply evidence_verdict_Some in E. }
  assert (Hc : ea_state a = Current).
  { unfold evidence_verdict in E. by destruct (ea_state a). }
  destruct (ap_require_lease policy) eqn:El; simpl.
  - unfold is_exclusive. case_bool_decide as Em; simpl.
    + destruct (ea_lease_present a) eqn:Ep; simpl; [|done]. rewrite Em. set_solver.
    + destruct (rq_mode request) eqn:Emode; try done. set_solver.
  - destruct (rq_mode request) eqn:Emode; try done; set_solver.
Qed.

(** The conditions under which a request is granted exclusive authority. *)
Record authority_proven (request : AuthorityRequest) (view : ArbiterView)
    (policy : ArbiterPolicy) (fences : FenceTable) (lineage : LineageTable) : Prop := {
  ap_view : vw_policy view = Some policy ∧ vw_fences view = Some fences ∧
            vw_lineage view = Some lineage;
  ap_valid : is_ok (policy_validate policy) = true;
  ap_complete : rq_claim request ≠ [] ∧ rq_domain request ≠ [] ∧ rq_scope request ≠ [] ∧
                rq_epoch request ≠ 0 ∧ rq_incarnation request ≠ 0 ∧ rq_token request ≠ 0;
  ap_mode : rq_mode request = ExclusiveMutation;
  ap_bound : eb_policy (rq_evidence request) = ap_policy policy ∧
             eb_policy_gen (rq_evidence request) = ap_generation policy;
  ap_epoch : max_epoch lineage (rq_domain request) <= rq_epoch request;
  ap_live : incarnation_fenced fences (rq_incarnation request) = false ∧
            epoch_fenced fences (rq_domain request) (rq_epoch request) = false;
  ap_floor : ∀ e, e ∈ rq_scope request → high_water fences e <= rq_token request;
  ap_current : ea_state (decision_evidence request view policy) = Current;
  ap_lease : ap_require_lease policy = true →
             ea_lease_present (decision_evidence request view policy) = true;
  ap_yield : ∀ c, c ∈ vw_competing view → cc_claim c ≠ rq_claim request →
     overlaps (rq_scope request) (cc_scope c) = true → cc_mode c = ExclusiveMutation →
     yields request policy c
}.

Lemma filter_nil {A} (f : A → bool) l : List.filter f l = [] → ∀ x, x ∈ l → f x = false.
Proof.
  intros E x Hx. destruct (f x) eqn:Ef; [|done].
  assert (H : x ∈ List.filter f l) by by apply elem_of_filter_true. rewrite E in H. set_solver.
Qed.

Lemma decide_lifecycle_auth request view policy fences lineage d :
  ad_verdict (decide_lifecycle request view policy fences lineage d) = Authoritative →
  rq_mode request ≠ Observation ∧
  max_epoch lineage (rq_domain request) <= rq_epoch request ∧
  incarnation_fenced fences (rq_incarnation request) = false ∧
  epoch_fenced fences (rq_domain request) (rq_epoch request) = false ∧
  (∀ e, e ∈ rq_scope request → high_water fences e <= rq_token request) ∧
  decide_lifecycle request view policy fences lineage d = decide_evidence request view policy d.
Proof.
  unfold decide_lifecycle. case_bool_decide; [done|].
  destruct (Z.ltb_spec (rq_epoch request) (max_epoch lineage (rq_domain request))); [done|].
  destruct (incarnation_fenced _ _); [done|]. destruct (epoch_fenced _ _ _); [done|].
  destruct (List.filter _ _) as [|x l] eqn:E; [|done]. intros _.
  split; [done|]. split; [done|]. split; [done|]. split; [done|]. split; [|done].
  intros e He. pose proof (filter_nil _ _ E e He) as H'. simpl in H'. lia.
Qed.

Lemma decide_auth request view :
  ad_verdict (decide_authority request view) = Authoritative →
  ∃ policy fences lineage, authority_proven request view policy fences lineage ∧
    decide_authority request view =
      decide_competing request view policy (decision_evidence request view policy)
        (set_evidence_gen (initial_decision request view)
           (ea_floor_gen (decision_evidence request view policy))).
Proof.
  unfold decide_authority, is_none.
  destruct (id_empty (rq_claim request)) eqn:E1; [done|]. apply id_empty_false in E1.
  destruct (id_empty (rq_domain request)) eqn:E2; [done|]. apply id_empty_false in E2.
  destruct (scope_empty (rq_scope request)) eqn:E3; [done|]. apply scope_empty_false in E3.
  destruct (Z.eqb_spec (rq_epoch request) 0); [done|].
  destruct (Z.eqb_spec (rq_incarnation request) 0); [done|]. simpl.
  destruct (Z.eqb_spec (rq_token request) 0); [done|].
  destruct (vw_policy view) as [policy|] eqn:Vp; [|done].
  destruct (vw_fences view) as [fences|] eqn:Vf; [|done].
  destruct (vw_lineage view) as [lineage|] eqn:Vl; [|done].
  destruct (is_ok (policy_validate policy)) eqn:Ev; simpl; [|done].
  destruct (eqb (eb_policy _) _) eqn:Ep; simpl; [|done]. apply eqb_eq in Ep.
  destruct (Z.eqb_spec (eb_policy_gen (rq_evidence request)) (ap_generation policy)); simpl; [|done].
  destruct (negb (id_empty (ap_policy policy)) && _); [done|].
  intros H. apply decide_lifecycle_auth in H as Hl. destruct Hl as (Hm & He & Hi & Hf & Hw & E).
  rewrite E in H |- *. apply decide_evidence_auth in H as (Hc & Hmode & Hlease & E' & H).
  apply decide_competing_auth in H as (Hy & _ & _).
  assert (Hx : rq_mode request = ExclusiveMutation) by set_solver.
  exists policy, fences, lineage. split; [|done].
  constructor; auto 10.
Qed.

(** ** Wall-clock readings carry no weight *)

(** The statement with another wall-clock reading. *)
Definition with_clock (f : WitnessAttestation → WallClockReading) (a : WitnessAttestation)
  : WitnessAttestation :=
  mkAttestation (at_witness a) (at_domain a) (at_scope a) (at_epoch a) (at_incarnation a)
    (at_token a) (at_generation a) (at_policy_gen a) (at_issued a) (at_valid_until a)
    (at_sequence a) (at_support a) (f a).

Lemma insert_sorted_map {A B} (lt : A → A → bool) (lt' : B → B → bool) (f : A → B) x l :
  (∀ a b, lt' (f a) (f b) = lt a b) →
  insert_sorted lt' (f x) (f <$> l) = f <$> insert_sorted lt x l.
Proof.
  intros Hf. induction l as [|y l IH]; csimpl; [done|]. rewrite Hf.
  destruct (lt y x); csimpl; congruence.
Qed.

Lemma sort_by_map {A B} (lt : A → A → bool) (lt' : B → B → bool) (f : A → B) l :
  (∀ a b, lt' (f a) (f b) = lt a b) → sort_by lt' (f <$> l) = f <$> sort_by lt l.
Proof.
  intros Hf. induction l as [|x l IH]; csimpl; [done|]. rewrite IH. by apply insert_sorted_map.
Qed.

Lemma latest_loop_clock f l : ∀ i m, latest_loop i (with_clock f <$> l) m = latest_loop i l m.
Proof. induction l as [|a l IH]; intros i m; csimpl; [done|]. apply IH. Qed.

Lemma assess_loop_clock f J l : (∀ i a, J i (with_clock f a) = J i a) → ∀ i t,
  assess_loop J i (with_clock f <$> l) t = assess_loop J i l t.
Proof.
  intros HJ. induction l as [|a l IH]; intros i t; csimpl; [done|]. by rewrite IH, HJ.
Qed.

Definition bundle_with_clock (f : WitnessAttestation → WallClockReading) (b : EvidenceBundle)
  : EvidenceBundle :=
  mkBundle (eb_policy b) (eb_policy_gen b) (eb_as_of b) (eb_fence_gen b)
    (with_clock f <$> eb_attestations b) (eb_has_lease b) (eb_lease b).

Lemma assess_clock request profile bundle floors f :
  assess_evidence request profile (bundle_with_clock f bundle) floors =
  assess_evidence request profile bundle floors.
Proof.
  assert (Ht : run_tally request profile (bundle_with_clock f bundle) floors =
               run_tally request profile bundle floors).
  { unfold run_tally. simpl. rewrite (sort_by_map attestation_less) by done.
    rewrite latest_loop_clock. by apply assess_loop_clock. }
  unfold assess_evidence. rewrite Ht. simpl. unfold zlen. by rewrite length_fmap.
Qed.

Lemma lease_present_until request profile bundle floors :
  let a := assess_evidence request profile bundle floors in
  ea_state a = Current → ea_lease_present a = true → er_as_of request <= ea_lease_until a.
Proof.
  cbv zeta. intros Hc. pose proof Hc as Hc'. rewrite current_iff in Hc'.
  destruct Hc' as (_ & _ & _ & _ & _ & Hl & _). revert Hc. unfold assess_evidence.
  destruct (negb (is_ok _)); [done|]. destruct (_ || _); [done|].
  destruct (negb (eb_policy_gen bundle =? _)); [done|]. destruct (_ <? _); [done|].
  destruct (eb_has_lease bundle) eqn:El.
  - specialize (Hl eq_refl). rewrite (proj2 (check_lease_None _ _ _) Hl).
    destruct (verdict_of _ _ _ _) as [[[s st] o] r]. simpl. intros _ _.
    destruct Hl as (_ & _ & _ & _ & _ & _ & _ & _ & _ & ? & ?). lia.
  - destruct (verdict_of _ _ _ _) as [[[s st] o] r]. done.
Qed.

Lemma policy_horizon p : is_ok (policy_validate p) = true →
  qp_horizon (ap_quorum p) <= kMaxLeaseHorizonSteps.
Proof.
  unfold policy_validate, profile_validate. intros H.
  destruct (Z.ltb_spec kMaxLeaseHorizonSteps (qp_horizon (ap_quorum p))); [|lia].
  rewrite orb_true_r in H.
  destruct (is_ok (validate_slots 0 None (qp_witnesses (ap_quorum p)))) eqn:E; simpl in H;
    repeat case_match; congruence || done.
Qed.

(** [c] reports the exclusive request [r]. *)
Definition reports (c : CompetingClaim) (r : AuthorityRequest) : Prop :=
  cc_claim c = rq_claim r ∧ cc_scope c = rq_scope r ∧ cc_epoch c = rq_epoch r ∧
  cc_incarnation c = rq_incarnation r ∧ cc_mode c = ExclusiveMutation.

Module Decisions.

(** C32: Authority is never implied: a decision is authoritative only for an
    exclusive mutation, completely specified and bound to the current policy
    generation, at the domain's highest epoch or above, for an incarnation
    and epoch that are not fenced, with a token no extent's mark exceeds, on
    current evidence (and a lease where the policy asks for one), against
    competitors that all yield; its vector names exactly that subject. *)
Theorem authoritative_sound (request : AuthorityRequest) (view : ArbiterView) :
  ad_verdict (decide_authority request view) = Authoritative →
  (∃ policy fences lineage, authority_proven request view policy fences lineage) ∧
  let d := decide_authority request view in
  ad_claim d = rq_claim request ∧ ad_scope d = rq_scope request ∧
  av_domain (ad_vector d) = rq_domain request ∧
  av_scope (ad_vector d) = scope_digest (rq_scope request) ∧
  av_epoch (ad_vector d) = rq_epoch request ∧
  av_incarnation (ad_vector d) = rq_incarnation request ∧
  av_token (ad_vector d) = rq_token request ∧ ad_valid_from d = vw_now view.
Proof.
  intros H. destruct (decide_auth request view H) as (policy & fences & lineage & Hp & E).
  split; [by exists policy, fences, lineage|]. cbv zeta. rewrite E in *.
  apply decide_competing_auth in H as (_ & _ & -> & -> & -> & -> & _). done.
Qed.

(** C8: Mutual exclusion. Two exclusive requests with claim ids of their own, for
    overlapping scopes - of one domain or of two - each visible to the other, are
    never both authoritative when either policy treats equal epochs as fatal,
    which is the default. When neither does, both can be only at one and the same
    epoch, for two different incarnations. *)
Theorem no_double_authority (r1 r2 : AuthorityRequest) (v1 v2 : ArbiterView)
    (p1 p2 : ArbiterPolicy) (c1 c2 : CompetingClaim) :
  vw_policy v1 = Some p1 → vw_policy v2 = Some p2 →
  canonical (rq_scope r1) → canonical (rq_scope r2) →
  overlaps (rq_scope r1) (rq_scope r2) = true → rq_claim r1 ≠ rq_claim r2 →
  c2 ∈ vw_competing v1 → reports c2 r2 → c1 ∈ vw_competing v2 → reports c1 r1 →
  let both := ad_verdict (decide_authority r1 v1) = Authoritative ∧
              ad_verdict (decide_authority r2 v2) = Authoritative in
  (ap_equal_fatal p1 = true ∨ ap_equal_fatal p2 = true → ¬ both) ∧
  (both → rq_epoch r1 = rq_epoch r2 ∧ rq_incarnation r1 ≠ rq_incarnation r2).
Proof.
  intros P1 P2 K1 K2 Ho Hne C1 (N1 & S1 & E1 & I1 & M1) C2 (N2 & S2 & E2 & I2 & M2). cbv zeta.
  enough (G : ad_verdict (decide_authority r1 v1) = Authoritative →
    ad_verdict (decide_authority r2 v2) = Authoritative →
    ap_equal_fatal p1 = false ∧ ap_equal_fatal p2 = false ∧
    rq_epoch r1 = rq_epoch r2 ∧ rq_incarnation r1 ≠ rq_incarnation r2).
  { split; [intros Hf [A1 A2]|intros [A1 A2]]; destruct (G A1 A2) as (F1 & F2 & H); [|done].
    destruct Hf; congruence. }
  intros A1 A2.
  apply decide_auth in A1 as (p1' & fe1 & l1 & A1 & _), A2 as (p2' & fe2 & l2 & A2 & _).
  destruct (ap_view _ _ _ _ _ A1) as [Q1 _], (ap_view _ _ _ _ _ A2) as [Q2 _]. simplify_eq.
  assert (Y1 : yields r1 p1 c2).
  { apply (ap_yield _ _ _ _ _ A1); [done|congruence|by rewrite S1|done]. }
  assert (Y2 : yields r2 p2 c1).
  { apply (ap_yield _ _ _ _ _ A2); [done|congruence| |done].
    rewrite S2, overlaps_sym by done. done. }
  unfold yields in *. destruct Y1 as [[? _]|(? & ? & ?)], Y2 as [[? _]|(? & ? & ?)];
    [lia..|split_and!; congruence].
Qed.

(** The wall clock decides nothing: neither the reading a request carries nor
    those in its statements change the decision. *)
Theorem wall_clock_invariance (request : AuthorityRequest) (view : ArbiterView)
    (at_ : WallClockReading) (f : WitnessAttestation → WallClockReading) :
  decide_authority
    (mkRequest (rq_claim request) (rq_domain request) (rq_scope request) (rq_epoch request)
       (rq_incarnation request) (rq_boot request) (rq_token request) (rq_mode request)
       (rq_attempt request) (bundle_with_clock f (rq_evidence request)) at_) view =
  decide_authority request view.
Proof.
  set (request' := mkRequest _ _ _ _ _ _ _ _ _ _ _).
  assert (Hcompete : ∀ p l d, compete request' p l d = compete request p l d).
  { intros p l. induction l as [|c r IH]; intros d; simpl; [done|]. by rewrite !IH. }
  assert (Hsame : ∀ l d, compete_same request' l d = compete_same request l d).
  { intros l d. induction l as [|c r IH]; simpl; [done|]. by rewrite IH. }
  assert (He : ∀ p d, decide_evidence request' view p d = decide_evidence request view p d).
  { intros p d. unfold decide_evidence, decide_competing. simpl. rewrite assess_clock.
    rewrite Hcompete. change (overlapping_claims request' view) with (overlapping_claims request view).
    by repeat (case_match; rewrite ?Hsame in *; simplify_eq). }
  unfold decide_authority, decide_lifecycle. simpl.
  destruct (vw_policy view) as [p|]; [|done]. by rewrite He.
Qed.

(** A decision survives revocation exactly when it was authoritative and,
    in the newer view, the policy and fence generations are those it was made
    under, its epoch is still the highest, its incarnation is not fenced, it
    has not expired and no other domain supersedes it. *)
Theorem revocation_exact (d : AuthorityDecision) (view : ArbiterView) :
  rv_revoked (check_revocation d view) = false ↔
  ad_verdict d = Authoritative ∧
  ∃ policy fences lineage,
    vw_policy view = Some policy ∧ vw_fences view = Some fences ∧
    vw_lineage view = Some lineage ∧
    ap_generation policy = av_policy_gen (ad_vector d) ∧
    ft_generation fences = av_fence_gen (ad_vector d) ∧
    max_epoch lineage (av_domain (ad_vector d)) <= av_epoch (ad_vector d) ∧
    incarnation_fenced fences (av_incarnation (ad_vector d)) = false ∧
    vw_now view <= ad_valid_until d ∧
    (∀ c, c ∈ vw_competing view → supersedes d c = false).
Proof.
  unfold check_revocation, is_authoritative, verdict_carries_authority.
  case_bool_decide as Ea; simpl; [|naive_solver].
  destruct (vw_fences view) as [fences|]; [|naive_solver].
  destruct (vw_lineage view) as [lineage|]; [|naive_solver].
  destruct (vw_policy view) as [policy|]; [|naive_solver].
  destruct (Z.eqb_spec (ap_generation policy) (av_policy_gen (ad_vector d))); simpl;
    [|naive_solver].
  destruct (Z.eqb_spec (ft_generation fences) (av_fence_gen (ad_vector d))); simpl;
    [|naive_solver].
  destruct (Z.ltb_spec (av_epoch (ad_vector d)) (max_epoch lineage (av_domain (ad_vector d))));
    simpl; [naive_solver lia|].
  destruct (incarnation_fenced fences _) eqn:Ei; simpl; [naive_solver|].
  destruct (Z.ltb_spec (ad_valid_until d) (vw_now view)); simpl; [naive_solver lia|].
  destruct (existsb (supersedes d) (vw_competing view)) eqn:Es; simpl.
  - split; [done|]. intros (_ & p & f & l & _ & _ & _ & _ & _ & _ & _ & _ & Hall).
    apply existsb_exists in Es as (c & Hc & Hs). apply list_elem_of_In in Hc.
    rewrite Hall in Hs; done.
  - split; [|done]. intros _. split; [done|]. exists policy, fences, lineage.
    split_and!; try done. intros c Hc. apply not_true_is_false. intros Hs.
    assert (existsb (supersedes d) (vw_competing view) = true); [|congruence].
    apply existsb_exists. exists c. by rewrite <-list_elem_of_In.
Qed.

(** A decision just made stands: in the view it was made in, an authoritative
    decision is not revoked unless another domain claims a higher epoch on
    current evidence. *)
Theorem decision_stands (request : AuthorityRequest) (view : ArbiterView) (policy : ArbiterPolicy) :
  ad_verdict (decide_authority request view) = Authoritative → vw_policy view = Some policy →
  is_u64 (qp_horizon (ap_quorum policy)) →
  0 <= vw_now view → vw_now view + kMaxLeaseHorizonSteps < 2 ^ 64 →
  (∀ c, c ∈ vw_competing view → supersedes (decide_authority request view) c = false) →
  rv_revoked (check_revocation (decide_authority request view) view) = false.
Proof.
  intros H Hpol Hh Hnow Hfit Hsup. destruct (decide_auth request view H) as (p & fences & lineage & Hp & E).
  destruct (ap_view _ _ _ _ _ Hp) as (Vp & Vf & Vl). simplify_eq.
  pose proof (ap_valid _ _ _ _ _ Hp) as Hval. pose proof (ap_epoch _ _ _ _ _ Hp) as Hep.
  destruct (ap_live _ _ _ _ _ Hp) as [Hinc _].
  pose proof (ap_current _ _ _ _ _ Hp) as Hcur.
  unfold check_revocation, is_authoritative, verdict_carries_authority. rewrite H, Hpol, Vf, Vl.
  rewrite bool_decide_true by done. simpl.
  assert (Es : existsb (supersedes (decide_authority request view)) (vw_competing view) = false).
  { apply not_true_is_false. intros (c & Hc & Hs)%existsb_exists. apply list_elem_of_In in Hc.
    rewrite Hsup in Hs; done. }
  rewrite Es. clear Es Hsup. rewrite E in *.
  apply decide_competing_auth in H as (_ & _ & -> & _ & _ & _ & ->). simpl.
  rewrite Hpol, Vf, !Z.eqb_refl. simpl.
  destruct (Z.ltb_spec (rq_epoch request) (max_epoch lineage (rq_domain request))); [lia|].
  rewrite Hinc.
  assert (Hle : vw_now view <=
    (if ea_lease_present (decision_evidence request view policy)
     then ea_lease_until (decision_evidence request view policy)
     else u64 (vw_now view + qp_horizon (ap_quorum policy)))).
  { destruct (ea_lease_present _) eqn:El.
    - exact (lease_present_until _ _ _ _ Hcur El).
    - pose proof (policy_horizon policy Hval). unfold is_u64 in Hh.
      rewrite u64_id; unfold is_u64; lia. }
  destruct (Z.ltb_spec (if ea_lease_present (decision_evidence request view policy)
     then ea_lease_until (decision_evidence request view policy)
     else u64 (vw_now view + qp_horizon (ap_quorum policy))) (vw_now view)); [lia|done].
Qed.

(** ** A concrete world: one domain with two attesting witnesses *)

Definition demo_scope : Scope := [str "n1"; str "n2"].
Definition demo_statement (w : string) : WitnessAttestation :=
  mkAttestation (str w) (str "d") (scope_digest demo_scope) 4 7 9 1 1 40 60 2 true wallclock0.
Definition demo_request : AuthorityRequest :=
  mkRequest (str "c") (str "d") demo_scope 4 7 1 9 ExclusiveMutation 3
    (Quorum.bundle_of [demo_statement "w1"; demo_statement "w2"]) wallclock0.
Definition demo_policy : ArbiterPolicy :=
  mkPolicy (str "p") 1 Quorum.profile3 true false true true true 1000.
Definition demo_rival (c : string) (active : bool) : CompetingClaim :=
  mkCompeting (str c) (str "e") [str "n2"] 3 6 8 2 ExclusiveMutation Current active.
Definition demo_view (competing : list CompetingClaim) : ArbiterView :=
  mkView (Some demo_policy) (Some fence_table0) (Some lineage0) 50 1 1 competing [].

Lemma demo_authoritative :
  ad_verdict (decide_authority demo_request (demo_view [demo_rival "x" false])) = Authoritative.
Proof. vm_compute. reflexivity. Qed.

Lemma authoritative_sound_witness :
  av_epoch (ad_vector (decide_authority demo_request (demo_view [demo_rival "x" false]))) = 4.
Proof.
  destruct (authoritative_sound _ _ demo_authoritative) as (_ & _ & _ & _ & _ & E & _).
  exact E.
Defined.

(** The rival's own request, and how each appears to the other. *)
Definition rival_request : AuthorityRequest :=
  mkRequest (str "x") (str "e") [str "n2"] 4 6 1 8 ExclusiveMutation 3
    (Quorum.bundle_of []) wallclock0.
Definition report (r : AuthorityRequest) : CompetingClaim :=
  mkCompeting (rq_claim r) (rq_domain r) (rq_scope r) (rq_epoch r) (rq_incarnation r) (rq_token r)
    0 ExclusiveMutation Current true.

(** A policy that tolerates equal epochs, and a rival with evidence of its own. *)
Definition tolerant_policy : ArbiterPolicy :=
  mkPolicy (str "p") 1 Quorum.profile3 true false true true false 1000.
Definition tolerant_view (competing : list CompetingClaim) : ArbiterView :=
  mkView (Some tolerant_policy) (Some fence_table0) (Some lineage0) 50 1 1 competing [].
Definition rival_statement (w : string) : WitnessAttestation :=
  mkAttestation (str w) (str "e") (scope_digest [str "n2"]) 4 6 8 1 1 40 60 2 true wallclock0.
Definition backed_rival : AuthorityRequest :=
  mkRequest (str "x") (str "e") [str "n2"] 4 6 1 8 ExclusiveMutation 3
    (Quorum.bundle_of [rival_statement "w1"; rival_statement "w2"]) wallclock0.

(** What the default keeps out: both stand, on overlapping extents. *)
Lemma tolerated_rivals :
  ad_verdict (decide_authority demo_request (tolerant_view [report backed_rival])) = Authoritative ∧
  ad_verdict (decide_authority backed_rival (tolerant_view [report demo_request])) = Authoritative.
Proof. vm_compute. done. Qed.

Lemma no_double_authority_witness :
  ¬ (ad_verdict (decide_authority demo_request (demo_view [report rival_request])) = Authoritative ∧
     ad_verdict (decide_authority rival_request (demo_view [report demo_request])) = Authoritative) ∧
  rq_incarnation demo_request ≠ rq_incarnation backed_rival.
Proof.
  split.
  - refine (proj1 (no_double_authority demo_request rival_request
      (demo_view [report rival_request]) (demo_view [report demo_request]) demo_policy demo_policy
      (report demo_request) (report rival_request) eq_refl eq_refl _ _ eq_refl _ _ _ _ _)
      (or_introl eq_refl)); try (by repeat constructor); discriminate.
  - refine (proj2 (proj2 (no_double_authority demo_request backed_rival
      (tolerant_view [report backed_rival]) (tolerant_view [report demo_request])
      tolerant_policy tolerant_policy (report demo_request) (report backed_rival) eq_refl eq_refl _ _ eq_refl _ _ _ _ _)
      tolerated_rivals)); try (by repeat constructor); discriminate.
Defined.

Lemma decision_stands_witness :
  rv_revoked (check_revocation (decide_authority demo_request (demo_view [demo_rival "x" false]))
                (demo_view [demo_rival "x" false])) = false.
Proof.
  apply (decision_stands _ _ demo_policy demo_authoritative).
  - reflexivity.
  - unfold is_u64. simpl. lia.
  - simpl. lia.
  - vm_compute. reflexivity.
  - intros c Hc. apply list_elem_of_singleton in Hc as ->. vm_compute. reflexivity.
Defined.
End Decisions.
