(* ===== verification/Codec.v ===== *)
(** * Wire and journal codecs of the data model

    Models the codecs of [src/protocol.cpp] for the shared types and those of
    [src/registry_state.cpp] and [src/fabric_store.cpp] for durable payloads.
    A [decode(CanonicalReader&, T&)] is a reader function; every pair is
    proved to satisfy the contract [decodes] on well-formed values. *)
From S2P Require Import Prelude Order SortedVec Status Ids Text Digest Canonical Scope.
From S2P Require Import Fence Lineage Evidence Arbiter.
Open Scope Z_scope.

(** ** Identifiers and enumerations *)

(** Read a text and make an identifier of it. *)
Definition r_id (o : Outcome) (r : reader) : result (bytes * reader) :=
  let* (value, r) := r_text r in
  match id_try_make value with
  | Some id => Ret (id, r)
  | None => Err (fail0 o Reason.IdCharset)
  end.

(** Two texts first, then both identifiers. *)
Definition r_id2 (o : Outcome) (r : reader) : result (bytes * bytes * reader) :=
  let* (a, r) := r_text r in
  let* (b, r) := r_text r in
  match id_try_make a, id_try_make b with
  | Some a, Some b => Ret (a, b, r)
  | _, _ => Err (fail0 o Reason.IdCharset)
  end.

(** A [u16] refused above the last enumerator. *)
Definition r_enum {A} (of_code : Z → option A) (o : Outcome) (r : reader) : result (A * reader) :=
  let* (raw, r) := r_u16 r in
  match of_code raw with
  | Some a => Ret (a, r)
  | None => Err (mkStatus o Reason.InvalidEnum raw)
  end.

Definition quorum_mode_code (m : QuorumMode) : Z :=
  match m with
  | MajorityDistinctWitnesses => 0 | ThresholdDistinctWitnesses => 1 | UnanimousWitnesses => 2
  end.

Definition quorum_mode_of_code (z : Z) : option QuorumMode :=
  match z with
  | 0 => Some MajorityDistinctWitnesses | 1 => Some ThresholdDistinctWitnesses
  | 2 => Some UnanimousWitnesses | _ => None
  end.

Definition read_mode : reader → result (AuthorityMode * reader) :=
  r_enum mode_of_code Outcome.Invalid.
Definition read_verdict : reader → result (AuthorityVerdict * reader) :=
  r_enum verdict_of_code Outcome.Invalid.
Definition read_quorum_mode : reader → result (QuorumMode * reader) :=
  r_enum quorum_mode_of_code Outcome.Invalid.

(** ** [protocol.cpp]: shared types *)

Definition w_wall_clock (c : WallClockReading) : bytes :=
  w_i64 (unix_nanos c) ++ w_u64 (wc_source c) ++ w_boolean (observed_regression c).

Definition r_wall_clock (r : reader) : result (WallClockReading * reader) :=
  let* (nanos, r) := r_i64 r in
  let* (source, r) := r_u64 r in
  let* (regressed, r) := r_boolean r in
  Ret (mkWallClock nanos source regressed, r).

Definition encode_status (s : Status) : bytes :=
  w_outcome (outcome s) ++ w_reason (reason s) ++ w_u64 (aux s).

Definition r_status (r : reader) : result (Status * reader) :=
  let* (o, r) := r_outcome r in
  let* (c, r) := r_reason r in
  let* (a, r) := r_u64 r in
  Ret (mkStatus o c a, r).

Definition r_scope (r : reader) : result (Scope * reader) :=
  let* (extents, r) := r_sequence kMaxExtentsPerScope (r_id Outcome.Invalid) r in
  match extents with
  | [] => Ret ([], r)
  | _ => let* s := scope_make extents in Ret (s, r)
  end.

Definition w_slot (s : WitnessSlot) : bytes := w_text (ws_witness s) ++ w_text (ws_fault s).

Definition r_slot (r : reader) : result (WitnessSlot * reader) :=
  let* (p, r) := r_id2 Outcome.Invalid r in Ret (mkSlot p.1 p.2, r).

Definition encode_profile (p : QuorumProfile) : bytes :=
  w_text (qp_policy p) ++ w_counter (qp_generation p) ++ w_sequence w_slot (qp_witnesses p) ++
  w_u16 (quorum_mode_code (qp_mode p)) ++ w_u32 (qp_threshold p) ++ w_u32 (qp_min_domains p) ++
  w_u64 (qp_horizon p).

Definition r_profile (r : reader) : result (QuorumProfile * reader) :=
  let* (policy, r) := r_id Outcome.Invalid r in
  let* (generation, r) := r_counter r in
  let* (witnesses, r) := r_sequence kMaxWitnessesPerProfile r_slot r in
  let* (mode, r) := read_quorum_mode r in
  let* (threshold, r) := r_u32 r in
  let* (min_domains, r) := r_u32 r in
  let* (horizon, r) := r_u64 r in
  Ret (mkProfile policy generation witnesses mode threshold min_domains horizon, r).

Definition encode_lease (l : Lease) : bytes :=
  w_counter (ls_id l) ++ w_counter (ls_grant l) ++ w_text (ls_domain l) ++ w_digest (ls_scope l) ++
  w_counter (ls_epoch l) ++ w_counter (ls_incarnation l) ++ w_counter (ls_token l) ++
  w_counter (ls_generation l) ++ w_counter (ls_policy_gen l) ++ w_counter (ls_valid_from l) ++
  w_counter (ls_valid_until l).

Definition r_lease (r : reader) : result (Lease * reader) :=
  let* (id, r) := r_counter r in
  let* (grant, r) := r_counter r in
  let* (domain, r) := r_id Outcome.Invalid r in
  let* (scope, r) := r_digest r in
  let* (epoch, r) := r_counter r in
  let* (incarnation, r) := r_counter r in
  let* (token, r) := r_counter r in
  let* (generation, r) := r_counter r in
  let* (policy_gen, r) := r_counter r in
  let* (valid_from, r) := r_counter r in
  let* (valid_until, r) := r_counter r in
  Ret (mkLease id grant domain scope epoch incarnation token generation policy_gen valid_from
         valid_until, r).

Definition encode_attestation (a : WitnessAttestation) : bytes :=
  w_text (at_witness a) ++ w_text (at_domain a) ++ w_digest (at_scope a) ++
  w_counter (at_epoch a) ++ w_counter (at_incarnation a) ++ w_counter (at_token a) ++
  w_counter (at_generation a) ++ w_counter (at_policy_gen a) ++ w_counter (at_issued a) ++
  w_counter (at_valid_until a) ++ w_counter (at_sequence a) ++ w_boolean (at_support a) ++
  w_wall_clock (at_observed a).

Definition r_attestation (r : reader) : result (WitnessAttestation * reader) :=
  let* (p, r) := r_id2 Outcome.Invalid r in
  let* (scope, r) := r_digest r in
  let* (epoch, r) := r_counter r in
  let* (incarnation, r) := r_counter r in
  let* (token, r) := r_counter r in
  let* (generation, r) := r_counter r in
  let* (policy_gen, r) := r_counter r in
  let* (issued, r) := r_counter r in
  let* (valid_until, r) := r_counter r in
  let* (sequence, r) := r_counter r in
  let* (support, r) := r_boolean r in
  let* (observed, r) := r_wall_clock r in
  Ret (mkAttestation p.1 p.2 scope epoch incarnation token generation policy_gen issued
         valid_until sequence support observed, r).

(** The lease a bundle without one carries: [Lease{}]. *)
Definition lease0 : Lease := mkLease 0 0 [] Digest256_zero 0 0 0 0 0 0 0.

(** [WitnessAttestation{}]. *)
Definition attestation0 : WitnessAttestation :=
  mkAttestation [] [] Digest256_zero 0 0 0 0 0 0 0 0 true wallclock0.

Definition encode_bundle (b : EvidenceBundle) : bytes :=
  w_text (eb_policy b) ++ w_counter (eb_policy_gen b) ++ w_counter (eb_as_of b) ++
  w_counter (eb_fence_gen b) ++
  w_sequence (λ a, w_blob (encode_attestation a)) (eb_attestations b) ++
  w_optional (eb_has_lease b) (w_blob (encode_lease (eb_lease b))).

Definition r_bundle (r : reader) : result (EvidenceBundle * reader) :=
  let* (policy, r) := r_id Outcome.Invalid r in
  let* (policy_gen, r) := r_counter r in
  let* (as_of, r) := r_counter r in
  let* (fence_gen, r) := r_counter r in
  let* (attestations, r) := r_sequence kMaxAttestationsPerBundle (r_nested r_attestation) r in
  let* (lease, r) := r_optional (r_nested r_lease) r in
  Ret (mkBundle policy policy_gen as_of fence_gen attestations
         (match lease with Some _ => true | None => false end) (default lease0 lease), r).

(** [std::optional<DomainId>] of a vector: an empty text is the absent domain. *)
Definition r_vector (r : reader) : result (AuthorityVector * reader) :=
  let* (domain, r) := r_text r in
  let* id := (if id_empty domain then Ret []
              else of_option (id_try_make domain) (fail0 Outcome.Invalid Reason.IdCharset)) in
  let* (scope, r) := r_digest r in
  let* (epoch, r) := r_counter r in
  let* (incarnation, r) := r_counter r in
  let* (token, r) := r_counter r in
  let* (grant, r) := r_counter r in
  let* (sequence, r) := r_counter r in
  let* (policy_gen, r) := r_counter r in
  let* (evidence_gen, r) := r_counter r in
  let* (fence_gen, r) := r_counter r in
  Ret (mkVector id scope epoch incarnation token grant sequence policy_gen evidence_gen
         fence_gen, r).

Definition encode_decision (d : AuthorityDecision) : bytes :=
  w_u16 (verdict_code (ad_verdict d)) ++ w_blob (encode_status (ad_status d)) ++
  w_sequence w_reason (codes (ad_explanation d)) ++ w_blob (encode_vector (ad_vector d)) ++
  w_text (ad_claim d) ++ w_blob (encode_scope (ad_scope d)) ++ w_counter (ad_valid_from d) ++
  w_counter (ad_valid_until d) ++ w_sequence w_text (ad_must_fence d) ++
  w_sequence w_text (ad_fenced_extents d) ++ w_counter (ad_sequence d) ++
  w_boolean (ad_revocable d) ++ w_digest (decision_digest d).

(** The absent claim of a refusal is an empty text. *)
Definition r_decision (r : reader) : result (AuthorityDecision * reader) :=
  let* (verdict, r) := read_verdict r in
  let* (status, r) := r_nested r_status r in
  let* (reasons, r) := r_sequence kMaxExplanationCodes r_reason r in
  let* (vector, r) := r_nested r_vector r in
  let* (claim, r) := r_text r in
  let* claim := (if id_empty claim then Ret []
                 else of_option (id_try_make claim) (fail0 Outcome.Invalid Reason.IdCharset)) in
  let* (scope, r) := r_nested r_scope r in
  let* (valid_from, r) := r_counter r in
  let* (valid_until, r) := r_counter r in
  let* (must_fence, r) := r_sequence kMaxCompetingClaims (r_id Outcome.Invalid) r in
  let* (fenced, r) := r_sequence kMaxExtentsPerScope (r_id Outcome.Invalid) r in
  let* (sequence, r) := r_counter r in
  let* (revocable, r) := r_boolean r in
  let* (digest, r) := r_digest r in
  let d := mkDecision verdict status (foldl expl_add no_explanation reasons) vector claim scope
             valid_from valid_until must_fence fenced sequence revocable in
  if negb (eqb digest (decision_digest d))
  then Err (fail0 Outcome.Corrupt Reason.IntegrityMismatch)
  else Ret (d, r).

(** ** [fabric_store.cpp]: the effect record *)

Record MutationRecord := mkMutation {
  mr_sequence : Sequence;
  mr_domain : DomainId;
  mr_scope : Scope;
  mr_epoch : Epoch;
  mr_incarnation : IncarnationId;
  mr_grant : GrantId;
  mr_token : FenceToken;
  mr_committed : Step;
  mr_operation : bytes;
  mr_payload : Digest256;
  mr_digest : Digest256
}.

#[export] Instance mutation_record_eq_dec : EqDecision MutationRecord.
Proof. solve_decision. Defined.

(** [operation_valid]: non-empty, bounded, printable ASCII. *)
Definition operation_valid (operation : bytes) : bool :=
  negb (id_empty operation) && (zlen operation <=? kMaxTextLength) &&
  forallb (λ b, in_range 32 126 (byte_to_Z b)) operation.

Definition mutation_body (m : MutationRecord) : bytes :=
  w_counter (mr_sequence m) ++ w_text (mr_domain m) ++ w_blob (encode_scope (mr_scope m)) ++
  w_counter (mr_epoch m) ++ w_counter (mr_incarnation m) ++ w_counter (mr_grant m) ++
  w_counter (mr_token m) ++ w_counter (mr_committed m) ++ w_text (mr_operation m) ++
  w_digest (mr_payload m).

Definition compute_record_digest (m : MutationRecord) : Digest256 :=
  Digest256_of (mutation_body m).

Definition encode_mutation (m : MutationRecord) : bytes :=
  w_counter (mr_sequence m) ++ w_text (mr_domain m) ++ w_blob (encode_scope (mr_scope m)) ++
  w_counter (mr_epoch m) ++ w_counter (mr_incarnation m) ++ w_counter (mr_grant m) ++
  w_counter (mr_token m) ++ w_counter (mr_committed m) ++ w_text (mr_operation m) ++
  w_digest (mr_payload m) ++ w_digest (mr_digest m).

Definition r_mutation (r : reader) : result (MutationRecord * reader) :=
  let* (sequence, r) := r_counter r in
  let* (domain, r) := r_id Outcome.Invalid r in
  let* (scope, r) := r_nested r_scope r in
  let* (epoch, r) := r_counter r in
  let* (incarnation, r) := r_counter r in
  let* (grant, r) := r_counter r in
  let* (token, r) := r_counter r in
  let* (committed, r) := r_counter r in
  let* (operation, r) := r_text r in
  if negb (operation_valid operation)
  then Err (mkStatus Outcome.Invalid Reason.ValueOutOfRange (zlen operation))
  else
    let* (payload, r) := r_digest r in
    let* (digest, r) := r_digest r in
    let m := mkMutation sequence domain scope epoch incarnation grant token committed operation
               payload digest in
    if negb (eqb digest (compute_record_digest m))
    then Err (fail0 Outcome.Corrupt Reason.IntegrityMismatch)
    else Ret (m, r).

(** ** [registry_state.cpp]: durable payloads *)

Record DomainDefinition := mkDomain {
  dd_domain : DomainId;
  dd_node : NodeId;
  dd_scope : Scope;
  dd_policy : PolicyId;
  dd_exclusive : bool
}.

Record InterruptMark := mkInterrupt {
  im_grant : GrantId;
  im_domain : DomainId;
  im_epoch : Epoch;
  im_incarnation : IncarnationId;
  im_boot : BootId;
  im_marked : Step;
  im_reason : Reason
}.

Record IdempotencyEntry := mkIdempotency {
  ie_incarnation : IncarnationId;
  ie_attempt : Sequence;
  ie_epoch : Epoch;
  ie_token : FenceToken;
  ie_grant : GrantId;
  ie_valid_until : Step;
  ie_sequence : Sequence
}.

#[export] Instance domain_definition_eq_dec : EqDecision DomainDefinition.
Proof. solve_decision. Defined.

Definition encode_boot_record (b : BootRecord) : bytes :=
  w_counter (br_boot b) ++ w_counter (br_incarnation b) ++ w_text (br_node b) ++
  w_counter (br_started b) ++ w_counter (br_ended b) ++ w_boolean (br_clean b) ++
  w_boolean (br_interrupted b) ++ w_counter (br_sequence b).

Definition r_boot_record (r : reader) : result (BootRecord * reader) :=
  let* (boot, r) := r_counter r in
  let* (incarnation, r) := r_counter r in
  let* (node, r) := r_id Outcome.Corrupt r in
  let* (started, r) := r_counter r in
  let* (ended, r) := r_counter r in
  let* (clean, r) := r_boolean r in
  let* (interrupted, r) := r_boolean r in
  let* (sequence, r) := r_counter r in
  Ret (mkBoot boot incarnation node started ended clean interrupted sequence, r).

Definition encode_grant (g : EpochGrant) : bytes :=
  w_counter (eg_id g) ++ w_text (eg_domain g) ++ w_digest (eg_scope g) ++
  w_blob (encode_scope (eg_extents g)) ++ w_counter (eg_attempt g) ++ w_counter (eg_epoch g) ++
  w_counter (eg_incarnation g) ++ w_counter (eg_boot g) ++ w_counter (eg_token g) ++
  w_counter (eg_opened g) ++ w_counter (eg_closed g) ++
  w_u16 (grant_state_code (eg_state g)) ++ w_counter (eg_sequence g) ++
  w_counter (eg_lineage_gen g) ++ w_counter (eg_policy_gen g) ++
  w_counter (eg_evidence_gen g) ++ w_reason (eg_close_reason g).

Definition r_grant (r : reader) : result (EpochGrant * reader) :=
  let* (id, r) := r_counter r in
  let* (domain, r) := r_id Outcome.Corrupt r in
  let* (scope, r) := r_digest r in
  let* (extents, r) := r_nested r_scope r in
  if negb (eqb (scope_digest extents) scope)
  then Err (fail0 Outcome.Corrupt Reason.IntegrityMismatch)
  else
    let* (attempt, r) := r_counter r in
    let* (epoch, r) := r_counter r in
    let* (incarnation, r) := r_counter r in
    let* (boot, r) := r_counter r in
    let* (token, r) := r_counter r in
    let* (opened, r) := r_counter r in
    let* (closed, r) := r_counter r in
    let* (state, r) := r_enum grant_state_of_code Outcome.Corrupt r in
    let* (sequence, r) := r_counter r in
    let* (lineage_gen, r) := r_counter r in
    let* (policy_gen, r) := r_counter r in
    let* (evidence_gen, r) := r_counter r in
    let* (why, r) := r_reason r in
    Ret (mkGrant id domain scope extents attempt epoch incarnation boot token opened closed state
           sequence lineage_gen policy_gen evidence_gen why, r).

Definition encode_interrupt (m : InterruptMark) : bytes :=
  w_counter (im_grant m) ++ w_text (im_domain m) ++ w_counter (im_epoch m) ++
  w_counter (im_incarnation m) ++ w_counter (im_boot m) ++ w_counter (im_marked m) ++
  w_reason (im_reason m).

Definition r_interrupt (r : reader) : result (InterruptMark * reader) :=
  let* (grant, r) := r_counter r in
  let* (domain, r) := r_id Outcome.Corrupt r in
  let* (epoch, r) := r_counter r in
  let* (incarnation, r) := r_counter r in
  let* (boot, r) := r_counter r in
  let* (marked, r) := r_counter r in
  let* (why, r) := r_reason r in
  Ret (mkInterrupt grant domain epoch incarnation boot marked why, r).

Definition encode_idempotency (e : IdempotencyEntry) : bytes :=
  w_counter (ie_incarnation e) ++ w_counter (ie_attempt e) ++ w_counter (ie_epoch e) ++
  w_counter (ie_token e) ++ w_counter (ie_grant e) ++ w_counter (ie_valid_until e) ++
  w_counter (ie_sequence e).

Definition r_idempotency (r : reader) : result (IdempotencyEntry * reader) :=
  let* (incarnation, r) := r_counter r in
  let* (attempt, r) := r_counter r in
  let* (epoch, r) := r_counter r in
  let* (token, r) := r_counter r in
  let* (grant, r) := r_counter r in
  let* (valid_until, r) := r_counter r in
  let* (sequence, r) := r_counter r in
  Ret (mkIdempotency incarnation attempt epoch token grant valid_until sequence, r).

Definition encode_domain (d : DomainDefinition) : bytes :=
  w_text (dd_domain d) ++ w_text (dd_node d) ++ w_blob (encode_scope (dd_scope d)) ++
  w_text (dd_policy d) ++ w_boolean (dd_exclusive d).

Definition r_domain (r : reader) : result (DomainDefinition * reader) :=
  let* (p, r) := r_id2 Outcome.Corrupt r in
  let* (scope, r) := r_nested r_scope r in
  let* (policy, r) := r_id Outcome.Corrupt r in
  let* (exclusive, r) := r_boolean r in
  Ret (mkDomain p.1 p.2 scope policy exclusive, r).

Definition encode_policy (p : ArbiterPolicy) : bytes :=
  w_text (ap_policy p) ++ w_counter (ap_generation p) ++ w_blob (encode_profile (ap_quorum p)) ++
  w_boolean (ap_require_quorum p) ++ w_boolean (ap_require_lease p) ++
  w_boolean (ap_allow_non_overlapping p) ++ w_boolean (ap_fence_lower p) ++
  w_boolean (ap_equal_fatal p) ++ w_u64 (ap_lease_horizon p).

Definition r_policy (r : reader) : result (ArbiterPolicy * reader) :=
  let* (policy, r) := r_id Outcome.Corrupt r in
  let* (generation, r) := r_counter r in
  let* (quorum, r) := r_nested r_profile r in
  let* (require_quorum, r) := r_boolean r in
  let* (require_lease, r) := r_boolean r in
  let* (allow, r) := r_boolean r in
  let* (fence_lower, r) := r_boolean r in
  let* (equal_fatal, r) := r_boolean r in
  let* (horizon, r) := r_u64 r in
  Ret (mkPolicy policy generation quorum require_quorum require_lease allow fence_lower
         equal_fatal horizon, r).

Definition encode_extent_state (s : ExtentFenceState) : bytes :=
  w_text (es_extent s) ++ w_counter (es_token s) ++ w_counter (es_epoch s) ++
  w_counter (es_owner s) ++ w_counter (es_grant s) ++ w_counter (es_updated s).

Definition r_extent_state (r : reader) : result (ExtentFenceState * reader) :=
  let* (extent, r) := r_id Outcome.Corrupt r in
  let* (token, r) := r_counter r in
  let* (epoch, r) := r_counter r in
  let* (owner, r) := r_counter r in
  let* (grant, r) := r_counter r in
  let* (updated, r) := r_counter r in
  Ret (mkExtentState extent token epoch owner grant updated, r).

Definition encode_fence_payload (f : FenceRecord) (scope : Scope) : bytes :=
  w_counter (fr_token f) ++ w_text (fr_domain f) ++ w_digest (fr_scope f) ++
  w_blob (encode_scope scope) ++ w_counter (fr_epoch f) ++ w_counter (fr_incarnation f) ++
  w_reason (fr_cause f) ++ w_counter (fr_issued_at f) ++ w_counter (fr_superseded f) ++
  w_counter (fr_sequence f) ++ w_counter (fr_previous f).

Definition r_fence_payload (r : reader) : result (FenceRecord * Scope * reader) :=
  let* (token, r) := r_counter r in
  let* (domain, r) := r_id Outcome.Corrupt r in
  let* (digest, r) := r_digest r in
  let* (scope, r) := r_nested r_scope r in
  if negb (eqb (scope_digest scope) digest)
  then Err (fail0 Outcome.Corrupt Reason.IntegrityMismatch)
  else
    let* (epoch, r) := r_counter r in
    let* (incarnation, r) := r_counter r in
    let* (cause, r) := r_reason r in
    let* (issued, r) := r_counter r in
    let* (superseded, r) := r_counter r in
    let* (sequence, r) := r_counter r in
    let* (previous, r) := r_counter r in
    Ret (mkFenceRecord token domain digest epoch incarnation cause issued superseded sequence
           previous, scope, r).

(** ** Codec lemmas *)

Lemma id_valid_u16 v : id_valid v → is_u16 (zlen v).
Proof. intros (_ & Hl & _). unfold is_u16, kMaxIdLength in *. pose proof (zlen_nonneg v). lia. Qed.

Lemma decodes_id o v : id_valid v → decodes (r_id o) v (w_text v).
Proof.
  intros Hv. unfold r_id. eapply decodes_bind_last; [by apply decodes_text, id_valid_u16|].
  eapply decodes_match; [by apply id_try_make_valid|apply decodes_ret].
Qed.

Lemma decodes_id2 {B} o a b (f : bytes * bytes → reader → result (B * reader)) y e :
  id_valid a → id_valid b → decodes (f (a, b)) y e →
  decodes (λ r, let* (p, r) := r_id2 o r in f p r) y (w_text a ++ w_text b ++ e).
Proof.
  intros Ha Hb Hf. rewrite app_assoc. eapply decodes_bind; [|exact Hf]. unfold r_id2.
  eapply decodes_bind; [by apply decodes_text, id_valid_u16|].
  eapply decodes_bind_last; [by apply decodes_text, id_valid_u16|].
  rewrite !id_try_make_valid by done. apply decodes_ret.
Qed.

Lemma decodes_enum {A} (of_code : Z → option A) (code : A → Z) o a :
  of_code (code a) = Some a → is_u16 (code a) → decodes (r_enum of_code o) a (w_u16 (code a)).
Proof.
  intros E Hu. unfold r_enum. eapply decodes_bind_last; [by apply decodes_u16|].
  eapply decodes_match; [exact E|apply decodes_ret].
Qed.

Lemma decodes_mode m : decodes read_mode m (w_u16 (mode_code m)).
Proof. apply decodes_enum; [by destruct m|destruct m; unfold is_u16; simpl; lia]. Qed.
Lemma decodes_verdict v : decodes read_verdict v (w_u16 (verdict_code v)).
Proof. apply decodes_enum; [by destruct v|destruct v; unfold is_u16; simpl; lia]. Qed.
Lemma decodes_quorum_mode m : decodes read_quorum_mode m (w_u16 (quorum_mode_code m)).
Proof. apply decodes_enum; [by destruct m|destruct m; unfold is_u16; simpl; lia]. Qed.
Lemma decodes_grant_state o s :
  decodes (r_enum grant_state_of_code o) s (w_u16 (grant_state_code s)).
Proof. apply decodes_enum; [by destruct s|destruct s; unfold is_u16; simpl; lia]. Qed.

#[export] Hint Resolve decodes_id decodes_mode decodes_verdict decodes_quorum_mode
  decodes_grant_state : codec.

(** What travels as a scope: none, or a made one. *)
Definition scope_codable (s : Scope) : Prop := s = [] ∨ scope_wf s.

Lemma scope_wf_codable s : scope_wf s → scope_codable s.
Proof. by right. Qed.

Lemma decodes_scope s : scope_codable s → decodes r_scope s (encode_scope s).
Proof.
  intros Hs. assert (Hl : zlen s <= kMaxExtentsPerScope ∧ ∀ x, x ∈ s → id_valid x).
  { destruct Hs as [->|(_ & Hl & _ & Hv)]; [split; [done|set_solver]|].
    rewrite Forall_forall in Hv. auto. }
  destruct Hl as [Hl Hv]. unfold r_scope, encode_scope. eapply decodes_bind_last.
  - apply decodes_sequence; [done|unfold is_u32, kMaxExtentsPerScope; lia| |].
    + intros x Hx. by apply decodes_id, Hv.
    + intros x Hx. rewrite zlen_text. pose proof (zlen_nonneg x). lia.
  - destruct Hs as [->|Hs]; [apply decodes_ret|]. pose proof (scope_make_canonical s Hs) as E.
    destruct s as [|e s]; [by destruct Hs|]. eapply decodes_pure; [exact E|apply decodes_ret].
Qed.

Lemma zlen_bind_le {A} (enc : A → bytes) l k : (∀ x, x ∈ l → zlen (enc x) <= k) →
  zlen (l ≫= enc) <= k * zlen l.
Proof.
  induction l as [|x l IH]; intros Hl; csimpl; [unfold zlen; simpl; lia|].
  rewrite zlen_app. specialize (IH ltac:(set_solver)). specialize (Hl x ltac:(set_solver)).
  unfold zlen in *. simpl length. lia.
Qed.

Lemma zlen_sequence {A} (enc : A → bytes) l : zlen (w_sequence enc l) = 4 + zlen (l ≫= enc).
Proof. unfold w_sequence. by rewrite zlen_app. Qed.

Lemma zlen_scope s : scope_codable s → zlen (encode_scope s) <= 17000.
Proof.
  intros Hs. unfold encode_scope. rewrite zlen_sequence.
  assert (H : zlen (s ≫= w_text) <= 66 * zlen s).
  { apply zlen_bind_le. intros x Hx. rewrite zlen_text.
    destruct Hs as [->|(_ & _ & _ & Hv)]; [set_solver|]. rewrite Forall_forall in Hv.
    destruct (Hv x Hx) as (_ & Hl & _). unfold kMaxIdLength in Hl. lia. }
  destruct Hs as [->|(_ & Hl & _)]; [vm_compute; done|]. unfold kMaxExtentsPerScope in Hl. lia.
Qed.

Lemma decodes_scope_blob s :
  scope_codable s → decodes (r_nested r_scope) s (w_blob (encode_scope s)).
Proof.
  intros Hs. apply decodes_nested; [|by apply decodes_scope].
  pose proof (zlen_scope s Hs). unfold kMaxSnapshotBytes. lia.
Qed.

#[export] Hint Resolve decodes_scope_blob scope_wf_codable : codec.

Lemma length_scope_digest s : length (scope_digest s) = 32%nat.
Proof. apply length_digest. Qed.
#[export] Hint Resolve length_scope_digest length_digest : codec.

(** The words of a record are 64-bit values. *)
Definition words : list Z → Prop := Forall is_u64.

(** Open the conjunctions and [words] of the context. *)
Ltac open_wf :=
  unfold words in *;
  repeat match goal with
         | H : _ ∧ _ |- _ => destruct H
         | H : Forall is_u64 (_ :: _) |- _ => apply Forall_cons in H as [? H]
         | H : Forall is_u64 [] |- _ => clear H
         end.

(** Decode field after field. *)
Ltac decode_fields :=
  repeat first
    [ apply decodes_ret
    | eapply decodes_bind; [solve [eauto with codec]|]
    | eapply decodes_bind_last; [solve [eauto with codec]|]
    | eapply decodes_id2; [solve [eauto]..|]
    | eapply decodes_guard; [by rewrite ?eqb_refl|] ].

Definition clock_wf (c : WallClockReading) : Prop := is_i64 (unix_nanos c) ∧ is_u64 (wc_source c).

Lemma decodes_wall_clock c : clock_wf c → decodes r_wall_clock c (w_wall_clock c).
Proof. intros Hc. unfold clock_wf in Hc. open_wf. destruct c. unfold r_wall_clock, w_wall_clock. decode_fields. Qed.

Lemma decodes_status s : is_u64 (aux s) → decodes r_status s (encode_status s).
Proof. intros Hs. destruct s. unfold r_status, encode_status. decode_fields. Qed.

#[export] Hint Resolve decodes_wall_clock decodes_status : codec.

Definition slot_wf (s : WitnessSlot) : Prop := id_valid (ws_witness s) ∧ id_valid (ws_fault s).

Lemma decodes_slot s : slot_wf s → decodes r_slot s (w_slot s).
Proof.
  intros [Hw Hf]. unfold r_slot, w_slot. rewrite <-(app_nil_r (w_text (ws_fault s))).
  eapply decodes_id2; [done..|]. destruct s. apply decodes_ret.
Qed.

Definition profile_wf (p : QuorumProfile) : Prop :=
  id_valid (qp_policy p) ∧ is_u64 (qp_generation p) ∧
  zlen (qp_witnesses p) <= kMaxWitnessesPerProfile ∧ Forall slot_wf (qp_witnesses p) ∧
  is_u32 (qp_threshold p) ∧ is_u32 (qp_min_domains p) ∧ is_u64 (qp_horizon p).

Lemma zlen_slot s : zlen (w_slot s) = 4 + zlen (ws_witness s) + zlen (ws_fault s).
Proof. unfold w_slot. rewrite zlen_app, !zlen_text. lia. Qed.

Lemma decodes_slots l : zlen l <= kMaxWitnessesPerProfile → Forall slot_wf l →
  decodes (r_sequence kMaxWitnessesPerProfile r_slot) l (w_sequence w_slot l).
Proof.
  intros Hl Hf. rewrite Forall_forall in Hf.
  apply decodes_sequence; [done|unfold is_u32, kMaxWitnessesPerProfile; lia| |].
  - intros x Hx. by apply decodes_slot, Hf.
  - intros x Hx. rewrite zlen_slot. pose proof (zlen_nonneg (ws_witness x)).
    pose proof (zlen_nonneg (ws_fault x)). lia.
Qed.
#[export] Hint Resolve decodes_slots : codec.

Lemma decodes_profile p : profile_wf p → decodes r_profile p (encode_profile p).
Proof.
  intros Hp. unfold profile_wf in Hp. open_wf. destruct p. unfold r_profile, encode_profile.
  decode_fields.
Qed.

Lemma zlen_profile p : profile_wf p → zlen (encode_profile p) <= 5000.
Proof.
  intros (Hp & _ & Hl & Hf & _). unfold encode_profile. rewrite !zlen_app, zlen_sequence, zlen_text.
  assert (H : zlen (qp_witnesses p ≫= w_slot) <= 132 * zlen (qp_witnesses p)).
  { apply zlen_bind_le. intros x Hx. rewrite zlen_slot. rewrite Forall_forall in Hf.
    destruct (Hf x Hx) as [(_ & H1 & _) (_ & H2 & _)]. unfold kMaxIdLength in *. lia. }
  destruct Hp as (_ & Hp & _). unfold kMaxIdLength, kMaxWitnessesPerProfile in *.
  change (zlen (w_counter (qp_generation p))) with 8.
  change (zlen (w_u16 (quorum_mode_code (qp_mode p)))) with 2.
  change (zlen (w_u32 (qp_threshold p))) with 4. change (zlen (w_u32 (qp_min_domains p))) with 4.
  change (zlen (w_u64 (qp_horizon p))) with 8. lia.
Qed.

Lemma decodes_profile_blob p :
  profile_wf p → decodes (r_nested r_profile) p (w_blob (encode_profile p)).
Proof.
  intros Hp. apply decodes_nested; [|by apply decodes_profile].
  pose proof (zlen_profile p Hp). unfold kMaxSnapshotBytes. lia.
Qed.
#[export] Hint Resolve decodes_profile_blob : codec.

(** *** Leases, attestations and bundles *)

Lemma id_valid_length v : id_valid v → zlen v <= 64.
Proof. by intros (_ & Hl & _). Qed.

(** The length of a nested value is far below the bound of a blob. *)
Ltac blob_bound :=
  repeat match goal with
         | H : id_valid ?v |- _ => lazymatch goal with
             | _ : zlen v <= 64 |- _ => fail
             | _ => pose proof (id_valid_length v H) end
         | H : length ?d = 32%nat |- _ => lazymatch goal with
             | _ : zlen d = 32 |- _ => fail
             | _ => assert (zlen d = 32) by (unfold zlen; by rewrite H) end
         end;
  unfold w_outcome, w_digest in *;
  autorewrite with zlen; unfold kMaxSnapshotBytes; lia.

Definition lease_wf (l : Lease) : Prop :=
  id_valid (ls_domain l) ∧ length (ls_scope l) = 32%nat ∧
  words [ls_id l; ls_grant l; ls_epoch l; ls_incarnation l; ls_token l; ls_generation l;
         ls_policy_gen l; ls_valid_from l; ls_valid_until l].

Lemma decodes_lease l : lease_wf l → decodes r_lease l (encode_lease l).
Proof.
  intros Hl. unfold lease_wf in Hl. open_wf. destruct l. unfold r_lease, encode_lease.
  decode_fields.
Qed.

Lemma decodes_lease_blob l : lease_wf l → decodes (r_nested r_lease) l (w_blob (encode_lease l)).
Proof.
  intros Hl. apply decodes_nested; [|by apply decodes_lease].
  unfold lease_wf in Hl. open_wf. unfold encode_lease. blob_bound.
Qed.

Definition attestation_wf (a : WitnessAttestation) : Prop :=
  id_valid (at_witness a) ∧ id_valid (at_domain a) ∧ length (at_scope a) = 32%nat ∧
  clock_wf (at_observed a) ∧
  words [at_epoch a; at_incarnation a; at_token a; at_generation a; at_policy_gen a;
         at_issued a; at_valid_until a; at_sequence a].

Lemma decodes_attestation a :
  attestation_wf a → decodes r_attestation a (encode_attestation a).
Proof.
  intros Ha. unfold attestation_wf in Ha. open_wf. destruct a.
  unfold r_attestation, encode_attestation. decode_fields.
Qed.

Lemma decodes_attestation_blob a : attestation_wf a →
  decodes (r_nested r_attestation) a (w_blob (encode_attestation a)).
Proof.
  intros Ha. apply decodes_nested; [|by apply decodes_attestation].
  unfold attestation_wf in Ha. open_wf.
  unfold encode_attestation, w_wall_clock, w_i64. blob_bound.
Qed.
#[export] Hint Resolve decodes_lease_blob decodes_attestation_blob : codec.

Definition bundle_wf (b : EvidenceBundle) : Prop :=
  id_valid (eb_policy b) ∧ zlen (eb_attestations b) <= kMaxAttestationsPerBundle ∧
  Forall attestation_wf (eb_attestations b) ∧
  (if eb_has_lease b then lease_wf (eb_lease b) else eb_lease b = lease0) ∧
  words [eb_policy_gen b; eb_as_of b; eb_fence_gen b].

Lemma decodes_attestations l :
  zlen l <= kMaxAttestationsPerBundle → Forall attestation_wf l →
  decodes (r_sequence kMaxAttestationsPerBundle (r_nested r_attestation)) l
    (w_sequence (λ a, w_blob (encode_attestation a)) l).
Proof.
  intros Hl Hf. rewrite Forall_forall in Hf.
  apply decodes_sequence; [done|unfold is_u32, kMaxAttestationsPerBundle; lia| |].
  - intros x Hx. by apply decodes_attestation_blob, Hf.
  - intros x Hx. rewrite zlen_blob. pose proof (zlen_nonneg (encode_attestation x)). lia.
Qed.

Lemma decodes_optional {A} (d : reader → result (A * reader)) (o : option A) e :
  (∀ x, o = Some x → decodes d x e) →
  decodes (r_optional d) o (w_optional (bool_decide (is_Some o)) e).
Proof.
  intros Ho. unfold r_optional, w_optional. eapply decodes_bind; [apply decodes_boolean|].
  destruct o as [x|]; rewrite ?bool_decide_true, ?bool_decide_false by (done || by intros []).
  - eapply decodes_bind_last; [by apply Ho|apply decodes_ret].
  - apply decodes_ret.
Qed.

Lemma decodes_bundle b : bundle_wf b → decodes r_bundle b (encode_bundle b).
Proof.
  intros Hb. unfold bundle_wf in Hb. open_wf. destruct b as [p pg ao fg ats has lease].
  unfold r_bundle, encode_bundle.
  do 4 (eapply decodes_bind; [eauto with codec|]).
  eapply decodes_bind; [by apply decodes_attestations|].
  cbn [eb_has_lease eb_lease] in *.
  destruct has; [|subst lease]; eapply decodes_bind_last.
  - apply (decodes_optional _ (Some lease)). intros x [= <-]. by apply decodes_lease_blob.
  - apply decodes_ret.
  - by apply (decodes_optional _ None).
  - apply decodes_ret.
Qed.

(** *** Vectors and decisions *)

Definition vector_wf (v : AuthorityVector) : Prop :=
  (av_domain v = [] ∨ id_valid (av_domain v)) ∧ length (av_scope v) = 32%nat ∧
  words [av_epoch v; av_incarnation v; av_token v; av_grant v; av_sequence v; av_policy_gen v;
         av_evidence_gen v; av_fence_gen v].

(** An optional identifier travels as a text that may be empty. *)
Lemma decodes_optional_id {B} v s (f : bytes → reader → result (B * reader)) y e :
  v = [] ∨ id_valid v → decodes (f v) y e →
  decodes (λ r, let* (t, r) := r_text r in
                let* id := (if id_empty t then Ret [] else of_option (id_try_make t) s) in
                f id r) y (w_text v ++ e).
Proof.
  intros Hv Hf.
  assert (is_u16 (zlen v)) by (destruct Hv as [->|?]; [done|by apply id_valid_u16]).
  eapply decodes_bind; [by apply decodes_text|].
  destruct Hv as [->|Hv]; [exact Hf|].
  pose proof (id_try_make_valid v Hv) as E. destruct v as [|b v]; [done|].
  eapply decodes_pure; [|exact Hf]. cbn [id_empty]. by rewrite E.
Qed.

Lemma decodes_vector v : vector_wf v → decodes r_vector v (encode_vector v).
Proof.
  intros Hv. unfold vector_wf in Hv. open_wf. destruct v. unfold r_vector, encode_vector.
  eapply decodes_optional_id; [done|]. decode_fields.
Qed.

Lemma decodes_vector_blob v :
  vector_wf v → decodes (r_nested r_vector) v (w_blob (encode_vector v)).
Proof.
  intros Hv. apply decodes_nested; [|by apply decodes_vector].
  unfold vector_wf in Hv. open_wf.
  assert (zlen (av_domain v) <= 64) by (destruct H as [->|?]; [done|by apply id_valid_length]).
  unfold encode_vector. blob_bound.
Qed.

Lemma decodes_status_blob s :
  is_u64 (aux s) → decodes (r_nested r_status) s (w_blob (encode_status s)).
Proof.
  intros Hs. apply decodes_nested; [|by apply decodes_status]. unfold encode_status. blob_bound.
Qed.

(** Replaying the codes of a well-formed explanation rebuilds it. *)
Lemma expl_replay e : expl_wf e → foldl expl_add no_explanation (codes e) = e.
Proof.
  intros (Hl & Hd & Hn). destruct e as [l]. simpl in *.
  enough (G : ∀ k m, m ++ k = l → foldl expl_add (mkExplanation m) k = mkExplanation l)
    by by apply (G l []).
  intros k. induction k as [|r k IH]; intros m E; simpl.
  - by rewrite app_nil_r in E; subst.
  - assert (expl_add (mkExplanation m) r = mkExplanation (m ++ [r])) as ->;
      [|apply IH; by rewrite <-app_assoc]. subst l.
    apply NoDup_app in Hd as (_ & Hd & _). rewrite zlen_app in Hl.
    unfold zlen in Hl at 2. simpl length in Hl.
    unfold expl_add, expl_add_b, expl_contains, expl_full. simpl.
    rewrite !bool_decide_false by set_solver.
    destruct (Z.leb_spec kMaxExplanationCodes (zlen m)); [lia|done].
Qed.

Definition ids_wf (bound : Z) (l : list bytes) : Prop := zlen l <= bound ∧ Forall id_valid l.

Lemma decodes_ids bound o l : ids_wf bound l → is_u32 bound →
  decodes (r_sequence bound (r_id o)) l (w_sequence w_text l).
Proof.
  intros [Hl Hf] Hu. rewrite Forall_forall in Hf. apply decodes_sequence; [done..| |].
  - intros x Hx. by apply decodes_id, Hf.
  - intros x Hx. rewrite zlen_text. pose proof (zlen_nonneg x). lia.
Qed.

Lemma decodes_reasons l : zlen l <= kMaxExplanationCodes →
  decodes (r_sequence kMaxExplanationCodes r_reason) l (w_sequence w_reason l).
Proof.
  intros Hl. apply decodes_sequence; [done|unfold is_u32, kMaxExplanationCodes; lia| |].
  - intros x _. apply decodes_reason.
  - intros x _. by rewrite zlen_reason.
Qed.

(** What the arbiter concludes, as far as the wire is concerned. *)
Definition decision_wf (d : AuthorityDecision) : Prop :=
  is_u64 (aux (ad_status d)) ∧ expl_wf (ad_explanation d) ∧ vector_wf (ad_vector d) ∧
  (ad_claim d = [] ∨ id_valid (ad_claim d)) ∧ scope_codable (ad_scope d) ∧
  ids_wf kMaxCompetingClaims (ad_must_fence d) ∧
  ids_wf kMaxExtentsPerScope (ad_fenced_extents d) ∧
  words [ad_valid_from d; ad_valid_until d; ad_sequence d].

#[export] Hint Resolve decodes_status_blob decodes_vector_blob : codec.

Lemma decodes_decision d : decision_wf d → decodes r_decision d (encode_decision d).
Proof.
  intros Hd. unfold decision_wf in Hd. open_wf. unfold r_decision, encode_decision.
  eapply decodes_bind; [apply decodes_verdict|].
  eapply decodes_bind; [eauto with codec|].
  eapply decodes_bind; [apply decodes_reasons; by destruct H0|].
  eapply decodes_bind; [eauto with codec|].
  eapply decodes_optional_id; [done|].
  eapply decodes_bind; [eauto with codec|].
  do 2 (eapply decodes_bind; [eauto with codec|]).
  eapply decodes_bind; [by apply decodes_ids; [|unfold is_u32, kMaxCompetingClaims; lia]|].
  eapply decodes_bind; [by apply decodes_ids; [|unfold is_u32, kMaxExtentsPerScope; lia]|].
  do 2 (eapply decodes_bind; [eauto with codec|]).
  eapply decodes_bind_last; [apply decodes_digest, length_digest|].
  cbv zeta. rewrite expl_replay by done. destruct d.
  apply decodes_guard; [|apply decodes_ret]. apply negb_false_iff, eqb_refl.
Qed.

(** *** The effect record *)

Lemma operation_valid_length o : operation_valid o = true → zlen o <= 256.
Proof. unfold operation_valid, kMaxTextLength. rewrite !andb_true_iff, Z.leb_le. tauto. Qed.

Definition mutation_wf (m : MutationRecord) : Prop :=
  id_valid (mr_domain m) ∧ scope_codable (mr_scope m) ∧ operation_valid (mr_operation m) = true ∧
  length (mr_payload m) = 32%nat ∧ mr_digest m = compute_record_digest m ∧
  words [mr_sequence m; mr_epoch m; mr_incarnation m; mr_grant m; mr_token m; mr_committed m].

(** The digest covers every other field and nothing else. *)
Lemma compute_record_digest_ext m1 m2 :
  mutation_body m1 = mutation_body m2 → compute_record_digest m1 = compute_record_digest m2.
Proof. unfold compute_record_digest. by intros ->. Qed.

Lemma decodes_mutation m : mutation_wf m → decodes r_mutation m (encode_mutation m).
Proof.
  intros Hm. unfold mutation_wf in Hm. open_wf. unfold r_mutation, encode_mutation.
  do 8 (eapply decodes_bind; [eauto with codec|]).
  eapply decodes_bind.
  { apply decodes_text. pose proof (operation_valid_length _ H1).
    pose proof (zlen_nonneg (mr_operation m)). unfold is_u16. lia. }
  apply decodes_guard; [by rewrite H1|].
  eapply decodes_bind; [eauto with codec|].
  assert (length (mr_digest m) = 32%nat) by (rewrite H3; apply length_digest).
  eapply decodes_bind_last; [eauto with codec|].
  cbv zeta. destruct m. apply decodes_guard; [|apply decodes_ret].
  apply negb_false_iff, eqb_eq, H3.
Qed.

Lemma zlen_mutation m : mutation_wf m → zlen (encode_mutation m) <= 17500.
Proof.
  intros Hm. unfold mutation_wf in Hm. open_wf. pose proof (zlen_scope _ H0).
  pose proof (operation_valid_length _ H1).
  assert (length (mr_digest m) = 32%nat) by (rewrite H3; apply length_digest).
  unfold encode_mutation, compute_record_digest in *. blob_bound.
Qed.

(** *** Durable payloads of the registry *)

Definition boot_wf (b : BootRecord) : Prop :=
  id_valid (br_node b) ∧
  words [br_boot b; br_incarnation b; br_started b; br_ended b; br_sequence b].

Lemma decodes_boot_record b : boot_wf b → decodes r_boot_record b (encode_boot_record b).
Proof.
  intros Hb. unfold boot_wf in Hb. open_wf. destruct b.
  unfold r_boot_record, encode_boot_record. decode_fields.
Qed.

(** A grant carries the digest of the scope it carries. *)
Definition grant_codable (g : EpochGrant) : Prop :=
  id_valid (eg_domain g) ∧ scope_codable (eg_extents g) ∧
  eg_scope g = scope_digest (eg_extents g) ∧
  words [eg_id g; eg_attempt g; eg_epoch g; eg_incarnation g; eg_boot g; eg_token g;
         eg_opened g; eg_closed g; eg_sequence g; eg_lineage_gen g; eg_policy_gen g;
         eg_evidence_gen g].

Lemma decodes_grant g : grant_codable g → decodes r_grant g (encode_grant g).
Proof.
  intros Hg. unfold grant_codable in Hg. open_wf. destruct g as [id dom sc ex].
  unfold r_grant, encode_grant. cbn [eg_scope eg_extents] in H1. subst sc.
  do 4 (eapply decodes_bind; [eauto with codec|]).
  apply decodes_guard; [apply negb_false_iff, eqb_refl|].
  decode_fields.
Qed.

Definition interrupt_wf (m : InterruptMark) : Prop :=
  id_valid (im_domain m) ∧
  words [im_grant m; im_epoch m; im_incarnation m; im_boot m; im_marked m].

Lemma decodes_interrupt m : interrupt_wf m → decodes r_interrupt m (encode_interrupt m).
Proof.
  intros Hm. unfold interrupt_wf in Hm. open_wf. destruct m.
  unfold r_interrupt, encode_interrupt. decode_fields.
Qed.

Definition idempotency_wf (e : IdempotencyEntry) : Prop :=
  words [ie_incarnation e; ie_attempt e; ie_epoch e; ie_token e; ie_grant e; ie_valid_until e;
         ie_sequence e].

Lemma decodes_idempotency e :
  idempotency_wf e → decodes r_idempotency e (encode_idempotency e).
Proof.
  intros He. unfold idempotency_wf in He. open_wf. destruct e.
  unfold r_idempotency, encode_idempotency. decode_fields.
Qed.

Definition domain_wf (d : DomainDefinition) : Prop :=
  id_valid (dd_domain d) ∧ id_valid (dd_node d) ∧ id_valid (dd_policy d) ∧
  scope_codable (dd_scope d).

Lemma decodes_domain d : domain_wf d → decodes r_domain d (encode_domain d).
Proof.
  intros Hd. unfold domain_wf in Hd. open_wf. destruct d.
  unfold r_domain, encode_domain. decode_fields.
Qed.

Definition arbiter_policy_wf (p : ArbiterPolicy) : Prop :=
  id_valid (ap_policy p) ∧ profile_wf (ap_quorum p) ∧
  words [ap_generation p; ap_lease_horizon p].

Lemma decodes_policy p : arbiter_policy_wf p → decodes r_policy p (encode_policy p).
Proof.
  intros Hp. unfold arbiter_policy_wf in Hp. open_wf. destruct p.
  unfold r_policy, encode_policy. decode_fields.
Qed.

Definition extent_state_wf (s : ExtentFenceState) : Prop :=
  id_valid (es_extent s) ∧
  words [es_token s; es_epoch s; es_owner s; es_grant s; es_updated s].

Lemma decodes_extent_state s :
  extent_state_wf s → decodes r_extent_state s (encode_extent_state s).
Proof.
  intros Hs. unfold extent_state_wf in Hs. open_wf. destruct s.
  unfold r_extent_state, encode_extent_state. decode_fields.
Qed.

Definition fence_payload_wf (f : FenceRecord) (scope : Scope) : Prop :=
  id_valid (fr_domain f) ∧ scope_codable scope ∧ fr_scope f = scope_digest scope ∧
  words [fr_token f; fr_epoch f; fr_incarnation f; fr_issued_at f; fr_superseded f;
         fr_sequence f; fr_previous f].

Lemma decodes_fence_payload f scope : fence_payload_wf f scope →
  decodes r_fence_payload (f, scope) (encode_fence_payload f scope).
Proof.
  intros Hf. unfold fence_payload_wf in Hf. open_wf. destruct f as [tok dom sc].
  unfold r_fence_payload, encode_fence_payload. cbn [fr_scope] in H1. subst sc.
  do 4 (eapply decodes_bind; [eauto with codec|]).
  apply decodes_guard; [apply negb_false_iff, eqb_refl|].
  decode_fields.
Qed.

Module Codecs.

(** Every durable payload of the registry journal decodes back to itself. *)
Theorem payload_roundtrip b g m e d p s f scope :
  boot_wf b → grant_codable g → interrupt_wf m → idempotency_wf e → domain_wf d →
  arbiter_policy_wf p → extent_state_wf s → fence_payload_wf f scope →
  decode_all r_boot_record (encode_boot_record b) = Ret b ∧
  decode_all r_grant (encode_grant g) = Ret g ∧
  decode_all r_interrupt (encode_interrupt m) = Ret m ∧
  decode_all r_idempotency (encode_idempotency e) = Ret e ∧
  decode_all r_domain (encode_domain d) = Ret d ∧
  decode_all r_policy (encode_policy p) = Ret p ∧
  decode_all r_extent_state (encode_extent_state s) = Ret s ∧
  decode_all r_fence_payload (encode_fence_payload f scope) = Ret (f, scope).
Proof.
  intros. split_and!; apply decodes_all.
  - by apply decodes_boot_record.
  - by apply decodes_grant.
  - by apply decodes_interrupt.
  - by apply decodes_idempotency.
  - by apply decodes_domain.
  - by apply decodes_policy.
  - by apply decodes_extent_state.
  - by apply decodes_fence_payload.
Qed.

(** An effect record decodes back to itself, and nothing decodes to a record
    whose digest does not cover its own fields. *)
Theorem mutation_bound_to_digest :
  (∀ m, mutation_wf m → decode_all r_mutation (encode_mutation m) = Ret m) ∧
  (∀ data m, decode_all r_mutation data = Ret m →
     mr_digest m = compute_record_digest m ∧ operation_valid (mr_operation m) = true).
Proof.
  split; [intros m Hm; by apply decodes_all, decodes_mutation|].
  intros data m E. unfold decode_all in E.
  destruct (r_mutation _) as [[m' r]|] eqn:Em; [|done].
  destruct (finish r); [|done]. injection E as ->. unfold r_mutation in Em.
  repeat match type of Em with
         | context [match ?d with Ret _ => _ | Err _ => _ end] =>
             destruct d as [[? ?]|]; [|discriminate Em]
         end.
  destruct (operation_valid _) eqn:Eo; [|discriminate Em]. simpl in Em.
  repeat match type of Em with
         | context [match ?d with Ret _ => _ | Err _ => _ end] =>
             destruct d as [[? ?]|]; [|discriminate Em]
         end.
  destruct (eqb _ _) eqn:Ed; [|discriminate Em]. simpl in Em.
  injection Em as <- <-. split; [|exact Eo]. by apply eqb_eq.
Qed.

(** A decision survives the wire with its whole explanation, vector, scope and
    fence lists. *)
Theorem decision_roundtrip d :
  decision_wf d → decode_all r_decision (encode_decision d) = Ret d.
Proof. intros Hd. by apply decodes_all, decodes_decision. Qed.

(** ** Concrete payloads *)

Ltac solve_words := repeat constructor; unfold is_u64; simpl; lia.
Ltac solve_id := split; [discriminate|split; [vm_compute; discriminate|vm_compute; reflexivity]].

Definition scope_a : Scope := [str "a"].
Definition domain_a : DomainDefinition := mkDomain (str "d") (str "n") scope_a (str "p") true.
Definition boot_a : BootRecord := mkBoot 1 7 (str "n") 1 0 false false 2.
Definition grant_a : EpochGrant :=
  mkGrant 3 (str "d") (scope_digest scope_a) scope_a 1 4 7 1 9 50 0 GrantOpen 5 1 1 1 Reason.None.
Definition interrupt_a : InterruptMark := mkInterrupt 3 (str "d") 4 7 1 60 Reason.ExtentFenced.
Definition entry_a : IdempotencyEntry := mkIdempotency 7 1 4 9 3 70 5.
Definition policy_a : ArbiterPolicy :=
  mkPolicy (str "p") 1 Quorum.profile3 true false true true true 1000.
Definition extent_a : ExtentFenceState := mkExtentState (str "a") 9 4 7 3 50.
Definition fence_a : FenceRecord :=
  mkFenceRecord 9 (str "d") (scope_digest scope_a) 4 7 Reason.ExtentFenced 50 8 6 3.
Definition decision_a : AuthorityDecision :=
  mkDecision VFenced (fail0 Outcome.Fenced Reason.ExtentFenced)
    (expl_add no_explanation Reason.ExtentFenced)
    (mkVector (str "d") (scope_digest scope_a) 4 7 9 3 5 1 1 1) (str "c") scope_a 50 60
    [str "x"] [str "a"] 5 true.

Lemma scope_a_codable : scope_codable scope_a.
Proof.
  right. split; [discriminate|]. split; [vm_compute; discriminate|].
  split; [repeat constructor|]. constructor; [solve_id|constructor].
Qed.

Lemma payload_roundtrip_witness :
  decode_all r_grant (encode_grant grant_a) = Ret grant_a ∧
  decode_all r_fence_payload (encode_fence_payload fence_a scope_a) = Ret (fence_a, scope_a).
Proof.
  destruct (payload_roundtrip boot_a grant_a interrupt_a entry_a domain_a policy_a extent_a fence_a
              scope_a) as (_ & E1 & _ & _ & _ & _ & _ & E2).
  - split; [solve_id|solve_words].
  - split; [solve_id|]. split; [apply scope_a_codable|]. split; [reflexivity|solve_words].
  - split; [solve_id|solve_words].
  - solve_words.
  - repeat (split; [solve_id|]). apply scope_a_codable.
  - split; [solve_id|]. split; [|solve_words].
    split; [solve_id|]. split; [unfold is_u64; simpl; lia|]. split; [vm_compute; discriminate|].
    split; [|unfold is_u32, is_u64; simpl; lia].
    repeat (apply Forall_cons; split; [split; solve_id|]). constructor.
  - split; [solve_id|solve_words].
  - split; [solve_id|]. split; [apply scope_a_codable|]. split; [reflexivity|solve_words].
  - split; [exact E1|exact E2].
Defined.

Lemma decision_roundtrip_witness :
  decode_all r_decision (encode_decision decision_a) = Ret decision_a.
Proof.
  apply decision_roundtrip. split; [unfold is_u64; simpl; lia|].
  split; [apply expl_add_wf, expl_wf_empty|].
  split. { split; [right; solve_id|]. split; [apply length_digest|solve_words]. }
  split; [right; solve_id|]. split; [apply scope_a_codable|].
  split; [split; [vm_compute; discriminate|constructor; [solve_id|constructor]]|].
  split; [split; [vm_compute; discriminate|constructor; [solve_id|constructor]]|solve_words].
Defined.
End Codecs.
