(* ===== verification/Readers.v ===== *)
(** * Readers report their failures

    Every reader of the canonical format that refuses does so with a status that
    is not a success, so a caller that tests [is_ok] never goes on with a value
    that was not read.  [honest] is closed under the constructs the codecs are
    made of; the durable payloads follow field by field. *)
From S2P Require Import Prelude Order Status Ids Text Digest Canonical Scope.
From S2P Require Import Fence Lineage Evidence Arbiter Codec.
Open Scope Z_scope.

Definition honest {A} (d : reader → result (A * reader)) : Prop :=
  ∀ r st, d r = Err st → is_ok st = false.

Section honest_rules.
Context {A B : Type}.

Lemma honest_bind (d : reader → result (A * reader)) (f : A → reader → result (B * reader)) :
  honest d → (∀ x, honest (f x)) → honest (λ r, let* (x, r) := d r in f x r).
Proof.
  intros Hd Hf r st. destruct (d r) as [[x r']|e] eqn:E; [apply Hf|].
  intros [= <-]. by eapply Hd.
Qed.

Lemma honest_ret (x : A) : honest (λ r, Ret (x, r)).
Proof. done. Qed.

Lemma honest_guard (c : bool) (s : Status) (f : reader → result (A * reader)) : is_ok s = false → honest f →
  honest (λ r, if c then Err s else f r).
Proof. intros Hs Hf r st. destruct c; [by intros [= <-]|apply Hf]. Qed.

End honest_rules.

Lemma honest_repeat {A} n (d : reader → result (A * reader)) : honest d → honest (r_repeat n d).
Proof.
  intros Hd. induction n as [|n IH]; [done|]. cbn [r_repeat]. apply honest_bind; [done|]. intros x.
  apply honest_bind; [done|]. intros l. apply honest_ret.
Qed.
Lemma honest_u8 : honest r_u8.
Proof. intros [? ?] st. unfold r_u8. repeat case_match; naive_solver. Qed.
Lemma honest_u16 : honest r_u16.
Proof. intros [? ?] st. unfold r_u16. repeat case_match; naive_solver. Qed.
Lemma honest_u32 : honest r_u32.
Proof. intros [? ?] st. unfold r_u32. repeat case_match; naive_solver. Qed.
Lemma honest_bytes n : honest (r_bytes n).
Proof. intros r st. unfold r_bytes. case_match; naive_solver. Qed.

Create HintDb honest.
#[export] Hint Resolve honest_u8 honest_u16 honest_u32 honest_bytes honest_ret honest_repeat : honest.

Ltac honest_step :=
  lazymatch goal with
  | |- ∀ _, _ => intros ?
  | |- honest (λ r, match ?m with Ret _ => _ | Err _ => _ end) => apply honest_bind
  | |- honest (λ r, if _ then Err _ else _) => apply honest_guard; [reflexivity|]
  | |- honest _ => solve [eauto with honest]
  end.

Lemma honest_u64 : honest r_u64.
Proof. unfold r_u64. repeat honest_step. Qed.
Lemma honest_boolean : honest r_boolean.
Proof. unfold r_boolean. repeat honest_step. Qed.
Lemma honest_text : honest r_text.
Proof. unfold r_text. repeat honest_step. Qed.
Lemma honest_blob : honest r_blob.
Proof. unfold r_blob. repeat honest_step. Qed.
Lemma honest_digest : honest r_digest.
Proof. apply honest_bytes. Qed.
Lemma honest_reason : honest r_reason.
Proof. unfold r_reason. repeat honest_step. intros r st. case_match; naive_solver. Qed.
Lemma honest_count n : honest (r_count n).
Proof. unfold r_count. repeat honest_step. intros r st. repeat case_match; naive_solver. Qed.
Lemma honest_id o : o ≠ Outcome.Ok → honest (r_id o).
Proof.
  intros Ho. unfold r_id. apply honest_bind; [apply honest_text|]. intros v r st.
  case_match; intros [= <-]. by destruct o.
Qed.
Lemma honest_id2 o : o ≠ Outcome.Ok → honest (r_id2 o).
Proof.
  intros Ho. unfold r_id2. do 2 (apply honest_bind; [apply honest_text|]; intros ?). intros r st.
  repeat case_match; intros [= <-]; by destruct o.
Qed.
Lemma honest_enum {A} (f : Z → option A) o : o ≠ Outcome.Ok → honest (r_enum f o).
Proof.
  intros Ho. unfold r_enum. apply honest_bind; [apply honest_u16|]. intros v r st.
  case_match; intros [= <-]. by destruct o.
Qed.

Lemma honest_all {A} (d : reader → result (A * reader)) data st : honest d →
  decode_all d data = Err st → is_ok st = false.
Proof.
  intros Hd. unfold decode_all, finish. destruct (d _) as [[x r]|e] eqn:E.
  - destruct (negb _); by intros [= <-].
  - intros [= <-]. by eapply Hd.
Qed.

Lemma honest_nested {A} (d : reader → result (A * reader)) : honest d → honest (r_nested d).
Proof.
  intros Hd. unfold r_nested. apply honest_bind; [apply honest_blob|]. intros b r st.
  destruct (decode_all d b) eqn:E; [done|]. intros [= <-]. by eapply honest_all.
Qed.

Lemma honest_sequence {A} n (d : reader → result (A * reader)) : honest d → honest (r_sequence n d).
Proof.
  intros Hd. unfold r_sequence. apply honest_bind; [apply honest_count|]. intros x.
  by apply honest_repeat.
Qed.

#[export] Hint Resolve honest_u64 honest_boolean honest_text honest_digest honest_reason
  honest_nested honest_sequence : honest.
#[export] Hint Extern 1 (honest (r_id _)) => by apply honest_id : honest.
#[export] Hint Extern 1 (honest (r_id2 _)) => by apply honest_id2 : honest.
#[export] Hint Extern 1 (honest (r_enum _ _)) => by apply honest_enum : honest.
#[export] Hint Extern 1 (honest r_counter) => apply honest_u64 : honest.

Lemma honest_mode : honest read_mode.
Proof. by apply honest_enum. Qed.
Lemma honest_verdict : honest read_verdict.
Proof. by apply honest_enum. Qed.
Lemma honest_quorum_mode : honest read_quorum_mode.
Proof. by apply honest_enum. Qed.
#[export] Hint Resolve honest_mode honest_verdict honest_quorum_mode : honest.

Lemma scope_make_not_ok l st : scope_make l = Err st → is_ok st = false.
Proof. unfold scope_make. repeat case_match; naive_solver. Qed.

(** *** The durable payloads *)

Lemma honest_scope : honest r_scope.
Proof.
  unfold r_scope. apply honest_bind; [eauto with honest|]. intros l r st.
  destruct l as [|x l]; [done|]. destruct (scope_make (x :: l)) eqn:E; [done|].
  intros [= <-]. by eapply scope_make_not_ok.
Qed.

Lemma honest_slot : honest r_slot.
Proof. unfold r_slot. repeat honest_step. Qed.
#[export] Hint Resolve honest_scope honest_slot : honest.

Lemma honest_profile : honest r_profile.
Proof. unfold r_profile. repeat honest_step. Qed.
#[export] Hint Resolve honest_profile : honest.

Lemma honest_boot : honest r_boot_record.
Proof. unfold r_boot_record. repeat honest_step. Qed.
Lemma honest_grant : honest r_grant.
Proof. unfold r_grant. repeat honest_step. Qed.
Lemma honest_interrupt : honest r_interrupt.
Proof. unfold r_interrupt. repeat honest_step. Qed.
Lemma honest_idempotency : honest r_idempotency.
Proof. unfold r_idempotency. repeat honest_step. Qed.
Lemma honest_domain : honest r_domain.
Proof. unfold r_domain. repeat honest_step. Qed.
Lemma honest_policy : honest r_policy.
Proof. unfold r_policy. repeat honest_step. Qed.
Lemma honest_extent_state : honest r_extent_state.
Proof. unfold r_extent_state. repeat honest_step. Qed.
Lemma honest_fence_payload : honest r_fence_payload.
Proof. unfold r_fence_payload. repeat honest_step. Qed.

#[export] Hint Resolve honest_boot honest_grant honest_interrupt honest_idempotency honest_domain
  honest_policy honest_extent_state honest_fence_payload : honest.

(** A word read is a word. *)
Lemma lor_u64 a b : is_u64 a → is_u64 b → is_u64 (Z.lor a b).
Proof.
  unfold is_u64. intros Ha Hb. assert (0 <= Z.lor a b) by (apply Z.lor_nonneg; lia).
  split; [done|]. destruct (decide (Z.lor a b = 0)) as [->|]; [lia|].
  assert (L : ∀ z, 0 <= z < 2 ^ 64 → Z.log2 z < 64).
  { intros z Hz. destruct (decide (z = 0)) as [->|]; [reflexivity|]. apply Z.log2_lt_pow2; lia. }
  apply Z.log2_lt_pow2; [lia|]. rewrite Z.log2_lor by lia. apply Z.max_lub_lt; by apply L.
Qed.

Lemma r_u64_word r v r' : r_u64 r = Ret (v, r') → is_u64 v.
Proof.
  unfold r_u64. destruct (r_u32 r) as [[low r1]|] eqn:E; [|done].
  destruct (r_u32 r1) as [[high r2]|]; [|done]. intros [= <- _]. apply lor_u64; [|apply u64_is].
  revert E. unfold r_u32. destruct r as [at_ rest].
  destruct rest as [|b0 [|b1 [|b2 [|b3 rest]]]]; cbn; try done. intros [= <- _].
  pose proof (le32_range b0 b1 b2 b3). unfold is_u32, is_u64 in *. lia.
Qed.
