(* ===== verification/Wire.v ===== *)
(** * The framed message stream

    Models [include/sbf/protocol.hpp] and [src/protocol.cpp] up to the payload
    codecs: message types, frame headers, [encode_frame], the incremental
    [FrameDecoder] and the session binding.  The decoder's buffer is the list of
    the bytes received and not yet consumed. *)
From S2P Require Import Prelude Order Status Ids Text Digest Canonical.
Open Scope Z_scope.

(** ** [enum class MessageType : std::uint16_t] *)
Module MessageType.
Inductive MessageType : Set :=
  | Invalid | HelloRequest | HelloResponse | PingRequest | PingResponse | ShutdownRequest
  | ShutdownResponse | ErrorResponse | DefineDomainRequest | DefineDomainResponse
  | DefinePolicyRequest | DefinePolicyResponse | AllocateEpochRequest
  | AllocateEpochResponse | DecideRequest | DecideResponse | CommitRequest | CommitResponse
  | FenceRequest | FenceResponse | ReleaseRequest | ReleaseResponse | InspectRequest
  | InspectResponse | PlanRequest | PlanResponse | AttestRequest | AttestResponse
  | WitnessStatusRequest | WitnessStatusResponse.

Definition code (t : MessageType) : Z :=
  match t with
  | Invalid => 0 | HelloRequest => 1 | HelloResponse => 2 | PingRequest => 3
  | PingResponse => 4 | ShutdownRequest => 5 | ShutdownResponse => 6 | ErrorResponse => 7
  | DefineDomainRequest => 20 | DefineDomainResponse => 21 | DefinePolicyRequest => 22
  | DefinePolicyResponse => 23 | AllocateEpochRequest => 40 | AllocateEpochResponse => 41
  | DecideRequest => 42 | DecideResponse => 43 | CommitRequest => 44 | CommitResponse => 45
  | FenceRequest => 46 | FenceResponse => 47 | ReleaseRequest => 48 | ReleaseResponse => 49
  | InspectRequest => 50 | InspectResponse => 51 | PlanRequest => 52 | PlanResponse => 53
  | AttestRequest => 80 | AttestResponse => 81 | WitnessStatusRequest => 82
  | WitnessStatusResponse => 83
  end.

Definition of_code (raw : Z) : option MessageType :=
  match raw with
  | 0 => Some Invalid | 1 => Some HelloRequest | 2 => Some HelloResponse
  | 3 => Some PingRequest | 4 => Some PingResponse | 5 => Some ShutdownRequest
  | 6 => Some ShutdownResponse | 7 => Some ErrorResponse | 20 => Some DefineDomainRequest
  | 21 => Some DefineDomainResponse | 22 => Some DefinePolicyRequest
  | 23 => Some DefinePolicyResponse | 40 => Some AllocateEpochRequest
  | 41 => Some AllocateEpochResponse | 42 => Some DecideRequest | 43 => Some DecideResponse
  | 44 => Some CommitRequest | 45 => Some CommitResponse | 46 => Some FenceRequest
  | 47 => Some FenceResponse | 48 => Some ReleaseRequest | 49 => Some ReleaseResponse
  | 50 => Some InspectRequest | 51 => Some InspectResponse | 52 => Some PlanRequest
  | 53 => Some PlanResponse | 80 => Some AttestRequest | 81 => Some AttestResponse
  | 82 => Some WitnessStatusRequest | 83 => Some WitnessStatusResponse | _ => None
  end.

Definition to_string (t : MessageType) : bytes :=
  match t with
  | Invalid => str "Invalid" | HelloRequest => str "HelloRequest"
  | HelloResponse => str "HelloResponse" | PingRequest => str "PingRequest"
  | PingResponse => str "PingResponse" | ShutdownRequest => str "ShutdownRequest"
  | ShutdownResponse => str "ShutdownResponse" | ErrorResponse => str "ErrorResponse"
  | DefineDomainRequest => str "DefineDomainRequest"
  | DefineDomainResponse => str "DefineDomainResponse"
  | DefinePolicyRequest => str "DefinePolicyRequest"
  | DefinePolicyResponse => str "DefinePolicyResponse"
  | AllocateEpochRequest => str "AllocateEpochRequest"
  | AllocateEpochResponse => str "AllocateEpochResponse"
  | DecideRequest => str "DecideRequest" | DecideResponse => str "DecideResponse"
  | CommitRequest => str "CommitRequest" | CommitResponse => str "CommitResponse"
  | FenceRequest => str "FenceRequest" | FenceResponse => str "FenceResponse"
  | ReleaseRequest => str "ReleaseRequest" | ReleaseResponse => str "ReleaseResponse"
  | InspectRequest => str "InspectRequest" | InspectResponse => str "InspectResponse"
  | PlanRequest => str "PlanRequest" | PlanResponse => str "PlanResponse"
  | AttestRequest => str "AttestRequest" | AttestResponse => str "AttestResponse"
  | WitnessStatusRequest => str "WitnessStatusRequest"
  | WitnessStatusResponse => str "WitnessStatusResponse"
  end.

(** [message_type_valid]. *)
Definition valid (raw : Z) : bool := match of_code raw with Some _ => true | None => false end.

Lemma message_of_code t : of_code (code t) = Some t.
Proof. by destruct t. Qed.

Lemma code_of_code raw t : of_code raw = Some t → code t = raw.
Proof. unfold of_code. intros. repeat case_match; naive_solver. Qed.

Lemma message_code_range t : 0 <= code t <= 83.
Proof. by destruct t. Qed.

Lemma message_valid_code t : valid (code t) = true.
Proof. unfold valid. by rewrite message_of_code. Qed.
End MessageType.
Abbreviation MessageType := MessageType.MessageType.

#[export] Instance message_type_eq_dec : EqDecision MessageType.
Proof. solve_decision. Defined.

(** ** Frames *)

Definition kFrameMagic : Z := 0x31464253.
Definition kFrameVersion : Z := 1.

Record FrameHeader := mkFrameHeader {
  fh_magic : Z;
  fh_version : Z;
  fh_type : MessageType;
  fh_flags : Z;
  fh_request_id : Z;
  fh_payload_length : Z;
  fh_header_crc : Z;
  fh_payload_crc : Z
}.

Record Frame := mkFrame { fr_header : FrameHeader; fr_payload : bytes }.

Definition validate_frame_header (h : FrameHeader) : Status :=
  if negb (fh_magic h =? kFrameMagic)
  then mkStatus Outcome.Invalid Reason.BadMagic (fh_magic h)
  else if negb (fh_version h =? kFrameVersion)
  then mkStatus Outcome.Unsupported Reason.UnsupportedVersion (fh_version h)
  else if negb (MessageType.valid (MessageType.code (fh_type h)))
  then mkStatus Outcome.Invalid Reason.InvalidEnum (MessageType.code (fh_type h))
  else status_ok.

(** The 24 bytes the header checksum covers. *)
Definition header_body (f : Frame) : bytes :=
  let h := fr_header f in
  put_u32 (fh_magic h) ++ put_u16 (fh_version h) ++ put_u16 (MessageType.code (fh_type h)) ++
  put_u32 (fh_flags h) ++ put_u64 (fh_request_id h) ++ put_u32 (u32 (zlen (fr_payload f))).

Definition encode_frame (f : Frame) : bytes :=
  let out := header_body f in
  out ++ put_u32 (crc32c out) ++ put_u32 (crc32c (fr_payload f)) ++ fr_payload f.

(** [read_u16], [read_u32], [read_u64]: from the front of the bytes at [p]; the
    decoder only reads inside a complete header. *)
Definition read_u16 (p : bytes) : Z :=
  match p with
  | b0 :: b1 :: _ => Z.lor (byte_to_Z b0) (u16 (Z.shiftl (byte_to_Z b1) 8))
  | _ => 0
  end.

Definition read_u32 (p : bytes) : Z :=
  match p with
  | b0 :: b1 :: b2 :: b3 :: _ => le32 b0 b1 b2 b3
  | _ => 0
  end.

Definition read_u64 (p : bytes) : Z :=
  Z.lor (read_u32 p) (u64 (Z.shiftl (read_u32 (drop 4 p)) 32)).

(** ** [class FrameDecoder] *)

(** One turn of the decoder's loop: it stops for more bytes, refuses the stream,
    or takes one frame off the front of the buffer. *)
Inductive turn := NeedMore | Malformed (why : Status) | Complete (f : Frame) (rest : bytes).

Definition next_frame (max_payload : Z) (buffer : bytes) : turn :=
  if zlen buffer <? kFrameHeaderBytes then NeedMore else
  let magic := read_u32 buffer in
  let version := read_u16 (drop 4 buffer) in
  let type_raw := read_u16 (drop 6 buffer) in
  let flags := read_u32 (drop 8 buffer) in
  let request_id := read_u64 (drop 12 buffer) in
  let payload_length := read_u32 (drop 20 buffer) in
  let header_crc := read_u32 (drop 24 buffer) in
  let payload_crc := read_u32 (drop 28 buffer) in
  if negb (magic =? kFrameMagic)
  then Malformed (mkStatus Outcome.Invalid Reason.BadMagic magic) else
  if negb (version =? kFrameVersion)
  then Malformed (mkStatus Outcome.Unsupported Reason.UnsupportedVersion version) else
  match MessageType.of_code type_raw with
  | None => Malformed (mkStatus Outcome.Invalid Reason.InvalidEnum type_raw)
  | Some type_ =>
      if max_payload <? payload_length
      then Malformed (mkStatus Outcome.Exhausted Reason.OversizedPayload payload_length) else
      if negb (crc32c (take 24 buffer) =? header_crc)
      then Malformed (mkStatus Outcome.Corrupt Reason.IntegrityMismatch 24) else
      let size := u32 (kFrameHeaderBytes + payload_length) in
      if zlen buffer <? size then NeedMore else
      let payload := take (Z.to_nat payload_length) (drop 32 buffer) in
      if negb (crc32c payload =? payload_crc)
      then Malformed (mkStatus Outcome.Corrupt Reason.IntegrityMismatch 28) else
      Complete (mkFrame (mkFrameHeader magic version type_ flags request_id payload_length
                           header_crc payload_crc) payload)
               (drop (Z.to_nat size) buffer)
  end.

Record FrameDecoder := mkDecoder {
  fd_buffer : bytes;
  fd_max_payload : Z;
  fd_poisoned : bool;
  fd_failure : Status
}.

Definition decoder (max_payload : Z) : FrameDecoder := mkDecoder [] max_payload false status_ok.

Definition poison (d : FrameDecoder) (why : Status) : FrameDecoder :=
  mkDecoder [] (fd_max_payload d) true why.

Definition reset (d : FrameDecoder) : FrameDecoder :=
  mkDecoder [] (fd_max_payload d) false status_ok.

Definition buffered (d : FrameDecoder) : Z := zlen (fd_buffer d).

(** The loop of [push]: the frames completed, the bytes left and the failure. *)
Fixpoint drain (fuel : nat) (max_payload : Z) (buffer : bytes)
  : list Frame * bytes * option Status :=
  match fuel with
  | O => ([], buffer, None)
  | S fuel =>
      match next_frame max_payload buffer with
      | NeedMore => ([], buffer, None)
      | Malformed why => ([], buffer, Some why)
      | Complete f rest =>
          let '(out, kept, st) := drain fuel max_payload rest in (f :: out, kept, st)
      end
  end.

Definition push (d : FrameDecoder) (chunk : bytes) : FrameDecoder * list Frame * Status :=
  if fd_poisoned d then (d, [], fail0 Outcome.Invalid Reason.StickyFailure) else
  let buffer := fd_buffer d ++ chunk in
  let '(out, kept, st) := drain (S (length buffer)) (fd_max_payload d) buffer in
  match st with
  | Some why => (poison d why, out, why)
  | None =>
      if u32 (kFrameHeaderBytes + fd_max_payload d) <? zlen kept
      then let why := mkStatus Outcome.Exhausted Reason.OversizedPayload (zlen kept) in
           (poison d why, out, why)
      else (mkDecoder kept (fd_max_payload d) false (fd_failure d), out, status_ok)
  end.

Definition decode_frame (data : bytes) (max_payload : Z) : result Frame :=
  let '(_, frames, st) := push (decoder max_payload) data in
  if negb (is_ok st) then Err st
  else match frames with
       | [f] => Ret f
       | _ => Err (mkStatus Outcome.Invalid Reason.TruncatedFrame (zlen frames))
       end.

(** ** The session binding *)

Inductive ClientKind : Set := Coordinator | Observer | Witness | Operator.

#[export] Instance client_kind_eq_dec : EqDecision ClientKind.
Proof. solve_decision. Defined.

Definition client_kind_code (k : ClientKind) : Z :=
  match k with Coordinator => 0 | Observer => 1 | Witness => 2 | Operator => 3 end.

Definition client_kind_of_code (raw : Z) : option ClientKind :=
  match raw with
  | 0 => Some Coordinator | 1 => Some Observer | 2 => Some Witness | 3 => Some Operator
  | _ => None
  end.

Definition client_kind_to_string (k : ClientKind) : bytes :=
  match k with
  | Coordinator => str "Coordinator" | Observer => str "Observer"
  | Witness => str "Witness" | Operator => str "Operator"
  end.

Record SessionBinding := mkBinding {
  sb_session : Z;
  sb_node : NodeId;
  sb_boot : BootId;
  sb_incarnation : IncarnationId;
  sb_kind : ClientKind;
  sb_last_request : Z;
  sb_accepted_requests : Sequence
}.

Record RequestEnvelope := mkEnvelope {
  en_session : Z;
  en_node : NodeId;
  en_boot : BootId;
  en_incarnation : IncarnationId
}.

Definition validate_against (e : RequestEnvelope) (binding : SessionBinding) : Status :=
  if is_none (en_session e) || negb (en_session e =? sb_session binding)
  then mkStatus Outcome.Invalid Reason.SessionMismatch (en_session e)
  else if negb (eqb (en_node e) (sb_node binding))
  then mkStatus Outcome.Invalid Reason.SessionMismatch 1
  else if negb (en_boot e =? sb_boot binding)
  then mkStatus Outcome.Invalid Reason.SessionMismatch 2
  else if negb (en_incarnation e =? sb_incarnation binding)
  then mkStatus Outcome.Invalid Reason.SessionMismatch 3
  else status_ok.

(** ** Reading what was written, writing what was read *)

Lemma word_put_u32 v tl : is_u32 v → read_u32 (put_u32 v ++ tl) = v.
Proof.
  intros Hv. pose proof (decodes_u32 v Hv 0 tl) as E. unfold r_u32, w_u32, put_u32 in *.
  cbn [rd_rest app] in *. by injection E.
Qed.

Lemma read_put_u16 v tl : is_u16 v → read_u16 (put_u16 v ++ tl) = v.
Proof.
  intros Hv. pose proof (decodes_u16 v Hv 0 tl) as E. unfold r_u16, w_u16, put_u16 in *.
  cbn [rd_rest app] in *. by injection E.
Qed.

Lemma read_put_u64 v tl : is_u64 v → read_u64 (put_u64 v ++ tl) = v.
Proof.
  intros Hv. pose proof (decodes_u64 v Hv 0 tl) as E.
  unfold r_u64, r_u32, w_u64, put_u64, put_u32 in *. cbn [rd_rest rd_offset app] in *.
  unfold read_u64, read_u32. cbn [drop app]. by injection E.
Qed.

Lemma read_u16_range b0 b1 tl : is_u16 (read_u16 (b0 :: b1 :: tl)) ∧
  read_u16 (b0 :: b1 :: tl) = byte_to_Z b0 + byte_to_Z b1 * 256.
Proof.
  unfold read_u16, is_u16, u16. pose proof (byte_to_Z_range b0). pose proof (byte_to_Z_range b1).
  rewrite Z.mod_small by (rewrite Z.shiftl_mul_pow2 by lia; lia).
  rewrite lor_shiftl_add by lia. lia.
Qed.

Lemma put_read_u16 b0 b1 tl : put_u16 (read_u16 (b0 :: b1 :: tl)) = [b0; b1].
Proof.
  destruct (read_u16_range b0 b1 tl) as [Hr E]. set (v := read_u16 _) in *.
  destruct (read_u16_range (byte_of_Z (Z.land v 255)) (byte_of_Z (Z.land (Z.shiftr v 8) 255)) [])
    as [_ E'].
  assert (R : read_u16 (put_u16 v) = v) by (rewrite <-(app_nil_r (put_u16 v)); by apply read_put_u16).
  unfold put_u16 in *. rewrite R in E'.
  pose proof (byte_to_Z_range b0). pose proof (byte_to_Z_range b1).
  pose proof (byte_to_Z_range (byte_of_Z (Z.land v 255))).
  pose proof (byte_to_Z_range (byte_of_Z (Z.land (Z.shiftr v 8) 255))).
  do 2 f_equal; [|f_equal]; apply (inj byte_to_Z); lia.
Qed.

Lemma put_read_u32 b0 b1 b2 b3 tl : put_u32 (read_u32 (b0 :: b1 :: b2 :: b3 :: tl)) = [b0; b1; b2; b3].
Proof.
  cbn [read_u32]. pose proof (word_put_u32 _ [] (le32_range b0 b1 b2 b3)) as R. revert R.
  unfold put_u32. cbn [read_u32 app]. intros (-> & -> & -> & ->)%le32_inj. done.
Qed.

Lemma put_read_u64 b0 b1 b2 b3 b4 b5 b6 b7 tl :
  put_u64 (read_u64 (b0 :: b1 :: b2 :: b3 :: b4 :: b5 :: b6 :: b7 :: tl)) =
    [b0; b1; b2; b3; b4; b5; b6; b7] ∧
  is_u64 (read_u64 (b0 :: b1 :: b2 :: b3 :: b4 :: b5 :: b6 :: b7 :: tl)).
Proof.
  unfold read_u64. cbn [drop read_u32].
  pose proof (le32_range b0 b1 b2 b3) as Hl. pose proof (le32_range b4 b5 b6 b7) as Hh.
  pose proof (put_read_u32 b0 b1 b2 b3 []) as El. pose proof (put_read_u32 b4 b5 b6 b7 []) as Eh.
  cbn [read_u32] in *. set (lo := le32 b0 b1 b2 b3) in *. set (hi := le32 b4 b5 b6 b7) in *.
  unfold is_u32 in *. rewrite u64_id by (unfold is_u64; rewrite Z.shiftl_mul_pow2; lia).
  rewrite lor_shiftl_add by lia. split; [|unfold is_u64; lia].
  unfold put_u64. change 0xFFFFFFFF with (Z.ones 32). rewrite !Z.land_ones by lia.
  rewrite Z.shiftr_div_pow2 by lia. unfold u32. rewrite !Z.mod_mod by lia.
  rewrite Z.div_add, Z.mod_add, (Z.div_small lo) by lia. rewrite !Z.mod_small by lia.
  by rewrite Z.add_0_l, El, Eh.
Qed.

(** ** One turn of the decoder *)

#[local] Opaque crc32c put_u64.

(** A bound whose frames have a 32-bit size, as [kMaxFramePayloadBytes] has. *)
Definition bounded (max : Z) : Prop := 0 <= max < 2 ^ 32 - 32.

(** A frame the decoder delivers: what [encode_frame] sends, with the length and
    the checksums in place. *)
Definition frame_ok (max : Z) (f : Frame) : Prop :=
  let h := fr_header f in
  fh_magic h = kFrameMagic ∧ fh_version h = kFrameVersion ∧ is_u32 (fh_flags h) ∧
  is_u64 (fh_request_id h) ∧ zlen (fr_payload f) <= max ∧
  fh_payload_length h = zlen (fr_payload f) ∧ fh_header_crc h = crc32c (header_body f) ∧
  fh_payload_crc h = crc32c (fr_payload f).

Lemma length_header_body f : length (header_body f) = 24%nat.
Proof. done. Qed.

Lemma zlen_encode_frame f : zlen (encode_frame f) = 32 + zlen (fr_payload f).
Proof. unfold encode_frame. rewrite !zlen_app. change (zlen (header_body f)) with 24.
  change (zlen (put_u32 _)) with 4. lia. Qed.

(** The header fields of any buffer that starts with a written header. *)
Record fields_of (f : Frame) (buffer : bytes) : Prop := {
  fo_magic : read_u32 buffer = kFrameMagic;
  fo_version : read_u16 (drop 4 buffer) = kFrameVersion;
  fo_type : read_u16 (drop 6 buffer) = MessageType.code (fh_type (fr_header f));
  fo_flags : read_u32 (drop 8 buffer) = fh_flags (fr_header f);
  fo_request : read_u64 (drop 12 buffer) = fh_request_id (fr_header f);
  fo_length : read_u32 (drop 20 buffer) = zlen (fr_payload f);
  fo_header : take 24 buffer = header_body f
}.

Lemma body_fields max f tl : bounded max → frame_ok max f → fields_of f (header_body f ++ tl).
Proof.
  intros Hb (Hm & Hv & Hf & Hr & Hp & _). pose proof (zlen_nonneg (fr_payload f)).
  unfold bounded in Hb. unfold header_body. rewrite Hm, Hv.
  assert (Hu : is_u32 (zlen (fr_payload f))) by (unfold is_u32; lia).
  assert (Eu : u32 (zlen (fr_payload f)) = zlen (fr_payload f)) by (by apply Z.mod_small).
  rewrite Eu, <-!app_assoc.
  pose proof (MessageType.message_code_range (fh_type (fr_header f))).
  split.
  - by apply word_put_u32.
  - by apply (read_put_u16 kFrameVersion).
  - apply (read_put_u16 (MessageType.code _)). unfold is_u16. lia.
  - by apply (word_put_u32 (fh_flags _)).
  - by apply (read_put_u64 (fh_request_id _)).
  - by apply (word_put_u32 (zlen _)).
  - unfold header_body. by rewrite Hm, Hv, Eu.
Qed.

Lemma zlen_drop_ge {A} (n : nat) (l : list A) : Z.of_nat n <= zlen l → zlen (drop n l) = zlen l - Z.of_nat n.
Proof. unfold zlen. rewrite length_drop. lia. Qed.

Lemma next_frame_encode max f tl : bounded max → frame_ok max f →
  next_frame max (encode_frame f ++ tl) = Complete f tl.
Proof.
  intros Hb Hf. pose proof (zlen_encode_frame f) as Hl. pose proof (zlen_nonneg tl).
  pose proof (zlen_nonneg (fr_payload f)).
  assert (Hz : zlen (encode_frame f ++ tl) = 32 + zlen (fr_payload f) + zlen tl)
    by (rewrite zlen_app; lia).
  assert (Ed : drop (Z.to_nat (32 + zlen (fr_payload f))) (encode_frame f ++ tl) = tl).
  { replace (Z.to_nat _) with (length (encode_frame f)) by (unfold zlen in *; lia).
    apply drop_app_length. }
  unfold next_frame. rewrite Hz. unfold kFrameHeaderBytes.
  destruct (Z.ltb_spec (32 + zlen (fr_payload f) + zlen tl) 32); [lia|].
  assert (E : encode_frame f ++ tl = header_body f ++ put_u32 (crc32c (header_body f)) ++
    put_u32 (crc32c (fr_payload f)) ++ fr_payload f ++ tl).
  { unfold encode_frame. cbv zeta. by rewrite <-!app_assoc. }
  destruct (body_fields max f (put_u32 (crc32c (header_body f)) ++
    put_u32 (crc32c (fr_payload f)) ++ fr_payload f ++ tl) Hb Hf) as [F1 F2 F3 F4 F5 F6 F7].
  rewrite <-E in F1, F2, F3, F4, F5, F6, F7.
  assert (F8 : read_u32 (drop 24 (encode_frame f ++ tl)) = crc32c (header_body f)).
  { rewrite E. change 24%nat with (length (header_body f)). rewrite drop_app_length.
    apply word_put_u32, crc32c_range. }
  assert (F9 : read_u32 (drop 28 (encode_frame f ++ tl)) = crc32c (fr_payload f)).
  { rewrite E. rewrite app_assoc. change 28%nat with (length (header_body f ++ put_u32 (crc32c (header_body f)))).
    rewrite drop_app_length. apply word_put_u32, crc32c_range. }
  assert (F10 : drop 32 (encode_frame f ++ tl) = fr_payload f ++ tl).
  { rewrite E, !app_assoc, <-(app_assoc _ (fr_payload f)). apply drop_app_length'. done. }
  rewrite F1, F2, F3, F4, F5, F6, F7, F8, F9, F10, !Z.eqb_refl, MessageType.message_of_code.
  cbn [negb]. destruct Hf as (Hm & Hv & Hfl & Hr & Hp & Ep & Eh & Ec). unfold bounded in Hb.
  destruct (Z.ltb_spec max (zlen (fr_payload f))); [lia|].
  unfold u32. rewrite Z.mod_small by lia.
  destruct (Z.ltb_spec (32 + zlen (fr_payload f) + zlen tl) (32 + zlen (fr_payload f))); [lia|].
  replace (Z.to_nat (zlen (fr_payload f))) with (length (fr_payload f)) by (unfold zlen; lia).
  rewrite take_app_length, Z.eqb_refl. cbn [negb]. rewrite Ed. f_equal.
  destruct f as [[] ?]. cbn in *. by subst.
Qed.

Lemma split_u16 p : 2 <= zlen p → p = put_u16 (read_u16 p) ++ drop 2 p ∧ is_u16 (read_u16 p).
Proof.
  destruct p as [|b0 [|b1 p]]; try (by unfold zlen; simpl; lia). intros _.
  rewrite put_read_u16. split; [done|apply read_u16_range].
Qed.

Lemma split_u32 p : 4 <= zlen p → p = put_u32 (read_u32 p) ++ drop 4 p ∧ is_u32 (read_u32 p).
Proof.
  destruct p as [|b0 [|b1 [|b2 [|b3 p]]]]; try (by unfold zlen; simpl; lia). intros _.
  rewrite put_read_u32. split; [done|apply le32_range].
Qed.

Lemma split_u64 p : 8 <= zlen p → p = put_u64 (read_u64 p) ++ drop 8 p ∧ is_u64 (read_u64 p).
Proof.
  destruct p as [|b0 [|b1 [|b2 [|b3 [|b4 [|b5 [|b6 [|b7 p]]]]]]]];
    try (by unfold zlen; simpl; lia). intros _.
  destruct (put_read_u64 b0 b1 b2 b3 b4 b5 b6 b7 p) as [E R]. by rewrite E.
Qed.

(** The bytes of a header, field by field. *)
Lemma header_split b : 32 <= zlen b →
  b = put_u32 (read_u32 b) ++ put_u16 (read_u16 (drop 4 b)) ++ put_u16 (read_u16 (drop 6 b)) ++
      put_u32 (read_u32 (drop 8 b)) ++ put_u64 (read_u64 (drop 12 b)) ++
      put_u32 (read_u32 (drop 20 b)) ++ put_u32 (read_u32 (drop 24 b)) ++
      put_u32 (read_u32 (drop 28 b)) ++ drop 32 b ∧
  drop 24 b = put_u32 (read_u32 (drop 24 b)) ++ put_u32 (read_u32 (drop 28 b)) ++ drop 32 b ∧
  is_u32 (read_u32 (drop 8 b)) ∧ is_u64 (read_u64 (drop 12 b)) ∧ is_u32 (read_u32 (drop 20 b)).
Proof.
  intros Hb.
  destruct (split_u32 b) as [E0 _]; [lia|].
  destruct (split_u16 (drop 4 b)) as [E1 _]; [rewrite zlen_drop_ge; lia|].
  destruct (split_u16 (drop 6 b)) as [E2 _]; [rewrite zlen_drop_ge; lia|].
  destruct (split_u32 (drop 8 b)) as [E3 R3]; [rewrite zlen_drop_ge; lia|].
  destruct (split_u64 (drop 12 b)) as [E4 R4]; [rewrite zlen_drop_ge; lia|].
  destruct (split_u32 (drop 20 b)) as [E5 R5]; [rewrite zlen_drop_ge; lia|].
  destruct (split_u32 (drop 24 b)) as [E6 _]; [rewrite zlen_drop_ge; lia|].
  destruct (split_u32 (drop 28 b)) as [E7 _]; [rewrite zlen_drop_ge; lia|].
  rewrite drop_drop in E1, E2, E3, E4, E5, E6, E7. cbn [Nat.add] in *.
  split; [|split; [by rewrite <-E7|done]]. rewrite E0 at 1. by rewrite <-E7, <-E6, <-E5, <-E4, <-E3, <-E2, <-E1.
Qed.

Lemma next_frame_sound max buffer f rest : bounded max →
  next_frame max buffer = Complete f rest → buffer = encode_frame f ++ rest ∧ frame_ok max f.
Proof.
  intros Hb. unfold next_frame, kFrameHeaderBytes. destruct (Z.ltb_spec (zlen buffer) 32); [done|].
  destruct (header_split buffer) as (E & E24 & R3 & R4 & R5); [done|]. set (len := read_u32 (drop 20 buffer)) in *.
  destruct (Z.eqb_spec (read_u32 buffer) kFrameMagic) as [Em|]; [|done].
  destruct (Z.eqb_spec (read_u16 (drop 4 buffer)) kFrameVersion) as [Ev|]; [|done]. cbn [negb].
  destruct (MessageType.of_code _) as [t|] eqn:Et; [|done].
  apply MessageType.code_of_code in Et.
  destruct (Z.ltb_spec max len); [done|].
  destruct (Z.eqb_spec (crc32c (take 24 buffer)) (read_u32 (drop 24 buffer))) as [Eh|]; [|done].
  unfold bounded, is_u32, u32 in *. rewrite Z.mod_small by lia. cbn [negb].
  destruct (Z.ltb_spec (zlen buffer) (32 + len)) as [|Hlen]; [done|].
  set (payload := take (Z.to_nat len) (drop 32 buffer)).
  assert (Hp : zlen payload = len).
  { unfold payload, zlen in *. rewrite length_take, length_drop. lia. }
  destruct (Z.eqb_spec (crc32c payload) (read_u32 (drop 28 buffer))) as [Ep|]; [|done]. cbn [negb].
  intros [= <- <-]. rewrite <-Eh, <-Ep, Em, Ev, <-Et in *.
  set (f := mkFrame _ payload).
  assert (Ebody : take 24 buffer = header_body f).
  { rewrite E at 1. unfold header_body, f. cbn [fr_header fr_payload fh_magic fh_version fh_type
      fh_flags fh_request_id]. rewrite Hp. unfold u32. rewrite Z.mod_small by lia. done. }
  split.
  - unfold encode_frame. cbv zeta. rewrite <-Ebody. cbn [f fr_payload].
    rewrite <-(take_drop 24 buffer) at 1. rewrite E24, <-!app_assoc. do 3 f_equal.
    replace (Z.to_nat (32 + len)) with (32 + Z.to_nat len)%nat by lia.
    rewrite <-drop_drop. unfold payload. by rewrite take_drop.
  - unfold frame_ok. rewrite <-Ebody. cbn. rewrite Hp. unfold is_u32. split_and!; done || lia.
Qed.

(** The loop stops for bytes only below one maximal frame, and once it refuses
    a buffer no later byte changes the verdict. *)
Lemma need_more_bound max buffer : bounded max → next_frame max buffer = NeedMore →
  zlen buffer < 32 + max.
Proof.
  unfold bounded, next_frame, kFrameHeaderBytes. intros ?. destruct (Z.ltb_spec (zlen buffer) 32); [lia|].
  cbv zeta. set (len := read_u32 (drop 20 buffer)).
  destruct (header_split buffer) as (_ & _ & _ & _ & R5); [done|]. fold len in R5. unfold is_u32 in *.
  repeat case_match; try done. intros _.
  rewrite !Z.ltb_lt in *. rewrite !Z.ltb_ge in *. unfold u32 in *. rewrite Z.mod_small in * by lia. lia.
Qed.


Lemma read_u16_app p tl : 2 <= zlen p → read_u16 (p ++ tl) = read_u16 p.
Proof. destruct p as [|b0 [|b1 p]]; try (by unfold zlen; simpl; lia). Qed.
Lemma read_u32_app p tl : 4 <= zlen p → read_u32 (p ++ tl) = read_u32 p.
Proof. destruct p as [|b0 [|b1 [|b2 [|b3 p]]]]; try (by unfold zlen; simpl; lia). Qed.
Lemma drop_app_zlen {A} (n : nat) (p tl : list A) : Z.of_nat n <= zlen p → drop n (p ++ tl) = drop n p ++ tl.
Proof. unfold zlen. intros. apply drop_app_le. lia. Qed.

Lemma malformed_app max buffer why tl : bounded max →
  next_frame max buffer = Malformed why → next_frame max (buffer ++ tl) = Malformed why.
Proof.
  unfold bounded, next_frame, kFrameHeaderBytes. intros Hb.
  pose proof (zlen_nonneg tl).
  destruct (Z.ltb_spec (zlen buffer) 32); [done|].
  destruct (header_split buffer) as (_ & _ & _ & _ & R5); [done|]. unfold is_u32 in R5.
  destruct (Z.ltb_spec (zlen (buffer ++ tl)) 32) as [L|_]; [rewrite zlen_app in L; lia|].
  rewrite !drop_app_zlen by lia. rewrite take_app_le by (unfold zlen in *; lia).
  rewrite !read_u16_app, !read_u32_app by (rewrite ?zlen_drop_ge; lia). cbv zeta.
  destruct (negb (_ =? kFrameMagic)); [done|]. destruct (negb (_ =? kFrameVersion)); [done|].
  destruct (MessageType.of_code _); [|done]. set (len := read_u32 (drop 20 buffer)) in *.
  destruct (Z.ltb_spec max len); [done|]. destruct (negb _); [done|].
  unfold u32. rewrite Z.mod_small by lia.
  destruct (Z.ltb_spec (zlen buffer) (32 + len)); [done|].
  destruct (Z.ltb_spec (zlen (buffer ++ tl)) (32 + len)) as [L|_]; [rewrite zlen_app in L; lia|].
  rewrite take_app_le by (rewrite length_drop; unfold zlen in *; lia).
  by destruct (negb _).
Qed.

(** What the loop leaves behind: a buffer at which a turn does not complete. *)
Definition stops (max : Z) (rest : bytes) (st : option Status) : Prop :=
  next_frame max rest = match st with None => NeedMore | Some why => Malformed why end.

Lemma next_frame_first max f out rest : bounded max → frame_ok max f →
  next_frame max (((f :: out) ≫= encode_frame) ++ rest) =
    Complete f ((out ≫= encode_frame) ++ rest).
Proof. intros. rewrite bind_cons, <-app_assoc. by apply next_frame_encode. Qed.

(** The loop takes the longest run of whole frames off the front, and nothing
    else: the split of the buffer is unique. *)
Lemma drain_spec max fuel buffer out rest st : bounded max → (length buffer < fuel)%nat →
  drain fuel max buffer = (out, rest, st) ↔
  buffer = (out ≫= encode_frame) ++ rest ∧ Forall (frame_ok max) out ∧ stops max rest st.
Proof.
  intros Hb. revert buffer out rest st. induction fuel as [|fuel IH]; intros buffer out rest st Hf; [lia|].
  cbn [drain]. destruct (next_frame max buffer) as [|why|f rest1] eqn:E.
  - split; [by intros [= <- <- <-]|]. intros (-> & Hout & Hst). destruct out as [|f out].
    + change (next_frame max rest = NeedMore) in E. unfold stops in Hst. rewrite E in Hst.
      by destruct st.
    + apply Forall_cons in Hout as [Hg Hout]. by rewrite next_frame_first in E.
  - split; [by intros [= <- <- <-]|]. intros (-> & Hout & Hst). destruct out as [|f out].
    + change (next_frame max rest = Malformed why) in E. unfold stops in Hst. rewrite E in Hst.
      destruct st as [w|]; [|done]. by injection Hst as ->.
    + apply Forall_cons in Hout as [Hg Hout]. by rewrite next_frame_first in E.
  - destruct (next_frame_sound max buffer f rest1 Hb E) as [-> Hok].
    assert (Hl : (length rest1 < fuel)%nat).
    { rewrite length_app in Hf. pose proof (zlen_encode_frame f) as Z1. unfold zlen in Z1. lia. }
    destruct (drain fuel max rest1) as [[out1 kept] st1] eqn:D. split.
    + intros [= <- <- <-]. apply IH in D as (-> & Hout & Hst); [|done].
      csimpl. rewrite app_assoc. auto.
    + intros (Eb & Hout & Hst). destruct out as [|g out].
      { change (encode_frame f ++ rest1 = rest) in Eb. subst rest. unfold stops in Hst.
        rewrite E in Hst. by destruct st. }
      apply Forall_cons in Hout as [Hg Hout]. rewrite Eb, next_frame_first in E by done. injection E as -> <-.
      assert (drain fuel max ((out ≫= encode_frame) ++ rest) = (out, rest, st)) as D'
        by (by apply IH). congruence.
Qed.

Lemma malformed_not_ok max buffer why : next_frame max buffer = Malformed why → is_ok why = false.
Proof. unfold next_frame. repeat case_match; naive_solver. Qed.

(** A chunk, seen from outside: the frames delivered are the longest run at the
    front of the pending bytes, the rest stays or poisons the decoder. *)
Lemma push_spec d chunk d' out st : bounded (fd_max_payload d) → fd_poisoned d = false →
  push d chunk = (d', out, st) ↔
  ∃ rest w, fd_buffer d ++ chunk = (out ≫= encode_frame) ++ rest ∧
    Forall (frame_ok (fd_max_payload d)) out ∧ stops (fd_max_payload d) rest w ∧
    match w with
    | None => st = status_ok ∧ d' = mkDecoder rest (fd_max_payload d) false (fd_failure d)
    | Some why => st = why ∧ d' = poison d why
    end.
Proof.
  intros Hb Hp. unfold push. rewrite Hp.
  destruct (drain _ _ _) as [[o r] w] eqn:D. pose proof D as S.
  apply drain_spec in S as (E & Ho & Hs); [|done|lia].
  assert (Hfull : w = None → u32 (kFrameHeaderBytes + fd_max_payload d) <? zlen r = false).
  { intros ->. apply need_more_bound in Hs; [|done]. unfold bounded, u32, kFrameHeaderBytes in *.
    rewrite Z.mod_small by lia. apply Z.ltb_ge. lia. }
  split.
  - intros R. exists r, w. destruct w as [why|]; [by injection R as <- <- <-|].
    rewrite (Hfull eq_refl) in R. by injection R as <- <- <-.
  - intros (r2 & w2 & E2 & Ho2 & Hs2 & R).
    assert (D2 : drain (S (length (fd_buffer d ++ chunk))) (fd_max_payload d) (fd_buffer d ++ chunk)
      = (out, r2, w2)) by (apply drain_spec; [done|lia|done]).
    rewrite D in D2. injection D2 as -> -> ->.
    destruct w2 as [why|]; [by destruct R as [-> ->]|].
    rewrite (Hfull eq_refl). by destruct R as [-> ->].
Qed.

(** A decoder between two chunks. *)
Definition settled (d : FrameDecoder) : Prop :=
  bounded (fd_max_payload d) ∧ next_frame (fd_max_payload d) (fd_buffer d) = NeedMore ∧
  (fd_poisoned d = true → fd_buffer d = []).

(** A connection: chunks pushed in order, the first failure reported. *)
Fixpoint feed (d : FrameDecoder) (chunks : list bytes) : FrameDecoder * list Frame * Status :=
  match chunks with
  | [] => (d, [], status_ok)
  | c :: chunks =>
      let '(d1, out1, st1) := push d c in
      let '(d2, out2, st2) := feed d1 chunks in
      (d2, out1 ++ out2, if is_ok st1 then st2 else st1)
  end.

Lemma push_poisoned d chunk : fd_poisoned d = true →
  push d chunk = (d, [], fail0 Outcome.Invalid Reason.StickyFailure).
Proof. unfold push. by intros ->. Qed.

Lemma feed_poisoned d chunks : fd_poisoned d = true → (feed d chunks).1 = (d, []).
Proof.
  intros Hp. induction chunks as [|c chunks IH]; [done|]. cbn [feed].
  rewrite push_poisoned by done. by destruct (feed d chunks) as [[? ?] ?]; injection IH as -> ->.
Qed.

Lemma next_frame_nil max : next_frame max [] = NeedMore.
Proof. done. Qed.

Lemma push_settled d chunk d' out st : bounded (fd_max_payload d) → push d chunk = (d', out, st) →
  fd_poisoned d = false → settled d' ∧ fd_max_payload d' = fd_max_payload d ∧
  (is_ok st = negb (fd_poisoned d')).
Proof.
  intros Hb H Hp. apply push_spec in H as (r & w & _ & _ & Hs & R); [|done..].
  destruct w as [why|]; destruct R as [-> ->].
  - split; [exact (conj Hb (conj eq_refl (λ _, eq_refl)))|split; [done|]]. by eapply malformed_not_ok.
  - split; [|done]. split; [exact Hb|]. by split.
Qed.

Lemma push_app d c1 c2 : bounded (fd_max_payload d) → fd_poisoned d = false →
  push d (c1 ++ c2) =
    (let '(d1, out1, st1) := push d c1 in
     let '(d2, out2, st2) := push d1 c2 in
     (d2, out1 ++ out2, if is_ok st1 then st2 else st1)).
Proof.
  intros Hb Hp. destruct (push d c1) as [[d1 out1] st1] eqn:P1.
  destruct (push_settled d c1 _ _ _ Hb P1 Hp) as ((Hb1 & _) & Hm & Hok).
  pose proof P1 as (r & w & E1 & Ho1 & Hs1 & R1)%push_spec; [|done..].
  destruct w as [why|]; destruct R1 as [-> ->].
  - rewrite (push_poisoned (poison d why)) by done. cbn in Hok. rewrite Hok, app_nil_r.
    apply push_spec; [done..|]. exists (r ++ c2), (Some why).
    split_and!; [by rewrite app_assoc, E1, <-app_assoc|done| |done..].
    unfold stops in *. by apply malformed_app.
  - destruct (push _ c2) as [[d2 out2] st2] eqn:P2.
    apply push_spec in P2 as (r2 & w2 & E2 & Ho2 & Hs2 & R2); [|done..]. cbn in *.
    apply push_spec; [done..|]. exists r2, w2. split_and!.
    + by rewrite app_assoc, E1, <-app_assoc, E2, bind_app, app_assoc.
    + by apply Forall_app.
    + done.
    + by destruct w2.
Qed.

(** Any chunking of the same bytes is the same connection. *)
Lemma feed_concat d chunks : settled d → fd_poisoned d = false →
  feed d chunks = push d (concat chunks).
Proof.
  revert d. induction chunks as [|c chunks IH]; intros d Hd Hp; cbn [feed concat].
  - symmetry. destruct Hd as (Hb & Hn & _). apply push_spec; [done..|].
    exists (fd_buffer d), None. rewrite app_nil_r. split_and!; try done.
    destruct d; cbn in *. by subst.
  - destruct Hd as (Hb & Hn & _). rewrite push_app by done.
    destruct (push d c) as [[d1 out1] st1] eqn:P1.
    destruct (push_settled d c _ _ _ Hb P1 Hp) as (Hd1 & Hm & Hok).
    destruct (fd_poisoned d1) eqn:Hp1; [|by rewrite IH].
    rewrite push_poisoned by done. pose proof (feed_poisoned d1 chunks Hp1) as F.
    destruct (feed d1 chunks) as [[? ?] ?]. injection F as -> ->. by rewrite Hok.
Qed.

(** *** Damage *)

Lemma read_u32_insert (l : bytes) i b c : (i < 4)%nat → 4 <= zlen l → l !! i = Some b → b ≠ c →
  read_u32 (<[i:=c]> l) ≠ read_u32 l.
Proof.
  intros Hi Hl Hb Hne. destruct l as [|b0 [|b1 [|b2 [|b3 l]]]]; try (by unfold zlen in Hl; simpl in Hl; lia).
  destruct i as [|[|[|[|i]]]]; [..|lia]; cbn in Hb; injection Hb as ->; cbn;
    intros (? & ? & ? & ?)%le32_inj; congruence.
Qed.

Lemma read_u32_insert_ge (l : bytes) i c : (4 <= i)%nat → read_u32 (<[i:=c]> l) = read_u32 l.
Proof.
  intros Hi. do 4 (destruct i as [|i]; [lia|]). by destruct l as [|b0 [|b1 [|b2 [|b3 l]]]].
Qed.

Lemma turn_checks max b : bounded max → 32 <= zlen b →
  (∃ why, next_frame max b = Malformed why) ∨
  crc32c (take 24 b) = read_u32 (drop 24 b) ∧
  (zlen b < 32 + read_u32 (drop 20 b) ∨
   crc32c (take (Z.to_nat (read_u32 (drop 20 b))) (drop 32 b)) = read_u32 (drop 28 b)).
Proof.
  intros Hb Hl. unfold next_frame, kFrameHeaderBytes.
  destruct (Z.ltb_spec (zlen b) 32); [lia|]. cbv zeta. destruct (negb _); [eauto|].
  destruct (header_split b) as (_ & _ & _ & _ & R5); [done|]. unfold is_u32, bounded in *.
  destruct (negb (_ =? kFrameVersion)); [eauto|]. destruct (MessageType.of_code _); [|eauto].
  destruct (Z.ltb_spec max (read_u32 (drop 20 b))); [eauto|].
  destruct (Z.eqb_spec (crc32c (take 24 b)) (read_u32 (drop 24 b))); [|cbn; eauto]. cbn [negb].
  unfold u32. rewrite Z.mod_small by lia.
  destruct (Z.ltb_spec (zlen b) (32 + read_u32 (drop 20 b))); [auto|].
  destruct (Z.eqb_spec (crc32c (take (Z.to_nat (read_u32 (drop 20 b))) (drop 32 b)))
    (read_u32 (drop 28 b))); [auto|cbn; eauto].
Qed.

(** The checks of a frame that was sent, at any bytes that follow. *)
Lemma sent_checks max f tl : bounded max → frame_ok max f →
  let e := encode_frame f ++ tl in
  crc32c (take 24 e) = read_u32 (drop 24 e) ∧ read_u32 (drop 20 e) = zlen (fr_payload f) ∧
  crc32c (take (Z.to_nat (zlen (fr_payload f))) (drop 32 e)) = read_u32 (drop 28 e).
Proof.
  intros Hb Hf e. pose proof (next_frame_encode max f tl Hb Hf) as N. fold e in N.
  assert (32 <= zlen e).
  { unfold e. rewrite zlen_app, zlen_encode_frame. pose proof (zlen_nonneg tl).
    pose proof (zlen_nonneg (fr_payload f)). lia. }
  assert (El : read_u32 (drop 20 e) = zlen (fr_payload f)).
  { unfold e, encode_frame. cbv zeta. rewrite <-app_assoc.
    destruct (body_fields max f ((put_u32 (crc32c (header_body f)) ++
      put_u32 (crc32c (fr_payload f)) ++ fr_payload f) ++ tl) Hb Hf). done. }
  destruct (turn_checks max e) as [[w C]|[E1 [L|E2]]]; [done..| | |].
  - congruence.
  - rewrite El in L. unfold e in L. rewrite zlen_app, zlen_encode_frame in L.
    pose proof (zlen_nonneg tl). lia.
  - rewrite El in E2. by split.
Qed.

Lemma damaged_malformed max f tl i b c : bounded max → frame_ok max f →
  encode_frame f !! i = Some b → b ≠ c →
  ∃ why, next_frame max (<[i:=c]> (encode_frame f) ++ tl) = Malformed why.
Proof.
  intros Hb Hf Hi Hne. pose proof (lookup_lt_Some _ _ _ Hi) as Hlt.
  rewrite <-insert_app_l by done. destruct (sent_checks max f tl Hb Hf) as (C1 & C2 & C3).
  pose proof (zlen_encode_frame f) as Hl. pose proof (zlen_nonneg (fr_payload f)).
  assert (Hz : zlen (encode_frame f ++ tl) >= 32 + zlen (fr_payload f)).
  { rewrite zlen_app. pose proof (zlen_nonneg tl). lia. }
  assert (Hi' : (encode_frame f ++ tl) !! i = Some b) by (by apply lookup_app_l_Some).
  assert (Hlt' : (i < 32 + length (fr_payload f))%nat) by (unfold zlen in *; lia).
  set (e := encode_frame f ++ tl) in *. clearbody e. clear Hi Hlt Hl.
  assert (Hz' : zlen (<[i:=c]> e) = zlen e) by (unfold zlen; by rewrite length_insert).
  destruct (turn_checks max (<[i:=c]> e)) as [?|[E1 E2]]; [done|lia|done|]. exfalso.
  destruct (decide (i < 24)%nat).
  { rewrite take_insert_lt, drop_insert_lt in E1 by lia. 
    rewrite <-C1 in E1. eapply crc32c_insert, E1; [|done]. by rewrite lookup_take_lt. }
  rewrite take_insert_ge, drop_insert_ge in E1 by lia.
  destruct (decide (i < 28)%nat).
  { rewrite C1 in E1. symmetry in E1. eapply read_u32_insert, E1; [lia| | |exact Hne].
    - rewrite zlen_drop_ge; lia.
    - rewrite lookup_drop. replace (24 + (i - 24))%nat with i by lia. done. }
  assert (El : read_u32 (drop 20 (<[i:=c]> e)) = zlen (fr_payload f)).
  { by rewrite <-C2, drop_insert_ge, read_u32_insert_ge by lia. }
  rewrite El in E2. destruct E2 as [|E2]; [lia|].
  destruct (decide (i < 32)%nat).
  { rewrite (drop_insert_lt _ 32), drop_insert_ge in E2 by lia. rewrite C3 in E2. symmetry in E2.
    eapply read_u32_insert, E2; [lia| | |exact Hne].
    - rewrite zlen_drop_ge; lia.
    - rewrite lookup_drop. replace (28 + (i - 28))%nat with i by lia. done. }
  rewrite !drop_insert_ge, read_u32_insert_ge, take_insert_lt in E2 by (unfold zlen; lia).
  rewrite <-C3 in E2. eapply crc32c_insert, E2; [|done].
  rewrite lookup_take_lt, lookup_drop by (unfold zlen; lia).
  by replace (32 + (i - 32))%nat with i by lia.
Qed.

(** The proper prefixes of a frame keep the decoder waiting. *)
Lemma prefix_needs_more max f k : bounded max → frame_ok max f →
  (k < length (encode_frame f))%nat → next_frame max (take k (encode_frame f)) = NeedMore.
Proof.
  intros Hb Hf Hk. pose proof (next_frame_encode max f [] Hb Hf) as N. rewrite app_nil_r in N.
  destruct (next_frame max (take k _)) as [|why|g rest] eqn:E; [done| |].
  - apply malformed_app with (tl := drop k (encode_frame f)) in E; [|done].
    rewrite take_drop in E. congruence.
  - apply next_frame_sound in E as [E Hg]; [|done].
    rewrite <-(take_drop k (encode_frame f)), E, <-app_assoc, next_frame_encode in N by done.
    injection N as _ N. apply app_eq_nil in N as [_ N]. apply (f_equal length) in N.
    rewrite length_drop, length_nil in N. lia.
Qed.

Lemma decoder_settled max : bounded max → settled (decoder max).
Proof. intros Hb. split; [exact Hb|]. by split. Qed.

Module Frames.

Lemma stream_exact max fs chunks : bounded max → Forall (frame_ok max) fs →
  concat chunks = fs ≫= encode_frame → feed (decoder max) chunks = (decoder max, fs, status_ok).
Proof.
  intros Hb Hfs E. rewrite feed_concat by (done || by apply decoder_settled).
  apply push_spec; [done..|]. exists [], None. by split_and!; [rewrite app_nil_r|..].
Qed.

(** A stream of frames, cut into chunks anywhere and possibly ending inside a
    frame, is delivered exactly: the same frames in the same order, every push
    succeeding, and only the bytes of the unfinished frame kept. *)
Theorem stream_roundtrip (max : Z) (fs : list Frame) (f : Frame) (k : nat) (chunks : list bytes) :
  bounded max → Forall (frame_ok max) fs → frame_ok max f → (k < length (encode_frame f))%nat →
  concat chunks = (fs ≫= encode_frame) ++ take k (encode_frame f) →
  feed (decoder max) chunks =
    (mkDecoder (take k (encode_frame f)) max false status_ok, fs, status_ok).
Proof.
  intros Hb Hfs Hf Hk E. rewrite feed_concat by (done || by apply decoder_settled).
  apply push_spec; [done..|]. exists (take k (encode_frame f)), None.
  split_and!; [exact E|done|by apply prefix_needs_more|done..].
Qed.

(** Chunk boundaries never matter, well formed input or not: pushing the chunks
    one by one delivers the frames, the verdict and the final decoder state of
    pushing all the bytes at once. *)
Theorem chunking_independent (d : FrameDecoder) (chunks1 chunks2 : list bytes) :
  settled d → fd_poisoned d = false → concat chunks1 = concat chunks2 →
  feed d chunks1 = feed d chunks2.
Proof. intros Hd Hp E. by rewrite !feed_concat, E. Qed.

(** C35: A frame with any one byte changed, in the header, the lengths, the checksums
    or the payload, delivers no frame: the decoder is poisoned, whatever bytes
    follow, and refuses everything until it is reset. *)
Theorem damaged_frame_refused (max : Z) (f : Frame) (i : nat) (b c : byte) (tl chunk : bytes) :
  bounded max → frame_ok max f → encode_frame f !! i = Some b → b ≠ c →
  ∃ d why, push (decoder max) (<[i:=c]> (encode_frame f) ++ tl) = (d, [], why) ∧
    is_ok why = false ∧
    push d chunk = (d, [], fail0 Outcome.Invalid Reason.StickyFailure) ∧
    reset d = decoder max.
Proof.
  intros Hb Hf Hi Hne. destruct (damaged_malformed max f tl i b c) as [why E]; [done..|].
  exists (poison (decoder max) why), why. split_and!; [|by eapply malformed_not_ok|done..].
  apply push_spec; [done..|]. by exists (<[i:=c]> (encode_frame f) ++ tl), (Some why).
Qed.

(** C36: Nothing is lost or invented and the memory held is bounded: every frame
    delivered is genuine and within the payload bound, the bytes received are the
    frames delivered followed by what is pending, and after a push less than one
    maximal frame is pending. *)
Theorem decoder_sound_bounded (d d' : FrameDecoder) (chunk : bytes) (out : list Frame) (st : Status) :
  settled d → fd_poisoned d = false → push d chunk = (d', out, st) →
  settled d' ∧ buffered d' < kFrameHeaderBytes + fd_max_payload d ∧
  Forall (frame_ok (fd_max_payload d)) out ∧
  fd_poisoned d' = negb (is_ok st) ∧
  ∃ rest, fd_buffer d ++ chunk = (out ≫= encode_frame) ++ rest ∧
    (is_ok st = true → rest = fd_buffer d').
Proof.
  intros (Hb & Hn & _) Hp H. destruct (push_settled d chunk d' out st Hb H Hp) as (Hd' & Hm & Hok).
  apply push_spec in H as (r & w & E & Ho & Hs & R); [|done..].
  split_and!; [done| |done|by rewrite Hok, negb_involutive|].
  - destruct Hd' as (Hb' & Hn' & _). apply need_more_bound in Hn'; [|done].
    unfold buffered, kFrameHeaderBytes. by rewrite Hm in Hn'.
  - exists r. split; [done|]. intros Ho'. destruct w; destruct R as [-> ->]; [|done].
    rewrite Ho' in Hok. by cbn in Hok.
Qed.

(** The loop of [push] ends by itself: with more turns allowed than there are
    bytes it always stops at a buffer where no whole frame is left, and more
    turns change nothing. *)
Theorem drain_terminates (max : Z) (buffer : bytes) : bounded max →
  ∃ out rest st, stops max rest st ∧
    ∀ fuel, (length buffer < fuel)%nat → drain fuel max buffer = (out, rest, st).
Proof.
  intros Hb. destruct (drain (S (length buffer)) max buffer) as [[out rest] st] eqn:E.
  apply drain_spec in E as (E & Ho & Hs); [|done|lia].
  exists out, rest, st. split; [done|]. intros fuel Hf. by apply drain_spec.
Qed.

(** *** The theorems at concrete input *)

(** A frame as [encode_frame]'s callers fill it. *)
Definition seal (t : MessageType) (flags id : Z) (payload : bytes) : Frame :=
  let h := mkFrameHeader kFrameMagic kFrameVersion t flags id (zlen payload) in
  let body := header_body (mkFrame (h 0 0) payload) in
  mkFrame (h (crc32c body) (crc32c payload)) payload.

Lemma seal_ok t flags id payload : is_u32 flags → is_u64 id → zlen payload <= kMaxFramePayloadBytes →
  frame_ok kMaxFramePayloadBytes (seal t flags id payload).
Proof. intros ???. by split_and!. Qed.

Definition ping : Frame := seal MessageType.PingRequest 0 7 [].
Definition hello : Frame := seal MessageType.HelloRequest 0 1 (str "hello").

Lemma demo_bound : bounded kMaxFramePayloadBytes.
Proof. unfold bounded, kMaxFramePayloadBytes. lia. Qed.
Lemma ping_ok : frame_ok kMaxFramePayloadBytes ping.
Proof. apply seal_ok; [done..|]. by vm_compute. Qed.
Lemma hello_ok : frame_ok kMaxFramePayloadBytes hello.
Proof. apply seal_ok; [done..|]. by vm_compute. Qed.

Lemma stream_roundtrip_witness :
  feed (decoder kMaxFramePayloadBytes)
    [take 5 (encode_frame ping); drop 5 (encode_frame ping) ++ take 33 (encode_frame hello)] =
  (mkDecoder (take 33 (encode_frame hello)) kMaxFramePayloadBytes false status_ok, [ping], status_ok).
Proof.
  apply (stream_roundtrip kMaxFramePayloadBytes [ping] hello 33).
  - exact demo_bound.
  - constructor; [exact ping_ok|constructor].
  - exact hello_ok.
  - vm_compute. lia.
  - vm_compute. reflexivity.
Defined.

Lemma chunking_independent_witness :
  feed (decoder kMaxFramePayloadBytes) [encode_frame ping; str "garbage"] =
  feed (decoder kMaxFramePayloadBytes) [encode_frame ping ++ str "gar"; str "bage"].
Proof.
  apply (chunking_independent (decoder kMaxFramePayloadBytes)).
  - exact (decoder_settled _ demo_bound).
  - reflexivity.
  - vm_compute. reflexivity.
Defined.

Lemma damaged_frame_refused_witness : ∃ d why,
  push (decoder kMaxFramePayloadBytes) (<[20%nat:=x06]> (encode_frame hello) ++ encode_frame ping) =
    (d, [], why) ∧ is_ok why = false ∧
  push d (str "x") = (d, [], fail0 Outcome.Invalid Reason.StickyFailure) ∧
  reset d = decoder kMaxFramePayloadBytes.
Proof.
  apply (damaged_frame_refused kMaxFramePayloadBytes hello 20 x05 x06 (encode_frame ping) (str "x")).
  - exact demo_bound.
  - exact hello_ok.
  - vm_compute. reflexivity.
  - discriminate.
Defined.

Lemma decoder_sound_bounded_witness : ∃ d' out st,
  push (decoder kMaxFramePayloadBytes) (encode_frame ping ++ str "SB") = (d', out, st) ∧
  out = [ping] ∧ buffered d' < kFrameHeaderBytes + kMaxFramePayloadBytes.
Proof.
  destruct (push (decoder kMaxFramePayloadBytes) (encode_frame ping ++ str "SB")) as [[d' out] st] eqn:E.
  exists d', out, st. split; [reflexivity|].
  pose proof (decoder_sound_bounded (decoder kMaxFramePayloadBytes) d' (encode_frame ping ++ str "SB")
    out st (decoder_settled _ demo_bound) eq_refl E) as (_ & Hb & _).
  split; [|exact Hb]. vm_compute in E. injection E as _ <- _. vm_compute. reflexivity.
Defined.

Lemma drain_terminates_witness : ∃ out rest st, stops kMaxFramePayloadBytes rest st ∧
  ∀ fuel, (length (encode_frame hello) < fuel)%nat →
    drain fuel kMaxFramePayloadBytes (encode_frame hello) = (out, rest, st).
Proof. apply (drain_terminates kMaxFramePayloadBytes (encode_frame hello)). exact demo_bound. Defined.

(** [decode_frame] promises exactly one frame, but bytes of an unfinished second
    frame are accepted and dropped. *)
Lemma decode_frame_ignores_partial :
  decode_frame (encode_frame ping ++ take 9 (encode_frame hello)) kMaxFramePayloadBytes = Ret ping.
Proof. vm_compute. reflexivity. Qed.
End Frames.
