(* ===== verification/Messages.v ===== *)
(** * Request and response payloads

    Models the message structs of [include/sbf/protocol.hpp] and their codecs in
    [src/protocol.cpp].  Per message: the Record of its fields, [encode_xx] for
    [encode(const T&)] and [r_xx] for the field reads of [decode(string_view, T&)];
    the complete decode, which ends with [reader.finish()], is [decode_all r_xx].
    An encoder that refuses an overlong text returns the empty string. *)
From S2P Require Import Prelude Order Status Ids Text Digest Canonical Scope.
From S2P Require Import Fence Lineage Evidence Arbiter Codec Wire Readers.
Open Scope Z_scope.

(** ** Shared parts *)

Definition write_client_kind (k : ClientKind) : bytes := w_u16 (client_kind_code k).

Definition read_client_kind : reader → result (ClientKind * reader) :=
  r_enum client_kind_of_code Outcome.Invalid.

(** [write_bounded_text] refuses. *)
Definition text_too_long (bound : Z) (value : bytes) : bool :=
  (bound <? zlen value) || (0xFFFF <? zlen value).

Definition encode_envelope (e : RequestEnvelope) : bytes :=
  w_counter (en_session e) ++ w_text (en_node e) ++ w_counter (en_boot e) ++
  w_counter (en_incarnation e).

Definition r_envelope (r : reader) : result (RequestEnvelope * reader) :=
  let* (session, r) := r_counter r in
  let* (node, r) := r_id Outcome.Invalid r in
  let* (boot, r) := r_counter r in
  let* (incarnation, r) := r_counter r in
  Ret (mkEnvelope session node boot incarnation, r).

(** The wire codec of a domain definition; the journal has its own. *)
Definition encode_domain_definition (d : DomainDefinition) : bytes :=
  w_text (dd_domain d) ++ w_text (dd_node d) ++ w_blob (encode_scope (dd_scope d)) ++
  w_text (dd_policy d) ++ w_boolean (dd_exclusive d).

Definition r_domain_definition (r : reader) : result (DomainDefinition * reader) :=
  let* (p, r) := r_id2 Outcome.Invalid r in
  let* (scope, r) := r_nested r_scope r in
  let* (policy, r) := r_id Outcome.Invalid r in
  let* (exclusive, r) := r_boolean r in
  Ret (mkDomain p.1 p.2 scope policy exclusive, r).

(** ** The messages *)

(** *** [HelloRequest] *)

Record HelloRequest := mkHelloRequest {
  hq_node : NodeId;
  hq_kind : ClientKind;
  hq_client_protocol : Z
}.

Definition encode_hq (m : HelloRequest) : bytes :=
  w_text (hq_node m) ++ write_client_kind (hq_kind m) ++ w_u16 (hq_client_protocol m).

Definition r_hq (r : reader) : result (HelloRequest * reader) :=
  let* (node, r) := r_id Outcome.Invalid r in
  let* (kind, r) := read_client_kind r in
  let* (client_protocol, r) := r_u16 r in
  if negb (client_protocol =? kFrameVersion)
  then Err (mkStatus Outcome.Unsupported Reason.UnsupportedVersion client_protocol) else
  Ret (mkHelloRequest node kind client_protocol, r).

(** *** [HelloResponse] *)

Record HelloResponse := mkHelloResponse {
  hp_status : Status;
  hp_session : SessionId;
  hp_boot : BootId;
  hp_incarnation : IncarnationId;
  hp_server_protocol : Z;
  hp_server_identity : bytes;
  hp_first_request : RequestId
}.

Definition encode_hp (m : HelloResponse) : bytes :=
  w_blob (encode_status (hp_status m)) ++ w_counter (hp_session m) ++ w_counter (hp_boot m) ++
  w_counter (hp_incarnation m) ++ w_u16 (hp_server_protocol m) ++
  w_text (hp_server_identity m) ++ w_counter (hp_first_request m).

Definition r_hp (r : reader) : result (HelloResponse * reader) :=
  let* (status, r) := r_nested r_status r in
  let* (session, r) := r_counter r in
  let* (boot, r) := r_counter r in
  let* (incarnation, r) := r_counter r in
  let* (server_protocol, r) := r_u16 r in
  let* (server_identity, r) := r_text r in
  let* (first_request, r) := r_counter r in
  Ret (mkHelloResponse status session boot incarnation server_protocol server_identity
       first_request, r).

(** *** [AllocateEpochRequest] *)

Record AllocateEpochRequest := mkAllocateEpochRequest {
  aq_envelope : RequestEnvelope;
  aq_domain : DomainId;
  aq_scope : Scope;
  aq_incarnation : IncarnationId;
  aq_boot : BootId;
  aq_attempt_sequence : Sequence;
  aq_requested_at : WallClockReading
}.

Definition encode_aq (m : AllocateEpochRequest) : bytes :=
  w_blob (encode_envelope (aq_envelope m)) ++ w_text (aq_domain m) ++
  w_blob (encode_scope (aq_scope m)) ++ w_counter (aq_incarnation m) ++ w_counter (aq_boot m) ++
  w_counter (aq_attempt_sequence m) ++ w_wall_clock (aq_requested_at m).

Definition r_aq (r : reader) : result (AllocateEpochRequest * reader) :=
  let* (envelope, r) := r_nested r_envelope r in
  let* (domain, r) := r_id Outcome.Invalid r in
  let* (scope, r) := r_nested r_scope r in
  let* (incarnation, r) := r_counter r in
  let* (boot, r) := r_counter r in
  let* (attempt_sequence, r) := r_counter r in
  let* (requested_at, r) := r_wall_clock r in
  Ret (mkAllocateEpochRequest envelope domain scope incarnation boot attempt_sequence
       requested_at, r).

(** *** [AllocateEpochResponse] *)

Record AllocateEpochResponse := mkAllocateEpochResponse {
  ar_status : Status;
  ar_epoch : Epoch;
  ar_fence_token : FenceToken;
  ar_grant : GrantId;
  ar_valid_until : Step;
  ar_lineage_generation : Generation;
  ar_policy_generation : Generation;
  ar_fence_generation : Generation;
  ar_policy : PolicyId;
  ar_allocation_step : Step
}.

Definition encode_ar (m : AllocateEpochResponse) : bytes :=
  w_blob (encode_status (ar_status m)) ++ w_counter (ar_epoch m) ++
  w_counter (ar_fence_token m) ++ w_counter (ar_grant m) ++ w_counter (ar_valid_until m) ++
  w_counter (ar_lineage_generation m) ++ w_counter (ar_policy_generation m) ++
  w_counter (ar_fence_generation m) ++ w_text (ar_policy m) ++ w_counter (ar_allocation_step m).

Definition r_ar (r : reader) : result (AllocateEpochResponse * reader) :=
  let* (status, r) := r_nested r_status r in
  let* (epoch, r) := r_counter r in
  let* (fence_token, r) := r_counter r in
  let* (grant, r) := r_counter r in
  let* (valid_until, r) := r_counter r in
  let* (lineage_generation, r) := r_counter r in
  let* (policy_generation, r) := r_counter r in
  let* (fence_generation, r) := r_counter r in
  let* (policy, r) := r_text r in
  let* policy := (if id_empty policy then Ret []
               else of_option (id_try_make policy) (fail0 Outcome.Invalid Reason.IdCharset)) in
  let* (allocation_step, r) := r_counter r in
  Ret (mkAllocateEpochResponse status epoch fence_token grant valid_until lineage_generation
       policy_generation fence_generation policy allocation_step, r).

(** *** [DecideRequest] *)

Record DecideRequest := mkDecideRequest {
  dq_envelope : RequestEnvelope;
  dq_domain : DomainId;
  dq_scope : Scope;
  dq_epoch : Epoch;
  dq_incarnation : IncarnationId;
  dq_boot : BootId;
  dq_presented_fence_token : FenceToken;
  dq_mode : AuthorityMode;
  dq_attempt_sequence : Sequence;
  dq_evidence : EvidenceBundle;
  dq_requested_at : WallClockReading
}.

Definition encode_dq (m : DecideRequest) : bytes :=
  w_blob (encode_envelope (dq_envelope m)) ++ w_text (dq_domain m) ++
  w_blob (encode_scope (dq_scope m)) ++ w_counter (dq_epoch m) ++
  w_counter (dq_incarnation m) ++ w_counter (dq_boot m) ++
  w_counter (dq_presented_fence_token m) ++ w_u16 (mode_code (dq_mode m)) ++
  w_counter (dq_attempt_sequence m) ++ w_blob (encode_bundle (dq_evidence m)) ++
  w_wall_clock (dq_requested_at m).

Definition r_dq (r : reader) : result (DecideRequest * reader) :=
  let* (envelope, r) := r_nested r_envelope r in
  let* (domain, r) := r_id Outcome.Invalid r in
  let* (scope, r) := r_nested r_scope r in
  let* (epoch, r) := r_counter r in
  let* (incarnation, r) := r_counter r in
  let* (boot, r) := r_counter r in
  let* (presented_fence_token, r) := r_counter r in
  let* (mode_, r) := read_mode r in
  let* (attempt_sequence, r) := r_counter r in
  let* (evidence, r) := r_nested r_bundle r in
  let* (requested_at, r) := r_wall_clock r in
  Ret (mkDecideRequest envelope domain scope epoch incarnation boot presented_fence_token
       mode_ attempt_sequence evidence requested_at, r).

(** *** [DecideResponse] *)

Record DecideResponse := mkDecideResponse {
  dr_status : Status;
  dr_decision : AuthorityDecision
}.

Definition encode_dr (m : DecideResponse) : bytes :=
  w_blob (encode_status (dr_status m)) ++ w_blob (encode_decision (dr_decision m)).

Definition r_dr (r : reader) : result (DecideResponse * reader) :=
  let* (status, r) := r_nested r_status r in
  let* (decision, r) := r_nested r_decision r in
  Ret (mkDecideResponse status decision, r).

(** *** [CommitRequest] *)

Record CommitRequest := mkCommitRequest {
  cq_envelope : RequestEnvelope;
  cq_domain : DomainId;
  cq_scope : Scope;
  cq_epoch : Epoch;
  cq_incarnation : IncarnationId;
  cq_grant : GrantId;
  cq_fence_token : FenceToken;
  cq_attempt_sequence : Sequence;
  cq_operation : bytes;
  cq_payload_digest : Digest256;
  cq_requested_at : WallClockReading
}.

Definition encode_cq (m : CommitRequest) : bytes :=
  if text_too_long kMaxTextLength (cq_operation m) then [] else
  w_blob (encode_envelope (cq_envelope m)) ++ w_text (cq_domain m) ++
  w_blob (encode_scope (cq_scope m)) ++ w_counter (cq_epoch m) ++
  w_counter (cq_incarnation m) ++ w_counter (cq_grant m) ++ w_counter (cq_fence_token m) ++
  w_counter (cq_attempt_sequence m) ++ w_text (cq_operation m) ++
  w_digest (cq_payload_digest m) ++ w_wall_clock (cq_requested_at m).

Definition r_cq (r : reader) : result (CommitRequest * reader) :=
  let* (envelope, r) := r_nested r_envelope r in
  let* (domain, r) := r_id Outcome.Invalid r in
  let* (scope, r) := r_nested r_scope r in
  let* (epoch, r) := r_counter r in
  let* (incarnation, r) := r_counter r in
  let* (grant, r) := r_counter r in
  let* (fence_token, r) := r_counter r in
  let* (attempt_sequence, r) := r_counter r in
  let* (operation, r) := r_text r in
  if kMaxTextLength <? zlen operation
  then Err (mkStatus Outcome.Exhausted Reason.ImpossibleLength (zlen operation)) else
  let* (payload_digest, r) := r_digest r in
  let* (requested_at, r) := r_wall_clock r in
  Ret (mkCommitRequest envelope domain scope epoch incarnation grant fence_token
       attempt_sequence operation payload_digest requested_at, r).

(** *** [CommitResponse] *)

Record CommitResponse := mkCommitResponse {
  cr_status : Status;
  cr_store_sequence : Sequence;
  cr_admitted_token : FenceToken;
  cr_effect_digest : Digest256;
  cr_verified : bool
}.

Definition encode_cr (m : CommitResponse) : bytes :=
  w_blob (encode_status (cr_status m)) ++ w_counter (cr_store_sequence m) ++
  w_counter (cr_admitted_token m) ++ w_digest (cr_effect_digest m) ++ w_boolean (cr_verified m).

Definition r_cr (r : reader) : result (CommitResponse * reader) :=
  let* (status, r) := r_nested r_status r in
  let* (store_sequence, r) := r_counter r in
  let* (admitted_token, r) := r_counter r in
  let* (effect_digest, r) := r_digest r in
  let* (verified, r) := r_boolean r in
  Ret (mkCommitResponse status store_sequence admitted_token effect_digest verified, r).

(** *** [FenceRequest] *)

Record FenceRequest := mkFenceRequest {
  fq_envelope : RequestEnvelope;
  fq_domain : DomainId;
  fq_scope : Scope;
  fq_epoch : Epoch;
  fq_incarnation : IncarnationId;
  fq_cause : Reason
}.

Definition encode_fq (m : FenceRequest) : bytes :=
  w_blob (encode_envelope (fq_envelope m)) ++ w_text (fq_domain m) ++
  w_blob (encode_scope (fq_scope m)) ++ w_counter (fq_epoch m) ++
  w_counter (fq_incarnation m) ++ w_reason (fq_cause m).

Definition r_fq (r : reader) : result (FenceRequest * reader) :=
  let* (envelope, r) := r_nested r_envelope r in
  let* (domain, r) := r_id Outcome.Invalid r in
  let* (scope, r) := r_nested r_scope r in
  let* (epoch, r) := r_counter r in
  let* (incarnation, r) := r_counter r in
  let* (cause, r) := r_reason r in
  Ret (mkFenceRequest envelope domain scope epoch incarnation cause, r).

(** *** [FenceResponse] *)

Record FenceResponse := mkFenceResponse {
  fp_status : Status;
  fp_new_high_water : FenceToken;
  fp_registry_sequence : Sequence
}.

Definition encode_fp (m : FenceResponse) : bytes :=
  w_blob (encode_status (fp_status m)) ++ w_counter (fp_new_high_water m) ++
  w_counter (fp_registry_sequence m).

Definition r_fp (r : reader) : result (FenceResponse * reader) :=
  let* (status, r) := r_nested r_status r in
  let* (new_high_water, r) := r_counter r in
  let* (registry_sequence, r) := r_counter r in
  Ret (mkFenceResponse status new_high_water registry_sequence, r).

(** *** [ReleaseRequest] *)

Record ReleaseRequest := mkReleaseRequest {
  rq_envelope : RequestEnvelope;
  rq_grant : GrantId;
  rq_cause : Reason
}.

Definition encode_rq (m : ReleaseRequest) : bytes :=
  w_blob (encode_envelope (rq_envelope m)) ++ w_counter (rq_grant m) ++ w_reason (rq_cause m).

Definition r_rq (r : reader) : result (ReleaseRequest * reader) :=
  let* (envelope, r) := r_nested r_envelope r in
  let* (grant, r) := r_counter r in
  let* (cause, r) := r_reason r in
  Ret (mkReleaseRequest envelope grant cause, r).

(** *** [ReleaseResponse] *)

Record ReleaseResponse := mkReleaseResponse {
  rp_status : Status;
  rp_closed_epoch : Epoch;
  rp_new_high_water : FenceToken
}.

Definition encode_rp (m : ReleaseResponse) : bytes :=
  w_blob (encode_status (rp_status m)) ++ w_counter (rp_closed_epoch m) ++
  w_counter (rp_new_high_water m).

Definition r_rp (r : reader) : result (ReleaseResponse * reader) :=
  let* (status, r) := r_nested r_status r in
  let* (closed_epoch, r) := r_counter r in
  let* (new_high_water, r) := r_counter r in
  Ret (mkReleaseResponse status closed_epoch new_high_water, r).

(** *** [InspectRequest] *)

Record InspectRequest := mkInspectRequest {
  iq_envelope : RequestEnvelope;
  iq_domain : DomainId;
  iq_scope : Scope;
  iq_incarnation : IncarnationId
}.

Definition encode_iq (m : InspectRequest) : bytes :=
  w_blob (encode_envelope (iq_envelope m)) ++ w_text (iq_domain m) ++
  w_blob (encode_scope (iq_scope m)) ++ w_counter (iq_incarnation m).

Definition r_iq (r : reader) : result (InspectRequest * reader) :=
  let* (envelope, r) := r_nested r_envelope r in
  let* (domain, r) := r_id Outcome.Invalid r in
  let* (scope, r) := r_nested r_scope r in
  let* (incarnation, r) := r_counter r in
  Ret (mkInspectRequest envelope domain scope incarnation, r).

(** *** [InspectResponse] *)

Record InspectResponse := mkInspectResponse {
  ip_status : Status;
  ip_report : bytes;
  ip_registry_generation : Generation;
  ip_last_registry_sequence : Sequence
}.

Definition encode_ip (m : InspectResponse) : bytes :=
  if text_too_long (kMaxExplanationBytes * 8) (ip_report m) then [] else
  w_blob (encode_status (ip_status m)) ++ w_text (ip_report m) ++
  w_counter (ip_registry_generation m) ++ w_counter (ip_last_registry_sequence m).

Definition r_ip (r : reader) : result (InspectResponse * reader) :=
  let* (status, r) := r_nested r_status r in
  let* (report, r) := r_text r in
  if (kMaxExplanationBytes * 8) <? zlen report
  then Err (mkStatus Outcome.Exhausted Reason.ImpossibleLength (zlen report)) else
  let* (registry_generation, r) := r_counter r in
  let* (last_registry_sequence, r) := r_counter r in
  Ret (mkInspectResponse status report registry_generation last_registry_sequence, r).

(** *** [AttestRequest] *)

Record AttestRequest := mkAttestRequest {
  tq_envelope : RequestEnvelope;
  tq_subject_domain : DomainId;
  tq_subject_scope : Scope;
  tq_epoch : Epoch;
  tq_incarnation : IncarnationId;
  tq_fence_token : FenceToken;
  tq_policy_generation : Generation;
  tq_requester_step : Step;
  tq_requested_at : WallClockReading
}.

Definition encode_tq (m : AttestRequest) : bytes :=
  w_blob (encode_envelope (tq_envelope m)) ++ w_text (tq_subject_domain m) ++
  w_blob (encode_scope (tq_subject_scope m)) ++ w_counter (tq_epoch m) ++
  w_counter (tq_incarnation m) ++ w_counter (tq_fence_token m) ++
  w_counter (tq_policy_generation m) ++ w_counter (tq_requester_step m) ++
  w_wall_clock (tq_requested_at m).

Definition r_tq (r : reader) : result (AttestRequest * reader) :=
  let* (envelope, r) := r_nested r_envelope r in
  let* (subject_domain, r) := r_id Outcome.Invalid r in
  let* (subject_scope, r) := r_nested r_scope r in
  let* (epoch, r) := r_counter r in
  let* (incarnation, r) := r_counter r in
  let* (fence_token, r) := r_counter r in
  let* (policy_generation, r) := r_counter r in
  let* (requester_step, r) := r_counter r in
  let* (requested_at, r) := r_wall_clock r in
  Ret (mkAttestRequest envelope subject_domain subject_scope epoch incarnation fence_token
       policy_generation requester_step requested_at, r).

(** *** [AttestResponse] *)

Record AttestResponse := mkAttestResponse {
  tp_status : Status;
  tp_attestation : WitnessAttestation
}.

Definition encode_tp (m : AttestResponse) : bytes :=
  w_blob (encode_status (tp_status m)) ++ w_blob (encode_attestation (tp_attestation m)).

Definition r_tp (r : reader) : result (AttestResponse * reader) :=
  let* (status, r) := r_nested r_status r in
  let* (attestation, r) := r_nested r_attestation r in
  Ret (mkAttestResponse status attestation, r).

(** *** [WitnessStatusRequest] *)

Record WitnessStatusRequest := mkWitnessStatusRequest {
  wq_envelope : RequestEnvelope
}.

Definition encode_wq (m : WitnessStatusRequest) : bytes :=
  w_blob (encode_envelope (wq_envelope m)).

Definition r_wq (r : reader) : result (WitnessStatusRequest * reader) :=
  let* (envelope, r) := r_nested r_envelope r in
  Ret (mkWitnessStatusRequest envelope, r).

(** *** [WitnessStatusResponse] *)

Record WitnessStatusResponse := mkWitnessStatusResponse {
  wp_status : Status;
  wp_witness : WitnessId;
  wp_fault_domain : FaultDomainId;
  wp_generation : Generation;
  wp_last_sequence : Sequence;
  wp_attestations_issued : Z;
  wp_refusals_conflict : Z;
  wp_refusals_replay : Z;
  wp_refusals_epoch_regression : Z;
  wp_step : Step
}.

Definition encode_wp (m : WitnessStatusResponse) : bytes :=
  w_blob (encode_status (wp_status m)) ++ w_text (wp_witness m) ++ w_text (wp_fault_domain m) ++
  w_counter (wp_generation m) ++ w_counter (wp_last_sequence m) ++
  w_u64 (wp_attestations_issued m) ++ w_u64 (wp_refusals_conflict m) ++
  w_u64 (wp_refusals_replay m) ++ w_u64 (wp_refusals_epoch_regression m) ++
  w_counter (wp_step m).

Definition r_wp (r : reader) : result (WitnessStatusResponse * reader) :=
  let* (status, r) := r_nested r_status r in
  let* (p, r) := r_id2 Outcome.Invalid r in
  let* (generation, r) := r_counter r in
  let* (last_sequence, r) := r_counter r in
  let* (attestations_issued, r) := r_u64 r in
  let* (refusals_conflict, r) := r_u64 r in
  let* (refusals_replay, r) := r_u64 r in
  let* (refusals_epoch_regression, r) := r_u64 r in
  let* (step, r) := r_counter r in
  Ret (mkWitnessStatusResponse status p.1 p.2 generation last_sequence attestations_issued
       refusals_conflict refusals_replay refusals_epoch_regression step, r).

(** *** [DefineDomainRequest] *)

Record DefineDomainRequest := mkDefineDomainRequest {
  mq_envelope : RequestEnvelope;
  mq_definition : DomainDefinition
}.

Definition encode_mq (m : DefineDomainRequest) : bytes :=
  w_blob (encode_envelope (mq_envelope m)) ++
  w_blob (encode_domain_definition (mq_definition m)).

Definition r_mq (r : reader) : result (DefineDomainRequest * reader) :=
  let* (envelope, r) := r_nested r_envelope r in
  let* (definition, r) := r_nested r_domain_definition r in
  Ret (mkDefineDomainRequest envelope definition, r).

(** *** [DefineDomainResponse] *)

Record DefineDomainResponse := mkDefineDomainResponse {
  mp_status : Status;
  mp_domain_generation : Generation
}.

Definition encode_mp (m : DefineDomainResponse) : bytes :=
  w_blob (encode_status (mp_status m)) ++ w_counter (mp_domain_generation m).

Definition r_mp (r : reader) : result (DefineDomainResponse * reader) :=
  let* (status, r) := r_nested r_status r in
  let* (domain_generation, r) := r_counter r in
  Ret (mkDefineDomainResponse status domain_generation, r).

(** *** [ErrorResponse] *)

Record ErrorResponse := mkErrorResponse {
  er_status : Status;
  er_detail : bytes
}.

Definition encode_er (m : ErrorResponse) : bytes :=
  if text_too_long kMaxExplanationBytes (er_detail m) then [] else
  w_blob (encode_status (er_status m)) ++ w_text (er_detail m).

Definition r_er (r : reader) : result (ErrorResponse * reader) :=
  let* (status, r) := r_nested r_status r in
  let* (detail, r) := r_text r in
  if kMaxExplanationBytes <? zlen detail
  then Err (mkStatus Outcome.Exhausted Reason.ImpossibleLength (zlen detail)) else
  Ret (mkErrorResponse status detail, r).

(** ** Every field comes back *)

Definition envelope_wf (e : RequestEnvelope) : Prop :=
  id_valid (en_node e) ∧ words [en_session e; en_boot e; en_incarnation e].

Lemma decodes_client_kind k : decodes read_client_kind k (write_client_kind k).
Proof. apply decodes_enum; by destruct k. Qed.

Lemma decodes_envelope e : envelope_wf e → decodes r_envelope e (encode_envelope e).
Proof.
  intros H. unfold envelope_wf in H. open_wf. destruct e. unfold r_envelope, encode_envelope.
  decode_fields.
Qed.

Lemma zlen_envelope e : envelope_wf e → zlen (encode_envelope e) <= 100.
Proof.
  intros [Hn _]. pose proof (id_valid_length _ Hn). unfold encode_envelope.
  autorewrite with zlen. lia.
Qed.

Lemma decodes_envelope_blob e : envelope_wf e →
  decodes (r_nested r_envelope) e (w_blob (encode_envelope e)).
Proof.
  intros H. apply decodes_nested; [|by apply decodes_envelope]. pose proof (zlen_envelope e H).
  unfold kMaxSnapshotBytes. lia.
Qed.

Definition definition_wf (d : DomainDefinition) : Prop :=
  id_valid (dd_domain d) ∧ id_valid (dd_node d) ∧ scope_codable (dd_scope d) ∧
  id_valid (dd_policy d).

Lemma decodes_definition d : definition_wf d →
  decodes r_domain_definition d (encode_domain_definition d).
Proof.
  intros H. unfold definition_wf in H. open_wf. destruct d.
  unfold r_domain_definition, encode_domain_definition. decode_fields.
Qed.

Lemma zlen_definition d : definition_wf d → zlen (encode_domain_definition d) <= 17300.
Proof.
  intros (Hd & Hn & Hs & Hp). pose proof (zlen_scope _ Hs).
  pose proof (id_valid_length _ Hd). pose proof (id_valid_length _ Hn).
  pose proof (id_valid_length _ Hp). unfold encode_domain_definition. autorewrite with zlen. lia.
Qed.

Lemma decodes_definition_blob d : definition_wf d →
  decodes (r_nested r_domain_definition) d (w_blob (encode_domain_definition d)).
Proof.
  intros H. apply decodes_nested; [|by apply decodes_definition]. pose proof (zlen_definition d H).
  unfold kMaxSnapshotBytes. lia.
Qed.

Lemma zlen_attestation a : attestation_wf a → zlen (encode_attestation a) <= 300.
Proof.
  intros (Hw & Hd & Hs & _). pose proof (id_valid_length _ Hw). pose proof (id_valid_length _ Hd).
  unfold encode_attestation, w_wall_clock, w_i64, w_digest. autorewrite with zlen.
  unfold zlen at 3. rewrite Hs. lia.
Qed.

Lemma zlen_lease l : lease_wf l → zlen (encode_lease l) <= 300.
Proof.
  intros (Hd & Hs & _). pose proof (id_valid_length _ Hd).
  unfold encode_lease, w_digest. autorewrite with zlen. unfold zlen at 2. rewrite Hs. lia.
Qed.

Lemma zlen_bundle b : bundle_wf b → zlen (encode_bundle b) <= 20000.
Proof.
  intros (Hp & Hn & Ha & Hl & _). pose proof (id_valid_length _ Hp). unfold encode_bundle.
  rewrite !zlen_app, zlen_sequence, zlen_text, !zlen_counter.
  assert (zlen (eb_attestations b ≫= λ a, w_blob (encode_attestation a)) <=
          304 * zlen (eb_attestations b)).
  { apply zlen_bind_le. intros a Hin. rewrite Forall_forall in Ha. rewrite zlen_blob.
    pose proof (zlen_attestation a (Ha a Hin)). lia. }
  unfold kMaxAttestationsPerBundle in *. unfold w_optional. rewrite zlen_app, zlen_boolean.
  destruct (eb_has_lease b); [|change (zlen []) with 0; lia].
  rewrite zlen_blob. pose proof (zlen_lease _ Hl). lia.
Qed.

Lemma decodes_bundle_blob b : bundle_wf b →
  decodes (r_nested r_bundle) b (w_blob (encode_bundle b)).
Proof.
  intros H. apply decodes_nested; [|by apply decodes_bundle]. pose proof (zlen_bundle b H).
  unfold kMaxSnapshotBytes. lia.
Qed.

Lemma zlen_ids bound l : ids_wf bound l → zlen (w_sequence w_text l) <= 4 + 66 * bound.
Proof.
  intros [Hl Hf]. rewrite zlen_sequence.
  assert (zlen (l ≫= w_text) <= 66 * zlen l); [|lia]. apply zlen_bind_le. intros x Hx.
  rewrite zlen_text. rewrite Forall_forall in Hf. pose proof (id_valid_length x (Hf x Hx)). lia.
Qed.

Lemma zlen_optional_id v : v = [] ∨ id_valid v → zlen v <= 64.
Proof. intros [->|H]; [done|by apply id_valid_length]. Qed.

Lemma zlen_vector v : vector_wf v → zlen (encode_vector v) <= 200.
Proof.
  intros (Hd & Hs & _). pose proof (zlen_optional_id _ Hd). unfold encode_vector, w_digest.
  autorewrite with zlen. unfold zlen at 2. rewrite Hs. lia.
Qed.

Lemma zlen_status s : zlen (encode_status s) = 12.
Proof. done. Qed.

Lemma zlen_decision d : decision_wf d → zlen (encode_decision d) <= 50000.
Proof.
  intros (_ & (Hx & _) & Hv & Hc & Hs & Hm & Hf & _). pose proof (zlen_vector _ Hv).
  pose proof (zlen_optional_id _ Hc). pose proof (zlen_scope _ Hs).
  pose proof (zlen_ids _ _ Hm). pose proof (zlen_ids _ _ Hf).
  assert (zlen (w_sequence w_reason (codes (ad_explanation d))) <= 4 + 2 * 16).
  { rewrite zlen_sequence. unfold kMaxExplanationCodes in Hx.
    pose proof (zlen_bind_le w_reason (codes (ad_explanation d)) 2 (λ x _, Z.le_refl 2)). lia. }
  assert (Hd : zlen (decision_digest d) = 32) by (unfold zlen, decision_digest; by rewrite length_digest).
  unfold encode_decision, w_digest. unfold kMaxCompetingClaims, kMaxExtentsPerScope in *.
  autorewrite with zlen. rewrite Hd. change (zlen (w_u16 (verdict_code (ad_verdict d)))) with 2. 
  rewrite !zlen_status. lia.
Qed.

Lemma decodes_decision_blob d : decision_wf d →
  decodes (r_nested r_decision) d (w_blob (encode_decision d)).
Proof.
  intros H. apply decodes_nested; [|by apply decodes_decision]. pose proof (zlen_decision d H).
  unfold kMaxSnapshotBytes. lia.
Qed.

#[export] Hint Resolve decodes_client_kind decodes_envelope_blob decodes_definition_blob
  decodes_bundle_blob decodes_decision_blob : codec.

Lemma short_text bound v : zlen v <= bound → bound <= 0xFFFF → text_too_long bound v = false ∧
  is_u16 (zlen v) ∧ (bound <? zlen v) = false.
Proof.
  intros. pose proof (zlen_nonneg v). unfold text_too_long, is_u16.
  destruct (Z.ltb_spec bound (zlen v)), (Z.ltb_spec 0xFFFF (zlen v)); split_and!; done || lia.
Qed.

(** A message decodes field after field; a bounded text passes its guard. *)
Ltac message m read write :=
  open_wf; unfold read, write;
  repeat match goal with
         | |- context [text_too_long ?bound ?v] =>
             destruct (short_text bound v ltac:(done) ltac:(by vm_compute)) as (-> & ? & ?)
         end;
  destruct m;
  repeat first
    [ progress decode_fields | eapply decodes_guard; [done|] | eapply decodes_optional_id; [done|] ].

(** *** Message by message *)

Definition hq_wf (m : HelloRequest) : Prop := id_valid (hq_node m) ∧ hq_client_protocol m = kFrameVersion.

Lemma decodes_hq m : hq_wf m → decodes r_hq m (encode_hq m).
Proof.
  intros [Hn Hp]. destruct m as [n k p]. cbn in Hn, Hp. subst p. unfold r_hq, encode_hq. cbn [hq_node hq_kind hq_client_protocol].
  do 2 (eapply decodes_bind; [solve [eauto with codec]|]).
  eapply decodes_bind_last; [by apply decodes_u16|]. by apply decodes_guard, decodes_ret.
Qed.

Definition hp_wf (m : HelloResponse) : Prop :=
  is_u64 (aux (hp_status m)) ∧ is_u16 (hp_server_protocol m) ∧ is_u16 (zlen
  (hp_server_identity m)) ∧ words [hp_session m; hp_boot m; hp_incarnation m; hp_first_request
  m].

Lemma decodes_hp m : hp_wf m → decodes r_hp m (encode_hp m).
Proof. intros H. unfold hp_wf in H. message m r_hp encode_hp. Qed.

Definition aq_wf (m : AllocateEpochRequest) : Prop :=
  envelope_wf (aq_envelope m) ∧ id_valid (aq_domain m) ∧ scope_codable (aq_scope m) ∧ clock_wf
  (aq_requested_at m) ∧ words [aq_incarnation m; aq_boot m; aq_attempt_sequence m].

Lemma decodes_aq m : aq_wf m → decodes r_aq m (encode_aq m).
Proof. intros H. unfold aq_wf in H. message m r_aq encode_aq. Qed.

Definition ar_wf (m : AllocateEpochResponse) : Prop :=
  is_u64 (aux (ar_status m)) ∧ (ar_policy m = [] ∨ id_valid (ar_policy m)) ∧ words [ar_epoch
  m; ar_fence_token m; ar_grant m; ar_valid_until m; ar_lineage_generation m;
  ar_policy_generation m; ar_fence_generation m; ar_allocation_step m].

Lemma decodes_ar m : ar_wf m → decodes r_ar m (encode_ar m).
Proof. intros H. unfold ar_wf in H. message m r_ar encode_ar. Qed.

Definition dq_wf (m : DecideRequest) : Prop :=
  envelope_wf (dq_envelope m) ∧ id_valid (dq_domain m) ∧ scope_codable (dq_scope m) ∧
  bundle_wf (dq_evidence m) ∧ clock_wf (dq_requested_at m) ∧ words [dq_epoch m; dq_incarnation
  m; dq_boot m; dq_presented_fence_token m; dq_attempt_sequence m].

Lemma decodes_dq m : dq_wf m → decodes r_dq m (encode_dq m).
Proof. intros H. unfold dq_wf in H. message m r_dq encode_dq. Qed.

Definition dr_wf (m : DecideResponse) : Prop :=
  is_u64 (aux (dr_status m)) ∧ decision_wf (dr_decision m).

Lemma decodes_dr m : dr_wf m → decodes r_dr m (encode_dr m).
Proof. intros H. unfold dr_wf in H. message m r_dr encode_dr. Qed.

Definition cq_wf (m : CommitRequest) : Prop :=
  envelope_wf (cq_envelope m) ∧ id_valid (cq_domain m) ∧ scope_codable (cq_scope m) ∧ zlen
  (cq_operation m) <= kMaxTextLength ∧ length (cq_payload_digest m) = 32%nat ∧ clock_wf
  (cq_requested_at m) ∧ words [cq_epoch m; cq_incarnation m; cq_grant m; cq_fence_token m;
  cq_attempt_sequence m].

Lemma decodes_cq m : cq_wf m → decodes r_cq m (encode_cq m).
Proof. intros H. unfold cq_wf in H. message m r_cq encode_cq. Qed.

Definition cr_wf (m : CommitResponse) : Prop :=
  is_u64 (aux (cr_status m)) ∧ length (cr_effect_digest m) = 32%nat ∧ words [cr_store_sequence
  m; cr_admitted_token m].

Lemma decodes_cr m : cr_wf m → decodes r_cr m (encode_cr m).
Proof. intros H. unfold cr_wf in H. message m r_cr encode_cr. Qed.

Definition fq_wf (m : FenceRequest) : Prop :=
  envelope_wf (fq_envelope m) ∧ id_valid (fq_domain m) ∧ scope_codable (fq_scope m) ∧ words
  [fq_epoch m; fq_incarnation m].

Lemma decodes_fq m : fq_wf m → decodes r_fq m (encode_fq m).
Proof. intros H. unfold fq_wf in H. message m r_fq encode_fq. Qed.

Definition fp_wf (m : FenceResponse) : Prop :=
  is_u64 (aux (fp_status m)) ∧ words [fp_new_high_water m; fp_registry_sequence m].

Lemma decodes_fp m : fp_wf m → decodes r_fp m (encode_fp m).
Proof. intros H. unfold fp_wf in H. message m r_fp encode_fp. Qed.

Definition rq_wf (m : ReleaseRequest) : Prop :=
  envelope_wf (rq_envelope m) ∧ words [rq_grant m].

Lemma decodes_rq m : rq_wf m → decodes r_rq m (encode_rq m).
Proof. intros H. unfold rq_wf in H. message m r_rq encode_rq. Qed.

Definition rp_wf (m : ReleaseResponse) : Prop :=
  is_u64 (aux (rp_status m)) ∧ words [rp_closed_epoch m; rp_new_high_water m].

Lemma decodes_rp m : rp_wf m → decodes r_rp m (encode_rp m).
Proof. intros H. unfold rp_wf in H. message m r_rp encode_rp. Qed.

Definition iq_wf (m : InspectRequest) : Prop :=
  envelope_wf (iq_envelope m) ∧ id_valid (iq_domain m) ∧ scope_codable (iq_scope m) ∧ words
  [iq_incarnation m].

Lemma decodes_iq m : iq_wf m → decodes r_iq m (encode_iq m).
Proof. intros H. unfold iq_wf in H. message m r_iq encode_iq. Qed.

Definition ip_wf (m : InspectResponse) : Prop :=
  is_u64 (aux (ip_status m)) ∧ zlen (ip_report m) <= kMaxExplanationBytes * 8 ∧ words
  [ip_registry_generation m; ip_last_registry_sequence m].

Lemma decodes_ip m : ip_wf m → decodes r_ip m (encode_ip m).
Proof. intros H. unfold ip_wf in H. message m r_ip encode_ip. Qed.

Definition tq_wf (m : AttestRequest) : Prop :=
  envelope_wf (tq_envelope m) ∧ id_valid (tq_subject_domain m) ∧ scope_codable
  (tq_subject_scope m) ∧ clock_wf (tq_requested_at m) ∧ words [tq_epoch m; tq_incarnation m;
  tq_fence_token m; tq_policy_generation m; tq_requester_step m].

Lemma decodes_tq m : tq_wf m → decodes r_tq m (encode_tq m).
Proof. intros H. unfold tq_wf in H. message m r_tq encode_tq. Qed.

Definition tp_wf (m : AttestResponse) : Prop :=
  is_u64 (aux (tp_status m)) ∧ attestation_wf (tp_attestation m).

Lemma decodes_tp m : tp_wf m → decodes r_tp m (encode_tp m).
Proof. intros H. unfold tp_wf in H. message m r_tp encode_tp. Qed.

Definition wq_wf (m : WitnessStatusRequest) : Prop :=
  envelope_wf (wq_envelope m).

Lemma decodes_wq m : wq_wf m → decodes r_wq m (encode_wq m).
Proof. intros H. unfold wq_wf in H. message m r_wq encode_wq. Qed.

Definition wp_wf (m : WitnessStatusResponse) : Prop :=
  is_u64 (aux (wp_status m)) ∧ id_valid (wp_witness m) ∧ id_valid (wp_fault_domain m) ∧ words
  [wp_generation m; wp_last_sequence m; wp_attestations_issued m; wp_refusals_conflict m;
  wp_refusals_replay m; wp_refusals_epoch_regression m; wp_step m].

Lemma decodes_wp m : wp_wf m → decodes r_wp m (encode_wp m).
Proof. intros H. unfold wp_wf in H. message m r_wp encode_wp. Qed.

Definition mq_wf (m : DefineDomainRequest) : Prop :=
  envelope_wf (mq_envelope m) ∧ definition_wf (mq_definition m).

Lemma decodes_mq m : mq_wf m → decodes r_mq m (encode_mq m).
Proof. intros H. unfold mq_wf in H. message m r_mq encode_mq. Qed.

Definition mp_wf (m : DefineDomainResponse) : Prop :=
  is_u64 (aux (mp_status m)) ∧ words [mp_domain_generation m].

Lemma decodes_mp m : mp_wf m → decodes r_mp m (encode_mp m).
Proof. intros H. unfold mp_wf in H. message m r_mp encode_mp. Qed.

Definition er_wf (m : ErrorResponse) : Prop :=
  is_u64 (aux (er_status m)) ∧ zlen (er_detail m) <= kMaxExplanationBytes.

Lemma decodes_er m : er_wf m → decodes r_er m (encode_er m).
Proof. intros H. unfold er_wf in H. message m r_er encode_er. Qed.

(** ** A message of any type *)

Inductive Payload :=
  | PHelloRequest (m : HelloRequest)
  | PHelloResponse (m : HelloResponse)
  | PAllocateEpochRequest (m : AllocateEpochRequest)
  | PAllocateEpochResponse (m : AllocateEpochResponse)
  | PDecideRequest (m : DecideRequest)
  | PDecideResponse (m : DecideResponse)
  | PCommitRequest (m : CommitRequest)
  | PCommitResponse (m : CommitResponse)
  | PFenceRequest (m : FenceRequest)
  | PFenceResponse (m : FenceResponse)
  | PReleaseRequest (m : ReleaseRequest)
  | PReleaseResponse (m : ReleaseResponse)
  | PInspectRequest (m : InspectRequest)
  | PInspectResponse (m : InspectResponse)
  | PAttestRequest (m : AttestRequest)
  | PAttestResponse (m : AttestResponse)
  | PWitnessStatusRequest (m : WitnessStatusRequest)
  | PWitnessStatusResponse (m : WitnessStatusResponse)
  | PDefineDomainRequest (m : DefineDomainRequest)
  | PDefineDomainResponse (m : DefineDomainResponse)
  | PErrorResponse (m : ErrorResponse).

(** The type the frame of a payload carries. *)
Definition payload_type (p : Payload) : MessageType :=
  match p with
  | PHelloRequest _ => MessageType.HelloRequest
  | PHelloResponse _ => MessageType.HelloResponse
  | PAllocateEpochRequest _ => MessageType.AllocateEpochRequest
  | PAllocateEpochResponse _ => MessageType.AllocateEpochResponse
  | PDecideRequest _ => MessageType.DecideRequest
  | PDecideResponse _ => MessageType.DecideResponse
  | PCommitRequest _ => MessageType.CommitRequest
  | PCommitResponse _ => MessageType.CommitResponse
  | PFenceRequest _ => MessageType.FenceRequest
  | PFenceResponse _ => MessageType.FenceResponse
  | PReleaseRequest _ => MessageType.ReleaseRequest
  | PReleaseResponse _ => MessageType.ReleaseResponse
  | PInspectRequest _ => MessageType.InspectRequest
  | PInspectResponse _ => MessageType.InspectResponse
  | PAttestRequest _ => MessageType.AttestRequest
  | PAttestResponse _ => MessageType.AttestResponse
  | PWitnessStatusRequest _ => MessageType.WitnessStatusRequest
  | PWitnessStatusResponse _ => MessageType.WitnessStatusResponse
  | PDefineDomainRequest _ => MessageType.DefineDomainRequest
  | PDefineDomainResponse _ => MessageType.DefineDomainResponse
  | PErrorResponse _ => MessageType.ErrorResponse
  end.

Definition encode_payload (p : Payload) : bytes :=
  match p with
  | PHelloRequest m => encode_hq m
  | PHelloResponse m => encode_hp m
  | PAllocateEpochRequest m => encode_aq m
  | PAllocateEpochResponse m => encode_ar m
  | PDecideRequest m => encode_dq m
  | PDecideResponse m => encode_dr m
  | PCommitRequest m => encode_cq m
  | PCommitResponse m => encode_cr m
  | PFenceRequest m => encode_fq m
  | PFenceResponse m => encode_fp m
  | PReleaseRequest m => encode_rq m
  | PReleaseResponse m => encode_rp m
  | PInspectRequest m => encode_iq m
  | PInspectResponse m => encode_ip m
  | PAttestRequest m => encode_tq m
  | PAttestResponse m => encode_tp m
  | PWitnessStatusRequest m => encode_wq m
  | PWitnessStatusResponse m => encode_wp m
  | PDefineDomainRequest m => encode_mq m
  | PDefineDomainResponse m => encode_mp m
  | PErrorResponse m => encode_er m
  end.

Definition payload_wf (p : Payload) : Prop :=
  match p with
  | PHelloRequest m => hq_wf m
  | PHelloResponse m => hp_wf m
  | PAllocateEpochRequest m => aq_wf m
  | PAllocateEpochResponse m => ar_wf m
  | PDecideRequest m => dq_wf m
  | PDecideResponse m => dr_wf m
  | PCommitRequest m => cq_wf m
  | PCommitResponse m => cr_wf m
  | PFenceRequest m => fq_wf m
  | PFenceResponse m => fp_wf m
  | PReleaseRequest m => rq_wf m
  | PReleaseResponse m => rp_wf m
  | PInspectRequest m => iq_wf m
  | PInspectResponse m => ip_wf m
  | PAttestRequest m => tq_wf m
  | PAttestResponse m => tp_wf m
  | PWitnessStatusRequest m => wq_wf m
  | PWitnessStatusResponse m => wp_wf m
  | PDefineDomainRequest m => mq_wf m
  | PDefineDomainResponse m => mp_wf m
  | PErrorResponse m => er_wf m
  end.

(** The decode a receiver runs on a frame of type [t]; the other types carry no
    struct. *)
Definition decode_payload (t : MessageType) (data : bytes) : option (result Payload) :=
  let via {A} (d : reader → result (A * reader)) (c : A → Payload) : option (result Payload) :=
    Some (let* m := decode_all d data in Ret (c m)) in
  match t with
  | MessageType.HelloRequest => via r_hq PHelloRequest
  | MessageType.HelloResponse => via r_hp PHelloResponse
  | MessageType.AllocateEpochRequest => via r_aq PAllocateEpochRequest
  | MessageType.AllocateEpochResponse => via r_ar PAllocateEpochResponse
  | MessageType.DecideRequest => via r_dq PDecideRequest
  | MessageType.DecideResponse => via r_dr PDecideResponse
  | MessageType.CommitRequest => via r_cq PCommitRequest
  | MessageType.CommitResponse => via r_cr PCommitResponse
  | MessageType.FenceRequest => via r_fq PFenceRequest
  | MessageType.FenceResponse => via r_fp PFenceResponse
  | MessageType.ReleaseRequest => via r_rq PReleaseRequest
  | MessageType.ReleaseResponse => via r_rp PReleaseResponse
  | MessageType.InspectRequest => via r_iq PInspectRequest
  | MessageType.InspectResponse => via r_ip PInspectResponse
  | MessageType.AttestRequest => via r_tq PAttestRequest
  | MessageType.AttestResponse => via r_tp PAttestResponse
  | MessageType.WitnessStatusRequest => via r_wq PWitnessStatusRequest
  | MessageType.WitnessStatusResponse => via r_wp PWitnessStatusResponse
  | MessageType.DefineDomainRequest => via r_mq PDefineDomainRequest
  | MessageType.DefineDomainResponse => via r_mp PDefineDomainResponse
  | MessageType.ErrorResponse => via r_er PErrorResponse
  | _ => None
  end.

Create HintDb message.
#[export] Hint Resolve decodes_hq decodes_hp decodes_aq decodes_ar decodes_dq decodes_dr decodes_cq
  decodes_cr decodes_fq decodes_fp decodes_rq decodes_rp decodes_iq decodes_ip decodes_tq decodes_tp
  decodes_wq decodes_wp decodes_mq decodes_mp decodes_er : message.

Lemma decodes_payload p : payload_wf p →
  decode_payload (payload_type p) (encode_payload p) = Some (Ret p).
Proof.
  destruct p; cbn [payload_wf payload_type encode_payload decode_payload]; intros H;
    by erewrite decodes_all by eauto with message.
Qed.

(** A decoder consumes all it is given: a message followed by anything is refused. *)
Lemma decode_all_trailing {A} (d : reader → result (A * reader)) x e tl :
  decodes d x e → tl ≠ [] →
  decode_all d (e ++ tl) = Err (mkStatus Outcome.Invalid Reason.TrailingGarbage (zlen tl)).
Proof.
  intros Hd Ht. unfold decode_all, reader_of, finish, exhausted, remaining. rewrite (Hd 0 tl).
  cbn [rd_rest]. destruct (Z.eqb_spec (zlen tl) 0) as [E|]; [|done].
  by apply zlen_nil_iff in E.
Qed.

Lemma payload_trailing p tl : payload_wf p → tl ≠ [] →
  decode_payload (payload_type p) (encode_payload p ++ tl) =
    Some (Err (mkStatus Outcome.Invalid Reason.TrailingGarbage (zlen tl))).
Proof.
  destruct p; cbn [payload_wf payload_type encode_payload decode_payload]; intros H Ht;
    erewrite decode_all_trailing by eauto with message; reflexivity.
Qed.

(** *** Sizes *)

(** The bounds of the parts of a message in the context. *)
Ltac part_bounds :=
  repeat match goal with
         | H : envelope_wf ?e |- _ => apply zlen_envelope in H
         | H : id_valid ?v |- _ => apply id_valid_length in H
         | H : ?v = [] ∨ id_valid ?v |- _ => apply zlen_optional_id in H
         | H : scope_codable ?s |- _ => apply zlen_scope in H
         | H : bundle_wf ?b |- _ => apply zlen_bundle in H
         | H : decision_wf ?d |- _ => apply zlen_decision in H
         | H : attestation_wf ?a |- _ => apply zlen_attestation in H
         | H : definition_wf ?d |- _ => apply zlen_definition in H
         | H : length ?d = 32%nat |- _ => apply (f_equal Z.of_nat) in H; fold (zlen d) in H
         end.

#[export] Hint Unfold hq_wf hp_wf aq_wf ar_wf dq_wf dr_wf cq_wf cr_wf fq_wf fp_wf rq_wf rp_wf iq_wf ip_wf tq_wf tp_wf wq_wf wp_wf mq_wf mp_wf er_wf encode_hq encode_hp encode_aq encode_ar encode_dq encode_dr encode_cq encode_cr encode_fq encode_fp encode_rq encode_rp encode_iq encode_ip encode_tq encode_tp encode_wq encode_wp encode_mq encode_mp encode_er w_digest
  w_wall_clock w_i64 write_client_kind is_u16 kMaxTextLength kMaxExplanationBytes
  kMaxFramePayloadBytes : message.

(** Every well-formed message fits the payload of a frame. *)
Lemma payload_fits p : payload_wf p → zlen (encode_payload p) <= kMaxFramePayloadBytes.
Proof.
  destruct p; cbn [payload_wf encode_payload]; intros H; autounfold with message in *;
    try (case_match; [done|]); open_wf; part_bounds; autorewrite with zlen;
    rewrite ?zlen_status; lia.
Qed.

(** A payload in a frame, as a sender fills it. *)
Definition frame_of (request : Z) (p : Payload) : Frame :=
  Frames.seal (payload_type p) 0 request (encode_payload p).

Lemma frame_of_ok request p : is_u64 request → payload_wf p →
  frame_ok kMaxFramePayloadBytes (frame_of request p).
Proof. intros. by apply Frames.seal_ok; [|done|apply payload_fits]. Qed.

Module Messaging.

(** Every message of the protocol survives the wire: it fits a frame, its payload
    decodes to exactly the message that was sent, and the same bytes with
    anything appended are refused. *)
Theorem message_roundtrip (p : Payload) (tl : bytes) : payload_wf p → tl ≠ [] →
  zlen (encode_payload p) <= kMaxFramePayloadBytes ∧
  decode_payload (payload_type p) (encode_payload p) = Some (Ret p) ∧
  decode_payload (payload_type p) (encode_payload p ++ tl) =
    Some (Err (mkStatus Outcome.Invalid Reason.TrailingGarbage (zlen tl))).
Proof.
  intros Hp Ht. split_and!; [by apply payload_fits|by apply decodes_payload|by apply payload_trailing].
Qed.

(** C37: End to end: messages sent over a connection, cut into chunks anywhere, are
    received one by one, in order, each under its request id. *)
Theorem messages_delivered (ms : list (Z * Payload)) (chunks : list bytes) :
  Forall (λ m, is_u64 m.1 ∧ payload_wf m.2) ms →
  concat chunks = ms ≫= (λ m, encode_frame (frame_of m.1 m.2)) →
  ∃ frames, feed (decoder kMaxFramePayloadBytes) chunks =
      (decoder kMaxFramePayloadBytes, frames, status_ok) ∧
    (λ f, (fh_request_id (fr_header f),
           decode_payload (fh_type (fr_header f)) (fr_payload f))) <$> frames =
    (λ m, (m.1, Some (Ret m.2))) <$> ms.
Proof.
  intros Hms E. exists ((λ m, frame_of m.1 m.2) <$> ms). split.
  - rewrite (Frames.stream_exact _ ((λ m, frame_of m.1 m.2) <$> ms)); [done|exact Frames.demo_bound| |].
    + apply Forall_fmap. eapply Forall_impl; [exact Hms|]. intros m [Hi Hp]. by apply frame_of_ok.
    + by rewrite E, list_fmap_bind.
  - rewrite <-list_fmap_compose. apply list_fmap_ext. intros i m Hi.
    rewrite Forall_forall in Hms. destruct (Hms m) as [_ Hp]; [by eapply list_elem_of_lookup_2|].
    cbn. by rewrite decodes_payload.
Qed.

Definition demo_envelope : RequestEnvelope := mkEnvelope 3 (str "node-a") 1 2.
Definition demo_fence : Payload :=
  PFenceRequest (mkFenceRequest demo_envelope (str "d") [str "a"] 4 2 Reason.ExtentFenced).
Definition demo_error : Payload :=
  PErrorResponse (mkErrorResponse (fail0 Outcome.Fenced Reason.StaleEpoch) (str "stale")).

Lemma demo_fence_wf : payload_wf demo_fence.
Proof.
  unfold demo_fence, payload_wf, fq_wf. cbn [fq_envelope fq_domain fq_scope fq_epoch fq_incarnation].
  split_and!; [split; [by Codecs.solve_id|Codecs.solve_words]|by Codecs.solve_id|
    exact Codecs.scope_a_codable|Codecs.solve_words].
Qed.

Lemma demo_error_wf : payload_wf demo_error.
Proof. by split. Qed.

Lemma message_roundtrip_witness :
  decode_payload MessageType.FenceRequest (encode_payload demo_fence) = Some (Ret demo_fence).
Proof.
  destruct (message_roundtrip demo_fence (str "x")) as (_ & H & _).
  - exact demo_fence_wf.
  - discriminate.
  - exact H.
Defined.

Lemma messages_delivered_witness : ∃ frames,
  feed (decoder kMaxFramePayloadBytes)
    [take 20 (encode_frame (frame_of 7 demo_fence));
     drop 20 (encode_frame (frame_of 7 demo_fence)) ++ encode_frame (frame_of 8 demo_error)] =
    (decoder kMaxFramePayloadBytes, frames, status_ok) ∧
  (λ f, (fh_request_id (fr_header f), decode_payload (fh_type (fr_header f)) (fr_payload f)))
    <$> frames = [(7, Some (Ret demo_fence)); (8, Some (Ret demo_error))].
Proof.
  apply (messages_delivered [(7, demo_fence); (8, demo_error)]).
  - constructor; [split; [done|exact demo_fence_wf]|].
    constructor; [split; [done|exact demo_error_wf]|constructor].
  - vm_compute. reflexivity.
Defined.
End Messaging.
