(* ===== verification/Journal.v ===== *)
(** * The durable journal and its snapshot

    Models [include/sbf/persistence.hpp] and [src/persistence.cpp].  The
    directory of a store is the contents of its three files; a system call that
    can fail takes the way it fails as an argument, with the bytes that reached
    the file before it did.  The record loop that [Store::open],
    [Store::replay], [FabricStore::open] and [FabricStore::load] share is
    [scan_log]. *)
From S2P Require Import Prelude Order SortedVec Status Ids Text Digest Canonical Scope.
From S2P Require Import Fence Lineage Evidence Arbiter Codec.
Open Scope Z_scope.

(** ** Record kinds and the record codec *)

Inductive RecordKind : Set :=
  | KStoreHeader | KBootBegin | KBootEnd | KPolicyDefine | KGrantOpen | KGrantClose | KFence
  | KExtentAdopt | KCommitRecord | KInterruptMark | KStoreIdAssign | KStepAdvance
  | KDomainDefine | KIncarnationAllocate.

#[export] Instance record_kind_eq_dec : EqDecision RecordKind.
Proof. solve_decision. Defined.

Definition kind_code (k : RecordKind) : Z :=
  match k with
  | KStoreHeader => 1 | KBootBegin => 2 | KBootEnd => 3 | KPolicyDefine => 4 | KGrantOpen => 5
  | KGrantClose => 6 | KFence => 7 | KExtentAdopt => 8 | KCommitRecord => 9
  | KInterruptMark => 10 | KStoreIdAssign => 11 | KStepAdvance => 12 | KDomainDefine => 13
  | KIncarnationAllocate => 14
  end.

(** [record_kind_valid], with the enumerator it accepts. *)
Definition kind_of_code (raw : Z) : option RecordKind :=
  match raw with
  | 1 => Some KStoreHeader | 2 => Some KBootBegin | 3 => Some KBootEnd
  | 4 => Some KPolicyDefine | 5 => Some KGrantOpen | 6 => Some KGrantClose
  | 7 => Some KFence | 8 => Some KExtentAdopt | 9 => Some KCommitRecord
  | 10 => Some KInterruptMark | 11 => Some KStoreIdAssign | 12 => Some KStepAdvance
  | 13 => Some KDomainDefine | 14 => Some KIncarnationAllocate
  | _ => None
  end.

Record JournalRecord := mkRecord {
  jr_kind : RecordKind;
  jr_sequence : Sequence;
  jr_step : Step;
  jr_status : Status;
  jr_payload : bytes
}.

Definition encode_record (r : JournalRecord) : bytes :=
  w_u16 (kind_code (jr_kind r)) ++ w_u64 (jr_sequence r) ++ w_u64 (jr_step r) ++
  w_outcome (outcome (jr_status r)) ++ w_reason (reason (jr_status r)) ++
  w_u64 (aux (jr_status r)) ++ w_blob (jr_payload r).

(** The fields, then [finish()], then the kind and the sequence. *)
Definition decode_record (data : bytes) : result JournalRecord :=
  let* (kind, r) := r_u16 (reader_of data) in
  let* (sequence, r) := r_u64 r in
  let* (step, r) := r_u64 r in
  let* (o, r) := r_outcome r in
  let* (c, r) := r_reason r in
  let* (a, r) := r_u64 r in
  let* (payload, r) := r_blob r in
  let* _ := finish r in
  match kind_of_code kind with
  | None => Err (mkStatus Outcome.Invalid Reason.InvalidEnum kind)
  | Some kind =>
      if sequence =? 0 then Err (fail0 Outcome.Invalid Reason.ValueOutOfRange)
      else Ret (mkRecord kind sequence step (mkStatus o c a) payload)
  end.

(** ** The record loop *)

Definition kRecordPrefixBytes : Z := 8.

(** [read_u32]: little endian, from the front of the bytes at [p]. *)
Definition read_u32 (p : bytes) : Z :=
  match p with
  | b0 :: b1 :: b2 :: b3 :: _ => le32 b0 b1 b2 b3
  | _ => 0
  end.

(** [prefix + payload]: the length and the CRC-32C of the payload precede it. *)
Definition frame (payload : bytes) : bytes :=
  put_u32 (u32 (zlen payload)) ++ put_u32 (crc32c payload) ++ payload.

(** How the loop ends: at the end of the file, at a partial record, at a record
    that is refused, or out of fuel. *)
Inductive ScanEnd : Set :=
  | CleanEnd | TornAt (torn_bytes : Z) | RefusedAt (st : Status) | NoFuel.

Section scan.
Context {A : Type} (on_record : bytes → A → A * Status).

Fixpoint scan_log (fuel : nat) (offset : Z) (rest : bytes) (acc : A) : A * Z * ScanEnd :=
  match fuel with
  | O => (acc, offset, NoFuel)
  | S fuel =>
      match rest with
      | [] => (acc, offset, CleanEnd)
      | _ =>
          if zlen rest <? kRecordPrefixBytes then (acc, offset, TornAt (zlen rest))
          else
            let length_ := read_u32 rest in
            let expected_crc := read_u32 (drop 4 rest) in
            if (length_ =? 0) || (kMaxJournalRecordBytes <? length_)
            then (acc, offset,
                  RefusedAt (mkStatus Outcome.Corrupt Reason.ImpossibleLength length_))
            else if zlen rest - kRecordPrefixBytes <? length_
            then (acc, offset, TornAt (zlen rest))
            else
              let payload := take (Z.to_nat length_) (drop 8 rest) in
              if negb (crc32c payload =? expected_crc)
              then (acc, offset,
                    RefusedAt (mkStatus Outcome.Corrupt Reason.IntegrityMismatch offset))
              else
                let '(acc, st) := on_record payload acc in
                if negb (is_ok st) then (acc, offset, RefusedAt st)
                else scan_log fuel (offset + (kRecordPrefixBytes + length_))
                       (drop (Z.to_nat (kRecordPrefixBytes + length_)) rest) acc
      end
  end.

(** Every turn consumes at least nine bytes. *)
Definition scan (data : bytes) (acc : A) : A * Z * ScanEnd :=
  scan_log (S (length data)) 0 data acc.
End scan.

(** ** Headers *)

Definition kStoreMagic : Z := 0x31464253.
Definition kStoreFormatVersion : Z := 1.

Record StoreHeader := mkHeader {
  sh_store_id : StoreId;
  sh_created_at : Step;
  sh_created_by : BootId
}.

Definition store_header_body (h : StoreHeader) : bytes :=
  w_u32 kStoreMagic ++ w_u16 kStoreFormatVersion ++ w_u16 0 ++ w_text (sh_store_id h) ++
  w_u64 (sh_created_at h) ++ w_u64 (sh_created_by h).

Definition encode_store_header (h : StoreHeader) : bytes :=
  let body := store_header_body h in
  let checked := body ++ w_u32 (crc32c body) in
  checked ++ w_digest (Digest256_of checked).

Definition decode_store_header (data : bytes) : result StoreHeader :=
  let* (magic, r) := r_u32 (reader_of data) in
  let* (version, r) := r_u16 r in
  let* (reserved, r) := r_u16 r in
  let* (store_id, r) := r_text r in
  let* (created, r) := r_u64 r in
  let* (boot, r) := r_u64 r in
  if remaining r <? 4 + 32
  then Err (mkStatus Outcome.Corrupt Reason.TruncatedFrame (zlen data))
  else
    let crc_position := zlen data - remaining r in
    let* (crc, r) := r_u32 r in
    let* (digest, r) := r_digest r in
    let* _ := finish r in
    if negb (magic =? kStoreMagic)
    then Err (mkStatus Outcome.Corrupt Reason.BadMagic magic)
    else if negb (version =? kStoreFormatVersion)
    then Err (mkStatus Outcome.Unsupported Reason.UnsupportedVersion version)
    else if negb (crc32c (take (Z.to_nat crc_position) data) =? crc)
    then Err (mkStatus Outcome.Corrupt Reason.IntegrityMismatch crc_position)
    else if negb (eqb (Digest256_of (take (Z.to_nat (crc_position + 4)) data)) digest)
    then Err (mkStatus Outcome.Corrupt Reason.IntegrityMismatch (crc_position + 4))
    else
      match id_try_make store_id with
      | None => Err (fail0 Outcome.Corrupt Reason.IdCharset)
      | Some id => Ret (mkHeader id created boot)
      end.

Record SnapshotHeader := mkSnapHeader {
  sn_store_id : StoreId;
  sn_covers : Sequence;
  sn_taken_at : Step;
  sn_payload_length : Z;
  sn_payload_digest : Digest256
}.

Definition snapshot_header_body (h : SnapshotHeader) : bytes :=
  w_u32 kStoreMagic ++ w_u16 kStoreFormatVersion ++ w_u16 0 ++ w_text (sn_store_id h) ++
  w_u64 (sn_covers h) ++ w_u64 (sn_taken_at h) ++ w_u64 (sn_payload_length h) ++
  w_digest (sn_payload_digest h).

Definition encode_snapshot_header (h : SnapshotHeader) : bytes :=
  let body := snapshot_header_body h in body ++ w_u32 (crc32c body).

(** The header and the number of bytes it took. *)
Definition decode_snapshot_header (data : bytes) : result (SnapshotHeader * Z) :=
  let* (magic, r) := r_u32 (reader_of data) in
  let* (version, r) := r_u16 r in
  let* (reserved, r) := r_u16 r in
  let* (store_id, r) := r_text r in
  let* (covers, r) := r_u64 r in
  let* (taken, r) := r_u64 r in
  let* (payload_length, r) := r_u64 r in
  let* (payload_digest, r) := r_digest r in
  let crc_position := zlen data - remaining r in
  let* (crc, r) := r_u32 r in
  if negb (magic =? kStoreMagic)
  then Err (mkStatus Outcome.Corrupt Reason.BadMagic magic)
  else if negb (version =? kStoreFormatVersion)
  then Err (mkStatus Outcome.Unsupported Reason.UnsupportedVersion version)
  else if kMaxSnapshotBytes <? payload_length
  then Err (mkStatus Outcome.Invalid Reason.ImpossibleLength payload_length)
  else if negb (crc32c (take (Z.to_nat crc_position) data) =? crc)
  then Err (mkStatus Outcome.Corrupt Reason.IntegrityMismatch crc_position)
  else
    match id_try_make store_id with
    | None => Err (fail0 Outcome.Corrupt Reason.IdCharset)
    | Some id =>
        Ret (mkSnapHeader id covers taken payload_length payload_digest, crc_position + 4)
    end.

(** ** Files *)

(** The three files of a store's directory. *)
Record Disk := mkDisk {
  dk_header : option bytes;
  dk_snapshot : option bytes;
  dk_journal : option bytes
}.

(** A system call that may fail, with the reason and the detail its failure is
    reported by. *)
Definition Io : Type := option (Reason * Z).

Definition io_status (fault : Reason * Z) : Status :=
  mkStatus Outcome.Unreachable fault.1 fault.2.

Definition read_file_bounded (max_bytes : Z) (file : option bytes) : result bytes :=
  match file with
  | None => Err (fail0 Outcome.NotFound Reason.StoreNotFound)
  | Some data =>
      if max_bytes <? zlen data
      then Err (mkStatus Outcome.Invalid Reason.ImpossibleLength (zlen data))
      else Ret data
  end.

(** [atomic_write_file]: staging file, flush, rename; a failure before the
    rename leaves the target alone. *)
Definition atomic_write_file (io : Io) (target : option bytes) (data : bytes)
  : option bytes * Status :=
  match io with
  | None => (Some data, status_ok)
  | Some fault => (target, io_status fault)
  end.

(** How a flushed append ends: durable, or failed with [aux] after [written]
    bytes of it reached the file. *)
Inductive AppendIo : Set := AppendDone | AppendFault (aux_ : Z) (written : nat).

Definition append_file (io : AppendIo) (file : bytes) (data : bytes) : bytes :=
  match io with
  | AppendDone => file ++ data
  | AppendFault _ written => file ++ take written data
  end.

(** ** [class Store] *)

Record StoreRecoveryReport := mkReport {
  rp_created : bool;
  rp_snapshot_loaded : bool;
  rp_torn : bool;
  rp_torn_bytes : Z;
  rp_records : Z;
  rp_last_sequence : Sequence;
  rp_last_step : Step
}.

Definition report0 : StoreRecoveryReport := mkReport false false false 0 0 0 0.

Record StoreOpenOptions := mkOptions {
  so_create : bool;
  so_allow_torn : bool;
  so_boot : BootId
}.

Record Store := mkStore {
  st_id : StoreId;
  st_open : bool;                 (* file_ != nullptr *)
  st_last : Sequence;
  st_appended : Z;
  st_torn : bool
}.

Definition store_append (io : AppendIo) (s : Store) (d : Disk) (r : JournalRecord)
  : Store * Disk * Status :=
  if negb (st_open s) then (s, d, fail0 Outcome.Closed Reason.StoreBusy)
  else if negb (jr_sequence r =? u64 (st_last s + 1))
  then (s, d, mkStatus Outcome.Invalid Reason.SequenceRegression (jr_sequence r))
  else
    let payload := encode_record r in
    if kMaxJournalRecordBytes <? zlen payload
    then (s, d, mkStatus Outcome.Exhausted Reason.ImpossibleLength (zlen payload))
    else
      let d := mkDisk (dk_header d) (dk_snapshot d)
                 (Some (append_file io (default [] (dk_journal d)) (frame payload))) in
      match io with
      | AppendDone =>
          (mkStore (st_id s) true (jr_sequence r) (u64 (st_appended s + 1)) (st_torn s), d,
           status_ok)
      | AppendFault a _ => (s, d, mkStatus Outcome.Unreachable Reason.EffectNotVerified a)
      end.

(** What the system calls of [checkpoint] do, in order. *)
Record CheckpointIo := mkCheckpointIo {
  ck_snapshot : Io; ck_flush : Io; ck_rotate : Io; ck_reopen : Io }.

Definition checkpoint_done : CheckpointIo := mkCheckpointIo None None None None.

Definition store_checkpoint (io : CheckpointIo) (s : Store) (d : Disk) (state_blob : bytes)
    (covers : Sequence) (now : Step) : Store * Disk * Status :=
  if negb (st_open s) then (s, d, fail0 Outcome.Closed Reason.StoreBusy)
  else if negb (covers =? st_last s)
  then (s, d, mkStatus Outcome.Invalid Reason.ValueOutOfRange covers)
  else if kMaxSnapshotBytes <? zlen state_blob
  then (s, d, mkStatus Outcome.Exhausted Reason.ImpossibleLength (zlen state_blob))
  else
    let header := mkSnapHeader (st_id s) covers now (zlen state_blob) (Digest256_of state_blob) in
    let (snapshot, st) :=
      atomic_write_file (ck_snapshot io) (dk_snapshot d)
        (encode_snapshot_header header ++ state_blob) in
    let d := mkDisk (dk_header d) snapshot (dk_journal d) in
    if negb (is_ok st) then (s, d, st)
    else
      match ck_flush io with
      | Some fault => (s, d, io_status fault)
      | None =>
          let closed := mkStore (st_id s) false (st_last s) (st_appended s) (st_torn s) in
          let (journal, st) := atomic_write_file (ck_rotate io) (dk_journal d) [] in
          let d := mkDisk (dk_header d) (dk_snapshot d) journal in
          if negb (is_ok st) then (closed, d, st)
          else
            match ck_reopen io with
            | Some _ => (closed, d, fail0 Outcome.Unreachable Reason.StoreNotFound)
            | None => (mkStore (st_id s) true covers (st_appended s) (st_torn s), d, status_ok)
            end
      end.

Definition load_snapshot (d : Disk) : result (bytes * SnapshotHeader) :=
  let* data := read_file_bounded (kMaxSnapshotBytes + 4096) (dk_snapshot d) in
  let* (header, consumed) := decode_snapshot_header data in
  if negb (zlen data - consumed =? sn_payload_length header)
  then Err (mkStatus Outcome.Corrupt Reason.ImpossibleLength (zlen data - consumed))
  else
    let payload := take (Z.to_nat (sn_payload_length header)) (drop (Z.to_nat consumed) data) in
    if negb (eqb (Digest256_of payload) (sn_payload_digest header))
    then Err (mkStatus Outcome.Corrupt Reason.IntegrityMismatch consumed)
    else Ret (payload, header).

(** [replay]: the visitor sees every complete record, in order; a partial tail
    ends the loop. *)
Definition replay_record {S} (visitor : JournalRecord → S → S * Status) (payload : bytes) (s : S)
  : S * Status :=
  match decode_record payload with
  | Err st => (s, st)
  | Ret record => visitor record s
  end.

Definition store_replay {S} (visitor : JournalRecord → S → S * Status) (d : Disk) (s : S)
  : S * Status :=
  match dk_journal d with
  | None => (s, status_ok)
  | Some _ =>
      match read_file_bounded kMaxFabricStoreBytes (dk_journal d) with
      | Err st => (s, st)
      | Ret data =>
          let '(s, _, e) := scan (replay_record visitor) data s in
          (s, match e with RefusedAt st => st | _ => status_ok end)
      end
  end.

(** The variables of the recovery loop of [open]. *)
Record JournalScan := mkScan {
  sc_expected : Z;
  sc_records : Z;
  sc_report_last : Sequence;
  sc_report_step : Step;
  sc_last : Sequence
}.

Definition journal_step (payload : bytes) (a : JournalScan) : JournalScan * Status :=
  match decode_record payload with
  | Err st => (a, st)
  | Ret record =>
      if u64 (jr_sequence record + 1) <=? sc_expected a then (a, status_ok)
      else if negb (jr_sequence record =? sc_expected a)
      then (a, mkStatus Outcome.Corrupt Reason.SequenceRegression (jr_sequence record))
      else
        (mkScan (u64 (jr_sequence record + 1)) (u64 (sc_records a + 1)) (jr_sequence record)
           (jr_step record)
           (if sc_last a <? jr_sequence record then jr_sequence record else sc_last a),
         status_ok)
  end.

(** What the system calls of [open] do, in order. *)
Record OpenIo := mkOpenIo {
  oi_directory : option Status; oi_header : Io; oi_truncate : Io; oi_journal : Io }.

Definition open_done : OpenIo := mkOpenIo None None None None.

Definition open_header (io : OpenIo) (store_id : StoreId) (options : StoreOpenOptions) (d : Disk)
  : Disk * result bool :=
  match dk_header d with
  | None =>
      if negb (so_create options)
      then (d, Err (fail0 Outcome.NotFound Reason.StoreNotFound))
      else
        let header := mkHeader store_id 1 (so_boot options) in
        let (file, st) := atomic_write_file (oi_header io) None (encode_store_header header) in
        (mkDisk file (dk_snapshot d) (dk_journal d), if is_ok st then Ret true else Err st)
  | Some _ =>
      (d, let* data := read_file_bounded 4096 (dk_header d) in
          let* header := decode_store_header data in
          if negb (eqb (sh_store_id header) store_id)
          then Err (fail0 Outcome.Conflict Reason.StoreNotFound)
          else Ret false)
  end.

(** The sequence the snapshot covers; none without one. *)
Definition open_snapshot (store_id : StoreId) (d : Disk) : result (option Sequence) :=
  match dk_snapshot d with
  | None => Ret None
  | Some _ =>
      let* data := read_file_bounded (kMaxSnapshotBytes + 4096) (dk_snapshot d) in
      let* (header, consumed) := decode_snapshot_header data in
      if negb (eqb (sn_store_id header) store_id)
      then Err (fail0 Outcome.Conflict Reason.StoreNotFound)
      else if negb (zlen data - consumed =? sn_payload_length header)
      then Err (mkStatus Outcome.Corrupt Reason.ImpossibleLength (zlen data - consumed))
      else
        let payload :=
          take (Z.to_nat (sn_payload_length header)) (drop (Z.to_nat consumed) data) in
        if negb (eqb (Digest256_of payload) (sn_payload_digest header))
        then Err (mkStatus Outcome.Corrupt Reason.IntegrityMismatch consumed)
        else Ret (Some (sn_covers header))
  end.

(** The journal: what was recovered, whether a tail was cut, and the file kept. *)
Definition open_journal (io : OpenIo) (options : StoreOpenOptions) (covers : Sequence)
    (journal : option bytes) : option bytes * result (JournalScan * option Z) :=
  let start := mkScan (u64 (covers + 1)) 0 0 0 covers in
  match journal with
  | None => (None, Ret (start, None))
  | Some _ =>
      match read_file_bounded kMaxFabricStoreBytes journal with
      | Err st => (journal, Err st)
      | Ret data =>
          let '(a, good_end, e) := scan journal_step data start in
          match e with
          | CleanEnd => (journal, Ret (a, None))
          | NoFuel => (journal, Err status_ok)
          | RefusedAt st => (journal, Err st)
          | TornAt torn =>
              if negb (so_allow_torn options)
              then (journal, Err (mkStatus Outcome.Corrupt Reason.TornTail good_end))
              else
                match oi_truncate io with
                | Some fault => (journal, Err (io_status fault))
                | None => (Some (take (Z.to_nat good_end) data), Ret (a, Some torn))
                end
          end
      end
  end.

Definition store_open (io : OpenIo) (store_id : StoreId) (options : StoreOpenOptions) (d : Disk)
  : Disk * result (Store * StoreRecoveryReport) :=
  if id_empty store_id then (d, Err (fail0 Outcome.Invalid Reason.EmptyValue))
  else
    match oi_directory io with
    | Some st => (d, Err st)
    | None =>
        match open_header io store_id options d with
        | (d, Err st) => (d, Err st)
        | (d, Ret created) =>
            match open_snapshot store_id d with
            | Err st => (d, Err st)
            | Ret covers =>
                match open_journal io options (default 0 covers) (dk_journal d) with
                | (journal, Err st) => (mkDisk (dk_header d) (dk_snapshot d) journal, Err st)
                | (journal, Ret (a, torn)) =>
                    let d := mkDisk (dk_header d) (dk_snapshot d) journal in
                    match oi_journal io with
                    | Some _ => (d, Err (fail0 Outcome.Unreachable Reason.StoreNotFound))
                    | None =>
                        (mkDisk (dk_header d) (dk_snapshot d) (Some (default [] journal)),
                         Ret (mkStore store_id true (sc_last a) 0 (bool_decide (is_Some torn)),
                              mkReport created (bool_decide (is_Some covers))
                                (bool_decide (is_Some torn)) (default 0 torn) (sc_records a)
                                (sc_report_last a) (sc_report_step a)))
                    end
                end
            end
        end
    end.

(** ** The record loop, analysed *)

Lemma read_put_u32 v tl : is_u32 v → read_u32 (put_u32 v ++ tl) = v.
Proof.
  intros Hv. pose proof (decodes_u32 v Hv 0 tl) as E. unfold r_u32, w_u32, put_u32 in *.
  cbn [rd_rest app] in *. by injection E.
Qed.

Lemma zlen_put_u32 v : zlen (put_u32 v) = 4.
Proof. done. Qed.

Lemma zlen_frame p : zlen (frame p) = 8 + zlen p.
Proof. unfold frame. rewrite !zlen_app, !zlen_put_u32. lia. Qed.

(** What [append] writes: a non-empty payload within the bound. *)
Definition framable (p : bytes) : Prop := 0 < zlen p <= kMaxJournalRecordBytes.

Lemma framable_u32 p : framable p → u32 (zlen p) = zlen p ∧ is_u32 (zlen p).
Proof.
  unfold framable, kMaxJournalRecordBytes, u32, is_u32. intros ?.
  rewrite Z.mod_small by lia. lia.
Qed.

Lemma frame_split p tl : ∃ h, length h = 8%nat ∧ frame p = h ++ p ∧
  (framable p → read_u32 (h ++ tl) = zlen p ∧ read_u32 (drop 4 (h ++ tl)) = crc32c p).
Proof.
  exists (put_u32 (u32 (zlen p)) ++ put_u32 (crc32c p)). split; [done|].
  split; [unfold frame; by rewrite app_assoc|]. intros Hp.
  destruct (framable_u32 p Hp) as [-> Hu]. rewrite <-app_assoc. split; [by apply read_put_u32|].
  change 4%nat with (length (put_u32 (zlen p))). rewrite drop_app_length.
  apply read_put_u32, crc32c_range.
Qed.

Section scan_facts.
Context {A : Type} (on_record : bytes → A → A * Status).

Lemma zlen_drop {B} (n : nat) (l : list B) : zlen (drop n l) = Z.max 0 (zlen l - Z.of_nat n).
Proof. unfold zlen. rewrite length_drop. lia. Qed.

(** Enough fuel is enough. *)
Lemma scan_log_fuel fuel1 fuel2 offset rest acc :
  (length rest < fuel1)%nat → (length rest < fuel2)%nat →
  scan_log on_record fuel1 offset rest acc = scan_log on_record fuel2 offset rest acc.
Proof.
  revert fuel2 offset rest acc. induction fuel1 as [|f1 IH]; intros [|f2] offset rest acc H1 H2;
    [lia..|]. simpl. destruct rest as [|b rest]; [done|].
  destruct (zlen (b :: rest) <? kRecordPrefixBytes) eqn:E0; [done|].
  destruct ((_ =? 0) || _) eqn:E1; [done|].
  destruct (_ - _ <? _) eqn:E2; [done|]. destruct (negb (_ =? _)) eqn:E3; [done|].
  destruct (on_record _ _) as [acc' st]. destruct (negb (is_ok st)); [done|].
  apply orb_false_iff in E1 as [E1 _]. apply Z.eqb_neq in E1. apply Z.ltb_ge in E0, E2.
  unfold kRecordPrefixBytes, zlen in *.
  assert (H : 0 <= read_u32 (b :: rest)).
  { unfold read_u32. destruct rest as [|? [|? [|? ?]]]; try done. apply le32_range. }
  remember (read_u32 (b :: rest)) as n.
  assert (length (drop (Z.to_nat (8 + n)) (b :: rest)) < length (b :: rest))%nat.
  { rewrite length_drop. simpl length in *. lia. }
  apply IH; simpl length in *; lia.
Qed.

Definition scan_from (offset : Z) (rest : bytes) (acc : A) : A * Z * ScanEnd :=
  scan_log on_record (S (length rest)) offset rest acc.

Lemma scan_log_from fuel offset rest acc : (length rest < fuel)%nat →
  scan_log on_record fuel offset rest acc = scan_from offset rest acc.
Proof. intros. apply scan_log_fuel; lia. Qed.

Lemma scan_nil offset acc : scan_from offset [] acc = (acc, offset, CleanEnd).
Proof. done. Qed.

(** One turn on a complete record. *)
Lemma scan_turn rest n offset acc : read_u32 rest = n → 0 < n <= kMaxJournalRecordBytes →
  n + 8 <= zlen rest →
  scan_from offset rest acc =
  let payload := take (Z.to_nat n) (drop 8 rest) in
  if crc32c payload =? read_u32 (drop 4 rest) then
    let '(acc', st) := on_record payload acc in
    if is_ok st then scan_from (offset + (8 + n)) (drop (Z.to_nat (8 + n)) rest) acc'
    else (acc', offset, RefusedAt st)
  else (acc, offset, RefusedAt (mkStatus Outcome.Corrupt Reason.IntegrityMismatch offset)).
Proof.
  intros Hn Hb Hl. unfold scan_from at 1. cbn [scan_log]. rewrite Hn.
  destruct rest as [|b l]; [unfold zlen in Hl; simpl in Hl; lia|].
  unfold kRecordPrefixBytes, kMaxJournalRecordBytes in *.
  destruct (Z.ltb_spec (zlen (b :: l)) 8); [lia|].
  destruct (Z.eqb_spec n 0); [lia|]. destruct (Z.ltb_spec (256 * 1024) n); [lia|].
  cbn [orb]. destruct (Z.ltb_spec (zlen (b :: l) - 8) n); [lia|]. cbv zeta.
  destruct (_ =? _); [|done]. cbn [negb].
  destruct (on_record _ acc) as [acc' st]. destruct (is_ok st); [|done]. cbn [negb].
  apply scan_log_from. rewrite length_drop. unfold zlen in *. simpl length in *. lia.
Qed.

(** One turn on a length the rest of the file does not hold. *)
Lemma scan_short rest n offset acc : read_u32 rest = n → 0 < n <= kMaxJournalRecordBytes →
  8 <= zlen rest < n + 8 → scan_from offset rest acc = (acc, offset, TornAt (zlen rest)).
Proof.
  intros Hn Hb Hl. unfold scan_from. cbn [scan_log]. rewrite Hn.
  destruct rest as [|b l]; [unfold zlen in Hl; simpl in Hl; lia|].
  unfold kRecordPrefixBytes, kMaxJournalRecordBytes in *.
  destruct (Z.ltb_spec (zlen (b :: l)) 8); [lia|].
  destruct (Z.eqb_spec n 0); [lia|]. destruct (Z.ltb_spec (256 * 1024) n); [lia|].
  cbn [orb]. destruct (Z.ltb_spec (zlen (b :: l) - 8) n); [done|lia].
Qed.

(** A complete record. *)
Lemma scan_frame p tl offset acc : framable p →
  scan_from offset (frame p ++ tl) acc =
  let '(acc', st) := on_record p acc in
  if is_ok st then scan_from (offset + zlen (frame p)) tl acc' else (acc', offset, RefusedAt st).
Proof.
  intros Hp. destruct (frame_split p (p ++ tl)) as (h & Hh & E & R).
  destruct (R Hp) as [R1 R2]. rewrite zlen_frame. rewrite E, <-app_assoc.
  rewrite (scan_turn _ (zlen p)), R2; [|done..|].
  - replace (drop 8 (h ++ p ++ tl)) with (p ++ tl) by (by rewrite <-Hh, drop_app_length).
    replace (take (Z.to_nat (zlen p)) (p ++ tl)) with p
      by (unfold zlen; by rewrite Nat2Z.id, take_app_length).
    cbv zeta. rewrite Z.eqb_refl. destruct (on_record p acc) as [acc' st].
    replace (drop (Z.to_nat (8 + zlen p)) (h ++ p ++ tl)) with tl; [done|].
    replace (Z.to_nat (8 + zlen p)) with (length (h ++ p)).
    + by rewrite app_assoc, drop_app_length.
    + rewrite length_app. unfold zlen. lia.
  - rewrite !zlen_app. pose proof (zlen_nonneg tl). unfold zlen at 2. rewrite Hh. lia.
Qed.

(** The loop over several records. *)
Fixpoint feed (ps : list bytes) (acc : A) : A * Status :=
  match ps with
  | [] => (acc, status_ok)
  | p :: ps =>
      let '(acc, st) := on_record p acc in if is_ok st then feed ps acc else (acc, st)
  end.

Definition log_of (ps : list bytes) : bytes := ps ≫= frame.

Lemma log_of_cons p ps : log_of (p :: ps) = frame p ++ log_of ps.
Proof. done. Qed.

Lemma log_of_app ps qs : log_of (ps ++ qs) = log_of ps ++ log_of qs.
Proof. apply bind_app. Qed.

Lemma feed_app ps qs acc : feed (ps ++ qs) acc =
  let '(acc, st) := feed ps acc in if is_ok st then feed qs acc else (acc, st).
Proof.
  revert acc. induction ps as [|p ps IH]; intros acc; simpl; [done|].
  destruct (on_record p acc) as [acc' st]. destruct (is_ok st) eqn:E; [apply IH|by rewrite E].
Qed.

Lemma scan_frames ps tl offset acc acc' : Forall framable ps → feed ps acc = (acc', status_ok) →
  scan_from offset (log_of ps ++ tl) acc = scan_from (offset + zlen (log_of ps)) tl acc'.
Proof.
  intros Hps. revert offset acc. induction Hps as [|p ps Hp Hps IH]; intros offset acc E; simpl in E.
  - injection E as <-. f_equal. rewrite Z.add_0_r. done.
  - rewrite log_of_cons, <-app_assoc, (scan_frame p) by done.
    destruct (on_record p acc) as [acc1 st]. destruct (is_ok st) eqn:Es; [|by injection E as -> ->].
    rewrite (IH _ acc1) by done. f_equal. rewrite zlen_app. lia.
Qed.

(** A record cut short anywhere: nothing of it is seen. *)
Lemma scan_torn p k offset acc : framable p → (0 < k < length (frame p))%nat →
  scan_from offset (take k (frame p)) acc = (acc, offset, TornAt (Z.of_nat k)).
Proof.
  intros Hp Hk. assert (Hz : zlen (take k (frame p)) = Z.of_nat k).
  { unfold zlen. rewrite length_take. lia. }
  unfold scan_from. cbn [scan_log]. destruct (take k (frame p)) as [|b0 l0] eqn:El.
  { unfold zlen in Hz. simpl in Hz. lia. }
  rewrite <-El in *. clear El b0 l0. rewrite Hz. unfold kRecordPrefixBytes.
  destruct (Z.ltb_spec (Z.of_nat k) 8) as [|L]; [done|].
  destruct (frame_split p (take (k - 8) p)) as (h & Hh & E & R). specialize (R Hp) as [R1 R2].
  assert (Et : take k (frame p) = h ++ take (k - 8) p).
  { rewrite E, take_app, Hh. f_equal. rewrite take_ge; [done|lia]. }
  rewrite Et, R1, R2. pose proof (zlen_frame p) as Hf. unfold zlen in Hf.
  unfold framable, kMaxJournalRecordBytes in *.
  destruct (Z.eqb_spec (zlen p) 0); [lia|].
  destruct (Z.ltb_spec (256 * 1024) (zlen p)); [lia|]. simpl orb. cbv iota.
  destruct (Z.ltb_spec (Z.of_nat k - 8) (zlen p)); [done|]. unfold zlen in *. lia.
Qed.

(** A complete record whose payload is not what its checksum says. *)
Lemma scan_corrupt p ck q tl offset acc : framable p → length ck = 4%nat → length q = length p →
  crc32c q ≠ read_u32 ck →
  scan_from offset (put_u32 (u32 (zlen p)) ++ ck ++ q ++ tl) acc =
  (acc, offset, RefusedAt (mkStatus Outcome.Corrupt Reason.IntegrityMismatch offset)).
Proof.
  intros Hp Hk Hl Hc. destruct (framable_u32 p Hp) as [-> Hu].
  destruct ck as [|b0 [|b1 [|b2 [|b3 [|]]]]]; try done.
  rewrite (scan_turn _ (zlen p)); [|by apply read_put_u32|done|].
  - cbv zeta. change (drop 8 _) with (q ++ tl).
    replace (take (Z.to_nat (zlen p)) (q ++ tl)) with q
      by (unfold zlen; by rewrite Nat2Z.id, <-Hl, take_app_length).
    change (read_u32 (drop 4 _)) with (read_u32 [b0; b1; b2; b3]).
    destruct (Z.eqb_spec (crc32c q) (read_u32 [b0; b1; b2; b3])); [done|]. done.
  - rewrite !zlen_app, zlen_put_u32. change (zlen [b0; b1; b2; b3]) with 4. pose proof (zlen_nonneg tl).
    unfold zlen in *. lia.
Qed.

(** A byte of the checksum altered is another checksum. *)
Lemma checksum_altered v i b c : is_u32 v → put_u32 v !! i = Some b → b ≠ c →
  read_u32 (<[i := c]> (put_u32 v)) ≠ v.
Proof.
  intros Hv Hb Hne. rewrite <-(read_put_u32 v []) at 2 by done. unfold put_u32 in *.
  destruct i as [|[|[|[|i]]]]; cbn in Hb; [injection Hb as <-..|done]; cbn;
    intros (? & ? & ? & ?)%le32_inj; congruence.
Qed.
End scan_facts.

(** ** Records *)

Definition record_wf (r : JournalRecord) : Prop :=
  jr_sequence r ≠ 0 ∧ zlen (encode_record r) <= kMaxJournalRecordBytes ∧
  words [jr_sequence r; jr_step r; aux (jr_status r)].

Lemma kind_of_kind_code k : kind_of_code (kind_code k) = Some k.
Proof. by destruct k. Qed.

Lemma zlen_record r : zlen (encode_record r) = 34 + zlen (jr_payload r).
Proof. unfold encode_record, w_outcome. autorewrite with zlen. lia. Qed.

Lemma record_framable r : record_wf r → framable (encode_record r).
Proof.
  intros (_ & Hl & _). unfold framable. pose proof (zlen_record r).
  pose proof (zlen_nonneg (jr_payload r)). lia.
Qed.

Lemma decode_encode_record r : record_wf r → decode_record (encode_record r) = Ret r.
Proof.
  intros (H0 & Hl & Hw). open_wf. rewrite zlen_record in Hl.
  unfold kMaxJournalRecordBytes in Hl.
  set (d := λ rd : reader,
    let* (kind, rd) := r_u16 rd in let* (sequence, rd) := r_u64 rd in
    let* (step, rd) := r_u64 rd in let* (o, rd) := r_outcome rd in
    let* (c, rd) := r_reason rd in let* (a, rd) := r_u64 rd in
    let* (payload, rd) := r_blob rd in Ret (kind, sequence, step, o, c, a, payload, rd)).
  assert (D : decodes d (kind_code (jr_kind r), jr_sequence r, jr_step r, outcome (jr_status r),
    reason (jr_status r), aux (jr_status r), jr_payload r) (encode_record r)).
  { unfold d, encode_record.
    eapply decodes_bind; [apply decodes_u16; destruct (jr_kind r); unfold is_u16; simpl; lia|].
    do 5 (eapply decodes_bind; [eauto with codec|]).
    eapply decodes_bind_last; [apply decodes_blob; unfold kMaxSnapshotBytes; lia|].
    apply decodes_ret. }
  apply decodes_all in D. unfold decode_all, d in D. unfold decode_record.
  repeat match type of D with
  | context [match ?m with Ret _ => _ | Err _ => _ end] =>
      lazymatch m with
      | match _ with Ret _ => _ | Err _ => _ end => fail
      | _ => destruct m as [[? ?]|]; [|discriminate D]
      end
  end.
  destruct (finish _); [|discriminate D]. injection D as -> -> -> -> -> -> ->.
  rewrite kind_of_kind_code. destruct (Z.eqb_spec (jr_sequence r) 0); [done|].
  by destruct r as [? ? ? [] ?].
Qed.

(** Sequences count up from [c]. *)
Fixpoint contiguous (c : Z) (rs : list JournalRecord) : Prop :=
  match rs with
  | [] => True
  | r :: rs => jr_sequence r = c + 1 ∧ contiguous (c + 1) rs
  end.

Lemma contiguous_app c rs qs :
  contiguous c (rs ++ qs) ↔ contiguous c rs ∧ contiguous (c + zlen rs) qs.
Proof.
  revert c. induction rs as [|r rs IH]; intros c; simpl.
  - change (zlen []) with 0. rewrite Z.add_0_r. tauto.
  - rewrite IH. replace (c + 1 + zlen rs) with (c + zlen (r :: rs)); [tauto|].
    unfold zlen. simpl. lia.
Qed.

Lemma framable_records rs : Forall record_wf rs → Forall framable (encode_record <$> rs).
Proof. intros H. apply Forall_fmap. eapply Forall_impl; [exact H|apply record_framable]. Qed.

(** The recovery loop over a contiguous log that starts at or before what the
    snapshot covers ends at the later of the two. *)
Lemma feed_journal rs : ∀ c e n l st, contiguous c rs → Forall record_wf rs → 0 <= c <= e →
  e < u64_max → c + zlen rs < u64_max →
  ∃ n' l' st', feed journal_step (encode_record <$> rs) (mkScan (e + 1) n l st e) =
    (mkScan (Z.max e (c + zlen rs) + 1) n' l' st' (Z.max e (c + zlen rs)), status_ok).
Proof.
  induction rs as [|r rs IH]; intros c e n l st Hc Hw He Hm Hl.
  - change (zlen []) with 0. rewrite Z.max_l by lia. by exists n, l, st.
  - destruct Hc as [Hr Hc]. apply Forall_cons in Hw as [Hwr Hw].
    rewrite zlen_cons in *. pose proof (zlen_nonneg rs). unfold u64_max in *.
    csimpl. unfold journal_step at 1. rewrite decode_encode_record by done.
    rewrite Hr. rewrite u64_id by (unfold is_u64; lia). cbn [sc_expected sc_last].
    replace (c + (1 + zlen rs)) with (c + 1 + zlen rs) by lia.
    destruct (Z.leb_spec (c + 1 + 1) (e + 1)) as [L|L].
    + cbn [is_ok status_ok]. apply IH; (done || lia).
    + assert (c = e) as -> by lia. rewrite Z.eqb_refl. cbn [negb].
      destruct (Z.ltb_spec e (e + 1)); [|lia]. cbn [is_ok status_ok].
      destruct (IH (e + 1) (e + 1) (u64 (sc_records (mkScan (e + 1) n l st e) + 1)) (e + 1)
                  (jr_step r)) as (n' & l' & st' & E); [done..|lia|lia|lia|].
      exists n', l', st'. rewrite E. rewrite !Z.max_r by lia. done.
Qed.

(** ** A store and the directory it was built from *)

(** The directory opens for this store: its header, and what its snapshot covers. *)
Definition headed (id : StoreId) (d : Disk) (covers : Sequence) : Prop :=
  id ≠ [] ∧ (∀ io options, open_header io id options d = (d, Ret false)) ∧
  ∃ cv, open_snapshot id d = Ret cv ∧ default 0 cv = covers.

(** The journal holds exactly the records [rs]: the first follows [base], none
    is missing between the snapshot and the last one appended. *)
Record durable (s : Store) (d : Disk) (base : Z) (rs : list JournalRecord) : Prop := {
  du_covers : Sequence;
  du_headed : headed (st_id s) d du_covers;
  du_journal : dk_journal d = Some (log_of (encode_record <$> rs));
  du_room : zlen (log_of (encode_record <$> rs)) <= kMaxFabricStoreBytes;
  du_contiguous : contiguous base rs;
  du_wf : Forall record_wf rs;
  du_base : 0 <= base <= du_covers;
  du_last : st_last s = Z.max du_covers (base + zlen rs);
  du_bound : st_last s < u64_max
}.

Lemma headed_journal id d covers j :
  headed id d covers → headed id (mkDisk (dk_header d) (dk_snapshot d) j) covers.
Proof.
  intros (Hid & Hh & Hs). split; [done|]. split; [|exact Hs]. intros io options.
  specialize (Hh io options). destruct d as [[h|] sn j0].
  - injection Hh as Hh. unfold open_header. f_equal. exact Hh.
  - unfold open_header in Hh. cbn [dk_header] in Hh. destruct (negb _); [done|].
    destruct (atomic_write_file _ _ _) as [f st]. by destruct (is_ok st).
Qed.

(** Reopening a directory whose journal is a log of records followed by [tl],
    where the loop meets nothing but a partial record. *)
Lemma open_recovers options id d covers base rs tl :
  headed id d covers → contiguous base rs → Forall record_wf rs → 0 <= base <= covers →
  Z.max covers (base + zlen rs) < u64_max →
  dk_journal d = Some (log_of (encode_record <$> rs) ++ tl) →
  zlen (log_of (encode_record <$> rs) ++ tl) <= kMaxFabricStoreBytes →
  so_allow_torn options = true ∨ tl = [] →
  (∀ off (acc : JournalScan), scan_from journal_step off tl acc =
     (acc, off, if decide (tl = []) then CleanEnd else TornAt (zlen tl))) →
  ∃ s' report, let d' := mkDisk (dk_header d) (dk_snapshot d)
                           (Some (log_of (encode_record <$> rs))) in
    store_open open_done id options d = (d', Ret (s', report)) ∧
    durable s' d' base rs ∧ rp_torn_bytes report = zlen tl ∧ st_open s' = true ∧
    st_last s' = Z.max covers (base + zlen rs).
Proof.
  intros Hh Hc Hw Hb Hm Hj Hroom Hopt Htl. pose proof Hh as (Hid & Hhd & cv & Hsn & Hcv).
  pose proof (zlen_nonneg rs). pose proof (framable_records rs Hw) as Hf.
  destruct (feed_journal rs base covers 0 0 0) as (n' & l' & st' & Ef); [done..|lia|lia|].
  assert (Es : scan journal_step (log_of (encode_record <$> rs) ++ tl)
                 (mkScan (u64 (covers + 1)) 0 0 0 covers) =
    (mkScan (Z.max covers (base + zlen rs) + 1) n' l' st' (Z.max covers (base + zlen rs)),
     zlen (log_of (encode_record <$> rs)),
     if decide (tl = []) then CleanEnd else TornAt (zlen tl))).
  { rewrite u64_id by (unfold is_u64, u64_max in *; lia).
    change (scan journal_step ?l ?a) with (scan_from journal_step 0 l a).
    rewrite (scan_frames _ _ _ _ _ _ Hf Ef), Htl. done. }
  assert (Ej : open_journal open_done options covers (dk_journal d) =
    (Some (log_of (encode_record <$> rs)),
     Ret (mkScan (Z.max covers (base + zlen rs) + 1) n' l' st' (Z.max covers (base + zlen rs)),
          if decide (tl = []) then None else Some (zlen tl)))).
  { unfold open_journal. rewrite Hj. unfold read_file_bounded.
    destruct (Z.ltb_spec kMaxFabricStoreBytes (zlen (log_of (encode_record <$> rs) ++ tl))); [lia|].
    rewrite Es. destruct (decide (tl = [])) as [->|Hne]; [by rewrite app_nil_r|].
    destruct Hopt as [->|]; [|done]. cbn [negb oi_truncate open_done]. do 2 f_equal.
    unfold zlen. rewrite Nat2Z.id. apply take_app_length. }
  unfold store_open. destruct (id_empty id) eqn:Ei; [by apply id_empty_true in Ei|].
  cbn [oi_directory open_done]. rewrite Hhd, Hsn, Hcv, Ej. cbn [oi_journal open_done default].
  eexists _, _. split; [reflexivity|]. split; [|split; [|done]].
  - apply (Build_durable _ _ _ _ covers); cbn [st_id st_last dk_journal]; try done.
    + apply headed_journal, Hh.
    + rewrite zlen_app in Hroom. pose proof (zlen_nonneg tl). lia.
  - cbn [rp_torn_bytes]. by destruct (decide (tl = [])) as [->|].
Qed.

(** A fault leaves nothing, a partial record, or the whole record. *)
Lemma take_frame_cases p k : framable p →
  take k (frame p) = [] ∨ take k (frame p) = frame p ∨ (0 < k < length (frame p))%nat.
Proof.
  intros _. destruct (decide (k = 0%nat)) as [->|]; [by left|].
  destruct (decide (k < length (frame p))%nat); [right; right; lia|].
  right. left. apply take_ge. lia.
Qed.

Lemma log_of_snoc ps p : log_of (ps ++ [p]) = log_of ps ++ frame p.
Proof. rewrite log_of_app, log_of_cons. by rewrite app_nil_r. Qed.

(** What reaches the journal when a valid append is attempted. *)
Lemma append_effect io s d r s' d' st : record_wf r → st_open s = true →
  jr_sequence r = st_last s + 1 → 0 <= st_last s → st_last s + 1 < u64_max →
  store_append io s d r = (s', d', st) →
  ∃ kept, d' = mkDisk (dk_header d) (dk_snapshot d) (Some (default [] (dk_journal d) ++ kept)) ∧
    zlen kept <= zlen (frame (encode_record r)) ∧
    (is_ok st = true → kept = frame (encode_record r)) ∧
    (kept = [] ∨ kept = frame (encode_record r) ∨
     ∃ k, kept = take k (frame (encode_record r)) ∧ (0 < k < length (frame (encode_record r)))%nat).
Proof.
  intros Hr Hopen Hseq H0 Hmax E. pose proof (record_framable r Hr) as Hf.
  unfold store_append in E. rewrite Hopen, Hseq in E.
  rewrite u64_id, Z.eqb_refl in E by (unfold is_u64, u64_max in *; lia). cbn [negb] in E.
  destruct Hr as (_ & Hl & _).
  destruct (Z.ltb_spec kMaxJournalRecordBytes (zlen (encode_record r))); [lia|].
  destruct io as [|a k]; injection E as <- <- <-.
  - exists (frame (encode_record r)). split; [done|]. split; [lia|]. split; [done|]. by right; left.
  - exists (take k (frame (encode_record r))). split; [done|].
    split; [unfold zlen; rewrite length_take; lia|]. split; [done|].
    destruct (take_frame_cases (encode_record r) k Hf) as [->|[->|?]]; eauto.
Qed.

(** Reopening after a log of [rs] and a partial record. *)
Lemma reopen options id d covers base rs tl :
  headed id d covers → contiguous base rs → Forall record_wf rs → 0 <= base <= covers →
  covers <= base + zlen rs < u64_max →
  zlen (log_of (encode_record <$> rs) ++ tl) <= kMaxFabricStoreBytes →
  so_allow_torn options = true →
  (tl = [] ∨ ∃ p k, framable p ∧ tl = take k (frame p) ∧ (0 < k < length (frame p))%nat) →
  ∃ d'' s'' report,
    store_open open_done id options
      (mkDisk (dk_header d) (dk_snapshot d) (Some (log_of (encode_record <$> rs) ++ tl))) =
      (d'', Ret (s'', report)) ∧
    durable s'' d'' base rs ∧ st_last s'' = base + zlen rs.
Proof.
  intros Hh Hc Hw Hb Hm Hroom Hopt Htl.
  destruct (open_recovers options id
    (mkDisk (dk_header d) (dk_snapshot d) (Some (log_of (encode_record <$> rs) ++ tl)))
    covers base rs tl) as (s'' & rep & Eo & Hd & _ & _ & El); try done.
  - by apply headed_journal.
  - lia.
  - by left.
  - intros off acc. destruct Htl as [->|(p & k & Hp & -> & Hk)]; [by rewrite scan_nil|].
    rewrite scan_torn by done.
    assert (Hlen : length (take k (frame p)) = k) by (rewrite length_take; lia).
    destruct (decide _) as [E0|_]; [rewrite E0 in Hlen; simpl in Hlen; lia|].
    unfold zlen. by rewrite Hlen.
  - eexists _, s'', rep. split; [exact Eo|]. split; [exact Hd|].
    lia.
Qed.

(** ** Headers read back *)

Definition header_wf (h : StoreHeader) : Prop :=
  id_valid (sh_store_id h) ∧ words [sh_created_at h; sh_created_by h].

Definition snapshot_header_wf (h : SnapshotHeader) : Prop :=
  id_valid (sn_store_id h) ∧ length (sn_payload_digest h) = 32%nat ∧
  sn_payload_length h <= kMaxSnapshotBytes ∧
  words [sn_covers h; sn_taken_at h; sn_payload_length h].

(** Read one field off the front. *)
Ltac read_field :=
  match goal with
  | |- context [r_u32 (Rd ?o (w_u32 ?v ++ ?tl))] => rewrite (decodes_u32 v ltac:(first [done|assumption]) o tl)
  | |- context [r_u16 (Rd ?o (w_u16 ?v ++ ?tl))] => rewrite (decodes_u16 v ltac:(done) o tl)
  | |- context [r_u64 (Rd ?o (w_u64 ?v ++ ?tl))] => rewrite (decodes_u64 v ltac:(assumption) o tl)
  | |- context [r_text (Rd ?o (w_text ?v ++ ?tl))] =>
      rewrite (decodes_text v ltac:(by apply id_valid_u16) o tl)
  | |- context [r_digest (Rd ?o (w_digest ?v ++ ?tl))] =>
      rewrite (decodes_digest v ltac:(first [assumption|apply length_digest]) o tl)
  end; cbv beta iota.

Lemma decode_encode_store_header h : header_wf h →
  decode_store_header (encode_store_header h) = Ret h.
Proof.
  intros Hh. unfold header_wf in Hh. open_wf. pose proof (crc32c_range (store_header_body h)) as Hc.
  assert (Hz : zlen (encode_store_header h) = zlen (store_header_body h) + 36).
  { unfold encode_store_header. rewrite !zlen_app. unfold w_digest.
    unfold zlen at 3. rewrite length_digest. rewrite zlen_u32. lia. }
  set (data := encode_store_header h) in *.
  assert (T1 : take (Z.to_nat (zlen data - 36)) data = store_header_body h).
  { rewrite Hz. replace (Z.to_nat _) with (length (store_header_body h)) by (unfold zlen; lia).
    unfold data, encode_store_header. by rewrite <-app_assoc, take_app_length. }
  assert (T2 : take (Z.to_nat (zlen data - 36 + 4)) data =
               store_header_body h ++ w_u32 (crc32c (store_header_body h))).
  { rewrite Hz. replace (Z.to_nat _)
      with (length (store_header_body h ++ w_u32 (crc32c (store_header_body h))))
      by (rewrite length_app; change (length (w_u32 _)) with 4%nat; unfold zlen; lia).
    unfold data, encode_store_header. by rewrite take_app_length. }
  unfold decode_store_header, reader_of.
  assert (E : data = w_u32 kStoreMagic ++ w_u16 kStoreFormatVersion ++ w_u16 0 ++
    w_text (sh_store_id h) ++ w_u64 (sh_created_at h) ++ w_u64 (sh_created_by h) ++
    w_u32 (crc32c (store_header_body h)) ++
    w_digest (Digest256_of (store_header_body h ++ w_u32 (crc32c (store_header_body h)))) ++ []).
  { unfold data, encode_store_header, store_header_body. by rewrite app_nil_r, <-!app_assoc. }
  rewrite E at 1. clearbody data. do 6 read_field. unfold remaining. cbn [rd_rest].
  set (tail := w_u32 _ ++ _). assert (Zt : zlen tail = 36).
  { unfold tail. rewrite app_nil_r, zlen_app, zlen_u32. unfold zlen, w_digest.
    by rewrite length_digest. }
  rewrite Zt, T1, T2. change (36 <? 4 + 32) with false. cbv iota. unfold tail.
  do 2 read_field. unfold finish, exhausted, remaining. cbn [rd_rest].
  rewrite !Z.eqb_refl, eqb_refl. cbn [zlen length Z.of_nat negb Z.eqb].
  rewrite id_try_make_valid by done. by destruct h.
Qed.

(** A snapshot file: its header, then the state. *)
Lemma decode_encode_snapshot_header h blob : snapshot_header_wf h →
  decode_snapshot_header (encode_snapshot_header h ++ blob) =
  Ret (h, zlen (encode_snapshot_header h)).
Proof.
  intros Hh. unfold snapshot_header_wf in Hh. open_wf.
  pose proof (crc32c_range (snapshot_header_body h)) as Hc.
  assert (Hz : zlen (encode_snapshot_header h) = zlen (snapshot_header_body h) + 4).
  { unfold encode_snapshot_header. by rewrite zlen_app. }
  set (data := encode_snapshot_header h ++ blob) in *.
  assert (Hd : zlen data - zlen (w_u32 (crc32c (snapshot_header_body h)) ++ blob) =
               zlen (snapshot_header_body h)).
  { unfold data. rewrite !zlen_app, Hz, zlen_u32. lia. }
  assert (T : take (Z.to_nat (zlen (snapshot_header_body h))) data = snapshot_header_body h).
  { unfold zlen. rewrite Nat2Z.id. unfold data, encode_snapshot_header.
    by rewrite <-app_assoc, take_app_length. }
  unfold decode_snapshot_header, reader_of.
  assert (E : data = w_u32 kStoreMagic ++ w_u16 kStoreFormatVersion ++ w_u16 0 ++
    w_text (sn_store_id h) ++ w_u64 (sn_covers h) ++ w_u64 (sn_taken_at h) ++
    w_u64 (sn_payload_length h) ++ w_digest (sn_payload_digest h) ++
    w_u32 (crc32c (snapshot_header_body h)) ++ blob).
  { unfold data, encode_snapshot_header, snapshot_header_body. by rewrite <-!app_assoc. }
  rewrite E at 1. clearbody data. do 8 read_field. unfold remaining. cbn [rd_rest].
  read_field. rewrite Hd, T, !Z.eqb_refl. cbn [negb].
  destruct (Z.ltb_spec kMaxSnapshotBytes (sn_payload_length h)); [lia|].
  rewrite id_try_make_valid by done.
  rewrite Hz. by destruct h.
Qed.

Lemma headed_header id d d' covers cv : headed id d covers → dk_header d' = dk_header d →
  open_snapshot id d' = Ret cv → headed id d' (default 0 cv).
Proof.
  intros (Hid & Hh & _) E Hs. split; [done|]. split; [|by exists cv].
  intros io options. specialize (Hh io options). unfold open_header in *. rewrite E.
  destruct (dk_header d) as [h|].
  - f_equal. by injection Hh.
  - destruct (negb _); [done|]. destruct (atomic_write_file _ _ _) as [f st].
    by destruct (is_ok st).
Qed.

(** Reopening a directory nothing tore. *)
Lemma reopen_clean options id d covers base rs :
  headed id d covers → contiguous base rs → Forall record_wf rs → 0 <= base <= covers →
  covers <= base + zlen rs < u64_max → dk_journal d = Some (log_of (encode_record <$> rs)) →
  zlen (log_of (encode_record <$> rs)) <= kMaxFabricStoreBytes →
  ∃ s'' report, store_open open_done id options d = (d, Ret (s'', report)) ∧
    st_last s'' = base + zlen rs.
Proof.
  intros Hh Hc Hw Hb Hm Hj Hroom.
  destruct (open_recovers options id d covers base rs [])
    as (s'' & rep & Eo & _ & _ & _ & El); try done.
  - lia.
  - by rewrite app_nil_r.
  - by rewrite app_nil_r.
  - by right.
  - exists s'', rep. split; [|lia]. rewrite Eo, <-Hj. by destruct d.
Qed.

(** A visitor over decoded records is the visitor over their encodings. *)
Fixpoint visit_all {S} (visitor : JournalRecord → S → S * Status) (rs : list JournalRecord) (x : S)
  : S * Status :=
  match rs with
  | [] => (x, status_ok)
  | r :: rs => let '(x, st) := visitor r x in if is_ok st then visit_all visitor rs x else (x, st)
  end.

Lemma scan_visit {S} (visitor : JournalRecord → S → S * Status) rs : ∀ off (x : S),
  Forall record_wf rs →
  ∃ off' e, scan_from (replay_record visitor) off (log_of (encode_record <$> rs)) x =
    ((visit_all visitor rs x).1, off', e) ∧
    (match e with RefusedAt st => st | _ => status_ok end) = (visit_all visitor rs x).2.
Proof.
  induction rs as [|r rs IH]; intros off x Hw; [by exists off, CleanEnd|].
  apply Forall_cons in Hw as [Hr Hw]. rewrite fmap_cons, log_of_cons.
  rewrite scan_frame by by apply record_framable. cbn [visit_all].
  unfold replay_record at 1. rewrite decode_encode_record by done.
  destruct (visitor r x) as [x' st] eqn:Ev. destruct (is_ok st) eqn:Es.
  - apply IH, Hw.
  - by exists off, (RefusedAt st).
Qed.

(** What a snapshot file holds. *)
Definition snapshot_file (h : SnapshotHeader) (blob : bytes) : bytes :=
  encode_snapshot_header h ++ blob.

Definition describes (h : SnapshotHeader) (blob : bytes) : Prop :=
  snapshot_header_wf h ∧ sn_payload_length h = zlen blob ∧
  sn_payload_digest h = Digest256_of blob.

Lemma zlen_snapshot_header h : snapshot_header_wf h → zlen (encode_snapshot_header h) <= 134.
Proof.
  intros Hh. unfold snapshot_header_wf in Hh. open_wf. unfold encode_snapshot_header,
  snapshot_header_body. blob_bound.
Qed.

Lemma read_snapshot_file h blob : describes h blob →
  read_file_bounded (kMaxSnapshotBytes + 4096) (Some (snapshot_file h blob)) =
    Ret (snapshot_file h blob) ∧
  zlen (snapshot_file h blob) - zlen (encode_snapshot_header h) = sn_payload_length h ∧
  take (Z.to_nat (sn_payload_length h))
    (drop (Z.to_nat (zlen (encode_snapshot_header h))) (snapshot_file h blob)) = blob.
Proof.
  intros (Hw & Hl & Hd). pose proof (zlen_snapshot_header h Hw).
  destruct Hw as (_ & _ & Hm & _). unfold snapshot_file, read_file_bounded. split_and!.
  - rewrite zlen_app. destruct (Z.ltb_spec (kMaxSnapshotBytes + 4096)
      (zlen (encode_snapshot_header h) + zlen blob)); [lia|done].
  - rewrite zlen_app. lia.
  - rewrite Hl. unfold zlen. rewrite !Nat2Z.id, drop_app_length. by apply take_ge.
Qed.

Lemma load_snapshot_file d h blob : dk_snapshot d = Some (snapshot_file h blob) →
  describes h blob → load_snapshot d = Ret (blob, h).
Proof.
  intros E Hd. destruct (read_snapshot_file h blob Hd) as (R1 & R2 & R3).
  unfold load_snapshot. rewrite E, R1. unfold snapshot_file at 1.
  pose proof Hd as (Hw & _ & Hdig). rewrite decode_encode_snapshot_header by done.
  rewrite R2, Z.eqb_refl, R3, Hdig, eqb_refl. done.
Qed.

Lemma open_snapshot_file id d h blob : dk_snapshot d = Some (snapshot_file h blob) →
  describes h blob → sn_store_id h = id → open_snapshot id d = Ret (Some (sn_covers h)).
Proof.
  intros E Hd <-. destruct (read_snapshot_file h blob Hd) as (R1 & R2 & R3).
  unfold open_snapshot. rewrite E, R1. unfold snapshot_file at 1.
  pose proof Hd as (Hw & _ & Hdig). rewrite decode_encode_snapshot_header by done.
  rewrite eqb_refl, R2, Z.eqb_refl, R3, Hdig, eqb_refl. done.
Qed.

(** Reopening [d'] resumes where [s] stood, and nothing recorded in [d] or in
    the checkpoint [blob] is lost: the old snapshot with its whole journal, or
    the new snapshot, which covers every record left. *)
Definition resumes (options : StoreOpenOptions) (s : Store) (d d' : Disk) (blob : bytes)
    (st : Status) : Prop :=
  ∃ d'' s'' report,
    store_open open_done (st_id s) options d' = (d'', Ret (s'', report)) ∧
    st_last s'' = st_last s ∧
    ((dk_snapshot d'' = dk_snapshot d ∧ dk_journal d'' = dk_journal d ∧ is_ok st = false) ∨
     (∃ h, load_snapshot d'' = Ret (blob, h) ∧ sn_covers h = st_last s ∧
        (dk_journal d'' = dk_journal d ∨ dk_journal d'' = Some []) ∧
        (is_ok st = true → dk_journal d'' = Some []))).

(** A snapshot put in place of a directory's. *)
Section installed.
Context (s : Store) (d : Disk) (covers : Sequence) (blob : bytes) (now : Step).
Hypothesis Hh : headed (st_id s) d covers.
Hypothesis Hlast : 0 <= st_last s < u64_max.
Hypothesis Hid : id_valid (st_id s).
Hypothesis Hblob : zlen blob <= kMaxSnapshotBytes.
Hypothesis Hnow : is_u64 now.

Let h := mkSnapHeader (st_id s) (st_last s) now (zlen blob) (Digest256_of blob).
Let installed j := mkDisk (dk_header d) (Some (snapshot_file h blob)) j.

Lemma installed_describes : describes h blob.
Proof.
  pose proof (zlen_nonneg blob).
  split; [|done]. split; [done|]. split; [apply length_digest|]. split; [done|].
  unfold kMaxSnapshotBytes, u64_max in *.
  repeat constructor; unfold is_u64 in *; cbn [sn_covers sn_taken_at sn_payload_length h]; lia.
Qed.

Lemma installed_headed j : headed (st_id s) (installed j) (st_last s).
Proof.
  apply (headed_header _ d _ covers (Some (st_last s))); [done..|].
  exact (open_snapshot_file (st_id s) (installed j) h blob eq_refl installed_describes eq_refl).
Qed.

Lemma installed_loads j : load_snapshot (installed j) = Ret (blob, h).
Proof. exact (load_snapshot_file (installed j) h blob eq_refl installed_describes). Qed.
End installed.

Section checkpoint.
Context (options : StoreOpenOptions) (s : Store) (d : Disk) (base : Z) (rs : list JournalRecord).
Context (blob : bytes) (now : Step).
Hypothesis Hdur : durable s d base rs.
Hypothesis Hid : id_valid (st_id s).
Hypothesis Hbase : base + zlen rs = st_last s.
Hypothesis Hblob : zlen blob <= kMaxSnapshotBytes.
Hypothesis Hnow : is_u64 now.

Let h := mkSnapHeader (st_id s) (st_last s) now (zlen blob) (Digest256_of blob).
Let installed j := mkDisk (dk_header d) (Some (snapshot_file h blob)) j.

Lemma durable_last : 0 <= st_last s < u64_max.
Proof. destruct Hdur as [covers _ _ _ _ _ Hb Hlast Hbound]. lia. Qed.

Lemma checkpoint_headed j : headed (st_id s) (installed j) (st_last s).
Proof.
  pose proof durable_last. destruct Hdur as [covers Hh _ _ _ _ _ _ _]. by eapply installed_headed.
Qed.

Lemma checkpoint_loads j : load_snapshot (installed j) = Ret (blob, h).
Proof. pose proof durable_last. by apply installed_loads. Qed.

(** Nothing was written. *)
Lemma resume_old st : is_ok st = false → resumes options s d d blob st.
Proof.
  destruct Hdur as [covers Hh Hj Hroom Hc Hw Hb Hlast Hbound]. intros Hst.
  destruct (reopen_clean options (st_id s) d covers base rs) as (s'' & rep & Eo & El);
    try done; [lia|].
  exists d, s'', rep. split; [done|]. split; [lia|]. by left.
Qed.

(** The snapshot is in place, the journal is not rotated. *)
Lemma resume_kept st : is_ok st = false → resumes options s d (installed (dk_journal d)) blob st.
Proof.
  destruct Hdur as [covers Hh Hj Hroom Hc Hw Hb Hlast Hbound]. pose proof (zlen_nonneg rs).
  intros Hst. destruct (reopen_clean options (st_id s) _ (st_last s) base rs
    (checkpoint_headed (dk_journal d))) as (s'' & rep & Eo & El); try done; [lia..|].
  eexists _, s'', rep. split; [exact Eo|]. split; [lia|]. right. exists h.
  split; [apply checkpoint_loads|]. split; [done|]. split; [by left|]. by rewrite Hst.
Qed.

(** Both are. *)
Lemma resume_cut st : resumes options s d (installed (Some [])) blob st.
Proof.
  destruct Hdur as [covers Hh Hj Hroom Hc Hw Hb Hlast Hbound].
  destruct (reopen_clean options (st_id s) _ (st_last s) (st_last s) []
    (checkpoint_headed (Some []))) as (s'' & rep & Eo & El); try done;
    try (change (zlen []) with 0; lia).
  eexists _, s'', rep. split; [exact Eo|]. change (zlen []) with 0 in El. split; [lia|].
  right. exists h. split; [apply checkpoint_loads|]. split; [done|]. split; [by right|done].
Qed.
End checkpoint.

(** Opening up to the journal's loop. *)
Lemma store_open_headed options id d covers j : headed id d covers →
  store_open open_done id options (mkDisk (dk_header d) (dk_snapshot d) j) =
  match open_journal open_done options covers j with
  | (journal, Err st) => (mkDisk (dk_header d) (dk_snapshot d) journal, Err st)
  | (journal, Ret (a, torn)) =>
      (mkDisk (dk_header d) (dk_snapshot d) (Some (default [] journal)),
       Ret (mkStore id true (sc_last a) 0 (bool_decide (is_Some torn)),
            mkReport false (match open_snapshot id d with Ret (Some _) => true | _ => false end)
              (bool_decide (is_Some torn)) (default 0 torn) (sc_records a)
              (sc_report_last a) (sc_report_step a)))
  end.
Proof.
  intros Hh. destruct (headed_journal id d covers j Hh) as (Hid & Hhd & cv & Hsn & <-).
  unfold store_open. destruct (id_empty id) eqn:Ei; [by apply id_empty_true in Ei|].
  cbn [oi_directory open_done]. rewrite Hhd, Hsn. cbn [dk_journal dk_header dk_snapshot].
  assert (E : open_snapshot id d = Ret cv) by exact Hsn. rewrite E.
  destruct (open_journal _ _ _ _) as [journal [[a torn]|st]]; [|done].
  cbn [oi_journal open_done]. by destruct cv.
Qed.

(** A directory that does not exist yet. *)
Definition no_disk : Disk := mkDisk None None None.

Lemma fresh_header id options : so_create options = true →
  open_header open_done id options no_disk =
    (mkDisk (Some (encode_store_header (mkHeader id 1 (so_boot options)))) None None, Ret true).
Proof.
  intros Hc. unfold open_header. generalize (encode_store_header (mkHeader id 1 (so_boot options))).
  intros e. cbn [dk_header no_disk]. by rewrite Hc.
Qed.

Lemma zlen_store_header h : header_wf h → zlen (encode_store_header h) <= 126.
Proof.
  intros [Hid _]. unfold encode_store_header, store_header_body, w_digest.
  assert (D : ∀ m, zlen (Digest256_of m) = 32) by (intros; unfold zlen; by rewrite length_digest).
  rewrite !zlen_app, zlen_text, D. pose proof (id_valid_length _ Hid).
  rewrite ?zlen_u32, ?zlen_u16, ?zlen_u64. lia.
Qed.

Lemma fresh_open id options : id_valid id → is_u64 (so_boot options) → so_create options = true →
  ∃ d s report, store_open open_done id options no_disk = (d, Ret (s, report)) ∧
    durable s d 0 [] ∧ st_last s = 0 ∧ st_id s = id ∧ st_open s = true.
Proof.
  intros Hid Hb Hc. set (h := mkHeader id 1 (so_boot options)).
  assert (Hw : header_wf h) by (split; [done|repeat constructor; unfold is_u64 in *; simpl; lia]).
  pose proof (fresh_header id options Hc) as Hf. fold h in Hf.
  pose proof (zlen_store_header h Hw) as Hz. pose proof (decode_encode_store_header h Hw) as Hd.
  revert Hf Hz Hd. generalize (encode_store_header h). intros file Hf Hz Hd.
  unfold store_open. rewrite (id_valid_nonempty _ Hid). cbn [oi_directory open_done].
  rewrite Hf. cbn [open_snapshot dk_snapshot dk_journal default open_journal oi_journal open_done].
  eexists _, _, _. split; [reflexivity|]. split; [|done].
  apply (Build_durable _ _ _ _ 0); cbn [st_id st_last dk_journal sc_last]; try done.
  split; [by destruct Hid|]. split; [|by exists None].
  intros io opts. unfold open_header. cbn [dk_header]. unfold read_file_bounded.
  destruct (Z.ltb_spec 4096 (zlen file)); [lia|]. rewrite Hd. cbn [sh_store_id h].
  by rewrite eqb_refl.
Qed.

(** Replay shows a visitor exactly the records of the journal, in order, and
    stops at the first one it refuses. *)
Lemma replay_exact {S} (visitor : JournalRecord → S → S * Status) (d : Disk)
    (rs : list JournalRecord) (x : S) :
  dk_journal d = Some (log_of (encode_record <$> rs)) → Forall record_wf rs →
  zlen (log_of (encode_record <$> rs)) <= kMaxFabricStoreBytes →
  store_replay visitor d x = visit_all visitor rs x.
Proof.
  intros Hj Hw Hr. unfold store_replay. rewrite Hj. unfold read_file_bounded.
  destruct (Z.ltb_spec kMaxFabricStoreBytes (zlen (log_of (encode_record <$> rs)))); [lia|].
  destruct (scan_visit visitor rs 0 x Hw) as (off & e & Es & Ee).
  change (scan (replay_record visitor) ?l ?a) with (scan_from (replay_record visitor) 0 l a).
  rewrite Es. rewrite Ee. by destruct (visit_all visitor rs x).
Qed.

Module Journaling.

(** C9: However an append ends, at whatever byte it is cut, reopening the
    directory recovers exactly the records appended before it, and possibly the
    complete new one; a successful append is always recovered; and the store
    is again one whose next append is as safe. *)
Theorem append_crash_safe (s s' : Store) (d d' : Disk) (base : Z) (rs : list JournalRecord)
    (io : AppendIo) (r : JournalRecord) (st : Status) (options : StoreOpenOptions) :
  durable s d base rs → record_wf r → st_open s = true → jr_sequence r = st_last s + 1 →
  st_last s + 1 < u64_max → base + zlen rs = st_last s →
  zlen (log_of (encode_record <$> rs)) + zlen (frame (encode_record r)) <= kMaxFabricStoreBytes →
  so_allow_torn options = true →
  store_append io s d r = (s', d', st) →
  ∃ d'' s'' report rs',
    store_open open_done (st_id s) options d' = (d'', Ret (s'', report)) ∧
    durable s'' d'' base rs' ∧ (rs' = rs ∨ rs' = rs ++ [r]) ∧
    (is_ok st = true → rs' = rs ++ [r]) ∧ st_last s'' = base + zlen rs'.
Proof.
  intros [covers Hh Hj _ Hc Hw Hb Hlast Hbound] Hr Hopen Hseq Hmax Hbase Hroom Hopt E.
  pose proof (zlen_nonneg rs) as Hn.
  destruct (append_effect _ _ _ _ _ _ _ Hr Hopen Hseq ltac:(lia) Hmax E)
    as (kept & -> & Hkl & Hok & Hk). rewrite Hj. cbn [default].
  destruct (decide (kept = frame (encode_record r))) as [->|Hne].
  - assert (El : log_of (encode_record <$> (rs ++ [r])) =
                 log_of (encode_record <$> rs) ++ frame (encode_record r))
      by (rewrite fmap_app; apply log_of_snoc).
    destruct (reopen options (st_id s) d covers base (rs ++ [r]) [])
      as (d'' & s'' & rep & Eo & Hd & Hl); try done.
    + apply contiguous_app. split; [done|]. split; [lia|done].
    + apply Forall_app. split; [done|]. by apply Forall_singleton.
    + rewrite zlen_app. change (zlen [r]) with 1. lia.
    + rewrite app_nil_r, El, zlen_app. lia.
    + by left.
    + rewrite app_nil_r, El in Eo. exists d'', s'', rep, (rs ++ [r]). auto.
  - destruct (reopen options (st_id s) d covers base rs kept)
      as (d'' & s'' & rep & Eo & Hd & Hl); try done.
    + lia.
    + rewrite zlen_app. lia.
    + destruct Hk as [->|[->|(k & -> & Hk)]]; [by left|done|]. right.
      exists (encode_record r), k. split; [by apply record_framable|done].
    + exists d'', s'', rep, rs. split; [exact Eo|]. split; [exact Hd|]. split; [by left|].
      split; [|exact Hl]. intros H. by specialize (Hok H).
Qed.

(** C33: Wherever a checkpoint stops - before the snapshot is in place, between the
    rename and the rotation, or after both - reopening resumes at the same
    sequence, and the directory still holds either the old snapshot with its
    whole journal, or the new snapshot, which covers every record left. *)
Theorem checkpoint_crash_safe (io : CheckpointIo) (s s' : Store) (d d' : Disk) (base : Z)
    (rs : list JournalRecord) (blob : bytes) (now : Step) (st : Status)
    (options : StoreOpenOptions) :
  durable s d base rs → id_valid (st_id s) → st_open s = true → base + zlen rs = st_last s →
  zlen blob <= kMaxSnapshotBytes → is_u64 now →
  store_checkpoint io s d blob (st_last s) now = (s', d', st) →
  resumes options s d d' blob st.
Proof.
  intros Hdur Hid Hopen Hbase Hblob Hnow E.
  unfold store_checkpoint in E. rewrite Hopen, Z.eqb_refl in E. cbn [negb] in E.
  destruct (Z.ltb_spec kMaxSnapshotBytes (zlen blob)); [lia|].
  destruct (ck_snapshot io) as [f|]; cbn in E.
  { injection E as _ <- <-. destruct d. by apply (resume_old _ _ _ base rs). }
  destruct (ck_flush io) as [f|]; [injection E as _ <- <-; by apply (resume_kept _ _ _ base rs)|].
  destruct (ck_rotate io) as [f|]; cbn in E;
    [injection E as _ <- <-; by apply (resume_kept _ _ _ base rs)|].
  destruct (ck_reopen io); injection E as _ <- <-; by apply (resume_cut _ _ _ base rs).
Qed.

(** What an altered byte makes of a checksum and the payload after it. *)
Lemma altered_body r p1 p2 b c :
  put_u32 (crc32c (encode_record r)) ++ encode_record r = p1 ++ b :: p2 → b ≠ c →
  ∃ ck q, p1 ++ c :: p2 = ck ++ q ∧ length ck = 4%nat ∧ length q = length (encode_record r) ∧
    crc32c q ≠ read_u32 ck.
Proof.
  set (v := crc32c _). set (body := encode_record r). intros E Hne.
  assert (Hi : (put_u32 v ++ body) !! length p1 = Some b) by (rewrite E; by apply list_lookup_middle).
  assert (El : p1 ++ c :: p2 = <[length p1 := c]> (put_u32 v ++ body)).
  { rewrite E, insert_app_r_alt, Nat.sub_diag by done. done. }
  rewrite El. clear E El. set (i := length p1) in *. change (length (put_u32 v)) with 4%nat.
  destruct (decide (i < 4)%nat) as [Hlt|Hge].
  - rewrite lookup_app_l in Hi by done. exists (<[i := c]> (put_u32 v)), body.
    rewrite insert_app_l by done. split; [done|]. split; [by rewrite length_insert|]. split; [done|].
    intros Hv. by apply (checksum_altered v i b c (crc32c_range _) Hi Hne).
  - rewrite lookup_app_r in Hi by (cbn; lia). exists (put_u32 v), (<[(i - 4)%nat := c]> body).
    split; [by rewrite insert_app_r_alt by (cbn; lia)|]. split; [done|]. split; [by rewrite length_insert|].
    rewrite <-(app_nil_r (put_u32 v)), read_put_u32 by apply crc32c_range. by eapply crc32c_insert.
Qed.

(** C34: One byte of a record - of its checksum or of its payload, which is all of
    it but the length before them - altered on the medium: the open is refused as
    corrupt, torn-tail recovery or not, and nothing is truncated. *)
Theorem corrupt_byte_refused (s : Store) (d : Disk) (base : Z) (rs1 rs2 : list JournalRecord)
    (r : JournalRecord) (p1 p2 : bytes) (b c : byte) (options : StoreOpenOptions) :
  durable s d base (rs1 ++ r :: rs2) →
  put_u32 (crc32c (encode_record r)) ++ encode_record r = p1 ++ b :: p2 → b ≠ c →
  let d' := mkDisk (dk_header d) (dk_snapshot d)
    (Some (log_of (encode_record <$> rs1) ++
           (put_u32 (u32 (zlen (encode_record r))) ++ (p1 ++ c :: p2) ++
            log_of (encode_record <$> rs2)))) in
  store_open open_done (st_id s) options d' =
    (d', Err (mkStatus Outcome.Corrupt Reason.IntegrityMismatch
                (zlen (log_of (encode_record <$> rs1))))).
Proof.
  intros [covers Hh Hj Hroom Hc Hw Hb Hlast Hbound] Er Hbc d'.
  apply contiguous_app in Hc as [Hc _]. apply Forall_app in Hw as [Hw Hwr].
  apply Forall_cons in Hwr as [Hr _].
  rewrite zlen_app, zlen_cons in Hlast. pose proof (zlen_nonneg rs2).
  destruct (feed_journal rs1 base covers 0 0 0) as (n' & l' & st' & Ef); [done..|lia|lia|].
  unfold d'. rewrite (store_open_headed _ _ _ covers) by done. unfold open_journal.
  set (data := log_of _ ++ _). cbn [read_file_bounded].
  assert (Hz : zlen data = zlen (log_of (encode_record <$> (rs1 ++ r :: rs2)))).
  { unfold data. rewrite fmap_app, fmap_cons, log_of_app, log_of_cons. unfold frame.
    rewrite Er. rewrite !zlen_app, !zlen_cons. lia. }
  destruct (Z.ltb_spec kMaxFabricStoreBytes (zlen data)); [lia|].
  assert (Hbnd : covers < u64_max) by lia.
  rewrite u64_id by (unfold is_u64, u64_max in *; lia).
  change (scan journal_step ?l ?a) with (scan_from journal_step 0 l a). unfold data.
  rewrite (scan_frames _ _ _ _ _ _ (framable_records rs1 Hw) Ef).
  destruct (altered_body r p1 p2 b c Er Hbc) as (ck & q & -> & Hk & Hq & Hne).
  rewrite <-app_assoc. by rewrite scan_corrupt; [|apply record_framable|..].
Qed.

(** The length of a record is not covered by its checksum: a length that reads
    as more than the file holds makes the open discard that record and every
    complete record after it as a torn tail, and succeed. *)
Theorem length_damage_discards (s : Store) (d : Disk) (base : Z) (rs1 rs2 : list JournalRecord)
    (r : JournalRecord) (n : Z) (options : StoreOpenOptions) :
  durable s d base (rs1 ++ r :: rs2) → so_allow_torn options = true →
  zlen (frame (encode_record r)) - 8 + zlen (log_of (encode_record <$> rs2)) < n →
  n <= kMaxJournalRecordBytes →
  let d' := mkDisk (dk_header d) (dk_snapshot d)
    (Some (log_of (encode_record <$> rs1) ++
           (put_u32 n ++ put_u32 (crc32c (encode_record r)) ++ encode_record r ++
            log_of (encode_record <$> rs2)))) in
  ∃ s'' report, store_open open_done (st_id s) options d' =
      (mkDisk (dk_header d) (dk_snapshot d) (Some (log_of (encode_record <$> rs1))),
       Ret (s'', report)) ∧
    durable s'' (mkDisk (dk_header d) (dk_snapshot d) (Some (log_of (encode_record <$> rs1))))
      base rs1.
Proof.
  intros [covers Hh Hj Hroom Hc Hw Hb Hlast Hbound] Hopt Hn Hmax d'.
  apply contiguous_app in Hc as [Hc _]. apply Forall_app in Hw as [Hw _].
  rewrite zlen_app, zlen_cons in Hlast. pose proof (zlen_nonneg rs2).
  rewrite zlen_frame in Hn. set (tl := put_u32 n ++ _) in d'.
  assert (Hz : zlen tl = 8 + zlen (encode_record r) + zlen (log_of (encode_record <$> rs2))).
  { unfold tl. rewrite !zlen_app, !zlen_put_u32. lia. }
  pose proof (zlen_nonneg (encode_record r)).
  pose proof (zlen_nonneg (log_of (encode_record <$> rs2))).
  destruct (open_recovers options (st_id s) d' covers base rs1 tl)
    as (s'' & rep & Eo & Hd & _ & _ & _); try done.
  - by apply headed_journal.
  - lia.
  - rewrite fmap_app, fmap_cons, log_of_app, log_of_cons in Hroom.
    rewrite !zlen_app, zlen_frame in Hroom. rewrite zlen_app, Hz. lia.
  - by left.
  - intros off acc. destruct (decide (tl = [])) as [E|Hne].
    { rewrite E in Hz. change (zlen []) with 0 in Hz. lia. }
    apply (scan_short _ _ n); unfold kMaxJournalRecordBytes in *; [apply read_put_u32; unfold is_u32; lia|lia|lia].
  - exists s'', rep. split; [exact Eo|exact Hd].
Qed.

(** ** A concrete directory *)

Definition demo_id : StoreId := str "store-1".
Definition demo_options : StoreOpenOptions := mkOptions true true 0.
Definition demo_header : bytes := encode_store_header (mkHeader demo_id 1 0).
Definition step_record (n : Z) : JournalRecord := mkRecord KStepAdvance n n status_ok (str "x").
Definition demo_store (rs : list JournalRecord) : Store :=
  mkStore demo_id true (zlen rs) 0 false.
Definition demo_disk (rs : list JournalRecord) : Disk :=
  mkDisk (Some demo_header) None (Some (log_of (encode_record <$> rs))).

Lemma demo_id_valid : id_valid demo_id.
Proof. split; [discriminate|split; [vm_compute; discriminate|vm_compute; reflexivity]]. Qed.

Lemma step_record_wf n : 0 < n < 10 → record_wf (step_record n).
Proof.
  intros Hn. split; [simpl; lia|]. split.
  - rewrite zlen_record. vm_compute. discriminate.
  - repeat constructor; unfold is_u64; simpl; lia.
Qed.

Lemma demo_durable rs : contiguous 0 rs → Forall record_wf rs → zlen rs < u64_max →
  zlen (log_of (encode_record <$> rs)) <= kMaxFabricStoreBytes →
  durable (demo_store rs) (demo_disk rs) 0 rs.
Proof.
  intros Hc Hw Hb Hroom. pose proof (zlen_nonneg rs).
  apply (Build_durable _ _ _ _ 0); cbn [st_id st_last dk_journal demo_store demo_disk]; try done;
    [|lia].
  assert (Hh : header_wf (mkHeader demo_id 1 0)).
  { split; [apply demo_id_valid|repeat constructor; unfold is_u64; simpl; lia]. }
  split; [discriminate|]. split; [|by exists None]. intros io options.
  unfold open_header. cbn [dk_header demo_disk]. unfold demo_header, read_file_bounded.
  pose proof (zlen_store_header _ Hh).
  destruct (Z.ltb_spec 4096 (zlen (encode_store_header (mkHeader demo_id 1 0)))); [lia|].
  rewrite decode_encode_store_header by done. cbn [sh_store_id]. by rewrite eqb_refl.
Qed.

Lemma demo_durable1 : durable (demo_store [step_record 1]) (demo_disk [step_record 1]) 0
                        [step_record 1].
Proof.
  apply demo_durable; [by split|by apply Forall_singleton, step_record_wf|done|
    vm_compute; discriminate].
Qed.

Lemma demo_durable2 :
  durable (demo_store ([] ++ [step_record 1; step_record 2]))
    (demo_disk ([] ++ [step_record 1; step_record 2])) 0 ([] ++ [step_record 1; step_record 2]).
Proof.
  apply demo_durable; [repeat split|repeat (apply Forall_cons; split; [by apply step_record_wf|]);
    constructor|done|vm_compute; discriminate].
Qed.

(** The second append is cut after five bytes. *)
Lemma append_crash_safe_witness : ∃ d'' s'' report rs',
  store_open open_done demo_id demo_options
    (store_append (AppendFault 3 5) (demo_store [step_record 1]) (demo_disk [step_record 1])
       (step_record 2)).1.2 = (d'', Ret (s'', report)) ∧
  durable s'' d'' 0 rs' ∧ (rs' = [step_record 1] ∨ rs' = [step_record 1; step_record 2]).
Proof.
  destruct (append_crash_safe (demo_store [step_record 1]) (demo_store [step_record 1])
    (demo_disk [step_record 1])
    (store_append (AppendFault 3 5) (demo_store [step_record 1]) (demo_disk [step_record 1])
       (step_record 2)).1.2 0 [step_record 1] (AppendFault 3 5) (step_record 2)
    (mkStatus Outcome.Unreachable Reason.EffectNotVerified 3) demo_options demo_durable1)
    as (d'' & s'' & report & rs' & E & Hd & Hr & _).
  - apply step_record_wf. lia.
  - reflexivity.
  - reflexivity.
  - reflexivity.
  - reflexivity.
  - vm_compute. discriminate.
  - reflexivity.
  - reflexivity.
  - exists d'', s'', report, rs'. split; [exact E|]. split; [exact Hd|exact Hr].
Defined.

Lemma checkpoint_crash_safe_witness :
  resumes demo_options (demo_store [step_record 1]) (demo_disk [step_record 1])
    (store_checkpoint (mkCheckpointIo None None (Some (Reason.EffectNotVerified, 3)) None)
       (demo_store [step_record 1]) (demo_disk [step_record 1]) (str "state") 1 9).1.2
    (str "state") (mkStatus Outcome.Unreachable Reason.EffectNotVerified 3).
Proof.
  apply (checkpoint_crash_safe
           (mkCheckpointIo None None (Some (Reason.EffectNotVerified, 3)) None)
           (demo_store [step_record 1]) (mkStore demo_id false 1 0 false) _ _ 0 [step_record 1]
           (str "state") 9).
  - exact demo_durable1.
  - exact demo_id_valid.
  - reflexivity.
  - reflexivity.
  - vm_compute. discriminate.
  - unfold is_u64. lia.
  - reflexivity.
Defined.

(** A byte of the checksum, then one of the payload. *)
Lemma corrupt_byte_refused_witness :
  ∃ d1 d2, d1 ≠ d2 ∧
    store_open open_done demo_id demo_options d1 =
      (d1, Err (mkStatus Outcome.Corrupt Reason.IntegrityMismatch 0)) ∧
    store_open open_done demo_id demo_options d2 =
      (d2, Err (mkStatus Outcome.Corrupt Reason.IntegrityMismatch 0)).
Proof.
  pose proof (corrupt_byte_refused (demo_store ([] ++ [step_record 1; step_record 2])) _ 0 []
    [step_record 2] (step_record 1) [] _ _ x78 demo_options demo_durable2 eq_refl) as H1.
  pose proof (corrupt_byte_refused (demo_store ([] ++ [step_record 1; step_record 2])) _ 0 []
    [step_record 2] (step_record 1) (take 38 (put_u32 (crc32c (encode_record (step_record 1))) ++
      encode_record (step_record 1))) [] x78 x79 demo_options demo_durable2 eq_refl
    ltac:(discriminate)) as H2.
  eexists _, _. split; [|split; [apply H1|exact H2]].
  - vm_compute. discriminate.
  - vm_compute. discriminate.
Defined.

Lemma length_damage_discards_witness : ∃ d' s'' report,
  store_open open_done demo_id demo_options d' =
    (mkDisk (Some demo_header) None (Some []), Ret (s'', report)) ∧
  durable s'' (mkDisk (Some demo_header) None (Some [])) 0 [].
Proof.
  destruct (length_damage_discards (demo_store ([] ++ [step_record 1; step_record 2]))
    (demo_disk ([] ++ [step_record 1; step_record 2])) 0 [] [step_record 2] (step_record 1) 1000
    demo_options demo_durable2) as (s'' & report & E & Hd).
  - reflexivity.
  - vm_compute. reflexivity.
  - vm_compute. discriminate.
  - eexists _, s'', report. split; [exact E|exact Hd].
Defined.

End Journaling.
