(* ===== verification/Fabric.v ===== *)
(** * The fabric effect boundary

    Models [FabricStore] of [include/sbf/fabric_store.hpp] and
    [src/fabric_store.cpp]: the gate in front of every mutation, the append of
    its record, and recovery.  The state of the object is [FabricStore]; the
    log file it appends to is a byte string beside it, and the way an append
    fails is an argument. *)
From S2P Require Import Prelude Order SortedVec Status Ids Text Digest Canonical Scope.
From S2P Require Import Fence Lineage Evidence Arbiter Codec Journal.
Open Scope Z_scope.

Record FabricStore := mkFabric {
  fb_open : bool;                         (* file_ != nullptr *)
  fb_store_id : StoreId;
  fb_fences : FenceTable;
  fb_owners : list ExtentFenceState;
  fb_records : list MutationRecord;
  fb_last : Sequence;
  fb_written : Z;
  fb_torn : bool
}.

(** A default-constructed store: no file. *)
Definition fabric0 : FabricStore := mkFabric false [] fence_table0 [] [] 0 0 false.

Definition record_owner (owners : list ExtentFenceState) (m : MutationRecord)
  : list ExtentFenceState :=
  foldl (λ es e, sv_set es_extent
           (mkExtentState e (mr_token m) (mr_epoch m) (mr_incarnation m) (mr_grant m)
              (mr_committed m)) es) owners (mr_scope m).

Definition owner_of (f : FabricStore) (e : ExtentId) : option ExtentFenceState :=
  sv_find es_extent e (fb_owners f).

Definition fabric_high_water (f : FabricStore) (e : ExtentId) : FenceToken :=
  match owner_of f e with Some s => es_token s | None => 0 end.

(** The gate: the first extent whose durable mark refuses the token. *)
Fixpoint gate (f : FabricStore) (token : FenceToken) (incarnation : IncarnationId)
    (scope : list ExtentId) : option Status :=
  match scope with
  | [] => None
  | e :: rest =>
      match owner_of f e with
      | Some s =>
          if token <? es_token s
          then Some (mkStatus Outcome.Fenced Reason.TokenFloorRejected (es_token s))
          else if (es_token s =? token) && negb (es_owner s =? incarnation)
          then Some (mkStatus Outcome.Conflict Reason.StoreOwnerMismatch (es_owner s))
          else gate f token incarnation rest
      | None => gate f token incarnation rest
      end
  end.

(** The arguments of [admit]. *)
Record Mutation := mkMutationArgs {
  mu_domain : DomainId;
  mu_token : FenceToken;
  mu_scope : Scope;
  mu_epoch : Epoch;
  mu_incarnation : IncarnationId;
  mu_grant : GrantId;
  mu_operation : bytes;
  mu_payload : Digest256;
  mu_now : Step
}.

(** The record [admit] is about to append, without its digest. *)
Definition draft_record (f : FabricStore) (m : Mutation) : MutationRecord :=
  mkMutation (u64 (fb_last f + 1)) (mu_domain m) (mu_scope m) (mu_epoch m) (mu_incarnation m)
    (mu_grant m) (mu_token m) (mu_now m) (mu_operation m) (mu_payload m) Digest256_zero.

Definition candidate_record (f : FabricStore) (m : Mutation) : MutationRecord :=
  mkMutation (u64 (fb_last f + 1)) (mu_domain m) (mu_scope m) (mu_epoch m) (mu_incarnation m)
    (mu_grant m) (mu_token m) (mu_now m) (mu_operation m) (mu_payload m)
    (compute_record_digest (draft_record f m)).

(** [if (records_.size() >= limit) records_.erase(records_.begin())]. *)
Definition push_record (records : list MutationRecord) (m : MutationRecord)
  : list MutationRecord :=
  (if kMaxSnapshotRecords <=? zlen records then drop 1 records else records) ++ [m].

(** The checks before the gate. *)
Definition admit_guard (f : FabricStore) (m : Mutation) : option Status :=
  if negb (fb_open f) then Some (fail0 Outcome.Closed Reason.StoreBusy)
  else if id_empty (mu_domain m) then Some (fail0 Outcome.Invalid Reason.DomainNotRegistered)
  else if scope_empty (mu_scope m) then Some (fail0 Outcome.Invalid Reason.EmptyExtentSet)
  else if is_none (mu_token m) then Some (fail0 Outcome.Invalid Reason.FenceTokenMissing)
  else if is_none (mu_incarnation m) then Some (fail0 Outcome.Invalid Reason.ValueOutOfRange)
  else if negb (operation_valid (mu_operation m))
  then Some (mkStatus Outcome.Invalid Reason.ValueOutOfRange (zlen (mu_operation m)))
  else if kMaxExtentsPerScope <? zlen (mu_scope m)
  then Some (mkStatus Outcome.Exhausted Reason.ScopeTooLarge (zlen (mu_scope m)))
  else gate f (mu_token m) (mu_incarnation m) (mu_scope m).

Definition fabric_admit (io : AppendIo) (f : FabricStore) (log : bytes) (m : Mutation)
  : FabricStore * bytes * result MutationRecord :=
  match admit_guard f m with
  | Some st => (f, log, Err st)
  | None =>
      let candidate := candidate_record f m in
      let payload := encode_mutation candidate in
      if kMaxJournalRecordBytes <? zlen payload
      then (f, log, Err (mkStatus Outcome.Exhausted Reason.ImpossibleLength (zlen payload)))
      else
        let log := append_file io log (frame payload) in
        match io with
        | AppendFault a _ => (f, log, Err (mkStatus Outcome.Unknown Reason.EffectNotVerified a))
        | AppendDone =>
            (mkFabric (fb_open f) (fb_store_id f) (fb_fences f)
               (record_owner (fb_owners f) candidate) (push_record (fb_records f) candidate)
               (mr_sequence candidate) (u64 (fb_written f + zlen (frame payload))) (fb_torn f),
             log, Ret candidate)
        end
  end.

(** The variables of the recovery loop of [open]. *)
Record FabricScan := mkFabricScan {
  fs_expected : Z;
  fs_owners : list ExtentFenceState;
  fs_records : list MutationRecord;
  fs_last : Sequence;
  fs_count : Z;
  fs_report_last : Sequence;
  fs_report_step : Step
}.

Definition fabric_step (payload : bytes) (a : FabricScan) : FabricScan * Status :=
  match decode_all r_mutation payload with
  | Err st => (a, st)
  | Ret record =>
      if negb (mr_sequence record =? fs_expected a)
      then (a, mkStatus Outcome.Corrupt Reason.SequenceRegression (mr_sequence record))
      else
        (mkFabricScan (u64 (mr_sequence record + 1)) (record_owner (fs_owners a) record)
           (fs_records a ++ [record]) (mr_sequence record) (u64 (fs_count a + 1))
           (mr_sequence record) (mr_committed record), status_ok)
  end.

(** The last [kMaxSnapshotRecords] of the records. *)
Definition retain (records : list MutationRecord) : list MutationRecord :=
  if kMaxSnapshotRecords <? zlen records
  then drop (Z.to_nat (zlen records - kMaxSnapshotRecords)) records else records.

(** The log: what was recovered, whether a tail was cut here, and the file
    kept.  The report may come from an earlier open of another file: when it
    already says a tail was cut, a clean log is cut at its own end. *)
Definition fabric_recover (io : OpenIo) (options : StoreOpenOptions)
    (report : StoreRecoveryReport) (log : option bytes)
  : option bytes * result (FabricScan * option Z) :=
  let start := mkFabricScan 1 [] [] 0 (rp_records report) (rp_last_sequence report)
                 (rp_last_step report) in
  match log with
  | None => (None, Ret (start, None))
  | Some _ =>
      match read_file_bounded kMaxFabricStoreBytes log with
      | Err st => (log, Err st)
      | Ret data =>
          let '(a, good_end, e) := scan fabric_step data start in
          let cut torn :=
            match oi_truncate io with
            | Some fault => (log, Err (io_status fault))
            | None => (Some (take (Z.to_nat good_end) data), Ret (a, torn))
            end in
          match e with
          | CleanEnd => if rp_torn report then cut None else (log, Ret (a, None))
          | NoFuel => (log, Err status_ok)
          | RefusedAt st => (log, Err st)
          | TornAt torn =>
              if negb (so_allow_torn options)
              then (log, Err (mkStatus Outcome.Corrupt Reason.TornTail good_end))
              else cut (Some torn)
          end
      end
  end.

(** The header file of the fabric and its log. *)
Record FabricDisk := mkFabricDisk { fd_header : option bytes; fd_log : option bytes }.

Definition fabric_open (io : OpenIo) (store_id : StoreId) (options : StoreOpenOptions)
    (report : StoreRecoveryReport) (d : FabricDisk)
  : FabricDisk * result (FabricStore * StoreRecoveryReport) :=
  if id_empty store_id then (d, Err (fail0 Outcome.Invalid Reason.EmptyValue))
  else
    match oi_directory io with
    | Some st => (d, Err st)
    | None =>
        match open_header io store_id options (mkDisk (fd_header d) None None) with
        | (h, Err st) => (mkFabricDisk (dk_header h) (fd_log d), Err st)
        | (h, Ret created) =>
            match fabric_recover io options report (fd_log d) with
            | (log, Err st) => (mkFabricDisk (dk_header h) log, Err st)
            | (log, Ret (a, torn)) =>
                match oi_journal io with
                | Some _ =>
                    (mkFabricDisk (dk_header h) log, Err (fail0 Outcome.Unreachable Reason.StoreNotFound))
                | None =>
                    (mkFabricDisk (dk_header h) (Some (default [] log)),
                     let cut := rp_torn report || bool_decide (is_Some torn) in
                     Ret (mkFabric true store_id fence_table0 (fs_owners a) (retain (fs_records a))
                            (fs_last a) 0 (cut && bool_decide (is_Some log)),
                          mkReport (rp_created report || created) (rp_snapshot_loaded report) cut
                            (default (rp_torn_bytes report) torn) (fs_count a)
                            (fs_report_last a) (fs_report_step a)))
                end
            end
        end
    end.

(** [load]: every complete record of the log, in order, to a visitor. *)
Definition load_record {S} (visitor : MutationRecord → S → S * Status) (payload : bytes)
    (a : Z * S) : (Z * S) * Status :=
  match decode_all r_mutation payload with
  | Err st => (a, st)
  | Ret record =>
      if negb (mr_sequence record =? a.1)
      then (a, mkStatus Outcome.Corrupt Reason.SequenceRegression (mr_sequence record))
      else
        let '(x, st) := visitor record a.2 in
        ((u64 (mr_sequence record + 1), x), st)
  end.

Definition fabric_load {S} (visitor : MutationRecord → S → S * Status) (log : option bytes) (x : S)
  : S * Status :=
  match log with
  | None => (x, status_ok)
  | Some _ =>
      match read_file_bounded kMaxFabricStoreBytes log with
      | Err st => (x, st)
      | Ret data =>
          let '(a, _, e) := scan (load_record visitor) data (1, x) in
          (a.2, match e with RefusedAt st => st | _ => status_ok end)
      end
  end.

(** Proofs treat the digest as a black box. *)
#[local] Opaque Digest256_of crc32c.

(** ** The gate *)

Lemma record_owner_marks owners m : record_owner owners m =
  adopt_marks (mr_token m) (mr_epoch m) (mr_incarnation m) (mr_grant m) (mr_committed m)
    owners (mr_scope m).
Proof. done. Qed.

Definition mark_of (m : MutationRecord) (e : ExtentId) : ExtentFenceState :=
  mkExtentState e (mr_token m) (mr_epoch m) (mr_incarnation m) (mr_grant m) (mr_committed m).

Lemma record_owner_find owners m e : sv_sorted es_extent owners →
  sv_find es_extent e (record_owner owners m) =
    if decide (e ∈ mr_scope m) then Some (mark_of m e) else sv_find es_extent e owners.
Proof. intros. by apply adopt_marks_find. Qed.

Lemma record_owner_sorted owners m : sv_sorted es_extent owners →
  sv_sorted es_extent (record_owner owners m).
Proof. intros. by apply adopt_marks_sorted. Qed.

Lemma gate_check f token incarnation scope :
  gate f token incarnation scope = None ↔
  adopt_check (fb_owners f) token incarnation scope = None.
Proof.
  induction scope as [|e l IH]; simpl; [done|]. unfold owner_of.
  destruct (sv_find _ _ _); [|done]. by repeat case_match.
Qed.

Lemma gate_ext f f' token incarnation scope : fb_owners f' = fb_owners f →
  gate f' token incarnation scope = gate f token incarnation scope.
Proof.
  intros E. induction scope as [|e l IH]; simpl; [done|]. unfold owner_of. by rewrite E, IH.
Qed.

(** What the durable marks demand of a writer. *)
Definition may_write (f : FabricStore) (m : Mutation) : Prop :=
  ∀ e s, e ∈ mu_scope m → owner_of f e = Some s →
    es_token s < mu_token m ∨ (es_token s = mu_token m ∧ es_owner s = mu_incarnation m).

Lemma gate_None f m : gate f (mu_token m) (mu_incarnation m) (mu_scope m) = None ↔ may_write f m.
Proof. by rewrite gate_check, adopt_check_None. Qed.

(** What the types of the arguments guarantee. *)
Definition mutation_args_wf (m : Mutation) : Prop :=
  id_valid (mu_domain m) ∧ scope_wf (mu_scope m) ∧ length (mu_payload m) = 32%nat ∧
  words [mu_token m; mu_epoch m; mu_incarnation m; mu_grant m; mu_now m].

Lemma admit_guard_None f m : mutation_args_wf m → admit_guard f m = None ↔
  fb_open f = true ∧ mu_token m ≠ 0 ∧ mu_incarnation m ≠ 0 ∧
  operation_valid (mu_operation m) = true ∧ may_write f m.
Proof.
  intros (Hd & (Hne & Hl & _) & _ & _). unfold admit_guard, is_none.
  rewrite (id_valid_nonempty _ Hd). apply scope_empty_false in Hne as ->.
  destruct (fb_open f); simpl; [|naive_solver].
  destruct (Z.eqb_spec (mu_token m) 0); [naive_solver|].
  destruct (Z.eqb_spec (mu_incarnation m) 0); [naive_solver|].
  destruct (operation_valid _); simpl; [|naive_solver].
  destruct (Z.ltb_spec kMaxExtentsPerScope (zlen (mu_scope m))); [lia|].
  rewrite gate_None. naive_solver.
Qed.

Lemma candidate_wf f m : mutation_args_wf m → operation_valid (mu_operation m) = true →
  mutation_wf (candidate_record f m).
Proof.
  intros (Hd & Hs & Hp & Hw) Ho. open_wf. split; [exact Hd|]. split; [by right|].
  split; [exact Ho|]. split; [exact Hp|]. split; [by apply compute_record_digest_ext|].
  repeat (apply Forall_cons; split; [first [assumption|apply u64_is]|]). constructor.
Qed.

Lemma candidate_framable f m : mutation_args_wf m → operation_valid (mu_operation m) = true →
  framable (encode_mutation (candidate_record f m)).
Proof.
  intros Hm Ho. pose proof (zlen_mutation _ (candidate_wf f m Hm Ho)).
  unfold framable, kMaxJournalRecordBytes. split; [|lia].
  unfold encode_mutation. autorewrite with zlen.
  pose proof (zlen_nonneg (encode_scope (mr_scope (candidate_record f m)))).
  pose proof (zlen_nonneg (mr_domain (candidate_record f m))).
  pose proof (zlen_nonneg (mr_operation (candidate_record f m))).
  unfold w_digest. pose proof (zlen_nonneg (mr_payload (candidate_record f m))).
  pose proof (zlen_nonneg (mr_digest (candidate_record f m))). lia.
Qed.

(** The state an admission leaves. *)
Definition admitted (f : FabricStore) (m : Mutation) : FabricStore :=
  let candidate := candidate_record f m in
  mkFabric (fb_open f) (fb_store_id f) (fb_fences f) (record_owner (fb_owners f) candidate)
    (push_record (fb_records f) candidate) (mr_sequence candidate)
    (u64 (fb_written f + zlen (frame (encode_mutation candidate)))) (fb_torn f).

Lemma admit_ok io f log m : mutation_args_wf m → admit_guard f m = None →
  fabric_admit io f log m =
  (match io with AppendDone => admitted f m | _ => f end,
   append_file io log (frame (encode_mutation (candidate_record f m))),
   match io with
   | AppendDone => Ret (candidate_record f m)
   | AppendFault a _ => Err (mkStatus Outcome.Unknown Reason.EffectNotVerified a)
   end).
Proof.
  intros Hm Hg. pose proof Hg as (_ & _ & _ & Ho & _)%admit_guard_None; [|done].
  unfold fabric_admit. rewrite Hg.
  pose proof (candidate_framable f m Hm Ho) as [_ Hl].
  destruct (Z.ltb_spec kMaxJournalRecordBytes (zlen (encode_mutation (candidate_record f m))));
    [lia|]. by destruct io.
Qed.

(** ** The history *)

Definition owners_after (hist : list MutationRecord) : list ExtentFenceState :=
  foldl record_owner [] hist.

(** [b] comes after [a]: on every extent they share its token is higher, or the
    same one in the hands of the same incarnation. *)
Definition succeeds (a b : MutationRecord) : Prop :=
  ∀ e, e ∈ mr_scope a → e ∈ mr_scope b →
    mr_token a < mr_token b ∨ (mr_token a = mr_token b ∧ mr_incarnation a = mr_incarnation b).

Definition history_ok (hist : list MutationRecord) : Prop := StronglySorted succeeds hist.

Fixpoint numbered (n : Z) (hist : list MutationRecord) : Prop :=
  match hist with
  | [] => True
  | m :: hist => mr_sequence m = n + 1 ∧ numbered (n + 1) hist
  end.

Lemma numbered_app n l k : numbered n (l ++ k) ↔ numbered n l ∧ numbered (n + zlen l) k.
Proof.
  revert n. induction l as [|m l IH]; intros n; simpl.
  - change (zlen []) with 0. rewrite Z.add_0_r. tauto.
  - rewrite IH, zlen_cons. replace (n + 1 + zlen l) with (n + (1 + zlen l)) by lia. tauto.
Qed.

Lemma owners_after_sorted hist : sv_sorted es_extent (owners_after hist).
Proof.
  unfold owners_after. induction hist as [|m l IH] using rev_ind; [constructor|].
  rewrite foldl_app. by apply record_owner_sorted.
Qed.

Lemma owners_after_snoc hist m : owners_after (hist ++ [m]) = record_owner (owners_after hist) m.
Proof. unfold owners_after. by rewrite foldl_app. Qed.

(** The mark of an extent dominates every record that touched it. *)
Lemma owners_dominate hist a e : history_ok hist → a ∈ hist → e ∈ mr_scope a →
  ∃ s, sv_find es_extent e (owners_after hist) = Some s ∧
    (mr_token a < es_token s ∨ (mr_token a = es_token s ∧ mr_incarnation a = es_owner s)).
Proof.
  unfold history_ok. induction hist as [|m l IH] using rev_ind; [set_solver|].
  intros Hh Ha He. rewrite owners_after_snoc, record_owner_find by apply owners_after_sorted.
  apply StronglySorted_app in Hh as (Hlm & Hh & _).
  apply elem_of_app in Ha as [Ha|Ha%list_elem_of_singleton].
  - destruct (decide (e ∈ mr_scope m)) as [Hm|Hm]; [|by apply IH].
    exists (mark_of m e). split; [done|]. simpl.
    exact (Hlm a m Ha ltac:(set_solver) e He Hm).
  - subst a. rewrite decide_True by done. exists (mark_of m e). split; [done|]. by right.
Qed.

Lemma history_snoc hist m : history_ok hist →
  (∀ e s, e ∈ mr_scope m → sv_find es_extent e (owners_after hist) = Some s →
     es_token s < mr_token m ∨ (es_token s = mr_token m ∧ es_owner s = mr_incarnation m)) →
  history_ok (hist ++ [m]).
Proof.
  intros Hh Hg. apply StronglySorted_app. split; [|split; [done|repeat constructor]].
  intros a b Ha ->%list_elem_of_singleton e He Hm.
  destruct (owners_dominate hist a e Hh Ha He) as (s & Es & Hs).
  destruct (Hg e s Hm Es) as [?|[??]]; destruct Hs as [?|[??]]; lia || (right; split; congruence).
Qed.

(** ** The object and its log *)

(** The retained window is the tail of the history. *)
Lemma push_retain hist m : push_record (retain hist) m = retain (hist ++ [m]).
Proof.
  unfold push_record, retain. rewrite zlen_app. change (zlen [m]) with 1.
  set (k := kMaxSnapshotRecords). assert (0 < k) by (unfold k, kMaxSnapshotRecords; lia).
  pose proof (zlen_nonneg hist).
  destruct (Z.ltb_spec k (zlen hist)) as [L|L].
  - rewrite zlen_drop. destruct (Z.leb_spec k (Z.max 0 (zlen hist - Z.of_nat (Z.to_nat (zlen hist - k)))));
      [|lia]. destruct (Z.ltb_spec k (zlen hist + 1)); [|lia].
    rewrite drop_drop, drop_app_le; [f_equal; f_equal; lia|]. unfold zlen in *. lia.
  - destruct (Z.leb_spec k (zlen hist)), (Z.ltb_spec k (zlen hist + 1)); try lia; [|done].
    rewrite drop_app_le; [f_equal; f_equal; lia|]. unfold zlen in *. lia.
Qed.

(** The object is what its log says, and the log is a legal history. *)
Record fabric_inv (f : FabricStore) (log : bytes) (hist : list MutationRecord) : Prop := {
  fi_log : log = log_of (encode_mutation <$> hist);
  fi_owners : fb_owners f = owners_after hist;
  fi_records : fb_records f = retain hist;
  fi_last : fb_last f = zlen hist;
  fi_numbered : numbered 0 hist;
  fi_wf : Forall mutation_wf hist;
  fi_history : history_ok hist
}.

Lemma fabric_inv_admitted f log hist m : fabric_inv f log hist → mutation_args_wf m →
  admit_guard f m = None → zlen hist + 1 < u64_max →
  fabric_inv (admitted f m) (log ++ frame (encode_mutation (candidate_record f m)))
    (hist ++ [candidate_record f m]).
Proof.
  intros [-> Eo Er El Hn Hw Hh] Hm Hg Hb.
  pose proof Hg as (_ & _ & _ & Ho & Hmay)%admit_guard_None; [|done].
  pose proof (zlen_nonneg hist). unfold u64_max in Hb.
  assert (Es : mr_sequence (candidate_record f m) = zlen hist + 1).
  { cbn. rewrite El. apply u64_id. unfold is_u64. lia. }
  split; cbn [admitted fb_owners fb_records fb_last].
  - rewrite fmap_app. symmetry. apply log_of_snoc.
  - by rewrite owners_after_snoc, Eo.
  - by rewrite Er, push_retain.
  - rewrite zlen_app. exact Es.
  - apply numbered_app. split; [done|]. split; [lia|done].
  - apply Forall_app. split; [done|]. apply Forall_singleton. by apply candidate_wf.
  - apply history_snoc; [done|]. rewrite <-Eo. exact Hmay.
Qed.

Lemma decode_mutation m : mutation_wf m → decode_all r_mutation (encode_mutation m) = Ret m.
Proof. intros. by apply decodes_all, decodes_mutation. Qed.

Lemma mutation_framable m : mutation_wf m → framable (encode_mutation m).
Proof.
  intros Hm. pose proof (zlen_mutation m Hm). unfold framable, kMaxJournalRecordBytes.
  split; [|lia]. unfold encode_mutation, w_digest. autorewrite with zlen.
  pose proof (zlen_nonneg (encode_scope (mr_scope m))). pose proof (zlen_nonneg (mr_domain m)).
  pose proof (zlen_nonneg (mr_operation m)). pose proof (zlen_nonneg (mr_payload m)).
  pose proof (zlen_nonneg (mr_digest m)). lia.
Qed.

Lemma mutations_framable hist : Forall mutation_wf hist → Forall framable (encode_mutation <$> hist).
Proof. intros H. apply Forall_fmap. eapply Forall_impl; [exact H|apply mutation_framable]. Qed.

Lemma feed_fabric hist : ∀ done c l st, numbered (zlen done) hist → Forall mutation_wf hist →
  zlen done + zlen hist < u64_max →
  ∃ c' l' st', feed fabric_step (encode_mutation <$> hist)
    (mkFabricScan (zlen done + 1) (owners_after done) done (zlen done) c l st) =
    (mkFabricScan (zlen done + zlen hist + 1) (owners_after (done ++ hist)) (done ++ hist)
       (zlen done + zlen hist) c' l' st', status_ok).
Proof.
  induction hist as [|m hist IH]; intros done c l st Hn Hw Hb.
  - change (zlen []) with 0. rewrite !Z.add_0_r, app_nil_r. by exists c, l, st.
  - destruct Hn as [Em Hn]. apply Forall_cons in Hw as [Hm Hw]. rewrite zlen_cons in *.
    pose proof (zlen_nonneg done). pose proof (zlen_nonneg hist). unfold u64_max in *.
    csimpl. unfold fabric_step at 1. rewrite decode_mutation by done.
    cbn [fs_expected fs_owners fs_records fs_count]. rewrite Em, Z.eqb_refl. cbn [negb].
    rewrite u64_id by (unfold is_u64; lia). cbn [is_ok status_ok].
    destruct (IH (done ++ [m]) (u64 (c + 1)) (zlen done + 1) (mr_committed m))
      as (c' & l' & st' & E).
    + rewrite zlen_app. exact Hn.
    + done.
    + rewrite zlen_app. change (zlen [m]) with 1. lia.
    + exists c', l', st'. rewrite zlen_app in E. change (zlen [m]) with 1 in E.
      rewrite owners_after_snoc, <-app_assoc in E. simpl app in E. etrans; [exact E|].
      replace (zlen done + 1 + zlen hist) with (zlen done + (1 + zlen hist)) by lia. done.
Qed.

(** Recovery from a log of records and a partial one. *)
Lemma recover_log options report hist tl :
  numbered 0 hist → Forall mutation_wf hist → zlen hist < u64_max →
  zlen (log_of (encode_mutation <$> hist) ++ tl) <= kMaxFabricStoreBytes →
  so_allow_torn options = true →
  (tl = [] ∨ ∃ p k, framable p ∧ tl = take k (frame p) ∧ (0 < k < length (frame p))%nat) →
  ∃ a torn, fabric_recover open_done options report
      (Some (log_of (encode_mutation <$> hist) ++ tl)) =
      (Some (log_of (encode_mutation <$> hist)), Ret (a, torn)) ∧
    fs_owners a = owners_after hist ∧ fs_records a = hist ∧ fs_last a = zlen hist.
Proof.
  intros Hn Hw Hb Hroom Hopt Htl.
  destruct (feed_fabric hist [] (rp_records report) (rp_last_sequence report)
    (rp_last_step report)) as (c & l & st & Ef); [done..|].
  change (zlen []) with 0 in Ef. change (owners_after []) with (@nil ExtentFenceState) in Ef.
  rewrite !Z.add_0_l in Ef. simpl app in Ef.
  unfold fabric_recover, read_file_bounded.
  destruct (Z.ltb_spec kMaxFabricStoreBytes (zlen (log_of (encode_mutation <$> hist) ++ tl)));
    [lia|].
  change (scan fabric_step ?x ?y) with (scan_from fabric_step 0 x y).
  rewrite (scan_frames _ _ _ _ _ _ (mutations_framable hist Hw) Ef), Z.add_0_l.
  assert (Hcut : take (Z.to_nat (zlen (log_of (encode_mutation <$> hist))))
    (log_of (encode_mutation <$> hist) ++ tl) = log_of (encode_mutation <$> hist)).
  { unfold zlen. by rewrite Nat2Z.id, take_app_length. }
  cbn [oi_truncate open_done].
  destruct Htl as [->|(p & k & Hp & -> & Hk)].
  - rewrite scan_nil, Hcut, app_nil_r. destruct (rp_torn report); by eexists _, _.
  - rewrite scan_torn by done. rewrite Hopt, Hcut. cbn [negb]. by eexists _, _.
Qed.

(** ** Runs: admissions, and crashes in the middle of one *)

(** A step of the boundary [id]: an admission attempted and answered, or one
    cut at any byte, after which the process restarts from the log.  The log
    stays within what [open] reads. *)
Inductive fabric_next (id : StoreId) : FabricStore * bytes → FabricStore * bytes → Prop :=
  | next_admit f log m f' log' r :
      mutation_args_wf m → fabric_admit AppendDone f log m = (f', log', r) →
      zlen log' <= kMaxFabricStoreBytes →
      fabric_next id (f, log) (f', log')
  | next_crash f log m a k f1 log1 r options report header header' f' log' report' :
      mutation_args_wf m → fabric_admit (AppendFault a k) f log m = (f1, log1, r) →
      zlen log + zlen (frame (encode_mutation (candidate_record f m))) <= kMaxFabricStoreBytes →
      so_allow_torn options = true →
      fabric_open open_done id options report (mkFabricDisk header (Some log1)) =
        (mkFabricDisk header' (Some log'), Ret (f', report')) →
      fabric_next id (f, log) (f', log').

(** What is opened on an empty directory. *)
Definition fresh_fabric (id : StoreId) : FabricStore :=
  mkFabric true id fence_table0 [] [] 0 0 false.

Definition fabric_reach (id : StoreId) (f : FabricStore) (log : bytes) : Prop :=
  rtc (fabric_next id) (fresh_fabric id, []) (f, log).

Lemma fabric_inv_fresh id : fabric_inv (fresh_fabric id) [] [].
Proof. split; try done; constructor. Qed.

Lemma history_length hist log : log = log_of (encode_mutation <$> hist) → zlen hist <= zlen log.
Proof.
  intros ->. induction hist as [|m l IH]; [done|].
  rewrite fmap_cons, log_of_cons, zlen_app, zlen_cons, zlen_frame.
  pose proof (zlen_nonneg (encode_mutation m)). lia.
Qed.

(** What a successful open returns, once the log is recovered. *)
Lemma open_fabric_ok id options report header log a log' d' f' report' :
  fabric_recover open_done options report (Some log) = (Some log', Ret a) →
  fabric_open open_done id options report (mkFabricDisk header (Some log)) =
    (d', Ret (f', report')) →
  fd_log d' = Some log' ∧ fb_owners f' = fs_owners a.1 ∧ fb_records f' = retain (fs_records a.1) ∧
  fb_last f' = fs_last a.1 ∧ fb_open f' = true ∧ fb_store_id f' = id.
Proof.
  intros Er E. unfold fabric_open in E. destruct (id_empty id); [done|].
  cbn [oi_directory open_done fd_log] in E. destruct (open_header _ _ _ _) as [h [c|]]; [|done].
  rewrite Er in E. destruct a as [a torn]. cbn [oi_journal open_done] in E.
  injection E as <- <- _. done.
Qed.

(** What an admission cut at any byte leaves on disk: a legal history, longer
    by the whole record or not at all, and perhaps a partial record. *)
Lemma crash_log f log hist m a k f1 log1 r : fabric_inv f log hist → mutation_args_wf m →
  fabric_admit (AppendFault a k) f log m = (f1, log1, r) →
  zlen log + zlen (frame (encode_mutation (candidate_record f m))) <= kMaxFabricStoreBytes →
  ∃ more tl, log1 = log_of (encode_mutation <$> (hist ++ more)) ++ tl ∧
    numbered 0 (hist ++ more) ∧ Forall mutation_wf (hist ++ more) ∧ history_ok (hist ++ more) ∧
    zlen log1 <= kMaxFabricStoreBytes ∧
    (tl = [] ∨ ∃ p k, framable p ∧ tl = take k (frame p) ∧ (0 < k < length (frame p))%nat).
Proof.
  intros Hi Hm E Hl. pose proof Hi as [-> Eow Er El Hnum Hwf Hhist].
  pose proof (zlen_nonneg (frame (encode_mutation (candidate_record f m)))) as Hz.
  destruct (admit_guard f m) as [st|] eqn:Hg.
  { unfold fabric_admit in E. rewrite Hg in E. injection E as _ <- _.
    exists [], []. rewrite !app_nil_r. split_and!; auto. lia. }
  pose proof (fabric_inv_admitted f _ hist m Hi Hm Hg) as Hnew.
  rewrite admit_ok in E by done. injection E as _ <- _. cbn [append_file].
  pose proof Hg as (_ & _ & _ & Ho & _)%admit_guard_None; [|done].
  pose proof (candidate_framable f m Hm Ho) as Hf.
  destruct (take_frame_cases (encode_mutation (candidate_record f m)) k Hf) as [->|[->|Hk]].
  - exists [], []. rewrite !app_nil_r. split_and!; auto. lia.
  - destruct Hnew as [E1 _ _ _ Hn1 Hw1 Hh1].
    { pose proof (history_length hist _ eq_refl).
      unfold kMaxFabricStoreBytes, u64_max in *. lia. }
    exists [candidate_record f m], []. rewrite app_nil_r. split_and!; auto.
    rewrite zlen_app. lia.
  - exists [], (take k (frame (encode_mutation (candidate_record f m)))).
    rewrite app_nil_r. split_and!; auto.
    + rewrite zlen_app. assert (zlen (take k (frame (encode_mutation (candidate_record f m))))
        <= zlen (frame (encode_mutation (candidate_record f m)))); [|lia].
      unfold zlen. rewrite length_take. lia.
    + right. by exists (encode_mutation (candidate_record f m)), k.
Qed.

Lemma fabric_next_inv id f log hist f' log' : fabric_inv f log hist →
  zlen log <= kMaxFabricStoreBytes → fabric_next id (f, log) (f', log') →
  ∃ more, fabric_inv f' log' (hist ++ more) ∧ zlen log' <= kMaxFabricStoreBytes.
Proof.
  intros Hi Hroom Hn. inversion Hn as [? ? m ? ? r Hm E Hl|
    ? ? m a k f1 log1 r options report header header' ? ? report' Hm E Hl Hopt Eo]; subst.
  - destruct (admit_guard f m) as [st|] eqn:Hg.
    + unfold fabric_admit in E. rewrite Hg in E. injection E as <- <- _.
      exists []. by rewrite app_nil_r.
    + rewrite admit_ok in E by done. injection E as <- <- _.
      exists [candidate_record f m]. split; [|done]. apply fabric_inv_admitted; try done.
      pose proof (history_length hist log (fi_log _ _ _ Hi)).
      unfold kMaxFabricStoreBytes, u64_max in *. lia.
  - destruct (crash_log _ _ _ _ _ _ _ _ _ Hi Hm E Hl)
      as (more & tl & -> & Hnum & Hwf & Hhist & Hlen & Htl).
    assert (Hb : zlen (hist ++ more) <= kMaxFabricStoreBytes).
    { etrans; [by apply history_length|]. rewrite zlen_app in Hlen. pose proof (zlen_nonneg tl). lia. }
    destruct (recover_log options report (hist ++ more) tl) as (s & torn & Er & E1 & E2 & E3);
      try done; [unfold kMaxFabricStoreBytes, u64_max in *; lia|].
    destruct (open_fabric_ok _ _ _ _ _ _ _ _ _ _ Er Eo) as (El & F1 & F2 & F3 & _ & _).
    cbn [fd_log fst] in *. injection El as ->. exists more. split.
    + split; try done; congruence.
    + rewrite zlen_app in Hlen. pose proof (zlen_nonneg tl). lia.
Qed.

Lemma fabric_steps_inv id f log hist f' log' : fabric_inv f log hist →
  zlen log <= kMaxFabricStoreBytes → rtc (fabric_next id) (f, log) (f', log') →
  ∃ more, fabric_inv f' log' (hist ++ more) ∧ zlen log' <= kMaxFabricStoreBytes.
Proof.
  intros Hi Hl Hr. remember (f, log) as x eqn:Ex. remember (f', log') as y eqn:Ey.
  revert f log hist Hi Hl Ex. induction Hr as [x|x [f1 log1] z Hn Hr IH]; intros; subst.
  - injection Ex as -> ->. exists []. by rewrite app_nil_r.
  - destruct (fabric_next_inv _ _ _ _ _ _ Hi Hl Hn) as (m1 & Hi1 & Hl1).
    destruct (IH eq_refl f1 log1 _ Hi1 Hl1 eq_refl) as (m2 & Hi2 & Hl2).
    exists (m1 ++ m2). by rewrite app_assoc.
Qed.

Lemma fabric_reach_inv id f log : fabric_reach id f log →
  ∃ hist, fabric_inv f log hist ∧ zlen log <= kMaxFabricStoreBytes.
Proof. intros H. apply (fabric_steps_inv id _ _ [] f log (fabric_inv_fresh id)); done. Qed.

(** A mark was left by some record of the history. *)
Lemma owners_attained hist e s : sv_find es_extent e (owners_after hist) = Some s →
  ∃ a, a ∈ hist ∧ e ∈ mr_scope a ∧ s = mark_of a e.
Proof.
  induction hist as [|m l IH] using rev_ind; [done|].
  rewrite owners_after_snoc, record_owner_find by apply owners_after_sorted.
  case_decide as Hm; [intros [= <-]; exists m; set_solver|].
  intros (a & ? & ? & ->)%IH. exists a. set_solver.
Qed.

Lemma high_water_grows hist more f f' log log' e : fabric_inv f log hist →
  fabric_inv f' log' (hist ++ more) → 0 <= fabric_high_water f e →
  fabric_high_water f e <= fabric_high_water f' e.
Proof.
  intros Hi Hi' H0. unfold fabric_high_water, owner_of in *.
  rewrite (fi_owners _ _ _ Hi) in *. rewrite (fi_owners _ _ _ Hi').
  destruct (sv_find es_extent e (owners_after hist)) as [s|] eqn:E.
  - destruct (owners_attained _ _ _ E) as (a & Ha & He & ->).
    destruct (owners_dominate (hist ++ more) a e) as (s' & -> & Hs'); [apply Hi'|set_solver|done|].
    simpl. lia.
  - destruct (sv_find es_extent e (owners_after (hist ++ more))) as [s'|] eqn:E'; [|lia].
    destruct (owners_attained _ _ _ E') as (a & Ha & He & ->). simpl.
    pose proof (fi_wf _ _ _ Hi') as Hw. rewrite Forall_forall in Hw.
    destruct (Hw a Ha) as (_ & _ & _ & _ & _ & Hws). open_wf. unfold is_u64 in *. lia.
Qed.

Lemma high_water_nonneg hist f log e : fabric_inv f log hist → 0 <= fabric_high_water f e.
Proof.
  intros Hi. unfold fabric_high_water, owner_of. rewrite (fi_owners _ _ _ Hi).
  destruct (sv_find _ _ _) as [s|] eqn:E; [|lia].
  destruct (owners_attained _ _ _ E) as (a & Ha & He & ->). simpl.
  pose proof (fi_wf _ _ _ Hi) as Hw. rewrite Forall_forall in Hw.
  destruct (Hw a Ha) as (_ & _ & _ & _ & _ & Hws). open_wf. unfold is_u64 in *. lia.
Qed.

(** Loading sees the whole history. *)
Lemma feed_load {S} (visitor : MutationRecord → S → S * Status) hist : ∀ n x,
  numbered n hist → Forall mutation_wf hist → 0 <= n → n + zlen hist < u64_max →
  (∀ m x, is_ok (visitor m x).2 = true) →
  feed (load_record visitor) (encode_mutation <$> hist) (n + 1, x) =
  ((n + zlen hist + 1, foldl (λ x m, (visitor m x).1) x hist), status_ok).
Proof.
  induction hist as [|m hist IH]; intros n x Hn Hw H0 Hb Hv.
  - change (zlen []) with 0. by rewrite Z.add_0_r.
  - destruct Hn as [Em Hn]. apply Forall_cons in Hw as [Hm Hw]. rewrite zlen_cons in *.
    pose proof (zlen_nonneg hist). unfold u64_max in *.
    csimpl. unfold load_record at 1. rewrite decode_mutation by done. cbn [fst snd].
    rewrite Em, Z.eqb_refl, u64_id by (unfold is_u64; lia). cbn [negb].
    pose proof (Hv m x) as Hx. destruct (visitor m x) as [x' st]. cbn [snd fst] in *. rewrite Hx.
    etrans; [apply IH; (done || lia)|].
    replace (n + 1 + zlen hist) with (n + (1 + zlen hist)) by lia. done.
Qed.


Module Effects.

(** The gate is exact: with a working file a well-formed mutation is admitted
    if and only if every extent's durable mark is below its token, or is that
    very token held by the same incarnation; an admission overwrites the marks
    of exactly its scope, and a refusal changes nothing, on disk or in memory. *)
Theorem admit_exact (f : FabricStore) (log : bytes) (m : Mutation) :
  mutation_args_wf m → fb_open f = true → sv_sorted es_extent (fb_owners f) →
  let '(f', log', r) := fabric_admit AppendDone f log m in
  ((∃ record, r = Ret record) ↔
     mu_token m ≠ 0 ∧ mu_incarnation m ≠ 0 ∧ operation_valid (mu_operation m) = true ∧
     ∀ e s, e ∈ mu_scope m → owner_of f e = Some s →
       es_token s < mu_token m ∨ (es_token s = mu_token m ∧ es_owner s = mu_incarnation m)) ∧
  (∀ record, r = Ret record →
     mr_digest record = compute_record_digest record ∧ mr_sequence record = u64 (fb_last f + 1) ∧
     log' = log ++ frame (encode_mutation record) ∧
     ∀ e, owner_of f' e =
       if decide (e ∈ mu_scope m)
       then Some (mkExtentState e (mu_token m) (mu_epoch m) (mu_incarnation m) (mu_grant m) (mu_now m))
       else owner_of f e) ∧
  (∀ st, r = Err st → f' = f ∧ log' = log).
Proof.
  intros Hm Hopen Hs. destruct (admit_guard f m) as [st|] eqn:Hg.
  - assert (Ha : fabric_admit AppendDone f log m = (f, log, Err st)) by (unfold fabric_admit; by rewrite Hg).
    rewrite Ha. split; [|naive_solver]. split; [naive_solver|].
    intros (? & ? & ? & Hmay). assert (admit_guard f m = None); [|congruence].
    by apply admit_guard_None.
  - rewrite admit_ok by done. pose proof Hg as (_ & ? & ? & ? & Hmay)%admit_guard_None; [|done].
    split; [naive_solver|]. split; [|done]. intros record [= <-].
    split; [by apply compute_record_digest_ext|]. split; [done|]. split; [done|]. intros e.
    unfold owner_of, admitted. cbn [fb_owners]. by rewrite record_owner_find.
Qed.

(** C2: Whatever is admitted, refused, cut at any byte and recovered, the log as
    [load] reads it is a linear succession of owners: of two records that share
    an extent the later has the higher token, or the same token in the same
    incarnation's hands - no token is ever used by two incarnations and no
    lower token ever writes after a higher one. *)
Theorem linear_history (id : StoreId) (f : FabricStore) (log : bytes) :
  fabric_reach id f log →
  ∃ hist, fabric_load (λ m l, (l ++ [m], status_ok)) (Some log) [] = (hist, status_ok) ∧
    (∀ l1 a l2 b l3 e, hist = l1 ++ a :: l2 ++ b :: l3 → e ∈ mr_scope a → e ∈ mr_scope b →
       mr_token a < mr_token b ∨
       (mr_token a = mr_token b ∧ mr_incarnation a = mr_incarnation b)) ∧
    (∀ a e, a ∈ hist → e ∈ mr_scope a → mr_token a <= fabric_high_water f e) ∧
    (∀ i m, hist !! i = Some m → mr_sequence m = Z.of_nat i + 1).
Proof.
  intros (hist & Hi & Hl)%fabric_reach_inv. exists hist. split_and!.
  - pose proof Hi as [-> _ _ _ Hn Hw _]. unfold fabric_load, read_file_bounded.
    destruct (Z.ltb_spec kMaxFabricStoreBytes (zlen (log_of (encode_mutation <$> hist)))); [lia|].
    pose proof (history_length hist _ eq_refl).
    assert (Hb : 0 + zlen hist < u64_max) by (unfold kMaxFabricStoreBytes, u64_max in *; lia).
    pose proof (feed_load (λ m l, (l ++ [m], status_ok)) hist 0 [] Hn Hw (Z.le_refl 0) Hb
      (λ _ _, eq_refl)) as Ef.
    change (scan ?g ?x ?y) with (scan_from g 0 x y).
    rewrite <-(app_nil_r (log_of _)).
    rewrite (scan_frames _ _ _ _ _ _ (mutations_framable hist Hw) Ef), scan_nil. cbn [snd].
    f_equal. clear. enough (G : ∀ k, foldl (λ x m, ((x ++ [m], status_ok) : _ * Status).1) k hist = k ++ hist)
      by by rewrite G. induction hist as [|m l IH]; intros k; simpl; [by rewrite app_nil_r|].
    by rewrite IH, <-app_assoc.
  - intros l1 a l2 b l3 e -> Ha Hb. pose proof (fi_history _ _ _ Hi) as Hh.
    apply StronglySorted_app in Hh as (_ & _ & Hh).
    apply StronglySorted_inv in Hh as [_ Hh]. rewrite Forall_forall in Hh.
    exact (Hh b ltac:(set_solver) e Ha Hb).
  - intros a e Ha He. unfold fabric_high_water, owner_of. rewrite (fi_owners _ _ _ Hi).
    destruct (owners_dominate hist a e (fi_history _ _ _ Hi) Ha He) as (s & -> & ?). lia.
  - pose proof (fi_numbered _ _ _ Hi) as Hn. revert Hn. clear.
    enough (G : ∀ n, numbered n hist → ∀ i m, hist !! i = Some m → mr_sequence m = n + Z.of_nat i + 1)
      by (intros Hn i m E; by rewrite (G 0 Hn i m E)).
    induction hist as [|x l IH]; intros n Hn [|i] m E; simplify_eq/=; destruct Hn as [Hx Hn]; [lia|].
    rewrite (IH _ Hn _ _ E). lia.
Qed.

(** C12: A coordinator that was superseded can never write again: once an extent
    carries a token, no later run of admissions, refusals, crashes and
    recoveries admits a mutation of that extent under a lower one. *)
Theorem late_writer_refused (id : StoreId) (f f' : FabricStore) (log log' : bytes)
    (m : Mutation) (e : ExtentId) (io : AppendIo) :
  fabric_reach id f log → rtc (fabric_next id) (f, log) (f', log') → mutation_args_wf m →
  e ∈ mu_scope m → mu_token m < fabric_high_water f e →
  ∃ st, fabric_admit io f' log' m = (f', log', Err st).
Proof.
  intros (hist & Hi & Hl)%fabric_reach_inv Hr Hm He Ht.
  destruct (fabric_steps_inv _ _ _ _ _ _ Hi Hl Hr) as (more & Hi' & _).
  pose proof (high_water_grows _ _ _ _ _ _ e Hi Hi' (high_water_nonneg _ _ _ e Hi)) as Hg.
  unfold fabric_admit. destruct (admit_guard f' m) as [st|] eqn:Eg; [by eexists|].
  apply admit_guard_None in Eg as (_ & _ & _ & _ & Hmay); [|done].
  unfold fabric_high_water in Hg, Ht. destruct (owner_of f' e) as [s|] eqn:Es.
  - destruct (Hmay e s He Es); lia.
  - destruct Hm as (_ & _ & _ & Hw). open_wf. unfold is_u64 in *. lia.
Qed.

(** A restart forgets nothing the gate needs: opening the log of any run
    yields the same marks, window and sequence, hence the same answer to every
    mutation, even on an open that was handed another file's report. *)
Theorem reopen_preserves_gate (id : StoreId) (f f' : FabricStore) (log : bytes)
    (options : StoreOpenOptions) (report report' : StoreRecoveryReport) (header : option bytes)
    (d' : FabricDisk) :
  fabric_reach id f log → so_allow_torn options = true → fb_open f = true →
  fabric_open open_done id options report (mkFabricDisk header (Some log)) = (d', Ret (f', report')) →
  fd_log d' = Some log ∧ fb_owners f' = fb_owners f ∧ fb_records f' = fb_records f ∧
  fb_last f' = fb_last f ∧ ∀ m, admit_guard f' m = admit_guard f m.
Proof.
  intros (hist & Hi & Hl)%fabric_reach_inv Hopt Hopen Eo. pose proof Hi as [Elog E1 E2 E3 Hn Hw _].
  pose proof (history_length hist log Elog). subst log.
  destruct (recover_log options report hist []) as (a & torn & Er & F1 & F2 & F3); try done;
    [unfold kMaxFabricStoreBytes, u64_max in *; lia|by rewrite app_nil_r|by left|].
  rewrite app_nil_r in Er.
  destruct (open_fabric_ok _ _ _ _ _ _ _ _ _ _ Er Eo) as (El & G1 & G2 & G3 & G4 & _).
  cbn [fst] in *. split_and!; try congruence. intros m. unfold admit_guard.
  rewrite G4, Hopen. repeat (case_match; [done|]).
  assert (Eow : fb_owners f' = fb_owners f) by congruence.
  by apply gate_ext.
Qed.

(** ** A run *)

Definition writer (token : FenceToken) (incarnation : IncarnationId) : Mutation :=
  mkMutationArgs (str "d") token [str "n1"] 1 incarnation 1 (str "set") Digest256_zero 5.
Definition demo_fabric : FabricStore := fresh_fabric (str "store-1").
Definition demo_after : FabricStore := admitted demo_fabric (writer 7 3).
Definition demo_log : bytes := frame (encode_mutation (candidate_record demo_fabric (writer 7 3))).

Lemma writer_wf token incarnation : is_u64 token → is_u64 incarnation →
  mutation_args_wf (writer token incarnation).
Proof.
  intros Ht Hi. assert (Hid : ∀ s, s = "d"%string ∨ s = "n1"%string → id_valid (str s)).
  { intros s [->| ->]; (split; [discriminate|split; [vm_compute; discriminate|vm_compute; reflexivity]]). }
  split; [apply Hid; by left|]. split.
  { split; [discriminate|]. split; [vm_compute; discriminate|].
    split; [repeat constructor|]. apply Forall_singleton, Hid. by right. }
  split; [reflexivity|].
  repeat (apply Forall_cons; split; [first [assumption|unfold is_u64; simpl; lia]|]). constructor.
Qed.

Lemma demo_step : fabric_next (str "store-1") (demo_fabric, []) (demo_after, demo_log).
Proof.
  assert (Hm : mutation_args_wf (writer 7 3)) by (apply writer_wf; unfold is_u64; lia).
  apply (next_admit _ _ _ (writer 7 3) _ _ (Ret (candidate_record demo_fabric (writer 7 3)))).
  - exact Hm.
  - rewrite admit_ok; [reflexivity|exact Hm|reflexivity].
  - unfold demo_log. rewrite zlen_frame.
    pose proof (candidate_framable demo_fabric (writer 7 3) Hm eq_refl) as [_ Hl].
    unfold kMaxJournalRecordBytes, kMaxFabricStoreBytes in *. lia.
Qed.

Lemma demo_reach : fabric_reach (str "store-1") demo_after demo_log.
Proof. apply rtc_once, demo_step. Qed.

Lemma admit_exact_witness : ∃ record,
  (fabric_admit AppendDone demo_fabric [] (writer 7 3)).2 = Ret record ∧
  mr_digest record = compute_record_digest record.
Proof.
  pose proof (admit_exact demo_fabric [] (writer 7 3)) as H.
  destruct (fabric_admit AppendDone demo_fabric [] (writer 7 3)) as [[f log] r].
  destruct H as (H1 & H2 & _).
  - apply writer_wf; unfold is_u64; lia.
  - reflexivity.
  - constructor.
  - destruct H1 as [_ [record Er]].
    + split; [discriminate|]. split; [discriminate|]. split; [reflexivity|]. intros e s _ E.
      discriminate E.
    + exists record. split; [exact Er|]. exact (proj1 (H2 record Er)).
Defined.

Lemma linear_history_witness : ∃ hist,
  fabric_load (λ m l, (l ++ [m], status_ok)) (Some demo_log) [] = (hist, status_ok) ∧
  (∀ a e, a ∈ hist → e ∈ mr_scope a → mr_token a <= fabric_high_water demo_after e).
Proof.
  destruct (linear_history (str "store-1") demo_after demo_log demo_reach) as (hist & E & _ & H & _).
  exists hist. split; [exact E|exact H].
Defined.

Lemma late_writer_refused_witness :
  ∃ st, fabric_admit AppendDone demo_after demo_log (writer 6 9) = (demo_after, demo_log, Err st).
Proof.
  apply (late_writer_refused (str "store-1") demo_after demo_after demo_log demo_log (writer 6 9)
           (str "n1") AppendDone demo_reach).
  - apply rtc_refl.
  - apply writer_wf; unfold is_u64; lia.
  - left.
  - reflexivity.
Defined.

(** Opened where no header was ever written, after a journal whose tail was
    cut. *)
Lemma demo_reopened : ∃ d' f' report', fabric_open open_done (str "store-1")
  (mkOptions true true 0) (mkReport false false true 5 2 2 9) (mkFabricDisk None (Some demo_log)) =
  (d', Ret (f', report')).
Proof.
  destruct (fabric_reach_inv _ _ _ demo_reach) as (hist & Hi & Hl).
  pose proof Hi as [Elog _ _ _ Hn Hw _]. pose proof (history_length hist _ Elog).
  destruct (recover_log (mkOptions true true 0) (mkReport false false true 5 2 2 9) hist [])
    as (a & torn & Er & _); try done;
    [unfold kMaxFabricStoreBytes, u64_max in *; lia|by rewrite app_nil_r, <-Elog|by left|].
  rewrite app_nil_r, <-Elog in Er. unfold fabric_open.
  change (id_empty (str "store-1")) with false. cbn [oi_directory open_done fd_header fd_log].
  change (mkDisk None None None) with no_disk. rewrite fresh_header by done.
  rewrite Er. by eexists _, _, _.
Qed.

Lemma reopen_preserves_gate_witness : ∃ f', fb_owners f' = fb_owners demo_after.
Proof.
  destruct demo_reopened as (d' & f' & report' & E). exists f'.
  exact (proj1 (proj2 (reopen_preserves_gate (str "store-1") demo_after f' demo_log
    (mkOptions true true 0) (mkReport false false true 5 2 2 9) report' None d' demo_reach
    eq_refl eq_refl E))).
Defined.
End Effects.
