(* ===== verification/Registry.v ===== *)
(** * The registry

    Models [RegistryState] of [include/sbf/registry.hpp] and
    [src/registry_state.cpp]: the durable state, [apply], which recovery and
    every live operation share, and the operations that emit records.  An
    operation runs in a monad over the state, the records emitted so far and
    the fabric log; a refusal keeps whatever was applied before it, as the code
    does. *)
From S2P Require Import Prelude Order SortedVec Status Ids Text Digest Canonical Scope.
From S2P Require Import Fence Lineage Evidence Arbiter Codec Journal Fabric.
Open Scope Z_scope.

Inductive RegistryPhase : Set := Uninitialised | Ready | Draining | Stopped.

Record RegistryConfig := mkConfig {
  rc_store_id : StoreId;
  rc_node : NodeId;
  rc_policy : ArbiterPolicy;
  rc_lease_horizon : Step;
  rc_checkpoint_every : Z;
  rc_max_sessions : Z
}.

(** The two maps are vectors sorted by key: [domains_] by domain, [scopes_] by
    the hexadecimal digest. *)
Record RegistryState := mkRegistry {
  rs_config : RegistryConfig;
  rs_store_id : StoreId;
  rs_clock : StepClock;
  rs_last_step : Step;
  rs_boot : BootRecord;
  rs_sequence : Sequence;
  rs_generation : Generation;
  rs_fences : FenceTable;
  rs_lineage : LineageTable;
  rs_fabric : FabricStore;
  rs_domains : list DomainDefinition;
  rs_policy : ArbiterPolicy;
  rs_idempotency : list IdempotencyEntry;
  rs_interrupts : list InterruptMark;
  rs_scopes : list (bytes * Scope);
  rs_tokens : FenceToken;
  rs_grants : GrantId;
  rs_incarnations : BootId;
  rs_commits : Z;
  rs_hits : Z;
  rs_restarts : Z;
  rs_phase : RegistryPhase
}.

(** One field replaced. *)
Definition set_clock (x : StepClock) (s : RegistryState) : RegistryState :=
  mkRegistry (rs_config s) (rs_store_id s) x (rs_last_step s) (rs_boot s) (rs_sequence s) (rs_generation
    s) (rs_fences s) (rs_lineage s) (rs_fabric s) (rs_domains s) (rs_policy s) (rs_idempotency
    s) (rs_interrupts s) (rs_scopes s) (rs_tokens s) (rs_grants s) (rs_incarnations s)
    (rs_commits s) (rs_hits s) (rs_restarts s) (rs_phase s).
Definition set_last_step (x : Step) (s : RegistryState) : RegistryState :=
  mkRegistry (rs_config s) (rs_store_id s) (rs_clock s) x (rs_boot s) (rs_sequence s) (rs_generation s)
    (rs_fences s) (rs_lineage s) (rs_fabric s) (rs_domains s) (rs_policy s) (rs_idempotency s)
    (rs_interrupts s) (rs_scopes s) (rs_tokens s) (rs_grants s) (rs_incarnations s) (rs_commits
    s) (rs_hits s) (rs_restarts s) (rs_phase s).
Definition set_boot (x : BootRecord) (s : RegistryState) : RegistryState :=
  mkRegistry (rs_config s) (rs_store_id s) (rs_clock s) (rs_last_step s) x (rs_sequence s) (rs_generation
    s) (rs_fences s) (rs_lineage s) (rs_fabric s) (rs_domains s) (rs_policy s) (rs_idempotency
    s) (rs_interrupts s) (rs_scopes s) (rs_tokens s) (rs_grants s) (rs_incarnations s)
    (rs_commits s) (rs_hits s) (rs_restarts s) (rs_phase s).
Definition set_sequence (x : Sequence) (s : RegistryState) : RegistryState :=
  mkRegistry (rs_config s) (rs_store_id s) (rs_clock s) (rs_last_step s) (rs_boot s) x (rs_generation s)
    (rs_fences s) (rs_lineage s) (rs_fabric s) (rs_domains s) (rs_policy s) (rs_idempotency s)
    (rs_interrupts s) (rs_scopes s) (rs_tokens s) (rs_grants s) (rs_incarnations s) (rs_commits
    s) (rs_hits s) (rs_restarts s) (rs_phase s).
Definition set_generation (x : Generation) (s : RegistryState) : RegistryState :=
  mkRegistry (rs_config s) (rs_store_id s) (rs_clock s) (rs_last_step s) (rs_boot s) (rs_sequence s) x
    (rs_fences s) (rs_lineage s) (rs_fabric s) (rs_domains s) (rs_policy s) (rs_idempotency s)
    (rs_interrupts s) (rs_scopes s) (rs_tokens s) (rs_grants s) (rs_incarnations s) (rs_commits
    s) (rs_hits s) (rs_restarts s) (rs_phase s).
Definition set_fences (x : FenceTable) (s : RegistryState) : RegistryState :=
  mkRegistry (rs_config s) (rs_store_id s) (rs_clock s) (rs_last_step s) (rs_boot s) (rs_sequence s)
    (rs_generation s) x (rs_lineage s) (rs_fabric s) (rs_domains s) (rs_policy s)
    (rs_idempotency s) (rs_interrupts s) (rs_scopes s) (rs_tokens s) (rs_grants s)
    (rs_incarnations s) (rs_commits s) (rs_hits s) (rs_restarts s) (rs_phase s).
Definition set_lineage (x : LineageTable) (s : RegistryState) : RegistryState :=
  mkRegistry (rs_config s) (rs_store_id s) (rs_clock s) (rs_last_step s) (rs_boot s) (rs_sequence s)
    (rs_generation s) (rs_fences s) x (rs_fabric s) (rs_domains s) (rs_policy s) (rs_idempotency
    s) (rs_interrupts s) (rs_scopes s) (rs_tokens s) (rs_grants s) (rs_incarnations s)
    (rs_commits s) (rs_hits s) (rs_restarts s) (rs_phase s).
Definition set_fabric (x : FabricStore) (s : RegistryState) : RegistryState :=
  mkRegistry (rs_config s) (rs_store_id s) (rs_clock s) (rs_last_step s) (rs_boot s) (rs_sequence s)
    (rs_generation s) (rs_fences s) (rs_lineage s) x (rs_domains s) (rs_policy s)
    (rs_idempotency s) (rs_interrupts s) (rs_scopes s) (rs_tokens s) (rs_grants s)
    (rs_incarnations s) (rs_commits s) (rs_hits s) (rs_restarts s) (rs_phase s).
Definition set_domains (x : list DomainDefinition) (s : RegistryState) : RegistryState :=
  mkRegistry (rs_config s) (rs_store_id s) (rs_clock s) (rs_last_step s) (rs_boot s) (rs_sequence s)
    (rs_generation s) (rs_fences s) (rs_lineage s) (rs_fabric s) x (rs_policy s) (rs_idempotency
    s) (rs_interrupts s) (rs_scopes s) (rs_tokens s) (rs_grants s) (rs_incarnations s)
    (rs_commits s) (rs_hits s) (rs_restarts s) (rs_phase s).
Definition set_policy (x : ArbiterPolicy) (s : RegistryState) : RegistryState :=
  mkRegistry (rs_config s) (rs_store_id s) (rs_clock s) (rs_last_step s) (rs_boot s) (rs_sequence s)
    (rs_generation s) (rs_fences s) (rs_lineage s) (rs_fabric s) (rs_domains s) x
    (rs_idempotency s) (rs_interrupts s) (rs_scopes s) (rs_tokens s) (rs_grants s)
    (rs_incarnations s) (rs_commits s) (rs_hits s) (rs_restarts s) (rs_phase s).
Definition set_interrupts (x : list InterruptMark) (s : RegistryState) : RegistryState :=
  mkRegistry (rs_config s) (rs_store_id s) (rs_clock s) (rs_last_step s) (rs_boot s) (rs_sequence s)
    (rs_generation s) (rs_fences s) (rs_lineage s) (rs_fabric s) (rs_domains s) (rs_policy s)
    (rs_idempotency s) x (rs_scopes s) (rs_tokens s) (rs_grants s) (rs_incarnations s)
    (rs_commits s) (rs_hits s) (rs_restarts s) (rs_phase s).
Definition set_scopes (x : list (bytes * Scope)) (s : RegistryState) : RegistryState :=
  mkRegistry (rs_config s) (rs_store_id s) (rs_clock s) (rs_last_step s) (rs_boot s) (rs_sequence s)
    (rs_generation s) (rs_fences s) (rs_lineage s) (rs_fabric s) (rs_domains s) (rs_policy s)
    (rs_idempotency s) (rs_interrupts s) x (rs_tokens s) (rs_grants s) (rs_incarnations s)
    (rs_commits s) (rs_hits s) (rs_restarts s) (rs_phase s).
Definition set_tokens (x : FenceToken) (s : RegistryState) : RegistryState :=
  mkRegistry (rs_config s) (rs_store_id s) (rs_clock s) (rs_last_step s) (rs_boot s) (rs_sequence s)
    (rs_generation s) (rs_fences s) (rs_lineage s) (rs_fabric s) (rs_domains s) (rs_policy s)
    (rs_idempotency s) (rs_interrupts s) (rs_scopes s) x (rs_grants s) (rs_incarnations s)
    (rs_commits s) (rs_hits s) (rs_restarts s) (rs_phase s).
Definition set_grants (x : GrantId) (s : RegistryState) : RegistryState :=
  mkRegistry (rs_config s) (rs_store_id s) (rs_clock s) (rs_last_step s) (rs_boot s) (rs_sequence s)
    (rs_generation s) (rs_fences s) (rs_lineage s) (rs_fabric s) (rs_domains s) (rs_policy s)
    (rs_idempotency s) (rs_interrupts s) (rs_scopes s) (rs_tokens s) x (rs_incarnations s)
    (rs_commits s) (rs_hits s) (rs_restarts s) (rs_phase s).
Definition set_incarnations (x : BootId) (s : RegistryState) : RegistryState :=
  mkRegistry (rs_config s) (rs_store_id s) (rs_clock s) (rs_last_step s) (rs_boot s) (rs_sequence s)
    (rs_generation s) (rs_fences s) (rs_lineage s) (rs_fabric s) (rs_domains s) (rs_policy s)
    (rs_idempotency s) (rs_interrupts s) (rs_scopes s) (rs_tokens s) (rs_grants s) x (rs_commits
    s) (rs_hits s) (rs_restarts s) (rs_phase s).
Definition set_commits (x : Z) (s : RegistryState) : RegistryState :=
  mkRegistry (rs_config s) (rs_store_id s) (rs_clock s) (rs_last_step s) (rs_boot s) (rs_sequence s)
    (rs_generation s) (rs_fences s) (rs_lineage s) (rs_fabric s) (rs_domains s) (rs_policy s)
    (rs_idempotency s) (rs_interrupts s) (rs_scopes s) (rs_tokens s) (rs_grants s)
    (rs_incarnations s) x (rs_hits s) (rs_restarts s) (rs_phase s).
Definition set_hits (x : Z) (s : RegistryState) : RegistryState :=
  mkRegistry (rs_config s) (rs_store_id s) (rs_clock s) (rs_last_step s) (rs_boot s) (rs_sequence s)
    (rs_generation s) (rs_fences s) (rs_lineage s) (rs_fabric s) (rs_domains s) (rs_policy s)
    (rs_idempotency s) (rs_interrupts s) (rs_scopes s) (rs_tokens s) (rs_grants s)
    (rs_incarnations s) (rs_commits s) x (rs_restarts s) (rs_phase s).
Definition set_restarts (x : Z) (s : RegistryState) : RegistryState :=
  mkRegistry (rs_config s) (rs_store_id s) (rs_clock s) (rs_last_step s) (rs_boot s) (rs_sequence s)
    (rs_generation s) (rs_fences s) (rs_lineage s) (rs_fabric s) (rs_domains s) (rs_policy s)
    (rs_idempotency s) (rs_interrupts s) (rs_scopes s) (rs_tokens s) (rs_grants s)
    (rs_incarnations s) (rs_commits s) (rs_hits s) x (rs_phase s).

Definition no_boot : BootRecord := mkBoot 0 0 [] 0 0 false false 0.

(** [Lineage]'s counters and the registry's are ordered [std::uint64_t]s. *)
Definition raise (floor : Z) (v : Z) : Z := if floor <? v then v else floor.

(** ** [initialise] *)

Definition initialise (s : RegistryState) (config : RegistryConfig) (clock : StepClock)
    (boot : BootRecord) : RegistryState * Status :=
  if id_empty (rc_store_id config) || id_empty (rc_node config)
  then (s, fail0 Outcome.Invalid Reason.EmptyValue)
  else
    let st := policy_validate (rc_policy config) in
    if negb (is_ok st) then (s, st)
    else if is_none (rc_lease_horizon config) ||
            (kMaxLeaseHorizonSteps <? rc_lease_horizon config)
    then (s, mkStatus Outcome.Invalid Reason.ValueOutOfRange (rc_lease_horizon config))
    else
      (mkRegistry config (rc_store_id config) clock (clock_now clock) boot 0 (rs_generation s)
         (rs_fences s) (rs_lineage s) (rs_fabric s) (rs_domains s) (rc_policy config)
         (rs_idempotency s) (rs_interrupts s) (rs_scopes s) (rs_tokens s) (rs_grants s)
         (rs_incarnations s) (rs_commits s) (rs_hits s) (rs_restarts s) Ready,
       status_ok).

(** ** [apply] *)

Definition find_domain (s : RegistryState) (d : DomainId) : option DomainDefinition :=
  sv_find dd_domain d (rs_domains s).

Definition same_definition (a b : DomainDefinition) : bool :=
  bool_decide (dd_scope a = dd_scope b) && eqb (dd_node a) (dd_node b) &&
  eqb (dd_policy a) (dd_policy b) && Bool.eqb (dd_exclusive a) (dd_exclusive b).

(** [scopes_.emplace(key, scope)] after evicting the smallest key of a full
    table; a key already present keeps its scope. *)
Definition remember_scope (scope : Scope) (s : RegistryState) : RegistryState :=
  if scope_empty scope then s
  else
    let key := Digest256_hex (scope_digest scope) in
    let kept :=
      if kMaxIndexedExtents <=? zlen (rs_scopes s)
      then match rs_scopes s with
           | (k, _) :: rest => if negb (eqb k key) then rest else rs_scopes s
           | [] => rs_scopes s
           end
      else rs_scopes s in
    match sv_find fst key kept with
    | Some _ => set_scopes kept s
    | None => set_scopes (sv_set fst (key, scope) kept) s
    end.

Definition has_scope (s : RegistryState) (digest : Digest256) : bool :=
  match sv_find fst (Digest256_hex digest) (rs_scopes s) with Some _ => true | None => false end.

(** [if (st.outcome == Outcome::AlreadyExists) return Status::ok();]. *)
Definition forgive (st : Status) : Status :=
  if bool_decide (outcome st = Outcome.AlreadyExists) then status_ok else st.

(** The step and clock every record moves. *)
Definition observe (r : JournalRecord) (s : RegistryState) : RegistryState :=
  let s := set_sequence (jr_sequence r) s in
  let s := if rs_last_step s <? jr_step r then set_last_step (jr_step r) s else s in
  set_clock (clock_observe_persisted (rs_clock s) (jr_step r)).1 s.

Definition apply_boot_begin (b : BootRecord) (s : RegistryState) : RegistryState * Status :=
  let s := set_boot b s in
  let s := set_incarnations (raise (rs_incarnations s) (br_incarnation b)) s in
  let (l, st) := begin_boot (rs_lineage s) b in
  (set_lineage l s, forgive st).

Definition apply_boot_end (b : BootRecord) (s : RegistryState) : RegistryState * Status :=
  let (l, st) := end_boot (rs_lineage s) (br_boot b) (br_ended b) (br_clean b) in
  (set_lineage l s, forgive st).

Definition apply_domain (d : DomainDefinition) (s : RegistryState) : RegistryState * Status :=
  match find_domain s (dd_domain d) with
  | Some old =>
      if same_definition old d then (s, status_ok)
      else (s, fail0 Outcome.Corrupt Reason.DuplicateEntry)
  | None =>
      if kMaxDomains <=? zlen (rs_domains s)
      then (s, mkStatus Outcome.Exhausted Reason.BoundedTableFull (zlen (rs_domains s)))
      else (remember_scope (dd_scope d) (set_domains (sv_set dd_domain d (rs_domains s)) s),
            status_ok)
  end.

Definition apply_grant_open (g : EpochGrant) (s : RegistryState) : RegistryState * Status :=
  let s := set_grants (raise (rs_grants s) (eg_id g)) s in
  let s := set_tokens (raise (rs_tokens s) (eg_token g)) s in
  let (l, st) := open_grant (rs_lineage s) g in
  (set_lineage l s, st).

Definition apply_grant_close (g : EpochGrant) (s : RegistryState) : RegistryState * Status :=
  let (l, st) :=
    lineage_close_grant (rs_lineage s) (eg_id g) (eg_state g) (eg_close_reason g) (eg_closed g) in
  (set_lineage l s, forgive st).

Definition apply_fence (f : FenceRecord) (scope : Scope) (s : RegistryState)
  : RegistryState * Status :=
  let s := set_tokens (raise (rs_tokens s) (fr_token f)) s in
  let s := remember_scope scope s in
  let (t, st) := fence_apply (rs_fences s) f scope in
  (set_fences t s, forgive st).

Definition apply_adopt (f : FenceRecord) (scope : Scope) (s : RegistryState)
  : RegistryState * Status :=
  let s := set_tokens (raise (rs_tokens s) (fr_token f)) s in
  let s := remember_scope scope s in
  let (t, st) := fence_adopt (rs_fences s) scope (fr_token f) (fr_epoch f) (fr_incarnation f)
                   (fr_superseded f) (fr_issued_at f) in
  (set_fences t s, st).

Definition apply_incarnation (value : Z) (s : RegistryState) : RegistryState * Status :=
  if value <=? rs_incarnations s
  then (s, mkStatus Outcome.Corrupt Reason.SequenceRegression value)
  else (set_incarnations value s, status_ok).

Definition apply_interrupt (m : InterruptMark) (s : RegistryState) : RegistryState * Status :=
  let kept := if kMaxInterruptedMarks <=? zlen (rs_interrupts s)
              then drop 1 (rs_interrupts s) else rs_interrupts s in
  (set_interrupts (kept ++ [m]) s, status_ok).

(** Decode a payload completely, then hand it on. *)
Definition with_payload {A} (d : reader → result (A * reader)) (payload : bytes)
    (k : A → RegistryState → RegistryState * Status) (s : RegistryState)
  : RegistryState * Status :=
  match decode_all d payload with
  | Err st => (s, st)
  | Ret x => k x s
  end.

Definition apply_kind (r : JournalRecord) : RegistryState → RegistryState * Status :=
  let payload := jr_payload r in
  match jr_kind r with
  | KStoreHeader | KStoreIdAssign | KStepAdvance => λ s, (s, status_ok)
  | KBootBegin => with_payload r_boot_record payload apply_boot_begin
  | KBootEnd => with_payload r_boot_record payload apply_boot_end
  | KPolicyDefine => with_payload r_policy payload (λ p s, (set_policy p s, status_ok))
  | KDomainDefine => with_payload r_domain payload apply_domain
  | KGrantOpen => with_payload r_grant payload apply_grant_open
  | KGrantClose => with_payload r_grant payload apply_grant_close
  | KFence => with_payload r_fence_payload payload (λ p, apply_fence p.1 p.2)
  | KExtentAdopt => with_payload r_fence_payload payload (λ p, apply_adopt p.1 p.2)
  | KCommitRecord => λ s, (set_commits (u64 (rs_commits s + 1)) s, status_ok)
  | KIncarnationAllocate => with_payload r_u64 payload apply_incarnation
  | KInterruptMark => with_payload r_interrupt payload apply_interrupt
  end.

Definition apply (r : JournalRecord) (s : RegistryState) : RegistryState * Status :=
  if negb (is_set (jr_sequence r)) then (s, fail0 Outcome.Corrupt Reason.ValueOutOfRange)
  else if u64 (rs_sequence s + 1) <? jr_sequence r
  then (s, mkStatus Outcome.Corrupt Reason.SequenceRegression (jr_sequence r))
  else apply_kind r (observe r s).

(** ** [rebuild] *)

Definition raise_all {A} (f : A → Z) (l : list A) (v : Z) : Z :=
  foldl (λ v x, raise v (f x)) v l.

Definition rebuild (s : RegistryState) : RegistryState * Status :=
  let st := fence_validate (rs_fences s) in
  if negb (is_ok st) then (s, st)
  else
    let st := lineage_validate (rs_lineage s) in
    if negb (is_ok st) then (s, st)
    else
      let fabric := rs_fabric s in
      let grants := lt_grants (rs_lineage s) in
      let tokens :=
        raise_all mr_token (fb_records fabric)
          (raise_all es_token (ft_extents (fb_fences fabric))
             (raise_all fr_token (ft_records (rs_fences s))
                (raise_all eg_token grants
                   (raise_all es_token (ft_extents (rs_fences s)) (rs_tokens s))))) in
      let grant_ids :=
        raise_all mr_grant (fb_records fabric) (raise_all eg_id grants (rs_grants s)) in
      let incarnations :=
        raise_all im_incarnation (rs_interrupts s)
          (raise_all br_incarnation (lt_boots (rs_lineage s)) (rs_incarnations s)) in
      (set_incarnations incarnations (set_grants grant_ids (set_tokens tokens s)),
       policy_validate (rs_policy s)).

(** ** Operations *)

(** What an operation works on: the state, the records emitted, the fabric log. *)
Record World := mkWorld {
  w_state : RegistryState;
  w_out : list JournalRecord;
  w_log : bytes
}.

(** A refusal keeps the world it was reached in. *)
Definition M (A : Type) : Type := World → World * result A.

#[export] Instance m_ret : MRet M := λ A x w, (w, Ret x).
#[export] Instance m_bind : MBind M := λ A B k m w,
  match m w with
  | (w, Ret x) => k x w
  | (w, Err st) => (w, Err st)
  end.

Definition refuse {A} (st : Status) : M A := λ w, (w, Err st).
Definition state : M RegistryState := λ w, (w, Ret (w_state w)).
Definition modify (f : RegistryState → RegistryState) : M unit :=
  λ w, (mkWorld (f (w_state w)) (w_out w) (w_log w), Ret tt).

(** Return [st] early when the condition holds. *)
Definition refuse_if (c : bool) (st : Status) : M unit :=
  if c then refuse st else mret tt.

(** [emit]: the record is applied before it is handed out; a record the state
    refuses is not handed out. *)
Definition emit (kind : RecordKind) (payload : bytes) (status : Status) (now : Step) : M unit :=
  λ w,
    let s := w_state w in
    let r := mkRecord kind (u64 (rs_sequence s + 1)) now status payload in
    let (s, st) := apply r s in
    if negb (is_ok st) then (mkWorld s (w_out w) (w_log w), Err st)
    else (mkWorld (set_generation (bump (rs_generation s)) s) (w_out w ++ [r]) (w_log w), Ret tt).

(** The highest mark of a scope. *)
Definition previous_mark (t : FenceTable) (scope : Scope) : FenceToken :=
  foldl (λ previous e, raise previous (high_water t e)) 0 scope.

Definition fence_scope (domain : DomainId) (scope : Scope) (epoch : Epoch)
    (incarnation : IncarnationId) (superseded : GrantId) (cause : Reason)
    (fence_incarnation : bool) (now : Step) : M FenceToken :=
  s ← state;
  _ ← refuse_if (rs_tokens s =? u64_max) (fail0 Outcome.Exhausted Reason.CounterOverflow);
  let token := u64 (rs_tokens s + 1) in
  let record :=
    mkFenceRecord token domain (scope_digest scope) epoch
      (if fence_incarnation then incarnation else 0) cause now superseded
      (u64 (rs_sequence s + 1)) (previous_mark (rs_fences s) scope) in
  _ ← emit KFence (encode_fence_payload record scope) (mkStatus Outcome.Fenced cause token) now;
  mret token.

Definition close_grant (g : EpochGrant) (st : GrantState) (why : Reason) (now : Step) : M unit :=
  s ← state;
  emit KGrantClose
    (encode_grant
       (mkGrant (eg_id g) (eg_domain g) (eg_scope g) (eg_extents g) (eg_attempt g) (eg_epoch g)
          (eg_incarnation g) (eg_boot g) (eg_token g) (eg_opened g) now st
          (u64 (rs_sequence s + 1)) (eg_lineage_gen g) (eg_policy_gen g) (eg_evidence_gen g) why))
    (fail0 Outcome.Fenced why) now.

(** [for (x : l) f(x);], stopping at the first refusal. *)
Fixpoint for_each {A} (l : list A) (f : A → M unit) : M unit :=
  match l with
  | [] => mret tt
  | x :: l => _ ← f x; for_each l f
  end.

(** The boot that is still open, ended by the restart. *)
Definition end_open_boot (now : Step) (b : BootRecord) : M unit :=
  if is_set (br_ended b) then mret tt
  else
    emit KBootEnd
      (encode_boot_record
         (mkBoot (br_boot b) (br_incarnation b) (br_node b) (br_started b) now false true
            (br_sequence b)))
      (fail0 Outcome.Interrupted Reason.InterruptedByRestart) now.

Definition interrupt_grant (now : Step) (g : EpochGrant) : M unit :=
  _ ← fence_scope (eg_domain g) (eg_extents g) (eg_epoch g) (eg_incarnation g) (eg_id g)
        Reason.InterruptedByRestart true now;
  _ ← emit KInterruptMark
        (encode_interrupt
           (mkInterrupt (eg_id g) (eg_domain g) (eg_epoch g) (eg_incarnation g) (eg_boot g) now
              Reason.InterruptedByRestart))
        (fail0 Outcome.Interrupted Reason.InterruptedByRestart) now;
  _ ← close_grant g GrantInterrupted Reason.InterruptedByRestart now;
  modify (λ s, set_restarts (u64 (rs_restarts s + 1)) s).

Definition recover_after_restart (now : Step) : M unit :=
  s ← state;
  _ ← for_each (lt_boots (rs_lineage s)) (end_open_boot now);
  s ← state;
  _ ← for_each (open_grants (rs_lineage s)) (interrupt_grant now);
  s ← state;
  _ ← refuse_if (rs_incarnations s =? u64_max) (fail0 Outcome.Exhausted Reason.CounterOverflow);
  let next := u64 (rs_incarnations s + 1) in
  _ ← modify (set_incarnations next);
  emit KBootBegin
    (encode_boot_record
       (mkBoot next next (rc_node (rs_config s)) now 0 false false (u64 (rs_sequence s + 1))))
    status_ok now.

Definition allocate_incarnation (now : Step) : M IncarnationId :=
  s ← state;
  _ ← refuse_if (rs_incarnations s =? u64_max) (fail0 Outcome.Exhausted Reason.CounterOverflow);
  let next := u64 (rs_incarnations s + 1) in
  _ ← emit KIncarnationAllocate (w_u64 next) status_ok now;
  mret next.

Definition define_domain (d : DomainDefinition) (now : Step) : M unit :=
  _ ← refuse_if (id_empty (dd_domain d) || id_empty (dd_node d))
        (fail0 Outcome.Invalid Reason.EmptyValue);
  _ ← refuse_if (scope_empty (dd_scope d)) (fail0 Outcome.Invalid Reason.EmptyExtentSet);
  s ← state;
  match find_domain s (dd_domain d) with
  | Some old =>
      if same_definition old d then mret tt
      else refuse (fail0 Outcome.AlreadyExists Reason.DuplicateEntry)
  | None =>
      _ ← refuse_if (kMaxDomains <=? zlen (rs_domains s))
            (mkStatus Outcome.Exhausted Reason.BoundedTableFull (zlen (rs_domains s)));
      emit KDomainDefine (encode_domain d) status_ok now
  end.

Definition define_policy (p : ArbiterPolicy) (now : Step) : M unit :=
  let st := policy_validate p in
  _ ← refuse_if (negb (is_ok st)) st;
  s ← state;
  emit KPolicyDefine
    (encode_policy
       (mkPolicy (ap_policy p) (u64 (ap_generation (rs_policy s) + 1)) (ap_quorum p)
          (ap_require_quorum p) (ap_require_lease p) (ap_allow_non_overlapping p)
          (ap_fence_lower p) (ap_equal_fatal p) (ap_lease_horizon p)))
    status_ok now.

(** The registration checks the scoped operations share: the domain exists and
    the scope is exactly its own. *)
Definition check_registered (domain : DomainId) (scope : Scope) : M unit :=
  s ← state;
  match find_domain s domain with
  | None => refuse (fail0 Outcome.NotFound Reason.DomainNotRegistered)
  | Some d =>
      refuse_if (negb (bool_decide (dd_scope d = scope)))
        (fail0 Outcome.Invalid Reason.ScopeNotRegistered)
  end.

(** ** [allocate_epoch] *)

Record AllocateRequest := mkAllocate {
  al_domain : DomainId;
  al_scope : Scope;
  al_incarnation : IncarnationId;
  al_boot : BootId;
  al_attempt : Sequence
}.

Record AllocateResponse := mkAllocated {
  ar_epoch : Epoch;
  ar_token : FenceToken;
  ar_grant : GrantId;
  ar_valid_until : Step;
  ar_lineage_gen : Generation;
  ar_policy_gen : Generation;
  ar_fence_gen : Generation;
  ar_policy : PolicyId;
  ar_step : Step
}.

Definition allocated (s : RegistryState) (epoch : Epoch) (token : FenceToken) (grant : GrantId)
    (now : Step) : AllocateResponse :=
  mkAllocated epoch token grant (u64 (now + rc_lease_horizon (rs_config s)))
    (lt_generation (rs_lineage s)) (ap_generation (rs_policy s)) (ft_generation (rs_fences s))
    (ap_policy (rs_policy s)) now.

(** A still-open grant of the same incarnation, attempt and domain. *)
Definition is_retry (q : AllocateRequest) (g : EpochGrant) : bool :=
  (eg_incarnation g =? al_incarnation q) && (eg_attempt g =? al_attempt q) &&
  eqb (eg_domain g) (al_domain q) && is_open g.

(** Fence and close one open grant in the way of the request. *)
Definition supersede (q : AllocateRequest) (now : Step) (g : EpochGrant) : M unit :=
  if negb (overlaps (eg_extents g) (al_scope q)) then mret tt
  else
    _ ← fence_scope (eg_domain g) (eg_extents g) (eg_epoch g) (eg_incarnation g) (eg_id g)
          Reason.CompensatingFenceRequired (negb (eg_incarnation g =? al_incarnation q)) now;
    close_grant g GrantFenced Reason.CompensatingFenceRequired now.

(** From the fresh epoch on: adopt the scope, open the grant. *)
Definition open_new (q : AllocateRequest) (now : Step) : M AllocateResponse :=
  s ← state;
  let next_epoch := u64 (max_epoch (rs_lineage s) (al_domain q) + 1) in
  _ ← refuse_if (is_none next_epoch) (fail0 Outcome.Exhausted Reason.CounterOverflow);
  _ ← refuse_if ((rs_tokens s =? u64_max) || (rs_grants s =? u64_max))
        (fail0 Outcome.Exhausted Reason.CounterOverflow);
  let token := u64 (rs_tokens s + 1) in
  let grant_id := u64 (rs_grants s + 1) in
  let grant :=
    mkGrant grant_id (al_domain q) (scope_digest (al_scope q)) (al_scope q) (al_attempt q)
      next_epoch (al_incarnation q) (al_boot q) token now 0 GrantOpen
      (u64 (rs_sequence s + 1)) (u64 (lt_generation (rs_lineage s) + 1))
      (ap_generation (rs_policy s)) 0 Reason.None in
  let adopt :=
    mkFenceRecord token (al_domain q) (scope_digest (al_scope q)) next_epoch (al_incarnation q)
      Reason.None now grant_id (u64 (rs_sequence s + 1)) 0 in
  _ ← emit KExtentAdopt (encode_fence_payload adopt (al_scope q)) status_ok now;
  _ ← emit KGrantOpen (encode_grant grant) status_ok now;
  s ← state;
  mret (allocated s next_epoch token grant_id now).

Definition allocate_epoch (q : AllocateRequest) (now : Step) : M AllocateResponse :=
  _ ← refuse_if (id_empty (al_domain q)) (fail0 Outcome.Invalid Reason.DomainNotRegistered);
  _ ← refuse_if (scope_empty (al_scope q)) (fail0 Outcome.Invalid Reason.EmptyExtentSet);
  _ ← refuse_if (is_none (al_incarnation q) || is_none (al_boot q))
        (fail0 Outcome.Invalid Reason.ValueOutOfRange);
  _ ← check_registered (al_domain q) (al_scope q);
  s ← state;
  _ ← refuse_if (incarnation_fenced (rs_fences s) (al_incarnation q))
        (mkStatus Outcome.Fenced Reason.IncarnationFenced (al_incarnation q));
  _ ← refuse_if ((rs_incarnations s <? al_incarnation q) ||
                 (al_incarnation q <=? br_incarnation (rs_boot s)))
        (mkStatus Outcome.Fenced Reason.IncarnationNotCurrent (rs_incarnations s));
  match List.find (is_retry q) (lt_grants (rs_lineage s)) with
  | Some g =>
      _ ← modify (λ s, set_hits (u64 (rs_hits s + 1)) s);
      mret (allocated s (eg_epoch g) (eg_token g) (eg_id g) now)
  | None =>
      _ ← for_each (open_grants (rs_lineage s)) (supersede q now);
      open_new q now
  end.

(** ** [decide] *)

Definition claim_id_for_grant (g : EpochGrant) : bytes :=
  let hex := hex_u64 (eg_id g) in
  let out := str "claim-" ++ eg_domain g ++ str "-" ++
             (if 2 <? zlen hex then drop 2 hex else hex) in
  if kMaxIdLength <? zlen out then take (Z.to_nat kMaxIdLength) out else out.

Record DecideRequest := mkDecide {
  dq_domain : DomainId;
  dq_scope : Scope;
  dq_epoch : Epoch;
  dq_incarnation : IncarnationId;
  dq_boot : BootId;
  dq_token : FenceToken;
  dq_mode : AuthorityMode;
  dq_attempt : Sequence;
  dq_evidence : EvidenceBundle;
  dq_requested_at : WallClockReading
}.

(** The default-constructed decision of a response. *)
Definition decision0 : AuthorityDecision :=
  mkDecision VUnknown status_ok no_explanation (mkVector [] Digest256_zero 0 0 0 0 1 0 0 0)
    [] [] 0 0 [] [] 1 true.

(** A refusal that names its subject but no verdict of the arbiter. *)
Definition refused_decision (v : AuthorityVerdict) (st : Status) (claim : ClaimId) (scope : Scope)
    (vector : AuthorityVector) : AuthorityDecision :=
  mkDecision v st (expl_add no_explanation (reason st)) vector claim scope 0 0 [] [] 1 true.

Definition matches (q : DecideRequest) (g : EpochGrant) : bool :=
  eqb (eg_domain g) (dq_domain q) && (eg_epoch g =? dq_epoch q) &&
  (eg_incarnation g =? dq_incarnation q) && is_open g &&
  bool_decide (eg_extents g = dq_scope q).

(** Why no open grant matches. *)
Definition no_grant_status (s : RegistryState) (q : DecideRequest) : Status :=
  let highest := max_epoch (rs_lineage s) (dq_domain q) in
  if dq_epoch q <? highest then mkStatus Outcome.Stale Reason.StaleEpoch highest
  else if incarnation_fenced (rs_fences s) (dq_incarnation q)
  then mkStatus Outcome.Fenced Reason.IncarnationFenced (dq_incarnation q)
  else fail0 Outcome.Fenced Reason.ExtentFenced.

Definition competing_grant (g : EpochGrant) : CompetingClaim :=
  mkCompeting (id_make (claim_id_for_grant g)) (eg_domain g) (eg_extents g) (eg_epoch g)
    (eg_incarnation g) (eg_token g) (eg_id g) ExclusiveMutation Current true.

Definition decide_view (s : RegistryState) (g : EpochGrant) (now : Step) : ArbiterView :=
  mkView (Some (rs_policy s)) (Some (rs_fences s)) (Some (rs_lineage s)) now (rs_generation s)
    (u64 (zlen (rs_domains s)))
    (competing_grant <$>
       List.filter (λ o, negb (eg_id o =? eg_id g)) (open_grants (rs_lineage s))) [].

Definition decide_request (q : DecideRequest) (g : EpochGrant) (now : Step) : AuthorityRequest :=
  let e := dq_evidence q in
  mkRequest (id_make (claim_id_for_grant g)) (dq_domain q) (dq_scope q) (dq_epoch q)
    (dq_incarnation q) (dq_boot q) (dq_token q) (dq_mode q) (dq_attempt q)
    (mkBundle (eb_policy e) (eb_policy_gen e) now (eb_fence_gen e) (eb_attestations e)
       (eb_has_lease e) (eb_lease e)) (dq_requested_at q).

(** [decision.valid_until = now + lease_horizon]. *)
Definition extend_lease (until : Step) (d : AuthorityDecision) : AuthorityDecision :=
  mkDecision (ad_verdict d) (ad_status d) (ad_explanation d) (ad_vector d) (ad_claim d)
    (ad_scope d) (ad_valid_from d) until (ad_must_fence d) (ad_fenced_extents d) (ad_sequence d)
    (ad_revocable d).

(** [RegistryState::decide] changes nothing: the response's status and decision. *)
Definition decide_granted (s : RegistryState) (q : DecideRequest) (g : EpochGrant) (now : Step)
  : Status * AuthorityDecision :=
  if negb (eg_token g =? dq_token q)
  then
    let st := mkStatus Outcome.Fenced Reason.FenceTokenRegressed (eg_token g) in
    (st, refused_decision VFenced st (id_make (claim_id_for_grant g)) (eg_extents g)
           (mkVector (eg_domain g) (eg_scope g) (eg_epoch g) (eg_incarnation g) (eg_token g)
              (eg_id g) 1 0 0 0))
  else
    let d := decide_authority (decide_request q g now) (decide_view s g now) in
    (ad_status d,
     if is_authoritative d
     then extend_lease (u64 (now + rc_lease_horizon (rs_config s))) d else d).

Definition registry_decide (s : RegistryState) (q : DecideRequest) (now : Step)
  : Status * AuthorityDecision :=
  if id_empty (dq_domain q) || scope_empty (dq_scope q)
  then (fail0 Outcome.Invalid Reason.EmptyValue, decision0)
  else
    match find_domain s (dq_domain q) with
    | None => (fail0 Outcome.NotFound Reason.DomainNotRegistered, decision0)
    | Some d =>
        if negb (bool_decide (dd_scope d = dq_scope q))
        then (fail0 Outcome.Invalid Reason.ScopeNotRegistered, decision0)
        else
          match List.find (matches q) (lt_grants (rs_lineage s)) with
          | Some g => decide_granted s q g now
          | None =>
              let st := no_grant_status s q in
              (st, refused_decision
                     (if bool_decide (outcome st = Outcome.Stale) then VStale else VFenced)
                     st [] (dq_scope q)
                     (mkVector (dq_domain q) (scope_digest (dq_scope q)) (dq_epoch q)
                        (dq_incarnation q) (dq_token q) 0 1 0 0 0))
          end
    end.

(** ** [commit], [fence], [release] *)

Record CommitRequest := mkCommit {
  cq_domain : DomainId;
  cq_scope : Scope;
  cq_epoch : Epoch;
  cq_incarnation : IncarnationId;
  cq_grant : GrantId;
  cq_token : FenceToken;
  cq_operation : bytes;
  cq_payload : Digest256
}.

Record CommitResponse := mkCommitted {
  cr_sequence : Sequence;
  cr_token : FenceToken;
  cr_effect : Digest256;
  cr_verified : bool
}.

(** The grant the request names, open and bound to exactly its subject. *)
Definition check_grant (q : CommitRequest) : M unit :=
  s ← state;
  match find_grant (rs_lineage s) (cq_grant q) with
  | None => refuse (mkStatus Outcome.Fenced Reason.ExtentFenced (cq_grant q))
  | Some g =>
      _ ← refuse_if (negb (is_open g)) (mkStatus Outcome.Fenced Reason.ExtentFenced (cq_grant q));
      _ ← refuse_if (negb (eqb (eg_domain g) (cq_domain q)) ||
                     negb (bool_decide (eg_extents g = cq_scope q)) ||
                     negb (eg_epoch g =? cq_epoch q) ||
                     negb (eg_incarnation g =? cq_incarnation q))
            (fail0 Outcome.Invalid Reason.StoreOwnerMismatch);
      refuse_if (negb (eg_token g =? cq_token q))
        (mkStatus Outcome.Fenced Reason.FenceTokenRegressed (eg_token g))
  end.

(** [fabric_.fabric_admit(...)] on the state's own boundary. *)
Definition admit_effect (io : AppendIo) (m : Mutation) : M MutationRecord :=
  λ w,
    let '(f, log, r) := fabric_admit io (rs_fabric (w_state w)) (w_log w) m in
    (mkWorld (set_fabric f (w_state w)) (w_out w) log, r).

Definition commit (io : AppendIo) (q : CommitRequest) (now : Step) : M CommitResponse :=
  _ ← refuse_if (id_empty (cq_domain q) || scope_empty (cq_scope q))
        (fail0 Outcome.Invalid Reason.EmptyValue);
  _ ← refuse_if (id_empty (cq_operation q) || (kMaxTextLength <? zlen (cq_operation q)))
        (mkStatus Outcome.Invalid Reason.ValueOutOfRange (zlen (cq_operation q)));
  _ ← check_registered (cq_domain q) (cq_scope q);
  _ ← check_grant q;
  record ← admit_effect io
    (mkMutationArgs (cq_domain q) (cq_token q) (cq_scope q) (cq_epoch q) (cq_incarnation q)
       (cq_grant q) (cq_operation q) (cq_payload q) now);
  _ ← emit KCommitRecord (w_counter (mr_sequence record) ++ w_digest (mr_digest record))
        status_ok now;
  mret (mkCommitted (mr_sequence record) (mr_token record) (mr_digest record) true).

Record FenceRequest := mkFenceRequest {
  fq_domain : DomainId;
  fq_scope : Scope;
  fq_epoch : Epoch;
  fq_incarnation : IncarnationId;
  fq_cause : Reason
}.

Definition cause_or (default_ cause : Reason) : Reason :=
  if bool_decide (cause = Reason.None) then default_ else cause.

Definition fence_target (q : FenceRequest) (g : EpochGrant) : bool :=
  eqb (eg_domain g) (fq_domain q) && bool_decide (eg_extents g = fq_scope q) &&
  negb (is_set (fq_epoch q) && negb (eg_epoch g =? fq_epoch q)).

(** The loop over the open grants: the last token issued, if any was. *)
Fixpoint fence_loop (q : FenceRequest) (now : Step) (l : list EpochGrant)
    (last : option FenceToken) : M (option FenceToken) :=
  match l with
  | [] => mret last
  | g :: l =>
      if negb (fence_target q g) then fence_loop q now l last
      else
        let cause := cause_or Reason.ExtentFenced (fq_cause q) in
        token ← fence_scope (eg_domain g) (eg_extents g) (eg_epoch g) (eg_incarnation g)
                  (eg_id g) cause true now;
        _ ← close_grant g GrantFenced cause now;
        fence_loop q now l (Some token)
  end.

(** The new high-water mark and the registry's sequence. *)
Definition fence (q : FenceRequest) (now : Step) : M (FenceToken * Sequence) :=
  _ ← refuse_if (id_empty (fq_domain q) || scope_empty (fq_scope q))
        (fail0 Outcome.Invalid Reason.EmptyValue);
  _ ← check_registered (fq_domain q) (fq_scope q);
  s ← state;
  issued ← fence_loop q now (open_grants (rs_lineage s)) None;
  token ← match issued with
          | Some token => mret token
          | None =>
              fence_scope (fq_domain q) (fq_scope q) (fq_epoch q) (fq_incarnation q) 0
                (cause_or Reason.ExtentFenced (fq_cause q)) true now
          end;
  s ← state;
  mret (token, rs_sequence s).

Record ReleaseRequest := mkRelease { lq_grant : GrantId; lq_cause : Reason }.

Definition release (q : ReleaseRequest) (now : Step) : M (Epoch * FenceToken) :=
  s ← state;
  match find_grant (rs_lineage s) (lq_grant q) with
  | None => refuse (mkStatus Outcome.NotFound Reason.GrantNotRegistered (lq_grant q))
  | Some g =>
      _ ← refuse_if (negb (is_open g))
            (mkStatus Outcome.AlreadyExists Reason.DuplicateEntry (lq_grant q));
      let cause := cause_or Reason.CompensatingFenceRequired (lq_cause q) in
      token ← fence_scope (eg_domain g) (eg_extents g) (eg_epoch g) (eg_incarnation g) (eg_id g)
                cause true now;
      _ ← close_grant g GrantClosed cause now;
      mret (eg_epoch g, token)
  end.

(** ** The invariant *)

Definition grant_good (g : EpochGrant) : Prop := grant_codable g ∧ scope_wf (eg_extents g).

Definition domain_good (d : DomainDefinition) : Prop := domain_wf d ∧ scope_wf (dd_scope d).

(** No two open grants share an extent. *)
Definition exclusive (l : list EpochGrant) : Prop :=
  ∀ g1 g2, g1 ∈ l → g2 ∈ l → is_open g1 = true → is_open g2 = true → eg_id g1 ≠ eg_id g2 →
    overlaps (eg_extents g1) (eg_extents g2) = false.

(** Every grant covers exactly the scope its domain registered. *)
Definition registered (domains : list DomainDefinition) (g : EpochGrant) : Prop :=
  ∃ d, sv_find dd_domain (eg_domain g) domains = Some d ∧ dd_scope d = eg_extents g.

Record registry_inv (s : RegistryState) : Prop := {
  ri_fences : fence_wf (rs_fences s);
  ri_lineage : lineage_wf (rs_lineage s);
  ri_grants : Forall grant_good (lt_grants (rs_lineage s));
  ri_exclusive : exclusive (lt_grants (rs_lineage s));
  ri_registered : Forall (registered (rs_domains s)) (lt_grants (rs_lineage s));
  ri_tokens : Forall (λ g, eg_token g <= rs_tokens s ∧ eg_id g <= rs_grants s)
                (lt_grants (rs_lineage s));
  ri_marks : ∀ e, high_water (rs_fences s) e <= rs_tokens s;
  ri_domains : sv_sorted dd_domain (rs_domains s) ∧ Forall domain_good (rs_domains s);
  ri_boots : Forall boot_wf (lt_boots (rs_lineage s));
  ri_words : words [rs_tokens s; rs_grants s; rs_incarnations s; ap_generation (rs_policy s)];
  ri_boot : 0 <= br_incarnation (rs_boot s) <= rs_incarnations s;
  ri_current : Forall (λ g, is_open g = true → br_incarnation (rs_boot s) < eg_incarnation g)
                 (lt_grants (rs_lineage s))
}.

(** What no operation ever takes back. *)
Record advances (s s' : RegistryState) : Prop := {
  ad_tokens : rs_tokens s <= rs_tokens s';
  ad_grants : rs_grants s <= rs_grants s';
  ad_incarnations : rs_incarnations s <= rs_incarnations s';
  ad_fenced : ∀ i, incarnation_fenced (rs_fences s) i = true →
                incarnation_fenced (rs_fences s') i = true;
  ad_marks : ∀ e, high_water (rs_fences s) e <= high_water (rs_fences s') e;
  ad_boot : br_incarnation (rs_boot s) <= br_incarnation (rs_boot s');
  ad_config : rs_config s' = rs_config s
}.

#[export] Instance advances_preorder : PreOrder advances.
Proof.
  split.
  - intros s. split; done || lia.
  - intros a b c [? ? ? ? M1 ? ?] [? ? ? ? M2 ? ?]. split; try lia; [auto| |congruence].
    intros e. specialize (M1 e). specialize (M2 e). lia.
Qed.

(** Fields the invariant does not read. *)
Definition same_core (s s' : RegistryState) : Prop :=
  rs_fences s' = rs_fences s ∧ rs_lineage s' = rs_lineage s ∧ rs_domains s' = rs_domains s ∧
  rs_policy s' = rs_policy s ∧ rs_tokens s' = rs_tokens s ∧ rs_grants s' = rs_grants s ∧
  rs_incarnations s' = rs_incarnations s ∧ rs_boot s' = rs_boot s ∧ rs_config s' = rs_config s.

Lemma same_core_inv s s' : same_core s s' → registry_inv s → registry_inv s'.
Proof.
  intros (E1 & E2 & E3 & E4 & E5 & E6 & E7 & E8 & E9) [].
  split; rewrite ?E1, ?E2, ?E3, ?E4, ?E5, ?E6, ?E7, ?E8; done.
Qed.

Lemma same_core_advances s s' : same_core s s' → advances s s'.
Proof.
  intros (E1 & E2 & E3 & E4 & E5 & E6 & E7 & E8 & E9).
  split; rewrite ?E1, ?E5, ?E6, ?E7, ?E8, ?E9; (done || lia).
Qed.

Lemma observe_core r s : same_core s (observe r s).
Proof. unfold observe. cbv zeta. case_match; done. Qed.

Lemma generation_core v s : same_core s (set_generation v s).
Proof. done. Qed.

Lemma remember_core scope s : same_core s (remember_scope scope s).
Proof. unfold remember_scope. repeat case_match; done. Qed.

(** A step that keeps the invariant and takes nothing back. *)
Definition progress (s s' : RegistryState) : Prop := registry_inv s' ∧ advances s s'.

Lemma progress_core s s' : same_core s s' → registry_inv s → progress s s'.
Proof. intros H Hi. split; [by eapply same_core_inv|by apply same_core_advances]. Qed.

Lemma progress_trans s1 s2 s3 : advances s1 s2 → progress s2 s3 → progress s1 s3.
Proof. intros H1 [Hi H2]. split; [done|by etrans]. Qed.

Lemma raise_max a b : raise a b = Z.max a b.
Proof. unfold raise. destruct (Z.ltb_spec a b); lia. Qed.

(** *** Fences *)

(** A fence operation that issues [token] over a well-formed scope. *)
Lemma fence_progress s t token : registry_inv s → is_u64 token → fence_step (rs_fences s) t →
  (∀ e, high_water t e <= Z.max (rs_tokens s) token) →
  progress s (set_fences t (set_tokens (raise (rs_tokens s) token) s)).
Proof.
  intros Hi Ht Hstep Hm. rewrite raise_max. destruct Hi as [Hf ? ? ? ? Htok Hmk ? ? Hw].
  split; [split|split]; cbn; try done.
  - by eapply fence_step_wf.
  - eapply Forall_impl; [exact Htok|]. intros g. cbn. lia.
  - open_wf. unfold is_u64 in *.
    repeat (apply Forall_cons; split; [unfold is_u64; lia|]). constructor.
  - lia.
  - apply (fence_step_fenced _ _ Hstep Hf).
  - intros e. rewrite !high_water_mark. by apply fence_step_marks.
Qed.

Lemma set_fences_core s s' t : same_core s s' → same_core (set_fences t s) (set_fences t s').
Proof. unfold same_core. naive_solver. Qed.

Lemma adopt_high_water t scope token epoch incarnation grant now e : fence_wf t → 0 <= token →
  high_water (fence_adopt t scope token epoch incarnation grant now).1 e <=
    Z.max (high_water t e) token.
Proof.
  intros ((Hs & _) & _) Ht. destruct (fence_adopt _ _ _ _ _ _ _) as [t' st] eqn:E.
  destruct (decide (st = status_ok)) as [->|Hne].
  - apply fence_adopt_ok in E as (_ & _ & _ & _ & _ & ->). unfold high_water, fence_find. simpl.
    rewrite adopt_marks_find by done. case_decide; simpl; lia.
  - apply fence_adopt_refused in E as ->; [simpl; lia|done].
Qed.

Lemma apply_mark r es scope e : sv_sorted es_extent es → 0 <= fr_token r →
  mark (apply_extents r es scope).1 e <= Z.max (mark es e) (fr_token r).
Proof.
  revert es. induction scope as [|x l IH]; intros es Hs Ht; simpl; [lia|].
  assert (H : mark (apply_extents r (sv_set es_extent (fence_mark r x (sv_find es_extent x es)) es) l).1 e
    <= Z.max (mark es e) (fr_token r)).
  { etrans; [apply IH; [by apply sv_set_sorted|done]|]. rewrite mark_set by done. simpl.
    case_decide; lia. }
  destruct (sv_find es_extent x es); [|done]. destruct (_ <? _); [simpl; lia|done].
Qed.

Lemma fence_high_water t r scope e : fence_wf t → 0 <= fr_token r →
  high_water (fence_apply t r scope).1 e <= Z.max (high_water t e) (fr_token r).
Proof.
  intros ((Hs & _) & _) Ht. rewrite !high_water_mark.
  destruct (fence_apply_sets t r scope) as (_ & _ & [->|(_ & _ & ->)]); [lia|].
  by apply apply_mark.
Qed.

Lemma apply_fence_progress f scope s : registry_inv s → scope_wf scope → is_u64 (fr_token f) →
  progress s (apply_fence f scope s).1.
Proof.
  intros Hi Hsc Ht. unfold apply_fence. cbv zeta.
  set (s1 := set_tokens _ s). pose proof (remember_core scope s1) as Hc.
  destruct Hc as (E1 & Hrest). rewrite E1. cbn [s1 rs_fences set_tokens].
  pose proof (step_apply (rs_fences s) f scope Hsc Ht) as Hstep.
  pose proof (ri_marks s Hi) as Hmk.
  assert (Hm : ∀ e, high_water (fence_apply (rs_fences s) f scope).1 e <=
                Z.max (rs_tokens s) (fr_token f)).
  { intros e. etrans; [apply fence_high_water; [apply Hi|unfold is_u64 in Ht; lia]|].
    specialize (Hmk e). lia. }
  pose proof (fence_progress s _ (fr_token f) Hi Ht Hstep Hm) as [Hp Ha].
  destruct (fence_apply (rs_fences s) f scope) as [t st]. cbn [fst].
  assert (Hcore : same_core (set_fences t s1) (set_fences t (remember_scope scope s1))).
  { apply set_fences_core, remember_core. }
  split; [by eapply same_core_inv|]. etrans; [exact Ha|by apply same_core_advances].
Qed.

Lemma apply_adopt_progress f scope s : registry_inv s → scope_wf scope → is_u64 (fr_token f) →
  progress s (apply_adopt f scope s).1.
Proof.
  intros Hi Hsc Ht. unfold apply_adopt. cbv zeta.
  set (s1 := set_tokens _ s). pose proof (remember_core scope s1) as Hc.
  destruct Hc as (E1 & Hrest). rewrite E1. cbn [s1 rs_fences set_tokens].
  pose proof (step_adopt (rs_fences s) scope (fr_token f) (fr_epoch f) (fr_incarnation f)
    (fr_superseded f) (fr_issued_at f) Hsc Ht) as Hstep.
  pose proof (ri_marks s Hi) as Hmk.
  assert (Hm : ∀ e, high_water (fence_adopt (rs_fences s) scope (fr_token f) (fr_epoch f)
    (fr_incarnation f) (fr_superseded f) (fr_issued_at f)).1 e <= Z.max (rs_tokens s) (fr_token f)).
  { intros e. etrans; [apply adopt_high_water; [apply Hi|unfold is_u64 in Ht; lia]|].
    specialize (Hmk e). lia. }
  pose proof (fence_progress s _ (fr_token f) Hi Ht Hstep Hm) as [Hp Ha].
  destruct (fence_adopt _ _ _ _ _ _ _) as [t st]. cbn [fst].
  assert (Hcore : same_core (set_fences t s1) (set_fences t (remember_scope scope s1))).
  { apply set_fences_core, remember_core. }
  split; [by eapply same_core_inv|]. etrans; [exact Ha|by apply same_core_advances].
Qed.

(** *** Grants *)

Lemma registered_mono s d g : find_domain s (dd_domain d) = None →
  sv_sorted dd_domain (rs_domains s) →
  registered (rs_domains s) g → registered (sv_set dd_domain d (rs_domains s)) g.
Proof.
  intros Hn Hs (x & Hx & Hsc). exists x. split; [|done].
  rewrite sv_find_set by done. case_decide as E; [|done].
  unfold find_domain in Hn. rewrite E in Hx. congruence.
Qed.

Lemma apply_domain_progress d s : registry_inv s → domain_good d → progress s (apply_domain d s).1.
Proof.
  intros Hi Hd. unfold apply_domain.
  destruct (find_domain s (dd_domain d)) as [old|] eqn:E.
  { assert (Hp : progress s s) by by apply progress_core. by destruct (same_definition old d). }
  destruct (kMaxDomains <=? zlen (rs_domains s)); [by apply progress_core|]. cbn [fst].
  set (s1 := set_domains _ s). assert (progress s s1) as [Hp Ha].
  { destruct Hi as [Hf Hl Hg Hx Hr Ht Hm [Hs Hdd] Hb Hw]. split; [split|split]; cbn; try (done || lia).
    - eapply Forall_impl; [exact Hr|]. intros g. by apply registered_mono.
    - split; [by apply sv_set_sorted|by apply sv_set_Forall]. }
  pose proof (remember_core (dd_scope d) s1) as Hc.
  split; [by eapply same_core_inv|]. etrans; [exact Ha|by apply same_core_advances].
Qed.

Lemma sublist_forall {A} (P : A → Prop) l k : l `sublist_of` k → Forall P k → Forall P l.
Proof. intros Hs Hk. rewrite Forall_forall in *. intros x Hx. apply Hk. by eapply sublist_subseteq. Qed.

(** What [open_grant] leaves, whether it succeeds or not. *)
Lemma open_grant_shape t g t' st : open_grant t g = (t', st) →
  lt_boots t' = lt_boots t ∧
  ∃ kept, kept `sublist_of` lt_grants t ∧
    (lt_grants t' = kept ∨ (st = status_ok ∧ is_open g = true ∧ lt_grants t' = kept ++ [g])).
Proof.
  intros E. destruct (decide (st = status_ok)) as [->|Hne].
  - apply open_grant_ok in E as (_ & _ & _ & _ & _ & Ho & _ & _ & _ & Hb & kept & Hk & Hs & _).
    split; [done|]. exists kept. auto.
  - apply open_grant_refused in E as [Hb Hs]; [|done]. split; [done|]. eexists. split; [exact Hs|].
    by left.
Qed.

Lemma exclusive_sublist l k : l `sublist_of` k → exclusive k → exclusive l.
Proof. intros Hs Hx g1 g2 H1 H2. apply Hx; by eapply sublist_subseteq. Qed.

Lemma exclusive_snoc l g : exclusive l → canonical (eg_extents g) →
  Forall (λ x, canonical (eg_extents x)) l →
  (∀ x, x ∈ l → is_open x = true → overlaps (eg_extents x) (eg_extents g) = false) →
  exclusive (l ++ [g]).
Proof.
  intros Hx Hg Hl Ho g1 g2 H1 H2 O1 O2 Hne. rewrite Forall_forall in Hl.
  apply elem_of_app in H1 as [H1|H1%list_elem_of_singleton];
    apply elem_of_app in H2 as [H2|H2%list_elem_of_singleton]; subst; auto; [|done].
  rewrite overlaps_sym; auto.
Qed.

Lemma good_canonical g : grant_good g → canonical (eg_extents g).
Proof. by intros [_ (_ & _ & Hc & _)]. Qed.

(** The one emission that can break exclusion: its grant meets no open one. *)
Lemma apply_grant_open_progress g s : registry_inv s → grant_good g →
  registered (rs_domains s) g →
  (∀ x, x ∈ lt_grants (rs_lineage s) → is_open x = true →
     overlaps (eg_extents x) (eg_extents g) = false) →
  br_incarnation (rs_boot s) < eg_incarnation g →
  progress s (apply_grant_open g s).1.
Proof.
  intros Hi Hg Hreg Hov Hcur. pose proof Hg as [(_ & _ & _ & Hw) _].
  unfold apply_grant_open. cbv zeta. cbn [rs_lineage set_tokens set_grants].
  destruct (open_grant (rs_lineage s) g) as [l st] eqn:E. cbn [fst].
  pose proof (open_grant_shape _ _ _ _ E) as (Hb & kept & Hs & Hk).
  assert (Hl : lineage_wf l).
  { replace l with (open_grant (rs_lineage s) g).1 by by rewrite E.
    eapply lineage_step_wf; [apply step_open|apply Hi].
    apply Forall_forall with (x := eg_epoch g) in Hw; [unfold is_u64 in Hw; lia|set_solver]. }
  rewrite !raise_max. open_wf.
  destruct Hi as [Hf _ Hgr Hx Hr Htok Hm Hd Hbo Hws Hboot Hcu].
  assert (Hcan : Forall (λ x, canonical (eg_extents x)) (lt_grants (rs_lineage s))).
  { eapply Forall_impl; [exact Hgr|apply good_canonical]. }
  split; [split|split]; cbn; rewrite ?Hb; try (done || lia).
  - destruct Hk as [->|(_ & _ & ->)]; [by eapply sublist_forall|].
    apply Forall_app. split; [by eapply sublist_forall|by apply Forall_singleton].
  - destruct Hk as [->|(_ & _ & ->)]; [by eapply exclusive_sublist|].
    apply exclusive_snoc; [by eapply exclusive_sublist|by apply good_canonical|
      by eapply sublist_forall|]. intros x Hx'. apply Hov. by eapply sublist_subseteq.
  - destruct Hk as [->|(_ & _ & ->)]; [by eapply sublist_forall|].
    apply Forall_app. split; [by eapply sublist_forall|by apply Forall_singleton].
  - assert (Hold : Forall (λ x, eg_token x <= Z.max (rs_tokens s) (eg_token g) ∧
      eg_id x <= Z.max (rs_grants s) (eg_id g)) kept).
    { eapply sublist_forall; [exact Hs|]. eapply Forall_impl; [exact Htok|]. intros x. cbn. lia. }
    destruct Hk as [->|(_ & _ & ->)]; [done|]. apply Forall_app. split; [done|].
    apply Forall_singleton. lia.
  - intros e. specialize (Hm e). lia.
  - open_wf. unfold is_u64 in *.
    repeat (apply Forall_cons; split; [unfold is_u64; lia|]). constructor.
  - destruct Hk as [->|(_ & _ & ->)]; [by eapply sublist_forall|].
    apply Forall_app. split; [by eapply sublist_forall|by apply Forall_singleton].
Qed.

(** Closing a grant, successfully or not, only closes. *)
Lemma close_grant_shape t id state why now t' st :
  lineage_close_grant t id state why now = (t', st) →
  lt_boots t' = lt_boots t ∧
  (lt_grants t' = lt_grants t ∨
   ∃ a g b, lt_grants t = a ++ g :: b ∧ eg_id g = id ∧ state ≠ GrantOpen ∧
     lt_grants t' = a ++ grant_closed g state why now :: b).
Proof.
  unfold lineage_close_grant. intros E. case_bool_decide; [by injection E as <- _; auto|].
  pose proof (close_in_spec id state why now (lt_grants t)) as Hc.
  destruct (close_in _ _ _ _ _) as [l [s|]]; injection E as <- <-; cbn; split; try done; [|by left].
  destruct Hc as [(_ & a & g & b & -> & _ & ? & _ & ->)|(_ & -> & _)]; [right|by left].
  by exists a, g, b.
Qed.

(** A closing that succeeds, or finds the grant closed, leaves no open grant of
    that id, and opens none. *)
Lemma close_grant_done t id state why now t' st :
  NoDup (eg_id <$> lt_grants t) → lineage_close_grant t id state why now = (t', st) →
  is_ok (forgive st) = true →
  ∀ x, x ∈ lt_grants t' → is_open x = true → x ∈ lt_grants t ∧ eg_id x ≠ id.
Proof.
  unfold lineage_close_grant. intros Hnd E Hok. case_bool_decide as Hst.
  { injection E as <- <-. done. }
  pose proof (close_in_spec id state why now (lt_grants t)) as Hc.
  destruct (close_in _ _ _ _ _) as [l [s|]]; injection E as <- <-; [|done]. cbn.
  assert (Huniq : ∀ a g b x, lt_grants t = a ++ g :: b → x ∈ a ++ b → eg_id x ≠ eg_id g).
  { intros a g b x E Hx Hid. rewrite E, fmap_app, fmap_cons in Hnd.
    apply NoDup_app in Hnd as (_ & N1 & N2). apply NoDup_cons in N2 as [N2 _].
    apply elem_of_app in Hx as [Hx|Hx].
    - apply (N1 (eg_id g)); [rewrite <-Hid; by apply list_elem_of_fmap_2|by left].
    - apply N2. rewrite <-Hid. by apply list_elem_of_fmap_2. }
  destruct Hc as [(-> & a & g & b & E & _ & Hid & _ & ->)|(-> & -> & g & Hg & Hid & Ho)];
    intros x Hx Hxo.
  - assert (x ∈ a ++ b) as Hab.
    { apply elem_of_app in Hx as [Hx|[->|Hx]%elem_of_cons]; [set_solver| |set_solver].
      unfold is_open in Hxo. cbn in Hxo. by rewrite bool_decide_false in Hxo. }
    split; [rewrite E; set_solver|]. rewrite <-Hid. by eapply Huniq.
  - split; [done|]. intros E. destruct (list_elem_of_split _ _ Hg) as (a & b & Es).
    assert (x = g ∨ x ∈ a ++ b) as [->|Hab] by (rewrite Es in Hx; set_solver); [congruence|].
    apply (Huniq a g b x Es Hab). congruence.
Qed.

Lemma closed_good g state why now : grant_good g → is_u64 now →
  grant_good (grant_closed g state why now).
Proof.
  intros [(H1 & H2 & H3 & Hw) Hs] Hn. open_wf. split; [|exact Hs]. split_and!; try done.
  cbn. repeat (apply Forall_cons; split; [assumption|]). constructor.
Qed.

Lemma Forall_replace {A} (P : A → Prop) a x y b : Forall P (a ++ x :: b) → (P x → P y) →
  Forall P (a ++ y :: b).
Proof. rewrite !Forall_app, !Forall_cons. naive_solver. Qed.

Lemma apply_grant_close_progress g s : registry_inv s → is_u64 (eg_closed g) →
  progress s (apply_grant_close g s).1.
Proof.
  intros Hi Hn. unfold apply_grant_close.
  destruct (lineage_close_grant _ _ _ _ _) as [l st] eqn:E. cbn [fst].
  pose proof (close_grant_shape _ _ _ _ _ _ _ E) as [Hb Hk].
  assert (Hl : lineage_wf l).
  { replace l with (lineage_close_grant (rs_lineage s) (eg_id g) (eg_state g) (eg_close_reason g)
      (eg_closed g)).1 by by rewrite E. eapply lineage_step_wf; [apply step_close|apply Hi]. }
  destruct Hi as [Hf _ Hgr Hx Hr Htok Hm Hd Hbo Hws Hboot Hcu].
  destruct Hk as [Hk|(a & x & b & E1 & Hid & Hst & Hk)].
  { split; [split|split]; cbn; rewrite ?Hb, ?Hk; try (done || lia). }
  rewrite E1 in *. split; [split|split]; cbn; rewrite ?Hb, ?Hk; try (done || lia).
  - eapply Forall_replace; [exact Hgr|]. intros ?. by apply closed_good.
  - assert (Hc : ∀ y, y ∈ a ++ grant_closed x (eg_state g) (eg_close_reason g) (eg_closed g) :: b →
      is_open y = true → y ∈ a ++ x :: b).
    { intros y [Hy|[->|Hy]%elem_of_cons]%elem_of_app Hyo; [set_solver| |set_solver].
      unfold is_open in Hyo. cbn in Hyo. by rewrite bool_decide_false in Hyo. }
    intros g1 g2 H1 H2 O1 O2. by apply Hx; auto.
  - eapply Forall_replace; [exact Hr|]. done.
  - eapply Forall_replace; [exact Htok|]. done.
  - eapply Forall_replace; [exact Hcu|]. intros _ Ho. unfold is_open in Ho. cbn in Ho.
    by rewrite bool_decide_false in Ho.
Qed.

(** *** Boots, counters, policy *)

(** The lineage's grants kept, its boots well formed. *)
Lemma set_lineage_progress l s : registry_inv s → lt_grants l = lt_grants (rs_lineage s) →
  Forall boot_wf (lt_boots l) → progress s (set_lineage l s).
Proof.
  intros [Hf Hl Hg Hx Hr Ht Hm Hd Hb Hw] E Hbl. unfold lineage_wf in Hl.
  split; [split|split]; cbn; rewrite ?E; try (done || lia).
  unfold lineage_wf. by rewrite E.
Qed.

Lemma begin_boot_boots t b : Forall boot_wf (lt_boots t) → boot_wf b →
  Forall boot_wf (lt_boots (begin_boot t b).1).
Proof.
  intros Ht Hb. unfold begin_boot. repeat case_match; cbn; try done;
    apply Forall_app; (split; [|by apply Forall_singleton]); [|done].
  destruct (lt_boots t); [done|]. by apply Forall_cons in Ht as [_ Ht].
Qed.

Lemma end_in_boots boot now clean l : Forall boot_wf l → is_u64 now →
  Forall boot_wf (end_in boot now clean l).1.
Proof.
  intros Hl Hn. induction Hl as [|b l Hb Hl IH]; simpl; [constructor|].
  destruct (_ =? _).
  - destruct (is_set _); cbn; [by constructor|]. constructor; [|done].
    destruct Hb as [Hid Hw]. split; [done|]. open_wf. cbn.
    repeat (apply Forall_cons; split; [assumption|]). constructor.
  - destruct (end_in boot now clean l) as [l' st]. by constructor.
Qed.

Lemma apply_boot_end_progress b s : registry_inv s → boot_wf b →
  progress s (apply_boot_end b s).1.
Proof.
  intros Hi [_ Hw]. open_wf. unfold apply_boot_end, end_boot.
  pose proof (end_in_boots (br_boot b) (br_ended b) (br_clean b) (lt_boots (rs_lineage s))
    (ri_boots s Hi)) as Hb.
  destruct (end_in _ _ _ _) as [l [st|]]; cbn.
  - apply set_lineage_progress; [done..|]. by apply Hb.
  - apply set_lineage_progress; [done..|]. apply Hi.
Qed.

Lemma set_incarnations_progress v s : registry_inv s → is_u64 v → rs_incarnations s <= v →
  progress s (set_incarnations v s).
Proof.
  intros [Hf Hl Hg Hx Hr Ht Hm Hd Hb Hw] Hv Hle.
  split; [split|split]; cbn; try (done || lia). open_wf.
  repeat (apply Forall_cons; split; [assumption|]). constructor.
Qed.

Lemma apply_boot_begin_progress b s : registry_inv s → boot_wf b →
  br_incarnation (rs_boot s) <= br_incarnation b →
  (∀ g, g ∈ lt_grants (rs_lineage s) → is_open g = false) →
  progress s (apply_boot_begin b s).1.
Proof.
  intros Hi Hb Hle Hclosed. unfold apply_boot_begin. cbv zeta. cbn [rs_lineage set_incarnations set_boot].
  destruct (begin_boot (rs_lineage s) b) as [l st] eqn:E. cbn [fst].
  set (v := raise _ _). assert (Hv : v = Z.max (rs_incarnations s) (br_incarnation b)).
  { apply raise_max. }
  assert (Hi2 : progress s (set_incarnations v s)).
  { apply set_incarnations_progress; [done| |lia].
    pose proof (ri_words s Hi) as Hw. destruct Hb as [_ Hbw]. open_wf. unfold is_u64 in *. lia. }
  assert (Hi3 : progress s (set_incarnations v (set_boot b s))).
  { destruct Hi2 as [[] []]. pose proof (ri_boot s Hi).
    split; split; cbn in *; try (done || lia).
    apply Forall_forall. intros g Hg Ho. by rewrite Hclosed in Ho. }
  assert (El : l = (begin_boot (rs_lineage s) b).1) by by rewrite E.
  eapply progress_trans; [apply Hi3|]. subst l. apply set_lineage_progress; [apply Hi3| |].
  - apply begin_boot_grants.
  - apply begin_boot_boots; [apply Hi|done].
Qed.

Lemma apply_incarnation_progress v s : registry_inv s → is_u64 v →
  progress s (apply_incarnation v s).1.
Proof.
  intros Hi Hv. unfold apply_incarnation. destruct (Z.leb_spec v (rs_incarnations s)); cbn.
  - by apply progress_core.
  - apply set_incarnations_progress; [done..|lia].
Qed.

Lemma set_policy_progress p s : registry_inv s → is_u64 (ap_generation p) →
  progress s (set_policy p s).
Proof.
  intros [Hf Hl Hg Hx Hr Ht Hm Hd Hb Hw] Hv.
  split; [split|split]; cbn; try (done || lia). open_wf.
  repeat (apply Forall_cons; split; [assumption|]). constructor.
Qed.

(** ** Reasoning about operations *)

(** The state between two operations: the invariant, and nothing of [s0] lost. *)
Section operations.
Context (s0 : RegistryState).

Definition good (s : RegistryState) : Prop := progress s0 s.

(** From [P], the operation ends in [Q], or is refused in a good state. *)
Definition safe {A} (P : RegistryState → Prop) (m : M A) (Q : A → RegistryState → Prop) : Prop :=
  ∀ w, P (w_state w) →
    match m w with
    | (w', Ret x) => Q x (w_state w')
    | (w', Err _) => good (w_state w')
    end.

Lemma safe_ret {A} (x : A) (P : RegistryState → Prop) (Q : A → RegistryState → Prop) :
  (∀ s, P s → Q x s) → safe P (mret x) Q.
Proof. intros H w Hw. by apply H. Qed.

Lemma safe_bind {A B} (m : M A) (k : A → M B) P R Q :
  safe P m R → (∀ x, safe (R x) (k x) Q) → safe P (m ≫= k) Q.
Proof.
  intros Hm Hk w Hw. specialize (Hm w Hw). unfold mbind, m_bind.
  destruct (m w) as [w' [x|st]]; [by apply Hk|done].
Qed.

Lemma safe_refuse {A} st P (Q : A → RegistryState → Prop) :
  (∀ s, P s → good s) → safe P (refuse st) Q.
Proof. intros H w Hw. by apply H. Qed.

Lemma safe_refuse_if c st P (Q : unit → RegistryState → Prop) :
  (∀ s, P s → good s) → (c = false → ∀ s, P s → Q tt s) → safe P (refuse_if c st) Q.
Proof.
  intros H1 H2. unfold refuse_if. destruct c; [by apply safe_refuse|by apply safe_ret, H2].
Qed.

Lemma safe_state P (Q : RegistryState → RegistryState → Prop) :
  (∀ s, P s → Q s s) → safe P state Q.
Proof. intros H w Hw. by apply H. Qed.

Lemma safe_modify f P (Q : unit → RegistryState → Prop) :
  (∀ s, P s → Q tt (f s)) → safe P (modify f) Q.
Proof. intros H w Hw. by apply H. Qed.

Lemma safe_weaken {A} P P' (m : M A) (Q Q' : A → RegistryState → Prop) :
  safe P' m Q' → (∀ s, P s → P' s) → (∀ x s, Q' x s → Q x s) → safe P m Q.
Proof.
  intros H HP HQ w Hw. specialize (H w (HP _ Hw)). destruct (m w) as [w' [x|st]]; auto.
Qed.

(** The record [emit] builds. *)
Definition emitted (s : RegistryState) (kind : RecordKind) (payload : bytes) (status : Status)
    (now : Step) : JournalRecord :=
  mkRecord kind (u64 (rs_sequence s + 1)) now status payload.

(** An emission is safe when applying its record makes progress; after success
    the generation is bumped. *)
Lemma safe_emit kind payload status now P (Q : unit → RegistryState → Prop) :
  (∀ s, P s → good s) →
  (∀ s, P s → let r := emitted s kind payload status now in
     good (apply_kind r (observe r s)).1 ∧
     (is_ok (apply_kind r (observe r s)).2 = true →
      Q tt (set_generation (bump (rs_generation (apply_kind r (observe r s)).1))
              (apply_kind r (observe r s)).1))) →
  safe P (emit kind payload status now) Q.
Proof.
  intros Hg H w Hw. unfold emit. fold (emitted (w_state w) kind payload status now).
  destruct (H _ Hw) as [H1 H2]. revert H1 H2.
  set (r := emitted (w_state w) kind payload status now). unfold apply.
  destruct (negb (is_set (jr_sequence r))); [intros _ _; by apply Hg|].
  destruct (_ <? _); [intros _ _; by apply Hg|].
  destruct (apply_kind r (observe r (w_state w))) as [s' st]. cbn.
  intros H1 H2. destruct (is_ok st); cbn; auto.
Qed.

Lemma safe_for_each {A} (f : A → M unit) (I : list A → RegistryState → Prop) l :
  (∀ x l, safe (I (x :: l)) (f x) (λ _, I l)) → safe (I l) (for_each l f) (λ _, I []).
Proof.
  intros Hf. induction l as [|x r IH]; simpl; [by apply safe_ret|].
  eapply safe_bind; [apply Hf|]. intros []. apply IH.
Qed.

Lemma good_core s s' : good s → same_core s s' → good s'.
Proof. intros [Hi Ha] Hc. eapply progress_trans; [exact Ha|]. by apply progress_core. Qed.

Lemma good_step s s' : good s → progress s s' → good s'.
Proof. intros [_ Ha] Hp. by eapply progress_trans. Qed.

Lemma good_inv s : good s → registry_inv s.
Proof. by intros []. Qed.
End operations.

(** ** What each kind of record does *)

Section kinds.
Context (r : JournalRecord) (s : RegistryState).

Lemma apply_kind_fence f scope : jr_kind r = KFence → jr_payload r = encode_fence_payload f scope →
  fence_payload_wf f scope → apply_kind r s = apply_fence f scope s.
Proof.
  intros Ek Ep Hw. unfold apply_kind, with_payload. rewrite Ek, Ep.
  by rewrite (decodes_all _ _ _ (decodes_fence_payload f scope Hw)).
Qed.

Lemma apply_kind_adopt f scope : jr_kind r = KExtentAdopt →
  jr_payload r = encode_fence_payload f scope → fence_payload_wf f scope →
  apply_kind r s = apply_adopt f scope s.
Proof.
  intros Ek Ep Hw. unfold apply_kind, with_payload. rewrite Ek, Ep.
  by rewrite (decodes_all _ _ _ (decodes_fence_payload f scope Hw)).
Qed.

Lemma apply_kind_open g : jr_kind r = KGrantOpen → jr_payload r = encode_grant g →
  grant_codable g → apply_kind r s = apply_grant_open g s.
Proof.
  intros Ek Ep Hw. unfold apply_kind, with_payload. rewrite Ek, Ep.
  by rewrite (decodes_all _ _ _ (decodes_grant g Hw)).
Qed.

Lemma apply_kind_close g : jr_kind r = KGrantClose → jr_payload r = encode_grant g →
  grant_codable g → apply_kind r s = apply_grant_close g s.
Proof.
  intros Ek Ep Hw. unfold apply_kind, with_payload. rewrite Ek, Ep.
  by rewrite (decodes_all _ _ _ (decodes_grant g Hw)).
Qed.

Lemma apply_kind_domain d : jr_kind r = KDomainDefine → jr_payload r = encode_domain d →
  domain_wf d → apply_kind r s = apply_domain d s.
Proof.
  intros Ek Ep Hw. unfold apply_kind, with_payload. rewrite Ek, Ep.
  by rewrite (decodes_all _ _ _ (decodes_domain d Hw)).
Qed.

Lemma apply_kind_policy p : jr_kind r = KPolicyDefine → jr_payload r = encode_policy p →
  arbiter_policy_wf p → apply_kind r s = (set_policy p s, status_ok).
Proof.
  intros Ek Ep Hw. unfold apply_kind, with_payload. rewrite Ek, Ep.
  by rewrite (decodes_all _ _ _ (decodes_policy p Hw)).
Qed.

Lemma apply_kind_boot_begin b : jr_kind r = KBootBegin → jr_payload r = encode_boot_record b →
  boot_wf b → apply_kind r s = apply_boot_begin b s.
Proof.
  intros Ek Ep Hw. unfold apply_kind, with_payload. rewrite Ek, Ep.
  by rewrite (decodes_all _ _ _ (decodes_boot_record b Hw)).
Qed.

Lemma apply_kind_boot_end b : jr_kind r = KBootEnd → jr_payload r = encode_boot_record b →
  boot_wf b → apply_kind r s = apply_boot_end b s.
Proof.
  intros Ek Ep Hw. unfold apply_kind, with_payload. rewrite Ek, Ep.
  by rewrite (decodes_all _ _ _ (decodes_boot_record b Hw)).
Qed.

Lemma apply_kind_interrupt m : jr_kind r = KInterruptMark → jr_payload r = encode_interrupt m →
  interrupt_wf m → apply_kind r s = apply_interrupt m s.
Proof.
  intros Ek Ep Hw. unfold apply_kind, with_payload. rewrite Ek, Ep.
  by rewrite (decodes_all _ _ _ (decodes_interrupt m Hw)).
Qed.

Lemma apply_kind_incarnation v : jr_kind r = KIncarnationAllocate → jr_payload r = w_u64 v →
  is_u64 v → apply_kind r s = apply_incarnation v s.
Proof.
  intros Ek Ep Hw. unfold apply_kind, with_payload. rewrite Ek, Ep.
  by rewrite (decodes_all _ _ _ (decodes_u64 v Hw)).
Qed.
End kinds.

(** Fences and adoptions leave the lineage and the domains alone. *)
Lemma apply_fence_frame f scope s :
  rs_lineage (apply_fence f scope s).1 = rs_lineage s ∧
  rs_domains (apply_fence f scope s).1 = rs_domains s ∧
  rs_boot (apply_fence f scope s).1 = rs_boot s ∧
  rs_tokens (apply_fence f scope s).1 = raise (rs_tokens s) (fr_token f).
Proof.
  unfold apply_fence. cbv zeta. set (s1 := set_tokens _ s).
  destruct (fence_apply _ _ _) as [t st]. cbn.
  by destruct (remember_core scope s1) as (_ & -> & -> & _ & -> & _ & _ & -> & _).
Qed.

Lemma apply_adopt_frame f scope s :
  rs_lineage (apply_adopt f scope s).1 = rs_lineage s ∧
  rs_domains (apply_adopt f scope s).1 = rs_domains s ∧
  rs_boot (apply_adopt f scope s).1 = rs_boot s ∧
  rs_tokens (apply_adopt f scope s).1 = raise (rs_tokens s) (fr_token f).
Proof.
  unfold apply_adopt. cbv zeta. set (s1 := set_tokens _ s).
  destruct (fence_adopt _ _ _ _ _ _ _) as [t st]. cbn.
  by destruct (remember_core scope s1) as (_ & -> & -> & _ & -> & _ & _ & -> & _).
Qed.

Lemma previous_mark_u64 s scope : registry_inv s → is_u64 (previous_mark (rs_fences s) scope).
Proof.
  intros Hi. unfold previous_mark. pose proof (ri_words s Hi) as Hw. open_wf.
  enough (G : ∀ p, 0 <= p <= rs_tokens s →
    0 <= foldl (λ previous e, raise previous (high_water (rs_fences s) e)) p scope <= rs_tokens s).
  { unfold is_u64 in *. specialize (G 0). lia. }
  induction scope as [|e l IH]; intros p Hp; simpl; [done|]. apply IH. rewrite raise_max.
  pose proof (ri_marks s Hi e). pose proof (ri_fences s Hi) as (Hx & _).
  pose proof (mark_nonneg _ e Hx). rewrite <-high_water_mark in *. lia.
Qed.

Section frames.
Context (s0 : RegistryState) (L : LineageTable → list DomainDefinition → BootRecord → Prop).

(** What a fence does not disturb. *)
Definition framed (s : RegistryState) : Prop :=
  good s0 s ∧ L (rs_lineage s) (rs_domains s) (rs_boot s).

Lemma safe_fence_scope domain scope epoch incarnation superseded cause flag now :
  id_valid domain → scope_wf scope → words [epoch; incarnation; superseded; now] →
  safe s0 framed (fence_scope domain scope epoch incarnation superseded cause flag now)
    (λ token s, framed s ∧ token = rs_tokens s).
Proof.
  intros Hd Hsc Hw. open_wf. unfold fence_scope.
  eapply safe_bind; [apply (safe_state _ _ (λ x s, framed s ∧ x = s)); auto|]. intros s.
  eapply safe_bind.
  { apply (safe_refuse_if _ _ _ _ (λ _ s', framed s' ∧ s' = s ∧ rs_tokens s ≠ u64_max)).
    - by intros s' [[? _] _].
    - intros E s' [? <-]. apply Z.eqb_neq in E. auto. }
  intros []. eapply safe_bind.
  { apply (safe_emit _ _ _ _ _ _ (λ _ s', framed s' ∧ rs_tokens s' = u64 (rs_tokens s + 1))).
    - by intros s' [[? _] _].
    - intros s' ([Hg HL] & -> & Hmax). cbv zeta. pose proof (good_inv _ _ Hg) as Hi.
      pose proof (ri_words s Hi) as Hws. open_wf.
      set (f := mkFenceRecord _ _ _ _ _ _ _ _ _ _). assert (Hf : fence_payload_wf f scope).
      { split; [done|]. split; [by right|]. split; [done|]. cbn.
        pose proof (previous_mark_u64 s scope Hi). pose proof (u64_is (rs_tokens s + 1)).
        pose proof (u64_is (rs_sequence s + 1)).
        assert (is_u64 (if flag then incarnation else 0)) by (destruct flag; [done|unfold is_u64; lia]).
        repeat (apply Forall_cons; split; [assumption|]). constructor. }
      set (r := emitted s _ _ _ now). pose proof (observe_core r s) as Hc.
      rewrite (apply_kind_fence r (observe r s) f scope eq_refl eq_refl Hf).
      destruct (apply_fence_frame f scope (observe r s)) as (F1 & F2 & Fb & F3).
      assert (Hp : good s0 (apply_fence f scope (observe r s)).1).
      { eapply good_step; [by eapply good_core|]. apply apply_fence_progress; [|done|apply u64_is].
        by eapply same_core_inv. }
      split; [exact Hp|]. intros _. split; [split|].
      + eapply good_core; [exact Hp|]. done.
      + cbn [rs_lineage rs_domains rs_boot set_generation]. rewrite F1, F2, Fb.
        by destruct Hc as (_ & -> & -> & _ & _ & _ & _ & -> & _).
      + cbn [rs_tokens set_generation]. rewrite F3. cbn [f fr_token]. rewrite raise_max.
        destruct Hc as (_ & _ & _ & _ & -> & _). unfold u64_max, is_u64 in *.
        rewrite u64_id; unfold is_u64; lia. }
  intros []. apply safe_ret. intros s' [? E]. auto.
Qed.

(** What two tables share when one is the other with some grants closed. *)
Definition grant_key (g : EpochGrant) : GrantId * DomainId * Epoch :=
  (eg_id g, eg_domain g, eg_epoch g).

(** [l] is [t] with the grant [id] closed. *)
Definition closes (id : GrantId) (t l : LineageTable) : Prop :=
  grant_key <$> lt_grants l = grant_key <$> lt_grants t ∧
  ∀ x, x ∈ lt_grants l → is_open x = true → x ∈ lt_grants t ∧ eg_id x ≠ id.

(** Closing leaves no open grant of that id, and opens none. *)
Lemma safe_close_grant g st why now : grant_good g → is_u64 now →
  safe s0 framed (close_grant g st why now)
    (λ _ s, good s0 s ∧ ∃ t, L t (rs_domains s) (rs_boot s) ∧ closes (eg_id g) t (rs_lineage s)).
Proof.
  intros Hg Hn. unfold close_grant.
  eapply safe_bind; [apply (safe_state _ _ (λ x s, framed s ∧ x = s)); auto|]. intros s.
  apply safe_emit.
  { by intros s' [[? _] _]. }
  intros s' [[Hgd HL] ->]. cbv zeta. set (g' := mkGrant _ _ _ _ _ _ _ _ _ _ _ _ _ _ _ _ _).
  assert (Hg' : grant_codable g').
  { destruct Hg as [(H1 & H2 & H3 & Hw) Hs]. open_wf. pose proof (u64_is (rs_sequence s' + 1)).
    split_and!; try done. cbn.
    repeat (apply Forall_cons; split; [assumption|]). constructor. }
  set (r := emitted _ _ _ _ _). rewrite (apply_kind_close r (observe r s') g' eq_refl eq_refl Hg').
  pose proof (observe_core r s') as Hc. pose proof (good_inv _ _ Hgd) as Hi.
  assert (Hp : good s0 (apply_grant_close g' (observe r s')).1).
  { eapply good_step; [by eapply good_core|]. apply apply_grant_close_progress; [|done].
    by eapply same_core_inv. }
  split; [exact Hp|]. intros Hok. split; [eapply good_core; [exact Hp|done]|].
  exists (rs_lineage s'). revert Hok. unfold apply_grant_close.
  destruct Hc as (_ & El & Ed & _ & _ & _ & _ & Eb & _). rewrite El.
  destruct (lineage_close_grant _ _ _ _ _) as [l st'] eqn:E.
  cbn [fst snd rs_lineage rs_domains rs_boot set_lineage set_generation]. intros Hok.
  rewrite Ed, Eb.
  cbn [g' eg_id] in E. split; [done|]. split.
  - destruct (close_grant_shape _ _ _ _ _ _ _ E) as (_ & [->|(a & x & b & -> & _ & _ & ->)]); [done|].
    by rewrite !fmap_app, !fmap_cons.
  - by eapply (close_grant_done _ _ _ _ _ _ _ (proj1 (proj1 (ri_lineage s' Hi))) E).
Qed.
End frames.

Lemma elem_of_open_grants t x : x ∈ open_grants t ↔ x ∈ lt_grants t ∧ is_open x = true.
Proof. unfold open_grants. by rewrite elem_of_sort_by, elem_of_filter_true. Qed.

(** Refusing, reading and returning keep any good state. *)
Lemma safe_guard {s0 : RegistryState} {A} c st (k : M A) P Q : (∀ s, P s → good s0 s) →
  (c = false → safe s0 P k Q) → safe s0 P (refuse_if c st ≫= λ _, k) Q.
Proof.
  intros H1 H2. destruct c.
  - intros w Hw. by apply H1.
  - intros w Hw. by apply (H2 eq_refl).
Qed.

(** The precondition may be used for what does not depend on the state. *)
Lemma safe_assume {s0 : RegistryState} {A} (m : M A) P Q :
  (∀ s, P s → safe s0 P m Q) → safe s0 P m Q.
Proof. intros H w Hw. by apply (H _ Hw). Qed.

Lemma safe_read {s0 : RegistryState} {A} (k : RegistryState → M A) (P : RegistryState → Prop) Q :
  (∀ s, P s → safe s0 (λ s', s' = s ∧ P s) (k s) Q) → safe s0 P (state ≫= k) Q.
Proof. intros H w Hw. by apply (H (w_state w)). Qed.

Lemma check_registered_spec {s0 : RegistryState} {A} domain scope (k : M A)
    (P : RegistryState → Prop) Q : (∀ s, P s → good s0 s) →
  safe s0 (λ s, P s ∧ ∃ d, sv_find dd_domain domain (rs_domains s) = Some d ∧
                 dd_scope d = scope ∧ id_valid domain ∧ scope_wf scope) k Q →
  safe s0 P (check_registered domain scope ≫= λ _, k) Q.
Proof.
  intros Hg Hk w Hw. unfold check_registered, mbind, m_bind, state.
  destruct (find_domain (w_state w) domain) as [d|] eqn:E; [|by apply Hg].
  case_bool_decide as Es; simpl; [|by apply Hg]. apply (Hk w). split; [done|].
  exists d. unfold find_domain in E. split_and!; try done.
  - pose proof (good_inv _ _ (Hg _ Hw)) as Hi. destruct (ri_domains _ Hi) as [_ Hd].
    apply sv_find_elem in E as [Hin <-]. rewrite Forall_forall in Hd.
    by destruct (Hd d Hin) as [(? & _) _].
  - pose proof (good_inv _ _ (Hg _ Hw)) as Hi. destruct (ri_domains _ Hi) as [_ Hd].
    apply sv_find_elem in E as [Hin _]. rewrite Forall_forall in Hd. subst scope.
    by destruct (Hd d Hin).
Qed.

(** ** The loops *)

Section loops.
Context (s0 : RegistryState) (now : Step) (Hnow : is_u64 now).

(** Between two iterations over a list of grants: the lineage has [s0]'s keys,
    and every open grant that [touched] selects is still ahead. *)
Definition ahead (touched : EpochGrant → bool) (rest : list EpochGrant) (l : LineageTable)
    (d : list DomainDefinition) (b : BootRecord) : Prop :=
  Forall grant_good rest ∧ d = rs_domains s0 ∧ b = rs_boot s0 ∧
  grant_key <$> lt_grants l = grant_key <$> lt_grants (rs_lineage s0) ∧
  ∀ x, x ∈ lt_grants l → is_open x = true → touched x = true → x ∈ rest.

Lemma ahead_start touched : registry_inv s0 →
  ahead touched (open_grants (rs_lineage s0)) (rs_lineage s0) (rs_domains s0)
    (rs_boot s0).
Proof.
  intros Hi. split; [|split_and!; [done..|]].
  - apply Forall_forall. intros x [Hx _]%elem_of_open_grants. pose proof (ri_grants s0 Hi) as Hg.
    rewrite Forall_forall in Hg. auto.
  - intros x Hx Ho _. by apply elem_of_open_grants.
Qed.

Lemma ahead_skip touched g rest l d b : touched g = false → ahead touched (g :: rest) l d b →
  ahead touched rest l d b.
Proof.
  intros Hg (H1 & H2 & Hb & H3 & H4). apply Forall_cons in H1 as [_ H1]. split_and!; try done.
  intros x Hx Ho Ht. pose proof (H4 x Hx Ho Ht) as [->|Hin]%elem_of_cons; [congruence|done].
Qed.

Lemma ahead_closed touched g rest t l d b : ahead touched (g :: rest) t d b →
  closes (eg_id g) t l → ahead touched rest l d b.
Proof.
  intros (H1 & H2 & Hb & H3 & H4) [K1 K2]. apply Forall_cons in H1 as [_ H1]. split_and!; try done.
  - by etrans.
  - intros x Hx Ho Ht. destruct (K2 x Hx Ho) as [Hxt Hne].
    by pose proof (H4 x Hxt Ho Ht) as [->|Hin]%elem_of_cons.
Qed.

(** One grant fenced and closed. *)
Lemma safe_fence_close touched g rest st cause flag :
  safe s0 (framed s0 (ahead touched (g :: rest)))
    (_ ← fence_scope (eg_domain g) (eg_extents g) (eg_epoch g) (eg_incarnation g) (eg_id g)
           cause flag now;
     close_grant g st cause now)
    (λ _, framed s0 (ahead touched rest)).
Proof.
  apply safe_assume. intros s [_ [Hgood _]]. apply Forall_cons in Hgood as [Hg _].
  pose proof Hg as [(Hd & _ & _ & Hwords) Hsc].
  assert (Hws : words [eg_epoch g; eg_incarnation g; eg_id g; now]).
  { open_wf. repeat (apply Forall_cons; split; [assumption|]). constructor. }
  eapply safe_bind; [by apply safe_fence_scope|]. intros token.
  eapply safe_weaken; [by apply safe_close_grant|by intros s' [? _]|].
  intros [] s' [Hgd (t & Ht & Hc)]. split; [done|]. by eapply ahead_closed.
Qed.

Lemma safe_supersede q g rest :
  safe s0 (framed s0 (ahead (λ x, overlaps (eg_extents x) (al_scope q)) (g :: rest)))
    (supersede q now g)
    (λ _, framed s0 (ahead (λ x, overlaps (eg_extents x) (al_scope q)) rest)).
Proof.
  unfold supersede. destruct (overlaps (eg_extents g) (al_scope q)) eqn:E; simpl.
  - apply safe_fence_close.
  - apply safe_ret. intros s [Hgd Ha]. split; [done|]. by eapply ahead_skip.
Qed.
End loops.

(** ** Opening a grant *)

Lemma adopt_check_not_ok es token incarnation scope st :
  adopt_check es token incarnation scope = Some st → is_ok st = false.
Proof.
  induction scope as [|x r IH]; simpl; [done|].
  destruct (sv_find _ _ _); [|done]. repeat case_match; naive_solver.
Qed.

Lemma fence_adopt_is_ok t scope token epoch incarnation grant now :
  is_ok (fence_adopt t scope token epoch incarnation grant now).2 = true →
  fence_adopt t scope token epoch incarnation grant now =
    ((fence_adopt t scope token epoch incarnation grant now).1, status_ok).
Proof.
  unfold fence_adopt. repeat case_match; try done.
  cbn. intros H'. by erewrite adopt_check_not_ok in H' by done.
Qed.

Lemma open_grant_is_ok t g : is_ok (open_grant t g).2 = true →
  open_grant t g = ((open_grant t g).1, status_ok).
Proof. unfold open_grant. repeat case_match; done. Qed.

(** Everything after the adoption: the lineage as it was, every extent of the
    scope marked with the token. *)
Lemma safe_adopt s0 s f scope st now : good s0 s → fence_payload_wf f scope → scope_wf scope →
  safe s0 (λ s', s' = s)
    (emit KExtentAdopt (encode_fence_payload f scope) st now)
    (λ _ s', good s0 s' ∧ rs_lineage s' = rs_lineage s ∧ rs_domains s' = rs_domains s ∧
       rs_tokens s' = Z.max (rs_tokens s) (fr_token f) ∧ rs_grants s' = rs_grants s ∧
       rs_boot s' = rs_boot s ∧
       ∀ e, e ∈ scope → high_water (rs_fences s') e = fr_token f).
Proof.
  intros Hg Hf Hsc. apply safe_emit; [by intros ? ->|]. intros ? ->. cbv zeta.
  set (r := emitted s _ _ _ now). pose proof (observe_core r s) as Hc.
  rewrite (apply_kind_adopt r (observe r s) f scope eq_refl eq_refl Hf).
  assert (Hp : good s0 (apply_adopt f scope (observe r s)).1).
  { eapply good_step; [by eapply good_core|]. apply apply_adopt_progress; [|done|].
    - eapply same_core_inv; [done|]. by eapply good_inv.
    - destruct Hf as (_ & _ & _ & Hw). by open_wf. }
  split; [exact Hp|]. revert Hp. unfold apply_adopt. cbv zeta.
  set (s1 := set_tokens _ (observe r s)). pose proof (remember_core scope s1) as Hc1.
  destruct Hc as (E1 & E2 & E3 & _ & E5 & E6 & _ & E8 & _).
  destruct Hc1 as (F1 & F2 & F3 & _ & F5 & F6 & _ & F8 & _). rewrite F1.
  cbn [s1 rs_fences set_tokens]. rewrite E1.
  pose proof (fence_adopt_is_ok (rs_fences s) scope (fr_token f) (fr_epoch f) (fr_incarnation f)
    (fr_superseded f) (fr_issued_at f)) as Hok.
  destruct (fence_adopt (rs_fences s) scope _ _ _ _ _) as [t st'] eqn:E.
  cbn [fst snd] in *. intros Hp Hst. specialize (Hok Hst). injection Hok as ->.
  split; [eapply good_core; [exact Hp|done]|].
  cbn [rs_lineage rs_domains rs_tokens rs_grants rs_boot rs_fences set_fences set_generation].
  rewrite F2, F3, F5, F6, F8. cbn [s1 rs_lineage rs_domains rs_tokens rs_grants rs_boot set_tokens].
  rewrite E2, E3, E5, E6, E8, raise_max. split_and!; try done.
  intros e He. apply fence_adopt_ok in E as (_ & _ & _ & _ & _ & ->).
  pose proof (good_inv _ _ Hg) as Hi. destruct (ri_fences s Hi) as [(Hs & _) _].
  unfold high_water, fence_find. cbn [ft_extents]. rewrite adopt_marks_find by done.
  by rewrite decide_True.
Qed.

Lemma safe_open s0 s g st now : good s0 s → grant_good g → registered (rs_domains s) g →
  (∀ x, x ∈ lt_grants (rs_lineage s) → is_open x = true →
     overlaps (eg_extents x) (eg_extents g) = false) →
  br_incarnation (rs_boot s) < eg_incarnation g →
  safe s0 (λ s', s' = s)
    (emit KGrantOpen (encode_grant g) st now)
    (λ _ s', good s0 s' ∧ rs_fences s' = rs_fences s ∧
       g ∈ lt_grants (rs_lineage s') ∧ is_open g = true).
Proof.
  intros Hg Hgg Hr Hov Hcur. apply safe_emit; [by intros ? ->|]. intros ? ->. cbv zeta.
  set (r := emitted s _ _ _ now). pose proof (observe_core r s) as Hc.
  rewrite (apply_kind_open r (observe r s) g eq_refl eq_refl (proj1 Hgg)).
  pose proof Hc as (E1 & E2 & E3 & _ & _ & _ & _ & E8 & _).
  assert (Hp : good s0 (apply_grant_open g (observe r s)).1).
  { eapply good_step; [by eapply good_core|].
    apply apply_grant_open_progress; rewrite ?E2, ?E3, ?E8; [|done..].
    eapply same_core_inv; [done|]. by eapply good_inv. }
  split; [exact Hp|]. revert Hp. unfold apply_grant_open. cbv zeta.
  cbn [rs_lineage set_tokens set_grants]. rewrite E2.
  pose proof (open_grant_is_ok (rs_lineage s) g) as Hok.
  destruct (open_grant (rs_lineage s) g) as [l st'] eqn:E.
  cbn [fst snd] in *. intros Hp Hst. specialize (Hok Hst). injection Hok as ->.
  split; [eapply good_core; [exact Hp|apply generation_core]|].
  cbn [rs_lineage rs_fences set_lineage set_tokens set_grants set_generation]. split; [done|].
  apply open_grant_ok in E as (_ & _ & _ & _ & _ & Ho & _ & _ & _ & _ & kept & -> & _).
  split; [|done]. apply elem_of_app. right. by apply list_elem_of_singleton.
Qed.

(** What a successful allocation promises about the grant [g] it names. *)
Record opened (s0 : RegistryState) (q : AllocateRequest) (a : AllocateResponse)
    (s : RegistryState) (g : EpochGrant) : Prop := {
  op_open : g ∈ lt_grants (rs_lineage s) ∧ is_open g = true;
  op_names : eg_id g = ar_grant a ∧ eg_token g = ar_token a ∧ eg_epoch g = ar_epoch a;
  op_subject : eg_domain g = al_domain q ∧ eg_extents g = al_scope q ∧
               eg_incarnation g = al_incarnation q ∧ eg_attempt g = al_attempt q;
  op_fresh : rs_tokens s0 < ar_token a ∧ rs_grants s0 < ar_grant a ∧
             ∀ x, x ∈ lt_grants (rs_lineage s0) → eg_domain x = al_domain q →
               eg_epoch x < ar_epoch a;
  op_gate : ∀ e, e ∈ al_scope q → high_water (rs_fences s) e = ar_token a
}.

Lemma max_epoch_u64 s domain : registry_inv s → is_u64 (max_epoch (rs_lineage s) domain).
Proof.
  intros Hi. unfold max_epoch, max_epoch_of.
  destruct (max_epoch_of_attained domain (lt_grants (rs_lineage s)) 0) as [->|(g & Hg & _ & ->)].
  { unfold is_u64. lia. }
  pose proof (ri_grants s Hi) as H. rewrite Forall_forall in H.
  destruct (H g Hg) as [(_ & _ & _ & Hw) _]. by open_wf.
Qed.

(** The epoch handed out is above every epoch of the domain the keys show. *)
Lemma next_epoch_fresh s0 s domain x : registry_inv s →
  grant_key <$> lt_grants (rs_lineage s) = grant_key <$> lt_grants (rs_lineage s0) →
  u64 (max_epoch (rs_lineage s) domain + 1) ≠ 0 →
  x ∈ lt_grants (rs_lineage s0) → eg_domain x = domain →
  eg_epoch x < u64 (max_epoch (rs_lineage s) domain + 1).
Proof.
  intros Hi Hk Hn Hx <-. apply (list_elem_of_fmap_2 grant_key) in Hx. rewrite <-Hk in Hx.
  apply list_elem_of_fmap in Hx as (y & Ey & Hy). injection Ey as _ Ed Ee. rewrite Ed, Ee in *.
  pose proof (max_epoch_ge _ _ Hy). pose proof (max_epoch_u64 s (eg_domain y) Hi) as Hu.
  unfold is_u64 in Hu. destruct (decide (max_epoch (rs_lineage s) (eg_domain y) + 1 = 2 ^ 64)) as [E|E].
  - rewrite E in Hn. done.
  - rewrite u64_id; unfold is_u64; lia.
Qed.

(** *** [allocate_epoch] *)

Lemma safe_open_new s0 q now :
  words [al_incarnation q; al_boot q; al_attempt q; now] → id_valid (al_domain q) →
  scope_wf (al_scope q) →
  (∃ d, sv_find dd_domain (al_domain q) (rs_domains s0) = Some d ∧ dd_scope d = al_scope q) →
  br_incarnation (rs_boot s0) < al_incarnation q →
  safe s0
    (λ s, framed s0 (ahead s0 (λ x, overlaps (eg_extents x) (al_scope q)) []) s)
    (open_new q now)
    (λ a s, good s0 s ∧ ∃ g, opened s0 q a s g).
Proof.
  intros Hw Hd Hsc Hreg Hcur. unfold open_new. apply safe_read. intros s [Hg (_ & Hdom & Hboot & Hk & Hov)].
  pose proof (good_inv _ _ Hg) as Hi. pose proof (ri_words s Hi) as Hws. cbv zeta.
  apply safe_guard; [by intros ? [-> _]|]. intros En. apply Z.eqb_neq in En.
  apply safe_guard; [by intros ? [-> _]|]. intros Et.
  apply orb_false_iff in Et as [Et Eg]. apply Z.eqb_neq in Et, Eg.
  set (epoch := u64 (max_epoch _ _ + 1)) in *. set (g := mkGrant _ _ _ _ _ _ _ _ _ _ _ _ _ _ _ _ _).
  set (f := mkFenceRecord _ _ _ _ _ _ _ _ _ _).
  assert (Etok : u64 (rs_tokens s + 1) = rs_tokens s + 1).
  { open_wf. unfold is_u64, u64_max in *. apply u64_id. unfold is_u64. lia. }
  assert (Egr : u64 (rs_grants s + 1) = rs_grants s + 1).
  { open_wf. unfold is_u64, u64_max in *. apply u64_id. unfold is_u64. lia. }
  assert (is_u64 0) by (unfold is_u64; lia).
  pose proof (u64_is (rs_tokens s + 1)). pose proof (u64_is (rs_grants s + 1)).
  pose proof (u64_is (rs_sequence s + 1)). pose proof (u64_is (lt_generation (rs_lineage s) + 1)).
  assert (is_u64 epoch) by apply u64_is. open_wf.
  assert (Hf : fence_payload_wf f (al_scope q)).
  { split; [done|]. split; [by right|]. split; [done|]. cbn.
    repeat (apply Forall_cons; split; [assumption|]). constructor. }
  assert (Hgg : grant_good g).
  { split; [|done]. split; [done|]. split; [by right|]. split; [done|]. cbn.
    repeat (apply Forall_cons; split; [assumption|]). constructor. }
  eapply safe_bind; [eapply safe_weaken; [by eapply (safe_adopt s0 s f (al_scope q) status_ok now)|
    by intros ? [-> _]|intros ? ? HH; exact HH]|]. intros [].
  apply safe_assume. intros s1 (Hg1 & L1 & D1 & T1 & G1 & B1 & M1).
  eapply safe_bind.
  { intros w (Hgw & Lw & Dw & Tw & Gw & Bw & Mw).
    assert (Hs : safe s0 (λ s', s' = w_state w) (emit KGrantOpen (encode_grant g) status_ok now)
      (λ _ s', good s0 s' ∧ g ∈ lt_grants (rs_lineage s') ∧
         ∀ e, e ∈ al_scope q → high_water (rs_fences s') e = fr_token f)).
    { eapply safe_weaken; [apply (safe_open s0 (w_state w) g)|by intros ? ->|].
      - done.
      - done.
      - rewrite Dw, Hdom. exact Hreg.
      - rewrite Lw. intros x Hx Ho. destruct (overlaps (eg_extents x) (eg_extents g)) eqn:Eo; [|done].
        by specialize (Hov x Hx Ho Eo); apply elem_of_nil in Hov.
      - rewrite Bw, Hboot. exact Hcur.
      - intros _ s' (? & Ef & ? & _). split_and!; try done. by rewrite Ef. }
    exact (Hs w eq_refl). }
  intros []. apply safe_read. intros s2 (Hg2 & Hin & Hm). apply safe_ret. intros ? [-> _].
  split; [done|]. exists g. split; cbn; try done.
  split_and!.
  - destruct Hg as [_ Ha]. pose proof (ad_tokens _ _ Ha). lia.
  - destruct Hg as [_ Ha]. pose proof (ad_grants _ _ Ha). lia.
  - intros x Hx Edx. by eapply next_epoch_fresh.
Qed.

(** A response to a retry: the grant the attempt already has. *)
Record retried (s0 : RegistryState) (q : AllocateRequest) (a : AllocateResponse)
    (s : RegistryState) (g : EpochGrant) : Prop := {
  rt_open : g ∈ lt_grants (rs_lineage s0) ∧ is_open g = true;
  rt_names : eg_id g = ar_grant a ∧ eg_token g = ar_token a ∧ eg_epoch g = ar_epoch a;
  rt_subject : eg_domain g = al_domain q ∧ eg_extents g = al_scope q ∧
               eg_incarnation g = al_incarnation q ∧ eg_attempt g = al_attempt q;
  rt_state : same_core s0 s
}.

(** The incarnation may hold authority: allocated by this boot, not fenced. *)
Definition current (s : RegistryState) (i : IncarnationId) : Prop :=
  br_incarnation (rs_boot s) < i <= rs_incarnations s ∧
  incarnation_fenced (rs_fences s) i = false.

Lemma is_retry_true q g : is_retry q g = true ↔
  eg_incarnation g = al_incarnation q ∧ eg_attempt g = al_attempt q ∧
  eg_domain g = al_domain q ∧ is_open g = true.
Proof. unfold is_retry. rewrite !andb_true_iff, !Z.eqb_eq, eqb_eq. tauto. Qed.

Lemma safe_allocate_epoch s0 q now : registry_inv s0 →
  words [al_incarnation q; al_boot q; al_attempt q; now] →
  safe s0 (λ s, s = s0) (allocate_epoch q now)
    (λ a s, good s0 s ∧ current s0 (al_incarnation q) ∧
       ∃ g, opened s0 q a s g ∨ retried s0 q a s g).
Proof.
  intros Hi Hw. assert (Hg0 : good s0 s0) by by apply progress_core.
  unfold allocate_epoch.
  do 3 (apply safe_guard; [by intros ? ->|]; intros _).
  apply check_registered_spec; [by intros ? ->|]. apply safe_read.
  intros s (-> & d & Hd & Hds & Hdv & Hsc). subst.
  apply safe_guard; [by intros ? [-> _]|]. intros Ef.
  apply safe_guard; [by intros ? [-> _]|]. intros Ec.
  assert (Hcur : current s0 (al_incarnation q)) by (split; [lia|done]).
  destruct (List.find (is_retry q) (lt_grants (rs_lineage s0))) as [g|] eqn:Er.
  - apply List.find_some in Er as [Hin Hr]. apply list_elem_of_In in Hin.
    apply is_retry_true in Hr as (R1 & R2 & R3 & R4).
    eapply safe_bind.
    { apply (safe_modify _ _ _ (λ _, same_core s0)). by intros ? [-> _]. }
    intros []. apply safe_ret. intros s Hc.
    split; [by apply progress_core|]. split; [done|]. exists g. right. split; [done..| |done].
    split_and!; try done. pose proof (ri_registered _ Hi) as Hr. rewrite Forall_forall in Hr.
    destruct (Hr g Hin) as (d' & Hd' & Hs'). congruence.
  - eapply safe_bind.
    + eapply safe_weaken.
      * apply (safe_for_each s0 (supersede q now)
          (λ rest, framed s0 (ahead s0 (λ x, overlaps (eg_extents x) (al_scope q)) rest))).
        intros g rest. apply safe_supersede. by open_wf.
      * intros ? [-> _]. split; [done|]. by apply ahead_start.
      * intros ? ? HH. exact HH.
    + intros []. eapply safe_weaken; [apply (safe_open_new s0 q now); [done..|by exists d|]| |].
      * by destruct Hcur as [[??] _].
      * done.
      * intros a s [Hg (g & Ho)]. split; [done|]. split; [done|]. exists g. by left.
Qed.

(** *** [fence] and [release] *)

Lemma NoDup_fmap_eq {A B} (f : A → B) l x y : NoDup (f <$> l) → x ∈ l → y ∈ l → f x = f y → x = y.
Proof.
  induction l as [|z l IH]; rewrite ?fmap_cons; [set_solver|].
  intros [Hn Hnd]%NoDup_cons Hx Hy E.
  assert (Hz : ∀ w, w ∈ l → f w ≠ f z).
  { intros w Hw Ew. apply Hn. rewrite <-Ew. by apply list_elem_of_fmap_2. }
  apply elem_of_cons in Hx as [->|Hx]; apply elem_of_cons in Hy as [->|Hy]; auto; naive_solver.
Qed.

(** A fence followed by the grant's closing, as [fence] and [release] do it. *)
Lemma safe_fence_closed {A} s0 touched g rest st cause flag now (k : FenceToken → M A) Q :
  is_u64 now →
  (∀ token, safe s0 (framed s0 (ahead s0 touched rest)) (k token) Q) →
  safe s0 (framed s0 (ahead s0 touched (g :: rest)))
    (token ← fence_scope (eg_domain g) (eg_extents g) (eg_epoch g) (eg_incarnation g) (eg_id g)
               cause flag now;
     _ ← close_grant g st cause now; k token) Q.
Proof.
  intros Hn Hk w Hw. pose proof (safe_fence_close s0 now Hn touched g rest st cause flag w Hw) as H.
  revert H. unfold mbind, m_bind. destruct (fence_scope _ _ _ _ _ _ _ _ w) as [w1 [token|e]]; [|done].
  destruct (close_grant g st cause now w1) as [w2 [u|e]]; [|done]. apply Hk.
Qed.

Lemma safe_fence_loop s0 q now l : is_u64 now → ∀ last,
  safe s0 (framed s0 (ahead s0 (fence_target q) l)) (fence_loop q now l last)
    (λ _, framed s0 (ahead s0 (fence_target q) [])).
Proof.
  intros Hn. induction l as [|g l IH]; intros last; simpl; [by apply safe_ret|].
  destruct (fence_target q g) eqn:E; simpl.
  - apply safe_fence_closed; [done|]. intros token. apply IH.
  - eapply safe_weaken; [apply IH| |by intros ? ? HH; exact HH].
    intros s [Hg Ha]. split; [done|]. by eapply ahead_skip.
Qed.

Lemma safe_fence s0 q now : registry_inv s0 → words [fq_epoch q; fq_incarnation q; now] →
  safe s0 (λ s, s = s0) (fence q now)
    (λ _ s, good s0 s ∧
       ∀ x, x ∈ lt_grants (rs_lineage s) → is_open x = true → fence_target q x = false).
Proof.
  intros Hi Hw. assert (Hg0 : good s0 s0) by by apply progress_core. open_wf.
  unfold fence. apply safe_guard; [by intros ? ->|]. intros _.
  apply check_registered_spec; [by intros ? ->|]. apply safe_read.
  intros s (-> & d & _ & _ & Hdv & Hsc).
  eapply safe_bind.
  { eapply safe_weaken; [by apply (safe_fence_loop s0 q now)| |intros ? ? HH; exact HH].
    intros ? [-> _]. split; [done|]. by apply ahead_start. }
  intros issued. eapply safe_bind.
  { assert (Hret : ∀ token : FenceToken, safe s0 (framed s0 (ahead s0 (fence_target q) []))
      (mret token) (λ _, framed s0 (ahead s0 (fence_target q) []))).
    { intros token. by apply safe_ret. }
    destruct issued as [token|]; [apply Hret|].
    eapply safe_weaken; [apply (safe_fence_scope s0 (ahead s0 (fence_target q) []))|by intros ? HH; exact HH|].
    - done.
    - done.
    - repeat (apply Forall_cons; split; [done|]). constructor.
    - by intros ? ? [HH _]. }
  intros token. apply safe_read. intros s [Hg (_ & _ & _ & _ & Ha)]. apply safe_ret. intros ? [-> _].
  split; [done|]. intros x Hx Ho. destruct (fence_target q x) eqn:E; [|done].
  by specialize (Ha x Hx Ho E); apply elem_of_nil in Ha.
Qed.

Lemma safe_release s0 q now : registry_inv s0 → is_u64 now →
  safe s0 (λ s, s = s0) (release q now)
    (λ _ s, good s0 s ∧
       ∀ x, x ∈ lt_grants (rs_lineage s) → is_open x = true → eg_id x ≠ lq_grant q).
Proof.
  intros Hi Hn. assert (Hg0 : good s0 s0) by by apply progress_core.
  unfold release. apply safe_read. intros s ->.
  destruct (find_grant (rs_lineage s0) (lq_grant q)) as [g|] eqn:E.
  2: { apply safe_refuse. by intros ? [-> _]. }
  apply find_grant_elem in E as [Hin Hid].
  apply safe_guard; [by intros ? [-> _]|]. intros Ho. apply negb_false_iff in Ho.
  eapply safe_weaken.
  - apply (safe_fence_closed s0 (λ x, eg_id x =? lq_grant q) g []); [done|]. intros token.
    apply (safe_ret _ _ _ (λ _ s, framed s0 (ahead s0 (λ x, eg_id x =? lq_grant q) []) s)). done.
  - intros ? [-> _]. split; [done|]. pose proof (ri_grants _ Hi) as Hgr.
    rewrite Forall_forall in Hgr. split; [by apply Forall_singleton, Hgr|]. split_and!; [done..|].
    intros x Hx _ Ex. apply list_elem_of_singleton.
    destruct (ri_lineage _ Hi) as [[Hnd _] _].
    eapply (NoDup_fmap_eq eg_id); [done..|]. lia.
  - intros _ s [Hg (_ & _ & _ & _ & Ha)]. split; [done|]. intros x Hx Hxo Ex.
    by specialize (Ha x Hx Hxo (proj2 (Z.eqb_eq _ _) Ex)); apply elem_of_nil in Ha.
Qed.

(** *** Registration, incarnations, commits *)

Lemma safe_define_domain s0 d now : registry_inv s0 → domain_good d →
  safe s0 (λ s, s = s0) (define_domain d now)
    (λ _ s, good s0 s).
Proof.
  intros Hi Hd. assert (Hg0 : good s0 s0) by by apply progress_core.
  unfold define_domain. do 2 (apply safe_guard; [by intros ? ->|]; intros _).
  apply safe_read. intros s ->. destruct (find_domain s0 (dd_domain d)) as [old|] eqn:E.
  { destruct (same_definition old d); [apply safe_ret|apply safe_refuse]; by intros ? [-> _]. }
  apply safe_guard; [by intros ? [-> _]|]. intros _.
  apply safe_emit; [by intros ? [-> _]|]. intros ? [-> _]. cbv zeta.
  set (r := emitted s0 _ _ _ now). pose proof (observe_core r s0) as Hc.
  rewrite (apply_kind_domain r (observe r s0) d eq_refl eq_refl (proj1 Hd)).
  assert (Hp : good s0 (apply_domain d (observe r s0)).1).
  { eapply good_step; [by eapply good_core|]. apply apply_domain_progress; [|done].
    by eapply same_core_inv. }
  split; [exact Hp|]. intros _. eapply good_core; [exact Hp|apply generation_core].
Qed.

Lemma safe_define_policy s0 p now : registry_inv s0 → arbiter_policy_wf p →
  safe s0 (λ s, s = s0) (define_policy p now) (λ _ s, good s0 s).
Proof.
  intros Hi (Hid & Hq & Hw). assert (Hg0 : good s0 s0) by by apply progress_core.
  unfold define_policy. cbv zeta. apply safe_guard; [by intros ? ->|]. intros _.
  apply safe_read. intros s ->. apply safe_emit; [by intros ? [-> _]|]. intros ? [-> _]. cbv zeta.
  set (p' := mkPolicy _ _ _ _ _ _ _ _ _). pose proof (u64_is (ap_generation (rs_policy s0) + 1)).
  assert (Hp' : arbiter_policy_wf p').
  { open_wf. split; [done|]. split; [done|]. cbn.
    repeat (apply Forall_cons; split; [assumption|]). constructor. }
  set (r := emitted s0 _ _ _ now). pose proof (observe_core r s0) as Hc.
  rewrite (apply_kind_policy r (observe r s0) p' eq_refl eq_refl Hp').
  assert (Hp : good s0 (set_policy p' (observe r s0))).
  { eapply good_step; [by eapply good_core|]. apply set_policy_progress; [|done].
    by eapply same_core_inv. }
  split; [exact Hp|]. intros _. eapply good_core; [exact Hp|apply generation_core].
Qed.

Lemma safe_allocate_incarnation s0 now : registry_inv s0 →
  safe s0 (λ s, s = s0) (allocate_incarnation now)
    (λ i s, good s0 s ∧ rs_incarnations s0 < i ∧ i = rs_incarnations s).
Proof.
  intros Hi. assert (Hg0 : good s0 s0) by by apply progress_core.
  unfold allocate_incarnation. apply safe_read. intros s ->.
  apply safe_guard; [by intros ? [-> _]|]. intros Hm. apply Z.eqb_neq in Hm. cbv zeta.
  assert (En : u64 (rs_incarnations s0 + 1) = rs_incarnations s0 + 1).
  { pose proof (ri_words s0 Hi). open_wf. unfold is_u64, u64_max in *. apply u64_id.
    unfold is_u64. lia. }
  set (v := u64 (rs_incarnations s0 + 1)) in *. assert (Hv : is_u64 v) by apply u64_is.
  eapply safe_bind.
  { apply (safe_emit _ _ _ _ _ _ (λ _ s, good s0 s ∧ v = rs_incarnations s));
      [by intros ? [-> _]|]. intros ? [-> _]. cbv zeta.
    set (r := emitted s0 _ _ _ now). pose proof (observe_core r s0) as Hc.
    rewrite (apply_kind_incarnation r (observe r s0) v eq_refl eq_refl Hv).
    assert (Hp : good s0 (apply_incarnation v (observe r s0)).1).
    { eapply good_step; [by eapply good_core|]. apply apply_incarnation_progress; [|done].
      by eapply same_core_inv. }
    split; [exact Hp|]. intros Hok. split; [eapply good_core; [exact Hp|apply generation_core]|].
    revert Hok. unfold apply_incarnation. by destruct (v <=? _). }
  intros []. apply safe_ret. intros s [Hg Ev]. split; [done|]. split; [lia|done].
Qed.

(** The grant a commit is bound to. *)
Definition bound (q : CommitRequest) (g : EpochGrant) : Prop :=
  eg_id g = cq_grant q ∧ is_open g = true ∧ eg_domain g = cq_domain q ∧
  eg_extents g = cq_scope q ∧ eg_epoch g = cq_epoch q ∧ eg_incarnation g = cq_incarnation q ∧
  eg_token g = cq_token q.

Lemma check_grant_spec q w : check_grant q w =
  (w, match (check_grant q w).2 with
      | Ret _ => Ret tt
      | Err st => Err st
      end) ∧
  ((check_grant q w).2 = Ret tt →
     ∃ g, g ∈ lt_grants (rs_lineage (w_state w)) ∧ bound q g).
Proof.
  unfold check_grant, mbind, m_bind, state, refuse_if, refuse, mret, m_ret.
  destruct (find_grant _ _) as [g|] eqn:E; [|done]. apply find_grant_elem in E as [Hin Hid].
  destruct (is_open g) eqn:Ho; simpl; [|done].
  destruct (eqb (eg_domain g) (cq_domain q)) eqn:E1; simpl; [|done].
  case_bool_decide as E2; simpl; [|done].
  destruct (Z.eqb_spec (eg_epoch g) (cq_epoch q)); simpl; [|done].
  destruct (Z.eqb_spec (eg_incarnation g) (cq_incarnation q)); simpl; [|done].
  destruct (Z.eqb_spec (eg_token g) (cq_token q)); simpl; [|done].
  split; [done|]. intros _. exists g. apply eqb_eq in E1. by split_and!.
Qed.

Lemma safe_commit s0 io q now : registry_inv s0 →
  safe s0 (λ s, s = s0) (commit io q now)
    (λ _ s, good s0 s ∧ ∃ g, g ∈ lt_grants (rs_lineage s0) ∧ bound q g).
Proof.
  intros Hi. assert (Hg0 : good s0 s0) by by apply progress_core.
  unfold commit. do 2 (apply safe_guard; [by intros ? ->|]; intros _).
  apply check_registered_spec; [by intros ? ->|].
  eapply safe_bind.
  { instantiate (1 := λ _ s, s = s0 ∧ ∃ g, g ∈ lt_grants (rs_lineage s0) ∧ bound q g).
    intros w [Ew _]. destruct (check_grant_spec q w) as [-> H]. rewrite Ew in H.
    destruct (check_grant q w) as [w' [[]|st]]; cbn; [by auto|by rewrite Ew]. }
  intros []. eapply safe_bind.
  { instantiate (1 := λ _ s, same_core s0 s ∧ ∃ g, g ∈ lt_grants (rs_lineage s0) ∧ bound q g).
    intros w [Ew Hg]. unfold admit_effect. destruct (fabric_admit io _ _ _) as [[f log] [m|st]]; cbn; rewrite Ew.
    - by split.
    - by apply (good_core s0 s0). }
  intros record. eapply safe_bind.
  { apply (safe_emit _ _ _ _ _ _ (λ _ s, good s0 s ∧
      ∃ g, g ∈ lt_grants (rs_lineage s0) ∧ bound q g)).
    - intros s [Hc _]. by eapply good_core.
    - intros s [Hc Hb]. cbv zeta. set (r := emitted s _ _ _ now). cbn [apply_kind jr_kind r emitted fst snd].
      pose proof (observe_core r s) as Hc'.
      assert (Hgc : good s0 (observe r s)) by (eapply good_core; [by eapply good_core|done]).
      split; [by eapply good_core|]. intros _. split; [|done]. by eapply good_core. }
  intros []. by apply safe_ret.
Qed.

(** *** [recover_after_restart] *)

Lemma safe_end_open_boot s0 touched rest now b : is_u64 now → boot_wf b →
  safe s0 (framed s0 (ahead s0 touched rest)) (end_open_boot now b)
    (λ _, framed s0 (ahead s0 touched rest)).
Proof.
  intros Hn [Hid Hw]. unfold end_open_boot. destruct (is_set (br_ended b)); [by apply safe_ret|].
  set (b' := mkBoot _ _ _ _ _ _ _ _). assert (Hb : boot_wf b').
  { split; [done|]. open_wf. cbn. repeat (apply Forall_cons; split; [assumption|]). constructor. }
  apply safe_emit; [by intros ? [? _]|]. intros s [Hg Ha]. cbv zeta.
  set (r := emitted s _ _ _ now). pose proof (observe_core r s) as Hc.
  rewrite (apply_kind_boot_end r (observe r s) b' eq_refl eq_refl Hb).
  assert (Hp : good s0 (apply_boot_end b' (observe r s)).1).
  { eapply good_step; [by eapply good_core|]. apply apply_boot_end_progress; [|done].
    eapply same_core_inv; [done|]. by eapply good_inv. }
  split; [exact Hp|]. intros _. split; [eapply good_core; [exact Hp|apply generation_core]|].
  destruct Hc as (_ & E2 & E3 & _ & _ & _ & _ & E8 & _). revert Ha. unfold apply_boot_end, ahead.
  pose proof (end_boot_grants (rs_lineage s) (br_boot b') (br_ended b') (br_clean b')) as El.
  rewrite E2. destruct (end_boot _ _ _ _) as [l st].
  cbn [fst rs_lineage rs_domains rs_boot set_lineage set_generation] in *. by rewrite E3, E8, El.
Qed.

Lemma safe_interrupt_grant s0 touched rest now g : is_u64 now →
  safe s0 (framed s0 (ahead s0 touched (g :: rest))) (interrupt_grant now g)
    (λ _, framed s0 (ahead s0 touched rest)).
Proof.
  intros Hn. apply safe_assume. intros s1 [_ [Hgood _]]. apply Forall_cons in Hgood as [Hg _].
  pose proof Hg as [(Hd & _ & _ & Hw) Hsc]. open_wf. assert (is_u64 now) by done.
  unfold interrupt_grant. eapply safe_bind.
  { apply (safe_fence_scope s0 (ahead s0 touched (g :: rest))); [done..|].
    repeat (apply Forall_cons; split; [assumption|]). constructor. }
  intros token. eapply safe_bind.
  { apply (safe_emit _ _ _ _ _ _ (λ _, framed s0 (ahead s0 touched (g :: rest)))).
    - by intros s [[? _] _].
    - intros s [[Hgd Ha] _]. cbv zeta. set (m := mkInterrupt _ _ _ _ _ _ _).
      assert (Hm : interrupt_wf m).
      { split; [done|]. cbn. repeat (apply Forall_cons; split; [assumption|]). constructor. }
      set (r := emitted s _ _ _ now). pose proof (observe_core r s) as Hc.
      rewrite (apply_kind_interrupt r (observe r s) m eq_refl eq_refl Hm).
      assert (Hp : good s0 (apply_interrupt m (observe r s)).1).
      { eapply good_core; [by eapply good_core|]. done. }
      split; [exact Hp|]. intros _. split; [by eapply good_core|].
      destruct Hc as (_ & E2 & E3 & _ & _ & _ & _ & E8 & _).
      cbn [apply_interrupt fst rs_lineage rs_domains rs_boot set_interrupts set_generation].
      by rewrite E2, E3, E8. }
  intros []. eapply safe_bind; [by apply (safe_close_grant s0 (ahead s0 touched (g :: rest)))|].
  intros []. apply safe_modify. intros s [Hgd (t & Ht & Hc)]. split; [by eapply good_core|].
  by eapply ahead_closed.
Qed.

Lemma safe_for_each_in {A} s0 (f : A → M unit) (I : list A → RegistryState → Prop) l :
  (∀ x l', x ∈ l → safe s0 (I (x :: l')) (f x) (λ _, I l')) →
  safe s0 (I l) (for_each l f) (λ _, I []).
Proof.
  intros Hf. induction l as [|x r IH]; simpl; [by apply safe_ret|].
  eapply safe_bind; [apply Hf; by left|]. intros []. apply IH. intros. apply Hf. by right.
Qed.

(** After a restart nothing of the previous boot is open, and the boot's own
    incarnation is above everything allocated before. *)
Definition restarted (s0 s : RegistryState) : Prop :=
  (∀ x, x ∈ lt_grants (rs_lineage s) → is_open x = false) ∧
  rs_incarnations s0 < br_incarnation (rs_boot s) ∧
  br_incarnation (rs_boot s) = rs_incarnations s.

Lemma safe_recover s0 now : registry_inv s0 → is_u64 now → id_valid (rc_node (rs_config s0)) →
  safe s0 (λ s, s = s0) (recover_after_restart now) (λ _ s, good s0 s ∧ restarted s0 s).
Proof.
  intros Hi Hn Hnode. assert (Hg0 : good s0 s0) by by apply progress_core.
  unfold recover_after_restart. apply safe_read. intros s ->.
  set (all := λ _ : EpochGrant, true). eapply safe_bind.
  { eapply (safe_weaken s0 _ (framed s0 (ahead s0 all (open_grants (rs_lineage s0)))));
      [|intros ? [-> _]; split; [done|by apply ahead_start]|intros ? ? HH; exact HH].
    apply (safe_for_each_in s0 (end_open_boot now) (λ _, framed s0 (ahead s0 all (open_grants (rs_lineage s0))))).
    intros b _ Hb. apply safe_end_open_boot; [done|].
    pose proof (ri_boots _ Hi) as Hbs. rewrite Forall_forall in Hbs. auto. }
  intros []. apply safe_read. intros s1 [Hg1 (_ & Hd & Hb1 & Hk & Ho)]. eapply safe_bind.
  { eapply (safe_weaken s0 _ (framed s0 (ahead s0 all (open_grants (rs_lineage s1)))));
      [|intros ? [-> _]; split; [done|]|intros ? ? HH; exact HH].
    - apply (safe_for_each s0 (interrupt_grant now) (λ rest, framed s0 (ahead s0 all rest))).
      intros g rest. by apply safe_interrupt_grant.
    - destruct (ahead_start s1 all (good_inv _ _ Hg1)) as (A1 & _ & _ & _ & A5). by split_and!. }
  intros []. apply safe_read. intros s2 [Hg2 (_ & _ & _ & _ & Hnone)].
  apply safe_guard; [by intros ? [-> _]|]. intros Hm. apply Z.eqb_neq in Hm. cbv zeta.
  pose proof (good_inv _ _ Hg2) as Hi2. pose proof (ri_words _ Hi2). pose proof (ri_boot _ Hi2).
  open_wf. assert (En : u64 (rs_incarnations s2 + 1) = rs_incarnations s2 + 1).
  { unfold is_u64, u64_max in *. apply u64_id. unfold is_u64. lia. }
  rewrite En. set (v := rs_incarnations s2 + 1) in *.
  assert (Hv : is_u64 v) by (rewrite <-En; apply u64_is).
  assert (Hclosed : ∀ x, x ∈ lt_grants (rs_lineage s2) → is_open x = false).
  { intros x Hx. destruct (is_open x) eqn:Ex; [|done].
    by specialize (Hnone x Hx Ex eq_refl); apply elem_of_nil in Hnone. }
  assert (Hp3 : progress s2 (set_incarnations v s2)).
  { apply set_incarnations_progress; [done..|lia]. }
  eapply safe_bind.
  { apply (safe_modify _ _ _ (λ _ s, s = set_incarnations v s2)). by intros ? [-> _]. }
  intros []. assert (Hg3 : good s0 (set_incarnations v s2)) by by eapply good_step.
  apply safe_emit; [by intros ? ->|]. intros ? ->. cbv zeta. set (s3 := set_incarnations v s2) in *.
  set (b := mkBoot _ _ _ _ _ _ _ _). pose proof (u64_is (rs_sequence s2 + 1)).
  assert (Hb : boot_wf b).
  { destruct Hg2 as [_ Ha]. split; [cbn; by rewrite (ad_config _ _ Ha)|].
    assert (is_u64 0) by (unfold is_u64; lia). cbn.
    repeat (apply Forall_cons; split; [assumption|]). constructor. }
  set (r := emitted s3 _ _ _ now). pose proof (observe_core r s3) as Hc.
  rewrite (apply_kind_boot_begin r (observe r s3) b eq_refl eq_refl Hb).
  assert (Hp : good s0 (apply_boot_begin b (observe r s3)).1).
  { eapply good_step; [by eapply good_core|]. apply apply_boot_begin_progress; [|done| |].
    - eapply same_core_inv; [done|]. by eapply good_inv.
    - destruct Hc as (_ & _ & _ & _ & _ & _ & _ & -> & _). cbn. lia.
    - destruct Hc as (_ & -> & _). apply Hclosed. }
  split; [exact Hp|]. intros _. split; [eapply good_core; [exact Hp|apply generation_core]|].
  destruct Hc as (_ & E2 & _ & _ & _ & _ & E7 & _). unfold restarted, apply_boot_begin. cbv zeta.
  cbn [rs_lineage set_incarnations set_boot]. rewrite E2.
  pose proof (begin_boot_grants (rs_lineage s3) b) as El. destruct (begin_boot (rs_lineage s3) b) as [l st].
  cbn [fst rs_lineage rs_boot rs_incarnations set_lineage set_boot set_incarnations set_generation] in *.
  split; [|split].
  - rewrite El. exact Hclosed.
  - cbn. destruct Hg2 as [_ Ha]. pose proof (ad_incarnations _ _ Ha). lia.
  - rewrite E7, raise_max. cbn. lia.
Qed.

(** ** Every reachable state *)

Definition policy0 : ArbiterPolicy :=
  mkPolicy [] 1 (mkProfile [] 1 [] MajorityDistinctWitnesses 0 1 1000) true false true true true 1000.

Definition config0 : RegistryConfig := mkConfig [] [] policy0 1000 512 0.

(** The default-constructed state. *)
Definition registry0 : RegistryState :=
  mkRegistry config0 [] (mkStepClock 0) 0 no_boot 0 1 fence_table0 lineage0 fabric0 [] policy0
    [] [] [] 0 0 0 0 0 0 Uninitialised.

(** One operation on a well-formed request, whatever its outcome. *)
Inductive op_step (w : World) : World → Prop :=
  | op_allocate q now : words [al_incarnation q; al_boot q; al_attempt q; now] →
      op_step w (allocate_epoch q now w).1
  | op_fence q now : words [fq_epoch q; fq_incarnation q; now] → op_step w (fence q now w).1
  | op_release q now : is_u64 now → op_step w (release q now w).1
  | op_commit io q now : op_step w (commit io q now w).1
  | op_domain d now : domain_good d → op_step w (define_domain d now w).1
  | op_policy p now : arbiter_policy_wf p → op_step w (define_policy p now w).1
  | op_incarnation now : op_step w (allocate_incarnation now w).1
  | op_recover now : is_u64 now → id_valid (rc_node (rs_config (w_state w))) →
      op_step w (recover_after_restart now w).1.

(** A service's state: initialised over an opened fabric, then operated on. *)
Definition reachable (w : World) : Prop :=
  ∃ f log config s, arbiter_policy_wf (rc_policy config) ∧
    initialise (set_fabric f registry0) config (mkStepClock 0)
      (mkBoot 0 0 (rc_node config) 0 0 false false 0) = (s, status_ok) ∧
    rtc op_step (mkWorld s [] log) w.

(** What [safe] says of the state an operation leaves. *)
Lemma safe_good {A} s0 (m : M A) Q w : safe s0 (λ s, s = s0) m Q → w_state w = s0 →
  (∀ x s, Q x s → good s0 s) → good s0 (w_state (m w).1).
Proof.
  intros H Hw HQ. specialize (H w Hw). destruct (m w) as [w' [x|st]]; [by eapply HQ|done].
Qed.

Lemma safe_run {A} (m : M A) Q w w' x : safe (w_state w) (λ s, s = w_state w) m Q →
  m w = (w', Ret x) → Q x (w_state w').
Proof. intros H E. specialize (H w eq_refl). by rewrite E in H. Qed.

Lemma op_step_progress w w' : op_step w w' → registry_inv (w_state w) →
  progress (w_state w) (w_state w').
Proof.
  intros Hs Hi. destruct Hs.
  - eapply safe_good; [by apply safe_allocate_epoch|done|naive_solver].
  - eapply safe_good; [by apply safe_fence|done|naive_solver].
  - eapply safe_good; [by apply safe_release|done|naive_solver].
  - eapply safe_good; [by apply safe_commit|done|naive_solver].
  - eapply safe_good; [by apply safe_define_domain|done|naive_solver].
  - eapply safe_good; [by apply safe_define_policy|done|naive_solver].
  - eapply safe_good; [by apply safe_allocate_incarnation|done|naive_solver].
  - eapply safe_good; [by apply safe_recover|done|naive_solver].
Qed.

Lemma op_steps_progress w w' : rtc op_step w w' → registry_inv (w_state w) →
  progress (w_state w) (w_state w').
Proof.
  induction 1 as [w|w w1 w' Hs _ IH]; intros Hi; [by apply progress_core|].
  pose proof (op_step_progress _ _ Hs Hi) as [Hi1 Ha]. eapply progress_trans; [exact Ha|auto].
Qed.

Lemma initial_inv f config clock boot s : arbiter_policy_wf (rc_policy config) →
  br_incarnation boot = 0 →
  initialise (set_fabric f registry0) config clock boot = (s, status_ok) → registry_inv s.
Proof.
  intros (_ & _ & Hw) Hb. unfold initialise. destruct (_ || _); [done|].
  destruct (negb _) eqn:En; [by intros [= _ E]; rewrite E in En|].
  destruct (_ || _); [done|]. intros [= <-]. open_wf.
  assert (is_u64 0) by (unfold is_u64; lia).
  assert (lineage_wf lineage0) by (split; [repeat split; constructor|by vm_compute]).
  split; cbn; try (done || lia || apply Fencing.fence_table0_wf || apply Forall_nil_2).
  - intros g1 g2 []%elem_of_nil.
  - split; [constructor|apply Forall_nil_2].
  - repeat (apply Forall_cons; split; [assumption|]). constructor.
Qed.

(** ** Refusals *)

Lemma matches_true q g : matches q g = true ↔
  eg_domain g = dq_domain q ∧ eg_epoch g = dq_epoch q ∧ eg_incarnation g = dq_incarnation q ∧
  is_open g = true ∧ eg_extents g = dq_scope q.
Proof.
  unfold matches. rewrite !andb_true_iff, !Z.eqb_eq, eqb_eq, bool_decide_eq_true. tauto.
Qed.

(** An authoritative response rests on an open grant of exactly its subject. *)
Lemma decide_needs_grant s q now : is_authoritative (registry_decide s q now).2 = true →
  ∃ g, g ∈ lt_grants (rs_lineage s) ∧ matches q g = true ∧ eg_token g = dq_token q ∧
    ad_verdict (decide_authority (decide_request q g now) (decide_view s g now)) = Authoritative.
Proof.
  unfold registry_decide. destruct (_ || _); [done|].
  destruct (find_domain s (dq_domain q)) as [d|]; [|done].
  destruct (negb _); [done|]. destruct (List.find _ _) as [g|] eqn:Ef.
  - apply List.find_some in Ef as [Hin Hm]. apply list_elem_of_In in Hin.
    unfold decide_granted. destruct (Z.eqb_spec (eg_token g) (dq_token q)) as [Et|]; [|done].
    cbv zeta. cbn [snd negb]. set (dec := decide_authority _ _). intros Ha.
    exists g. split_and!; try done. destruct (is_authoritative dec) eqn:Ed; [|congruence].
    unfold is_authoritative, verdict_carries_authority in Ed. by apply bool_decide_eq_true in Ed.
  - cbv zeta. unfold is_authoritative, refused_decision. cbn [snd ad_verdict]. by case_bool_decide.
Qed.

(** Below the boot's incarnation nothing is open. *)
Lemma below_boot s i g : registry_inv s → i <= br_incarnation (rs_boot s) →
  g ∈ lt_grants (rs_lineage s) → is_open g = true → eg_incarnation g ≠ i.
Proof.
  intros Hi Hle Hg Ho. pose proof (ri_current _ Hi) as Hc. rewrite Forall_forall in Hc.
  specialize (Hc g Hg Ho). cbn in Hc. lia.
Qed.

(** An operation that cannot succeed is refused. *)
Lemma safe_refused {A} s0 (m : M A) Q w : safe s0 (λ s, s = s0) m Q → w_state w = s0 →
  (∀ x s, ¬ Q x s) → ∃ w' st, m w = (w', Err st) ∧ good s0 (w_state w').
Proof.
  intros H Hw HQ. specialize (H w Hw). destruct (m w) as [w' [x|st]]; [by apply HQ in H|by exists w', st].
Qed.

(** ** The effect of a commit *)

Definition mutation_of (q : CommitRequest) (now : Step) : Mutation :=
  mkMutationArgs (cq_domain q) (cq_token q) (cq_scope q) (cq_epoch q) (cq_incarnation q)
    (cq_grant q) (cq_operation q) (cq_payload q) now.

Lemma bind_guard {A} c st (k : M A) w :
  (refuse_if c st ≫= λ _, k) w = if c then (w, Err st) else k w.
Proof. by destruct c. Qed.

Lemma bind_check_registered {A} domain scope (k : M A) w :
  (∃ st, (check_registered domain scope ≫= λ _, k) w = (w, Err st)) ∨
  (check_registered domain scope ≫= λ _, k) w = k w.
Proof.
  unfold check_registered, mbind, m_bind, state, refuse_if, refuse, mret, m_ret.
  destruct (find_domain _ _); [|by eauto]. case_bool_decide; simpl; eauto.
Qed.

(** A record never reaches the fabric. *)
Lemma apply_kind_fabric r s : rs_fabric (apply_kind r s).1 = rs_fabric s.
Proof.
  assert (Hp : ∀ A (d : reader → result (A * reader)) k, (∀ x, rs_fabric (k x s).1 = rs_fabric s) →
    rs_fabric (with_payload d (jr_payload r) k s).1 = rs_fabric s).
  { intros A d k Hk. unfold with_payload. by destruct (decode_all _ _). }
  assert (Hm : ∀ scope s', rs_fabric (remember_scope scope s') = rs_fabric s').
  { intros. unfold remember_scope. by repeat case_match. }
  unfold apply_kind. cbv zeta. destruct (jr_kind r); try done; apply Hp; intros x; try done.
  all: unfold apply_boot_begin, apply_boot_end, apply_domain, apply_grant_open, apply_grant_close,
    apply_fence, apply_adopt, apply_incarnation; cbv zeta.
  all: repeat case_match; cbn; rewrite ?Hm; done.
Qed.

Lemma emit_frame kind payload st now w :
  let w' := (emit kind payload st now w).1 in
  rs_fabric (w_state w') = rs_fabric (w_state w) ∧ w_log w' = w_log w ∧
  match (emit kind payload st now w).2 with
  | Ret _ => w_out w' = w_out w ++ [emitted (w_state w) kind payload st now]
  | Err _ => w_out w' = w_out w
  end.
Proof.
  unfold emit. fold (emitted (w_state w) kind payload st now). cbv zeta.
  set (r := emitted _ _ _ _ _).
  assert (Hf : rs_fabric (apply r (w_state w)).1 = rs_fabric (w_state w)).
  { unfold apply. destruct (negb _); [done|]. destruct (_ <? _); [done|].
    rewrite apply_kind_fabric. unfold observe. cbv zeta. by case_match. }
  destruct (apply r (w_state w)) as [s [o rs d]]. cbn in Hf. by destruct (negb _).
Qed.

(** The branches of [commit]: refused with nothing touched, refused by the
    boundary, or admitted, and then recorded or not. *)
Lemma commit_cases io q now w :
  (∃ st, commit io q now w = (w, Err st)) ∨
  (∃ g, g ∈ lt_grants (rs_lineage (w_state w)) ∧ bound q g ∧
     let '(f, log, r) := fabric_admit io (rs_fabric (w_state w)) (w_log w) (mutation_of q now) in
     let w1 := mkWorld (set_fabric f (w_state w)) (w_out w) log in
     match r with
     | Err st => commit io q now w = (w1, Err st)
     | Ret m =>
         commit io q now w =
           match emit KCommitRecord (w_counter (mr_sequence m) ++ w_digest (mr_digest m)) status_ok
                   now w1 with
           | (w', Ret _) =>
               (w', Ret (mkCommitted (mr_sequence m) (mr_token m) (mr_digest m) true))
           | (w', Err st) => (w', Err st)
           end
     end).
Proof.
  unfold commit. rewrite !bind_guard. do 2 (destruct (_ || _); [by eauto|]).
  match goal with |- context [check_registered ?d ?s ≫= (λ _, ?k)] =>
    destruct (bind_check_registered d s k w) as [[st ->]| ->] end; [by eauto|].
  destruct (check_grant_spec q w) as [E H].
  match goal with |- context [check_grant q ≫= ?k] =>
    set (m := check_grant q ≫= k); set (k' := k) in m end.
  assert (Em : m w = match (check_grant q w).2 with Ret _ => k' tt w | Err st => (w, Err st) end).
  { unfold m, mbind, m_bind. rewrite E. cbn. by destruct (check_grant q w).2 as [[]|]. }
  rewrite Em. destruct (check_grant q w).2 as [[]|st]; [|by eauto]. right.
  destruct (H eq_refl) as (g & Hg & Hb). exists g. split; [done|]. split; [done|]. unfold k'.
  clear. unfold mbind, m_bind, admit_effect, mutation_of.
  destruct (fabric_admit _ _ _ _) as [[f log] [m|st]]; [|done]. cbv zeta.
  by destruct (emit _ _ _ _ _) as [w' [[]|st]].
Qed.

Module Registries.

(** C1: Mutual exclusion. Whatever operations a service has run since it was
    initialised, successful or refused, two open grants whose scopes share an
    extent are one grant; so two requests the registry decides as
    authoritative for overlapping scopes name the same domain, epoch,
    incarnation and token. *)
Theorem mutual_exclusion (w : World) : reachable w →
  (∀ g1 g2, g1 ∈ lt_grants (rs_lineage (w_state w)) → g2 ∈ lt_grants (rs_lineage (w_state w)) →
     is_open g1 = true → is_open g2 = true → overlaps (eg_extents g1) (eg_extents g2) = true →
     g1 = g2) ∧
  (∀ q1 q2 now1 now2, overlaps (dq_scope q1) (dq_scope q2) = true →
     is_authoritative (registry_decide (w_state w) q1 now1).2 = true →
     is_authoritative (registry_decide (w_state w) q2 now2).2 = true →
     (dq_domain q1, dq_epoch q1, dq_incarnation q1, dq_token q1) =
     (dq_domain q2, dq_epoch q2, dq_incarnation q2, dq_token q2)).
Proof.
  intros (f & log & config & s & Hp & Hinit & Hsteps).
  apply initial_inv in Hinit as Hi; [|done..].
  pose proof (op_steps_progress _ _ Hsteps Hi) as [Hi' _].
  assert (H : ∀ g1 g2, g1 ∈ lt_grants (rs_lineage (w_state w)) →
    g2 ∈ lt_grants (rs_lineage (w_state w)) →
    is_open g1 = true → is_open g2 = true → overlaps (eg_extents g1) (eg_extents g2) = true →
    g1 = g2).
  { intros g1 g2 H1 H2 O1 O2 Ho. destruct (ri_lineage _ Hi') as [[Hnd _] _].
    eapply (NoDup_fmap_eq eg_id); [exact Hnd|done..|].
    destruct (decide (eg_id g1 = eg_id g2)) as [|Hne]; [done|].
    by rewrite (ri_exclusive _ Hi' g1 g2) in Ho. }
  split; [exact H|]. intros q1 q2 now1 now2 Ho A1 A2.
  apply decide_needs_grant in A1 as (g1 & I1 & (M1 & M2 & M3 & M4 & M5)%matches_true & T1 & _).
  apply decide_needs_grant in A2 as (g2 & I2 & (N1 & N2 & N3 & N4 & N5)%matches_true & T2 & _).
  assert (g1 = g2) as <- by (apply H; congruence). congruence.
Qed.

(** C7: No authority survives a restart. After [recover_after_restart]
    succeeds, and after any operations that follow, no incarnation allocated
    before the restart can be granted an epoch, commit an effect, or be decided
    authoritative. *)
Theorem restart_revokes (w0 w1 w2 : World) (now : Step) (i : IncarnationId) :
  registry_inv (w_state w0) → is_u64 now → id_valid (rc_node (rs_config (w_state w0))) →
  recover_after_restart now w0 = (w1, Ret tt) → rtc op_step w1 w2 →
  i <= rs_incarnations (w_state w0) →
  (∀ q t, al_incarnation q = i → words [al_incarnation q; al_boot q; al_attempt q; t] →
     ∃ w st, allocate_epoch q t w2 = (w, Err st)) ∧
  (∀ io q t, cq_incarnation q = i → ∃ w st, commit io q t w2 = (w, Err st)) ∧
  (∀ q t, dq_incarnation q = i → is_authoritative (registry_decide (w_state w2) q t).2 = false).
Proof.
  intros Hi Hn Hnode Hrec Hsteps Hle.
  pose proof (safe_run _ _ _ _ _ (safe_recover _ now Hi Hn Hnode) Hrec) as [[Hi1 _] (_ & Hb & _)].
  pose proof (op_steps_progress _ _ Hsteps Hi1) as [Hi2 Ha]. pose proof (ad_boot _ _ Ha) as Hm.
  assert (Hold : i <= br_incarnation (rs_boot (w_state w2))) by lia.
  split; [|split].
  - intros q t Eq Hw. destruct (safe_refused (w_state w2) (allocate_epoch q t) _ w2
      (safe_allocate_epoch _ _ _ Hi2 Hw) eq_refl) as (w & st & E & _); [|by exists w, st].
    intros a s (_ & [Hc _] & _). lia.
  - intros io q t Eq. destruct (safe_refused (w_state w2) (commit io q t) _ w2
      (safe_commit _ io q t Hi2) eq_refl) as (w & st & E & _); [|by exists w, st].
    intros a s (_ & g & Hg & (_ & Ho & _ & _ & _ & Ei & _)).
    apply (below_boot _ i g Hi2 Hold Hg Ho). congruence.
  - intros q t Eq. destruct (is_authoritative _) eqn:E; [|done].
    apply decide_needs_grant in E as (g & Hg & (_ & _ & M3 & Ho & _)%matches_true & _).
    exfalso. apply (below_boot _ i g Hi2 Hold Hg Ho). congruence.
Qed.

(** C19: No resurrection. Once an incarnation is fenced, no later operation
    makes it current again: every allocation it asks for is refused. *)
Theorem no_resurrection (w w' : World) (q : AllocateRequest) (now : Step) :
  registry_inv (w_state w) → incarnation_fenced (rs_fences (w_state w)) (al_incarnation q) = true →
  rtc op_step w w' → words [al_incarnation q; al_boot q; al_attempt q; now] →
  ∃ w'' st, allocate_epoch q now w' = (w'', Err st) ∧ progress (w_state w') (w_state w'').
Proof.
  intros Hi Hf Hsteps Hw. pose proof (op_steps_progress _ _ Hsteps Hi) as [Hi' Ha].
  destruct (safe_refused (w_state w') (allocate_epoch q now) _ w'
    (safe_allocate_epoch _ _ _ Hi' Hw) eq_refl) as (w'' & st & E & Hg).
  - intros a s (_ & [_ Hc] & _). by rewrite (ad_fenced _ _ Ha _ Hf) in Hc.
  - by exists w'', st.
Qed.

(** C18: What an allocation grants. A successful [allocate_epoch] names an open
    grant of exactly the request's domain, scope, incarnation and attempt, for
    a current incarnation. Either it is the grant that attempt already had, or
    its token and id are above every earlier one, its epoch above every epoch the
    lineage still holds for the domain - a full lineage drops closed grants, and an
    epoch with them - each extent of the scope is marked with its token, and no
    other open grant shares an extent with it. *)
Theorem allocation_fresh (w w' : World) (q : AllocateRequest) (now : Step) (a : AllocateResponse) :
  registry_inv (w_state w) → words [al_incarnation q; al_boot q; al_attempt q; now] →
  allocate_epoch q now w = (w', Ret a) →
  current (w_state w) (al_incarnation q) ∧
  ∃ g, retried (w_state w) q a (w_state w') g ∨
    (opened (w_state w) q a (w_state w') g ∧
     ∀ x, x ∈ lt_grants (rs_lineage (w_state w')) → is_open x = true →
       overlaps (eg_extents x) (al_scope q) = true → x = g).
Proof.
  intros Hi Hw E.
  pose proof (safe_run _ _ _ _ _ (safe_allocate_epoch _ q now Hi Hw) E) as ([Hi' _] & Hc & g & [Ho|Hr]).
  - split; [done|]. exists g. right. split; [done|]. intros x Hx Hxo Hov.
    destruct Ho as [[Hg Hgo] _ (_ & Es & _) _ _]. destruct (ri_lineage _ Hi') as [[Hnd _] _].
    eapply (NoDup_fmap_eq eg_id); [exact Hnd|done..|].
    destruct (decide (eg_id x = eg_id g)) as [|Hne]; [done|].
    pose proof (ri_exclusive _ Hi' x g Hx Hg Hxo Hgo Hne) as Hno. rewrite Es in Hno. congruence.
  - split; [done|]. exists g. by left.
Qed.

(** What a fence and a release take away. After a successful [fence] no
    open grant of the domain, scope and epoch it names remains; after a
    successful [release] the grant it names is not open; neither loses a mark,
    a fenced incarnation, a token, a grant id or an incarnation. *)
Theorem revocation_complete (w : World) (now : Step) : registry_inv (w_state w) → is_u64 now →
  (∀ q w' x, words [fq_epoch q; fq_incarnation q] → fence q now w = (w', Ret x) →
     progress (w_state w) (w_state w') ∧
     ∀ g, g ∈ lt_grants (rs_lineage (w_state w')) → is_open g = true → fence_target q g = false) ∧
  (∀ q w' x, release q now w = (w', Ret x) →
     progress (w_state w) (w_state w') ∧
     ∀ g, g ∈ lt_grants (rs_lineage (w_state w')) → is_open g = true → eg_id g ≠ lq_grant q).
Proof.
  intros Hi Hn. split.
  - intros q w' x Hw E. assert (Hws : words [fq_epoch q; fq_incarnation q; now]).
    { open_wf. repeat (apply Forall_cons; split; [done|]). constructor. }
    by apply (safe_run _ _ _ _ _ (safe_fence _ q now Hi Hws) E).
  - intros q w' x E. by apply (safe_run _ _ _ _ _ (safe_release _ q now Hi Hn) E).
Qed.

(** C10: A commit is the fabric's admission, guarded by its grant. [commit]
    touches the fabric log only when an open grant has exactly the id, domain,
    scope, epoch, incarnation and token of the request; it then does what
    [admit] does, and a success is an admission whose record it reports and
    journals. *)
Theorem commit_guarded (io : AppendIo) (q : CommitRequest) (now : Step) (w w' : World)
    (r : result CommitResponse) :
  commit io q now w = (w', r) → (w_log w' ≠ w_log w ∨ ∃ c, r = Ret c) →
  ∃ g, g ∈ lt_grants (rs_lineage (w_state w)) ∧ bound q g ∧
    ∃ answer, fabric_admit io (rs_fabric (w_state w)) (w_log w) (mutation_of q now) =
                (rs_fabric (w_state w'), w_log w', answer) ∧
      ∀ c, r = Ret c → ∃ m, answer = Ret m ∧
        c = mkCommitted (mr_sequence m) (mr_token m) (mr_digest m) true ∧
        w_out w' = w_out w ++ [mkRecord KCommitRecord (u64 (rs_sequence (w_state w) + 1)) now
          status_ok (w_counter (mr_sequence m) ++ w_digest (mr_digest m))].
Proof.
  intros E Hor. destruct (commit_cases io q now w) as [[st Hst]|(g & Hg & Hb & Hcase)].
  { rewrite Hst in E. injection E as <- <-. by destruct Hor as [?|[c ?]]. }
  exists g. split; [done|]. split; [done|]. clear Hor. revert Hcase.
  destruct (fabric_admit _ _ _ _) as [[f log] [m|st]]; cbv zeta; intros Hc; rewrite Hc in E.
  2: { injection E as <- <-. by exists (Err st). }
  pose proof (emit_frame KCommitRecord (w_counter (mr_sequence m) ++ w_digest (mr_digest m)) status_ok
    now (mkWorld (set_fabric f (w_state w)) (w_out w) log)) as (Ef & El & Eo).
  destruct (emit _ _ _ _ _) as [w2 [u|st]]; injection E as <- <-; cbn [fst snd] in Ef, El, Eo;
    rewrite Ef, El; exists (Ret m); (split; [done|]); intros c Hcc; [|done].
  exists m. injection Hcc as <-. split_and!; [done..|]. exact Eo.
Qed.

(** ** A run: two domains sharing an extent, two incarnations *)

Definition demo_config : RegistryConfig :=
  mkConfig (str "store") (str "node") Decisions.demo_policy 1000 512 64.
Definition demo_start : RegistryState := set_fabric (fresh_fabric (str "store")) registry0.
Definition demo_boot : BootRecord := mkBoot 0 0 (str "node") 0 0 false false 0.
Definition demo_world : World :=
  mkWorld (initialise demo_start demo_config (mkStepClock 0) demo_boot).1 [] [].
Definition demo_domain (d : string) (scope : Scope) : DomainDefinition :=
  mkDomain (str d) (str "node") scope (str "p") true.
Definition ask (d : string) (scope : Scope) (i : IncarnationId) : AllocateRequest :=
  mkAllocate (str d) scope i 1 1.

(** Domains and incarnations, then a grant over both nodes, then one that
    supersedes it. *)
Definition demo_ready : World :=
  (allocate_incarnation 4
     (allocate_incarnation 3
        (define_domain (demo_domain "e" [str "n2"]) 2
           (define_domain (demo_domain "d" Decisions.demo_scope) 1 demo_world).1).1).1).1.
Definition demo_first : World := (allocate_epoch (ask "d" Decisions.demo_scope 1) 5 demo_ready).1.
Definition demo_second : World := (allocate_epoch (ask "e" [str "n2"] 2) 6 demo_first).1.
Definition demo_answer : AllocateResponse := mkAllocated 1 3 2 1006 4 1 4 (str "p") 6.
Definition demo_commit : CommitRequest :=
  mkCommit (str "e") [str "n2"] 1 2 2 3 (str "set") Digest256_zero.

Definition answer_of {A} (r : result A) : option A := match r with Ret x => Some x | Err _ => None end.

(** What the run computes. *)
Lemma demo_facts :
  (allocate_epoch (ask "e" [str "n2"] 2) 6 demo_first).2 = Ret demo_answer ∧
  eg_id <$> open_grants (rs_lineage (w_state demo_second)) = [2] ∧
  incarnation_fenced (rs_fences (w_state demo_second)) 1 = true ∧
  (recover_after_restart 7 demo_second).2 = Ret tt ∧
  (fence (mkFenceRequest (str "e") [str "n2"] 1 2 Reason.None) 7 demo_second).2 = Ret (4, 12) ∧
  (cr_token <$> answer_of (commit AppendDone demo_commit 7 demo_second).2) = Some 3 ∧
  rs_incarnations (w_state demo_second) = 2.
Proof. vm_compute. repeat split. Qed.

Lemma demo_id s : s ∈ ["d"; "e"; "n1"; "n2"; "node"; "store"; "p"; "w1"; "w2"; "w3"; "f1"; "f2"; "f3"]%string → id_valid (str s).
Proof.
  intros Hs. repeat (apply elem_of_cons in Hs as [->|Hs]; [by repeat split; vm_compute|]).
  by apply elem_of_nil in Hs.
Qed.

Lemma demo_node : id_valid (str "node").
Proof. apply demo_id. set_solver. Qed.

Lemma demo_words l : forallb (λ z, (0 <=? z) && (z <? 100000)) l = true → words l.
Proof. unfold words. rewrite forallb_forall, Forall_forall. intros H x Hx%list_elem_of_In%H. unfold is_u64. lia. Qed.

Lemma demo_domain_good d scope : d ∈ ["d"; "e"]%string → scope ∈ [Decisions.demo_scope; [str "n2"]] →
  domain_good (demo_domain d scope).
Proof.
  intros Hd Hs. assert (Hsc : scope_wf scope).
  { apply elem_of_cons in Hs as [->|Hs]; [|apply list_elem_of_singleton in Hs as ->]; (split; [done|]);
      (split; [by vm_compute|]); (split; [repeat constructor|]);
      repeat (apply Forall_cons; split; [apply demo_id; set_solver|]); constructor. }
  split; [|done]. split_and!; [apply demo_id; set_solver..|by right].
Qed.

Lemma demo_policy_wf : arbiter_policy_wf Decisions.demo_policy.
Proof.
  split; [apply demo_id; set_solver|]. split; [|by apply demo_words].
  split; [apply demo_id; set_solver|]. split_and!; try by vm_compute.
  repeat (apply Forall_cons; split; [split; apply demo_id; set_solver|]). constructor.
Qed.

Lemma demo_reachable : reachable demo_second ∧ rtc op_step demo_first demo_second ∧
  registry_inv (w_state demo_first) ∧ registry_inv (w_state demo_second) ∧
  rs_config (w_state demo_second) = demo_config.
Proof.
  assert (Hi : ∃ s, initialise demo_start demo_config (mkStepClock 0) demo_boot = (s, status_ok) ∧
    demo_world = mkWorld s [] [] ∧ rs_config s = demo_config).
  { eexists. split; [vm_compute; reflexivity|]. split; [vm_compute; reflexivity|reflexivity]. }
  destruct Hi as (s & Es & Ew & Ec).
  assert (H1 : rtc op_step demo_world demo_first).
  { unfold demo_first, demo_ready.
    eapply rtc_r; [|by apply op_allocate, demo_words].
    eapply rtc_r; [|apply op_incarnation]. eapply rtc_r; [|apply op_incarnation].
    eapply rtc_r; [|apply op_domain, demo_domain_good; [right; left|right; left]].
    apply rtc_once, op_domain, demo_domain_good; left. }
  assert (H2 : rtc op_step demo_first demo_second).
  { by apply rtc_once, op_allocate, demo_words. }
  assert (H0 : registry_inv (w_state demo_world)).
  { rewrite Ew. eapply initial_inv; [| |exact Es]; [apply demo_policy_wf|done]. }
  assert (H3 : progress (w_state demo_world) (w_state demo_second)).
  { apply op_steps_progress; [etrans; [exact H1|exact H2]|exact H0]. }
  split; [|split; [exact H2|split; [|split; [apply H3|]]]].
  - exists (fresh_fabric (str "store")), [], demo_config, s. split; [apply demo_policy_wf|].
    split; [exact Es|]. rewrite <-Ew. etrans; [exact H1|exact H2].
  - exact (proj1 (op_steps_progress _ _ H1 H0)).
  - etrans; [apply (ad_config _ _ (proj2 H3))|]. by rewrite Ew.
Qed.

Lemma demo_second_run :
  allocate_epoch (ask "e" [str "n2"] 2) 6 demo_first = (demo_second, Ret demo_answer) ∧
  registry_inv (w_state demo_second).
Proof.
  split; [|apply demo_reachable]. destruct demo_facts as (E & _). unfold demo_second.
  revert E. destruct (allocate_epoch _ 6 demo_first) as [w r]. intros E. exact (f_equal _ E).
Qed.

#[local] Opaque demo_ready demo_first demo_second.

Lemma mutual_exclusion_witness :
  eg_id <$> open_grants (rs_lineage (w_state demo_second)) = [2] ∧
  ∀ g1 g2, g1 ∈ lt_grants (rs_lineage (w_state demo_second)) →
    g2 ∈ lt_grants (rs_lineage (w_state demo_second)) → is_open g1 = true → is_open g2 = true →
    overlaps (eg_extents g1) (eg_extents g2) = true → g1 = g2.
Proof.
  destruct demo_facts as (_ & E & _), demo_reachable as (Hr & _).
  split; [exact E|]. exact (proj1 (mutual_exclusion demo_second Hr)).
Defined.

Lemma restart_revokes_witness : ∃ w, recover_after_restart 7 demo_second = (w, Ret tt) ∧
  ∀ q t, al_incarnation q = 2 → words [2; al_boot q; al_attempt q; t] →
    ∃ w' st, allocate_epoch q t w = (w', Err st).
Proof.
  destruct demo_facts as (_ & _ & _ & E & _ & _ & Ei), demo_reachable as (_ & _ & _ & Hi & Ec).
  assert (Hnode : id_valid (rc_node (rs_config (w_state demo_second)))).
  { rewrite Ec. exact demo_node. }
  assert (Hle : 2 <= rs_incarnations (w_state demo_second)) by (rewrite Ei; lia).
  assert (Hn : is_u64 7) by (unfold is_u64; lia).
  destruct (recover_after_restart 7 demo_second) as [w r] eqn:Er. cbn in E. subst r.
  exists w. split; [reflexivity|]. intros q t Eq Hw.
  refine (proj1 (restart_revokes demo_second w w 7 2 Hi Hn Hnode Er (rtc_refl _ _) Hle) q t Eq _).
  rewrite Eq. exact Hw.
Defined.

Lemma no_resurrection_witness : ∃ w st,
  allocate_epoch (ask "d" Decisions.demo_scope 1) 9 demo_second = (w, Err st).
Proof.
  pose proof (demo_words [1; 1; 1; 9] eq_refl) as Hw.
  destruct demo_facts as (_ & _ & E & _), demo_reachable as (_ & _ & _ & Hi & _).
  destruct (no_resurrection demo_second demo_second (ask "d" Decisions.demo_scope 1) 9 Hi E
              (rtc_refl _ _) Hw) as (w & st & H & _).
  exists w, st. exact H.
Defined.

Lemma allocation_fresh_witness : current (w_state demo_first) 2.
Proof.
  pose proof (demo_words [2; 1; 1; 6] eq_refl) as Hw.
  destruct demo_second_run as [Er E], demo_reachable as (_ & _ & Hi & _).
  exact (proj1 (allocation_fresh demo_first demo_second (ask "e" [str "n2"] 2) 6 demo_answer Hi Hw Er)).
Defined.

Lemma revocation_complete_witness : ∃ w,
  fence (mkFenceRequest (str "e") [str "n2"] 1 2 Reason.None) 7 demo_second = (w, Ret (4, 12)) ∧
  progress (w_state demo_second) (w_state w).
Proof.
  pose proof (demo_words [1; 2] eq_refl) as Hw. assert (Hn : is_u64 7) by (unfold is_u64; lia).
  destruct demo_facts as (_ & _ & _ & _ & E & _), demo_reachable as (_ & _ & _ & Hi & _).
  destruct (fence _ 7 demo_second) as [w r] eqn:Ef. cbn in E. subst r. exists w.
  split; [reflexivity|].
  exact (proj1 (proj1 (revocation_complete demo_second 7 Hi Hn)
    (mkFenceRequest (str "e") [str "n2"] 1 2 Reason.None) w (4, 12) Hw Ef)).
Defined.

Lemma commit_guarded_witness : ∃ g, g ∈ lt_grants (rs_lineage (w_state demo_second)) ∧
  bound demo_commit g.
Proof.
  destruct demo_facts as (_ & _ & _ & _ & _ & E & _).
  destruct (commit AppendDone demo_commit 7 demo_second) as [w [c|st]] eqn:Ec; [|discriminate E].
  destruct (commit_guarded AppendDone demo_commit 7 demo_second w (Ret c) Ec
              (or_intror (ex_intro _ c eq_refl))) as (g & Hg & Hb & _).
  exists g. exact (conj Hg Hb).
Defined.
End Registries.
