(* ===== verification/Replay.v ===== *)
(** * The journal carries the state

    Recovery rebuilds the registry by [apply]ing the journal
    ([RegistryService::open] in [src/registry_service.cpp], over
    [RegistryState::apply]).  Here: the durable part of a live state is exactly
    what replaying the records it emitted produces, after every operation that
    succeeds and every one that is refused, unless a record was refused: [apply]
    then has moved the sequence, and [wedged] says what is left.  [volatile] fields
    (the clock, the generation, the counters of retries and restarts and the effect
    boundary, which has its own log) are erased before states are compared. *)
From S2P Require Import Prelude Order SortedVec Status Ids Text Digest Canonical Scope.
From S2P Require Import Fence Lineage Evidence Arbiter Codec Readers Journal Fabric Registry.
Open Scope Z_scope.

(** The state without its volatile fields. *)
Definition erase (s : RegistryState) : RegistryState :=
  mkRegistry (rs_config s) (rs_store_id s) (mkStepClock 0) (rs_last_step s) (rs_boot s)
    (rs_sequence s) 0 (rs_fences s) (rs_lineage s) fabric0 (rs_domains s) (rs_policy s)
    (rs_idempotency s) (rs_interrupts s) (rs_scopes s) (rs_tokens s) (rs_grants s)
    (rs_incarnations s) (rs_commits s) 0 0 (rs_phase s).

(** Equal up to volatile fields. *)
Definition same_durable (s s' : RegistryState) : Prop := erase s = erase s'.

#[export] Instance same_durable_equiv : Equivalence same_durable.
Proof. unfold same_durable. split; repeat intros ?; congruence. Qed.

(** A transition that neither reads nor leaks a volatile field. *)
Definition respects (f : RegistryState → RegistryState * Status) : Prop :=
  ∀ s s', same_durable s s' → same_durable (f s).1 (f s').1 ∧ (f s).2 = (f s').2.

(** Destruct two states that agree on every durable field. *)
Ltac same_states s s' :=
  lazymatch goal with E : same_durable s s' |- _ =>
    destruct s, s'; unfold same_durable, erase in *; cbn in *;
    injection E; clear E; intros; subst end.

Lemma respects_payload {A} (d : reader → result (A * reader)) payload k :
  (∀ x, respects (k x)) → respects (with_payload d payload k).
Proof.
  intros Hk s s' E. unfold with_payload. destruct (decode_all d payload); [by apply Hk|done].
Qed.

(** Reads and writes of durable fields cannot tell such states apart. *)
Ltac same_field := intros s s' E; by same_states s s'.

#[export] Instance lineage_proper : Proper (same_durable ==> (=)) rs_lineage.
Proof. same_field. Qed.
#[export] Instance fences_proper : Proper (same_durable ==> (=)) rs_fences.
Proof. same_field. Qed.
#[export] Instance domains_proper : Proper (same_durable ==> (=)) rs_domains.
Proof. same_field. Qed.
#[export] Instance scopes_proper : Proper (same_durable ==> (=)) rs_scopes.
Proof. same_field. Qed.
#[export] Instance interrupts_proper : Proper (same_durable ==> (=)) rs_interrupts.
Proof. same_field. Qed.
#[export] Instance tokens_proper : Proper (same_durable ==> (=)) rs_tokens.
Proof. same_field. Qed.
#[export] Instance grants_proper : Proper (same_durable ==> (=)) rs_grants.
Proof. same_field. Qed.
#[export] Instance incarnations_proper : Proper (same_durable ==> (=)) rs_incarnations.
Proof. same_field. Qed.
#[export] Instance commits_proper : Proper (same_durable ==> (=)) rs_commits.
Proof. same_field. Qed.
#[export] Instance sequence_proper : Proper (same_durable ==> (=)) rs_sequence.
Proof. same_field. Qed.
#[export] Instance last_step_proper : Proper (same_durable ==> (=)) rs_last_step.
Proof. same_field. Qed.

Ltac same_update := intros x ? <-; same_field.

#[export] Instance set_boot_proper : Proper ((=) ==> same_durable ==> same_durable) set_boot.
Proof. same_update. Qed.
#[export] Instance set_lineage_proper : Proper ((=) ==> same_durable ==> same_durable) set_lineage.
Proof. same_update. Qed.
#[export] Instance set_fences_proper : Proper ((=) ==> same_durable ==> same_durable) set_fences.
Proof. same_update. Qed.
#[export] Instance set_domains_proper : Proper ((=) ==> same_durable ==> same_durable) set_domains.
Proof. same_update. Qed.
#[export] Instance set_scopes_proper : Proper ((=) ==> same_durable ==> same_durable) set_scopes.
Proof. same_update. Qed.
#[export] Instance set_interrupts_proper : Proper ((=) ==> same_durable ==> same_durable) set_interrupts.
Proof. same_update. Qed.
#[export] Instance set_tokens_proper : Proper ((=) ==> same_durable ==> same_durable) set_tokens.
Proof. same_update. Qed.
#[export] Instance set_grants_proper : Proper ((=) ==> same_durable ==> same_durable) set_grants.
Proof. same_update. Qed.
#[export] Instance set_incarnations_proper :
  Proper ((=) ==> same_durable ==> same_durable) set_incarnations.
Proof. same_update. Qed.
#[export] Instance set_commits_proper : Proper ((=) ==> same_durable ==> same_durable) set_commits.
Proof. same_update. Qed.
#[export] Instance set_policy_proper : Proper ((=) ==> same_durable ==> same_durable) set_policy.
Proof. same_update. Qed.
#[export] Instance set_sequence_proper : Proper ((=) ==> same_durable ==> same_durable) set_sequence.
Proof. same_update. Qed.
#[export] Instance set_last_step_proper : Proper ((=) ==> same_durable ==> same_durable) set_last_step.
Proof. same_update. Qed.

Lemma same_clock c c' s s' : same_durable s s' → same_durable (set_clock c s) (set_clock c' s').
Proof. intros E. by same_states s s'. Qed.

Lemma remember_respects scope s s' : same_durable s s' →
  same_durable (remember_scope scope s) (remember_scope scope s').
Proof.
  intros E. unfold remember_scope. cbv zeta. rewrite (scopes_proper _ _ E).
  repeat case_match; by rewrite ?E.
Qed.
#[export] Instance remember_proper : Proper ((=) ==> same_durable ==> same_durable) remember_scope.
Proof. intros scope ? <- s s' E. by apply remember_respects. Qed.

Lemma respects_boot_begin b : respects (apply_boot_begin b).
Proof.
  intros s s' E. unfold apply_boot_begin. cbv zeta.
  apply (set_boot_proper b b eq_refl) in E. rewrite (incarnations_proper _ _ E). set (v := raise _ _).
  apply (set_incarnations_proper v v eq_refl) in E. rewrite (lineage_proper _ _ E).
  destruct (begin_boot _ _). cbn [fst snd]. by rewrite E.
Qed.

Lemma respects_boot_end b : respects (apply_boot_end b).
Proof.
  intros s s' E. unfold apply_boot_end. rewrite (lineage_proper _ _ E).
  destruct (end_boot _ _ _ _). cbn [fst snd]. by rewrite E.
Qed.

Lemma respects_domain d : respects (apply_domain d).
Proof.
  intros s s' E. unfold apply_domain, find_domain. rewrite (domains_proper _ _ E).
  repeat case_match; cbn [fst snd]; by rewrite ?E.
Qed.

Lemma respects_grant_open g : respects (apply_grant_open g).
Proof.
  intros s s' E. unfold apply_grant_open. cbv zeta. rewrite (grants_proper _ _ E).
  apply (set_grants_proper (raise (rs_grants s') (eg_id g)) _ eq_refl) in E.
  rewrite (tokens_proper _ _ E). set (v := raise (rs_tokens _) _).
  apply (set_tokens_proper v v eq_refl) in E. rewrite (lineage_proper _ _ E).
  destruct (open_grant _ _). cbn [fst snd]. by rewrite E.
Qed.

Lemma respects_grant_close g : respects (apply_grant_close g).
Proof.
  intros s s' E. unfold apply_grant_close. rewrite (lineage_proper _ _ E).
  destruct (lineage_close_grant _ _ _ _ _). cbn [fst snd]. by rewrite E.
Qed.

Lemma respects_fence f scope : respects (apply_fence f scope).
Proof.
  intros s s' E. unfold apply_fence. cbv zeta. rewrite (tokens_proper _ _ E).
  set (v := raise _ _). apply (set_tokens_proper v v eq_refl) in E.
  apply (remember_respects scope) in E. rewrite (fences_proper _ _ E).
  destruct (fence_apply _ _ _). cbn [fst snd]. by rewrite E.
Qed.

Lemma respects_adopt f scope : respects (apply_adopt f scope).
Proof.
  intros s s' E. unfold apply_adopt. cbv zeta. rewrite (tokens_proper _ _ E).
  set (v := raise _ _). apply (set_tokens_proper v v eq_refl) in E.
  apply (remember_respects scope) in E. rewrite (fences_proper _ _ E).
  destruct (fence_adopt _ _ _ _ _ _ _). cbn [fst snd]. by rewrite E.
Qed.

Lemma respects_incarnation v : respects (apply_incarnation v).
Proof.
  intros s s' E. unfold apply_incarnation. rewrite (incarnations_proper _ _ E).
  case_match; cbn [fst snd]; by rewrite ?E.
Qed.

Lemma respects_interrupt m : respects (apply_interrupt m).
Proof.
  intros s s' E. unfold apply_interrupt. cbv zeta. rewrite (interrupts_proper _ _ E).
  cbn [fst snd]. by rewrite E.
Qed.

Lemma respects_policy p : respects (λ s, (set_policy p s, status_ok)).
Proof. intros s s' E. cbn [fst snd]. by rewrite E. Qed.

Lemma respects_commits : respects (λ s, (set_commits (u64 (rs_commits s + 1)) s, status_ok)).
Proof. intros s s' E. cbn [fst snd]. rewrite (commits_proper _ _ E). by rewrite E. Qed.

Create HintDb respects.
#[export] Hint Resolve respects_payload respects_boot_begin respects_boot_end respects_domain
  respects_grant_open respects_grant_close respects_fence respects_adopt respects_incarnation
  respects_interrupt respects_policy respects_commits : respects.

Lemma respects_kind r : respects (apply_kind r).
Proof.
  unfold apply_kind. cbv zeta.
  destruct (jr_kind r); try (by intros s s' E); auto 6 with respects.
Qed.

Lemma observe_respects r s s' : same_durable s s' → same_durable (observe r s) (observe r s').
Proof.
  intros E. unfold observe. cbv zeta. set (v := jr_sequence r).
  apply (set_sequence_proper v v eq_refl) in E. rewrite (last_step_proper _ _ E).
  case_match; apply same_clock; by rewrite ?E.
Qed.

(** Replay does not depend on the volatile fields. *)
Lemma respects_apply r : respects (apply r).
Proof.
  intros s s' E. unfold apply. destruct (negb _); [done|].
  rewrite (sequence_proper _ _ E).
  destruct (_ <? _); [done|]. by apply respects_kind, observe_respects.
Qed.

(** ** What an operation emits is what it did *)

(** Replaying [w]'s records from [base] gives [w]'s durable state. *)
Definition journaled (base : RegistryState) (w : World) : Prop :=
  ∃ s, visit_all apply (w_out w) base = (s, status_ok) ∧ same_durable s (w_state w).

(** The state refused a record: what was emitted rebuilds the state it was put to,
    and what that refusal left is the state now, its sequence past the record. *)
Definition wedged (base : RegistryState) (w : World) : Prop :=
  ∃ s r, visit_all apply (w_out w) base = (s, status_ok) ∧
    jr_sequence r = u64 (rs_sequence s + 1) ∧ is_ok (apply r s).2 = false ∧
    same_durable (apply r s).1 (w_state w).

(** A success keeps the journal and the state together, and a refusal does unless
    it was of a record. *)
Definition after {A} (base : RegistryState) (w : World) (r : result A) : Prop :=
  match r with Ret _ => journaled base w | Err _ => journaled base w ∨ wedged base w end.

Definition tracks {A} (m : M A) : Prop :=
  ∀ base w w' r, journaled base w → m w = (w', r) → after base w' r.

Lemma journaled_after {A} base w (r : result A) : journaled base w → after base w r.
Proof. destruct r; [done|by left]. Qed.

Lemma visit_all_app {S} (visitor : JournalRecord → S → S * Status) rs qs x :
  visit_all visitor (rs ++ qs) x =
    (let '(y, st) := visit_all visitor rs x in if is_ok st then visit_all visitor qs y else (y, st)).
Proof.
  revert x. induction rs as [|r rs IH]; intros x; [done|]. cbn [app visit_all].
  destruct (visitor r x) as [y st]. destruct (is_ok st) eqn:E; [apply IH|by rewrite E].
Qed.

Section tracks_rules.
Context {A B : Type}.

Lemma tracks_bind (m : M A) (k : A → M B) : tracks m → (∀ x, tracks (k x)) → tracks (m ≫= k).
Proof.
  intros Hm Hk base w w' y Hj. unfold mbind, m_bind. specialize (Hm base w).
  destruct (m w) as [w1 [x|st]]; specialize (Hm _ _ Hj eq_refl).
  - by apply Hk.
  - by intros [= <- <-].
Qed.

Lemma tracks_refuse st : tracks (refuse st : M A).
Proof. intros base w w' x Hj [= <- <-]. by left. Qed.

Lemma tracks_ret (x : A) : tracks (mret x).
Proof. by intros base w w' y Hj [= <- <-]. Qed.
End tracks_rules.

Lemma tracks_state : tracks state.
Proof. by intros base w w' y Hj [= <- <-]. Qed.

Lemma tracks_refuse_if c st : tracks (refuse_if c st).
Proof. unfold refuse_if. destruct c; [apply tracks_refuse|apply tracks_ret]. Qed.

Lemma tracks_modify f : (∀ s, same_durable s (f s)) → tracks (modify f).
Proof.
  intros Hf base w w' y (s & E & Hs) [= <- <-]. exists s. split; [done|]. cbn. by rewrite Hs.
Qed.

(** A record is applied before it is handed out, to the state it then describes. *)
Lemma tracks_emit kind payload status now : tracks (emit kind payload status now).
Proof.
  intros base w w' y (s & E & Hs). unfold emit. set (r := mkRecord _ _ _ _ _).
  destruct (apply r (w_state w)) as [s1 st] eqn:Ea. destruct (is_ok st) eqn:Ok.
  2: { cbn [negb]. intros [= <- <-]. right. destruct (respects_apply r _ _ Hs) as [Hd Hst].
    rewrite Ea in Hd, Hst. cbn in Hd, Hst. exists s, r. cbn [w_out w_state].
    split; [done|]. split; [cbn; by rewrite (sequence_proper _ _ Hs)|]. by rewrite Hst. }
  cbn [negb]. intros [= <- <-]. destruct (respects_apply r _ _ Hs) as [Hd Hst].
  rewrite Ea in Hd, Hst. cbn in Hd, Hst. exists (apply r s).1. cbn [w_out w_state].
  rewrite visit_all_app, E. cbn [is_ok outcome status_ok visit_all].
  destruct (apply r s) as [s2 st2]. cbn in *. subst st2. rewrite Ok.
  split; [done|]. rewrite Hd. by destruct s1.
Qed.

Lemma tracks_admit io m : tracks (admit_effect io m).
Proof.
  intros base w w' y (s & E & Hs). unfold admit_effect.
  destruct (fabric_admit _ _ _ _) as [[f log] r]. intros [= <- ->]. apply journaled_after.
  exists s. split; [done|]. rewrite Hs. by destruct (w_state w).
Qed.

Create HintDb tracks.
#[export] Hint Resolve tracks_refuse tracks_ret tracks_state tracks_refuse_if tracks_emit
  tracks_admit : tracks.

(** One construct of an operation at a time. *)
Ltac tracks_step :=
  cbv zeta;
  lazymatch goal with
  | |- ∀ _, _ => intros ?
  | |- tracks (_ ≫= _) => apply tracks_bind
  | |- tracks (if ?c then _ else _) => destruct c
  | |- tracks (match ?o with Some _ => _ | None => _ end) => destruct o
  | |- tracks _ => solve [auto with tracks | apply tracks_modify; intros []; reflexivity]
  end.

Lemma tracks_for_each {A} (l : list A) f : (∀ x, tracks (f x)) → tracks (for_each l f).
Proof. intros Hf. induction l as [|x l IH]; cbn [for_each]; repeat tracks_step; auto. Qed.

Lemma tracks_fence_scope d sc e i g c b now : tracks (fence_scope d sc e i g c b now).
Proof. unfold fence_scope. repeat tracks_step. Qed.

Lemma tracks_close_grant g st why now : tracks (close_grant g st why now).
Proof. unfold close_grant. repeat tracks_step. Qed.

Lemma tracks_check_registered d sc : tracks (check_registered d sc).
Proof. unfold check_registered. repeat tracks_step. Qed.

Lemma tracks_check_grant q : tracks (check_grant q).
Proof. unfold check_grant. repeat tracks_step. Qed.

#[export] Hint Resolve tracks_for_each tracks_fence_scope tracks_close_grant tracks_check_registered
  tracks_check_grant : tracks.

Lemma tracks_allocate_incarnation now : tracks (allocate_incarnation now).
Proof. unfold allocate_incarnation. repeat tracks_step. Qed.

Lemma tracks_define_domain d now : tracks (define_domain d now).
Proof. unfold define_domain. repeat tracks_step. Qed.

Lemma tracks_define_policy p now : tracks (define_policy p now).
Proof. unfold define_policy. repeat tracks_step. Qed.

Lemma tracks_supersede q now g : tracks (supersede q now g).
Proof. unfold supersede. repeat tracks_step. Qed.

Lemma tracks_open_new q now : tracks (open_new q now).
Proof. unfold open_new. repeat tracks_step. Qed.
#[export] Hint Resolve tracks_supersede tracks_open_new : tracks.

Lemma tracks_allocate_epoch q now : tracks (allocate_epoch q now).
Proof. unfold allocate_epoch. repeat tracks_step. Qed.

Lemma tracks_commit io q now : tracks (commit io q now).
Proof. unfold commit. repeat tracks_step. Qed.

Lemma tracks_fence_loop q now l last : tracks (fence_loop q now l last).
Proof.
  revert last. induction l as [|g l IH]; intros last; cbn [fence_loop]; repeat tracks_step; auto.
Qed.
#[export] Hint Resolve tracks_fence_loop : tracks.

Lemma tracks_fence q now : tracks (fence q now).
Proof. unfold fence. repeat tracks_step. Qed.

Lemma tracks_release q now : tracks (release q now).
Proof. unfold release. repeat tracks_step. Qed.

Lemma tracks_end_open_boot now b : tracks (end_open_boot now b).
Proof. unfold end_open_boot. repeat tracks_step. Qed.

Lemma tracks_interrupt_grant now g : tracks (interrupt_grant now g).
Proof. unfold interrupt_grant. repeat tracks_step. Qed.
#[export] Hint Resolve tracks_end_open_boot tracks_interrupt_grant : tracks.

(** A restart raises the incarnation counter before it emits the boot record
    that carries it: replaying the record raises it just the same. *)
Lemma begin_boot_early b v s : rs_incarnations s <= v → br_incarnation b = v →
  apply_boot_begin b (set_incarnations v s) = apply_boot_begin b s.
Proof.
  intros Hv Hb. unfold apply_boot_begin. cbv zeta. destruct s. cbn in *.
  rewrite !raise_max, Hb, Z.max_id, Z.max_r by done. done.
Qed.

(** Operations that leave a part of the state alone. *)
Definition keeps {X} (p : World → X) {A} (m : M A) : Prop := ∀ w, p (m w).1 = p w.

(** What restarts and handshakes change: incarnations and the boot. *)
Definition identity (s : RegistryState) : IncarnationId * BootRecord :=
  (rs_incarnations s, rs_boot s).
Definition identity_in (w : World) : IncarnationId * BootRecord := identity (w_state w).

(** A part no record changes but a restart's or a handshake's. *)
Class Emits {X} (p : World → X) : Prop := {
  keeps_emit kind payload status now : kind ≠ KBootBegin → kind ≠ KIncarnationAllocate →
    keeps p (emit kind payload status now);
  keeps_modify f : (∀ s, identity (f s) = identity s) → keeps p (modify f)
}.

Lemma remember_identity scope s : identity (remember_scope scope s) = identity s.
Proof. unfold identity. by destruct (remember_core scope s) as (_ & _ & _ & _ & _ & _ & -> & -> & _). Qed.

Lemma kind_identity r s : jr_kind r ≠ KBootBegin → jr_kind r ≠ KIncarnationAllocate →
  identity (apply_kind r s).1 = identity s.
Proof.
  intros H1 H2. unfold apply_kind, with_payload. cbv zeta.
  destruct (jr_kind r); try done; destruct (decode_all _ _) as [x|]; try done;
    unfold apply_boot_end, apply_domain, apply_grant_open, apply_grant_close, apply_fence,
      apply_adopt; cbv zeta; repeat case_match; try done; cbn [fst];
    try (by rewrite remember_identity).
  all: match goal with |- identity (set_fences _ (remember_scope ?sc ?s)) = _ =>
         change (identity (remember_scope sc s) = identity s);
         by rewrite remember_identity end.
Qed.

Section keeps_rules.
Context {X : Type} (p : World → X).

Lemma keeps_bind {A B} (m : M A) (k : A → M B) : keeps p m → (∀ x, keeps p (k x)) → keeps p (m ≫= k).
Proof.
  intros Hm Hk w. unfold mbind, m_bind. specialize (Hm w).
  destruct (m w) as [w1 [x|st]]; cbn [fst] in *; [by rewrite Hk|done].
Qed.

Lemma keeps_refuse_if c st : keeps p (refuse_if c st).
Proof. by destruct c. Qed.

Lemma keeps_for_each {A} (l : list A) f : (∀ x, keeps p (f x)) → keeps p (for_each l f).
Proof.
  intros Hf. induction l as [|x l IH]; cbn [for_each]; [by intros w|].
  apply keeps_bind; auto.
Qed.
End keeps_rules.

#[export] Instance emits_identity : Emits identity_in.
Proof.
  split; [|intros f Hf w; apply Hf].
  intros kind payload status now H1 H2 w. unfold emit, identity_in. set (r := mkRecord _ _ _ _ _).
  assert (E : identity (apply r (w_state w)).1 = identity (w_state w)).
  { unfold apply. destruct (negb _); [done|]. destruct (_ <? _); [done|].
    rewrite kind_identity by done. unfold identity.
    by destruct (observe_core r (w_state w)) as (_ & _ & _ & _ & _ & _ & -> & -> & _). }
  destruct (apply r (w_state w)) as [s1 st]. by destruct (is_ok st).
Qed.

(** The effect log. *)
#[export] Instance emits_log : Emits w_log.
Proof.
  split; [|done].
  intros kind payload status now _ _ w. unfold emit. destruct (apply _ _) as [s1 st].
  by destruct (is_ok st).
Qed.

Lemma keeps_admit io m : keeps identity_in (admit_effect io m).
Proof. intros w. unfold admit_effect. by destruct (fabric_admit _ _ _ _) as [[f log] r]. Qed.

Create HintDb keeps.
#[export] Hint Resolve keeps_admit emits_identity emits_log : keeps.

Ltac keeps_step :=
  cbv zeta;
  lazymatch goal with
  | |- ∀ _, _ => intros ?
  | |- keeps _ (_ ≫= _) => apply keeps_bind
  | |- keeps _ (refuse_if _ _) => apply keeps_refuse_if
  | |- keeps _ (emit _ _ _ _) => by apply keeps_emit
  | |- keeps _ (modify _) => by apply keeps_modify
  | |- keeps _ (if ?c then _ else _) => destruct c
  | |- keeps _ (match ?o with Some _ => _ | None => _ end) => destruct o
  | |- keeps _ (for_each _ _) => apply keeps_for_each
  | |- keeps _ _ => first [solve [auto with keeps] | by intros w]
  end.

Section keeps_operations.
Context {X : Type} (p : World → X) `{!Emits p}.

Lemma keeps_end_open_boot now b : keeps p (end_open_boot now b).
Proof. unfold end_open_boot. repeat keeps_step. Qed.

Lemma keeps_fence_scope d sc e i g c b now : keeps p (fence_scope d sc e i g c b now).
Proof. unfold fence_scope. repeat keeps_step. Qed.

Lemma keeps_close_grant g st why now : keeps p (close_grant g st why now).
Proof. unfold close_grant. repeat keeps_step. Qed.
#[local] Hint Resolve keeps_fence_scope keeps_close_grant : keeps.

Lemma keeps_interrupt_grant now g : keeps p (interrupt_grant now g).
Proof. unfold interrupt_grant. repeat keeps_step. Qed.
End keeps_operations.
#[export] Hint Resolve keeps_fence_scope keeps_close_grant : keeps.

(** The incarnation of a boot record is read back whatever follows it. *)
Lemma boot_incarnation_read b b' : is_u64 (br_boot b) → is_u64 (br_incarnation b) →
  decode_all r_boot_record (encode_boot_record b) = Ret b' → br_incarnation b' = br_incarnation b.
Proof.
  intros Hb Hi. unfold decode_all, r_boot_record, encode_boot_record, r_counter, w_counter, reader_of.
  rewrite (decodes_u64 _ Hb), (decodes_u64 _ Hi).
  repeat case_match; intros [= <-]; naive_solver.
Qed.

Lemma tracks_begin_boot base w w' now b v : v = br_incarnation b → is_u64 v → is_u64 (br_boot b) →
  rs_incarnations (w_state w) <= v → journaled base w →
  emit KBootBegin (encode_boot_record b) status_ok now
    (mkWorld (set_incarnations v (w_state w)) (w_out w) (w_log w)) = (w', Ret tt) →
  journaled base w'.
Proof.
  intros -> Hv Hb Hle Hj H. apply (tracks_emit KBootBegin (encode_boot_record b) status_ok now base w w' (Ret tt) Hj). rewrite <-H.
  unfold emit in *. cbn [w_state w_out w_log] in *.
  change (rs_sequence (set_incarnations (br_incarnation b) (w_state w)))
    with (rs_sequence (w_state w)) in *.
  set (r := mkRecord _ _ _ _ _) in *. set (s := w_state w) in *. set (v := br_incarnation b) in *.
  enough (apply r (set_incarnations v s) = apply r s ∨
          is_ok (apply r (set_incarnations v s)).2 = false) as [->|Hbad]; [done| |].
  { destruct (apply r (set_incarnations v s)) as [s1 st]. cbn in Hbad. rewrite Hbad in H. done. }
  clear H. unfold apply. destruct (negb _); [by right|].
  change (rs_sequence (set_incarnations v s)) with (rs_sequence s).
  destruct (_ <? _); [by right|].
  assert (observe r (set_incarnations v s) = set_incarnations v (observe r s)) as ->.
  { unfold observe. destruct s. cbn. by destruct (_ <? _). }
  assert (Hi : rs_incarnations (observe r s) = rs_incarnations s)
    by (destruct (observe_core r s); naive_solver).
  unfold apply_kind, with_payload. cbn [r jr_kind jr_payload].
  destruct (decode_all r_boot_record (encode_boot_record b)) as [b'|st] eqn:Ed.
  - left. apply begin_boot_early; [by rewrite Hi|]. by apply (boot_incarnation_read b).
  - right. cbn. eapply honest_all; [apply honest_boot|exact Ed].
Qed.

Lemma tracks_recover base w w' now x : is_u64 (rs_incarnations (w_state w)) → journaled base w →
  recover_after_restart now w = (w', Ret x) → journaled base w'.
Proof.
  intros Hu Hj. unfold recover_after_restart, mbind, m_bind, state. cbv zeta.
  pose proof (keeps_for_each identity_in (lt_boots (rs_lineage (w_state w))) (end_open_boot now)
    (keeps_end_open_boot identity_in now) w) as K1.
  pose proof (tracks_for_each (lt_boots (rs_lineage (w_state w))) (end_open_boot now)
    (tracks_end_open_boot now) base w) as T1.
  destruct (for_each (lt_boots _) _ w) as [w1 [[]|]] eqn:E1; [|done]. cbn [fst] in K1.
  specialize (T1 w1 (Ret tt) Hj eq_refl). cbn [after] in T1.
  pose proof (keeps_for_each identity_in (open_grants (rs_lineage (w_state w1))) (interrupt_grant now)
    (keeps_interrupt_grant identity_in now) w1) as K2.
  pose proof (tracks_for_each (open_grants (rs_lineage (w_state w1))) (interrupt_grant now)
    (tracks_interrupt_grant now) base w1) as T2.
  destruct (for_each (open_grants _) _ w1) as [w2 [[]|]] eqn:E2; [|done]. cbn [fst] in K2.
  specialize (T2 w2 (Ret tt) T1 eq_refl). cbn [after] in T2. unfold refuse_if.
  destruct (Z.eqb_spec (rs_incarnations (w_state w2)) u64_max); [done|].
  unfold mret, m_ret, modify. intros H. destruct x. rewrite K1 in K2. apply (f_equal fst) in K2. cbn [fst identity identity_in] in K2.
  eapply tracks_begin_boot; [|apply u64_is| | |exact T2|exact H]; [done|apply u64_is|].
  rewrite K2 in *. unfold is_u64, u64_max in *. rewrite u64_id; [lia|unfold is_u64; lia].
Qed.

(** ** The operations a service runs under its clock *)

Inductive handled : ∀ {A}, (Step → M A) → Prop :=
  | handled_define d : handled (define_domain d)
  | handled_policy p : handled (define_policy p)
  | handled_incarnation : handled allocate_incarnation
  | handled_allocate q : handled (allocate_epoch q)
  | handled_commit io q : handled (commit io q)
  | handled_fence q : handled (fence q)
  | handled_release q : handled (release q).

Lemma handled_tracks {A} (m : Step → M A) now : handled m → tracks (m now).
Proof.
  intros []; [apply tracks_define_domain|apply tracks_define_policy|
    apply tracks_allocate_incarnation|apply tracks_allocate_epoch|apply tracks_commit|
    apply tracks_fence|apply tracks_release].
Qed.

(** What the records an operation hands out look like. *)
Definition stamped (now : Step) (r : JournalRecord) : Prop :=
  jr_sequence r ≠ 0 ∧ jr_step r = now ∧ is_u64 (aux (jr_status r)).

Definition stamps {A} (now : Step) (m : M A) : Prop :=
  ∀ w, ∃ rs, w_out (m w).1 = w_out w ++ rs ∧ Forall (stamped now) rs.

Section stamps_rules.
Context (now : Step).

Lemma stamps_bind {A B} (m : M A) (k : A → M B) :
  stamps now m → (∀ x, stamps now (k x)) → stamps now (m ≫= k).
Proof.
  intros Hm Hk w. unfold mbind, m_bind. destruct (Hm w) as (rs & E & Hrs).
  destruct (m w) as [w1 [x|st]]; cbn [fst] in *; [|by exists rs].
  destruct (Hk x w1) as (qs & E' & Hqs). exists (rs ++ qs). rewrite E', E, app_assoc.
  split; [done|]. by apply Forall_app.
Qed.

Lemma stamps_same {A} (m : M A) : (∀ w, w_out (m w).1 = w_out w) → stamps now m.
Proof. intros H w. exists []. by rewrite H, app_nil_r. Qed.

Lemma stamps_refuse {A} st : stamps now (refuse st : M A).
Proof. by apply stamps_same. Qed.

Lemma stamps_ret {A} (x : A) : stamps now (mret x).
Proof. by apply stamps_same. Qed.

Lemma stamps_state : stamps now state.
Proof. by apply stamps_same. Qed.

Lemma stamps_modify f : stamps now (modify f).
Proof. by apply stamps_same. Qed.

Lemma stamps_refuse_if c st : stamps now (refuse_if c st).
Proof. apply stamps_same. by destruct c. Qed.

Lemma stamps_admit io m : stamps now (admit_effect io m).
Proof. apply stamps_same. intros w. unfold admit_effect. by destruct (fabric_admit _ _ _ _) as [[? ?] ?]. Qed.

Lemma stamps_emit kind payload status : is_u64 (aux status) → stamps now (emit kind payload status now).
Proof.
  intros Hu w. unfold emit. set (r := mkRecord _ _ _ _ _).
  destruct (apply r (w_state w)) as [s st] eqn:E.
  destruct (is_ok st) eqn:Ok; cbn [negb fst w_out]; [|exists []; by rewrite app_nil_r].
  exists [r]. split; [done|]. apply Forall_singleton. split; [|done].
  revert E. unfold apply, is_set. destruct (Z.eqb_spec (jr_sequence r) 0); [|done].
  intros [= _ <-]. done.
Qed.

Lemma stamps_for_each {A} (l : list A) f : (∀ x, stamps now (f x)) → stamps now (for_each l f).
Proof.
  intros Hf. induction l as [|x l IH]; cbn [for_each]; [apply stamps_ret|]. by apply stamps_bind.
Qed.
End stamps_rules.

Create HintDb stamps.
#[export] Hint Resolve stamps_refuse stamps_ret stamps_state stamps_modify stamps_refuse_if
  stamps_admit stamps_for_each : stamps.

Lemma zero_u64 : is_u64 0.
Proof. done. Qed.

Ltac stamps_step :=
  cbv zeta;
  lazymatch goal with
  | |- ∀ _, _ => intros ?
  | |- stamps _ (_ ≫= _) => apply stamps_bind
  | |- stamps _ (if ?c then _ else _) => destruct c
  | |- stamps _ (match ?o with Some _ => _ | None => _ end) => destruct o
  | |- stamps _ (emit _ _ _ _) => apply stamps_emit; first [apply zero_u64 | apply u64_is]
  | |- stamps _ _ => solve [auto with stamps]
  end.

Lemma stamps_fence_scope d sc e i g c b now : stamps now (fence_scope d sc e i g c b now).
Proof. unfold fence_scope. repeat stamps_step. Qed.

Lemma stamps_close_grant g st why now : stamps now (close_grant g st why now).
Proof. unfold close_grant. repeat stamps_step. Qed.

Lemma stamps_check_registered d sc now : stamps now (check_registered d sc).
Proof. unfold check_registered. repeat stamps_step. Qed.

Lemma stamps_check_grant q now : stamps now (check_grant q).
Proof. unfold check_grant. repeat stamps_step. Qed.
#[export] Hint Resolve stamps_fence_scope stamps_close_grant stamps_check_registered
  stamps_check_grant : stamps.

Lemma stamps_fence_loop q now l last : stamps now (fence_loop q now l last).
Proof.
  revert last. induction l as [|g l IH]; intros last; cbn [fence_loop]; repeat stamps_step; auto.
Qed.

Lemma stamps_supersede q now g : stamps now (supersede q now g).
Proof. unfold supersede. repeat stamps_step. Qed.

Lemma stamps_open_new q now : stamps now (open_new q now).
Proof. unfold open_new. repeat stamps_step. Qed.
#[export] Hint Resolve stamps_fence_loop stamps_supersede stamps_open_new : stamps.

Lemma handled_stamps {A} (m : Step → M A) now : handled m → stamps now (m now).
Proof.
  intros []; [unfold define_domain|unfold define_policy|unfold allocate_incarnation|
    unfold allocate_epoch|unfold commit|unfold fence|unfold release]; repeat stamps_step.
Qed.

Lemma stamps_recover now : stamps now (recover_after_restart now).
Proof.
  unfold recover_after_restart, end_open_boot, interrupt_grant.
  repeat stamps_step; apply stamps_for_each; repeat stamps_step.
Qed.

(** One operation, and whether it succeeded. A restart that is refused ends the
    process, so nothing comes after it. *)
Inductive performs (w : World) : bool → World → Prop :=
  | performs_handled {A} (m : Step → M A) now w' r : handled m → m now w = (w', r) →
      performs w (match r with Ret _ => true | Err _ => false end) w'
  | performs_restart now w' : is_u64 (rs_incarnations (w_state w)) →
      recover_after_restart now w = (w', Ret tt) → performs w true w'.

Definition succeeds (w w' : World) : Prop := performs w true w'.
Definition attempts (w w' : World) : Prop := ∃ ok, performs w ok w'.

Lemma performs_tracked base w ok w' : performs w ok w' → journaled base w →
  journaled base w' ∨ (ok = false ∧ wedged base w').
Proof.
  intros [A m now x r Hm E|now x Hu E] Hj; [|left; by eapply tracks_recover].
  pose proof (handled_tracks m now Hm base w x r Hj E) as H. destruct r; [by left|].
  destruct H; auto.
Qed.

Module Replays.

(** C11: The journal carries the state. Take any run of operations - definitions,
    incarnations, grants with the fencing they cause, commits, fences, releases,
    restarts. While they succeed, replaying the records they emitted, from the
    state the run began with, is accepted record by record and rebuilds every
    durable field of the live state. Where they may be refused as well the same
    holds to the end, unless at some point the state refused a record: then what
    had been emitted rebuilds the state that record was put to, and the state
    left is exactly what the refusal made of it, past the number the journal
    waits for. *)
Theorem journal_carries_state (s : RegistryState) (log : bytes) (w : World) :
  let start := mkWorld s [] log in
  (rtc succeeds start w →
     ∃ s', visit_all apply (w_out w) s = (s', status_ok) ∧ same_durable s' (w_state w)) ∧
  (rtc attempts start w →
     (∃ s', visit_all apply (w_out w) s = (s', status_ok) ∧ same_durable s' (w_state w)) ∨
     ∃ w1, rtc attempts start w1 ∧ rtc attempts w1 w ∧
       ∃ s' r, visit_all apply (w_out w1) s = (s', status_ok) ∧
         jr_sequence r = u64 (rs_sequence s' + 1) ∧ is_ok (apply r s').2 = false ∧
         same_durable (apply r s').1 (w_state w1)).
Proof.
  cbv zeta. assert (H0 : journaled s (mkWorld s [] log)) by by exists s. split.
  - enough (H : ∀ w0, rtc succeeds w0 w → journaled s w0 → journaled s w) by (intros Hr; by apply (H _ Hr)).
    induction 1 as [|w0 w1 w2 Hs _ IH]; [done|]. intros Hj. apply IH.
    by destruct (performs_tracked s _ _ _ Hs Hj) as [|[? _]].
  - enough (H : ∀ w0, rtc attempts w0 w → journaled s w0 →
      journaled s w ∨ ∃ w1, rtc attempts w0 w1 ∧ rtc attempts w1 w ∧ wedged s w1)
      by (intros Hr; by apply (H _ Hr)).
    induction 1 as [|w0 w1 w2 Hs Hr IH]; intros Hj; [by left|]. pose proof Hs as [ok Hp].
    destruct (performs_tracked s _ _ _ Hp Hj) as [Hj1|[_ Hw]].
    + destruct (IH Hj1) as [|(w3 & H1 & H2 & H3)]; [by left|]. right. exists w3.
      split; [by eapply rtc_l|done].
    + right. exists w1. split; [by apply rtc_once|done].
Qed.

(** A grant that supersedes another, then its commit. *)
Definition journal_start : World := mkWorld (w_state Registries.demo_first) [] [].
Definition journal_granted : World :=
  (allocate_epoch (Registries.ask "e" [str "n2"] 2) 6 journal_start).1.
Definition journal_end : World := (commit AppendDone Registries.demo_commit 7 journal_granted).1.

Lemma journal_facts :
  is_Some (Registries.answer_of (allocate_epoch (Registries.ask "e" [str "n2"] 2) 6 journal_start).2) ∧
  is_Some (Registries.answer_of (commit AppendDone Registries.demo_commit 7 journal_granted).2) ∧
  jr_kind <$> w_out journal_end = [KFence; KGrantClose; KExtentAdopt; KGrantOpen; KCommitRecord].
Proof. vm_compute. by eauto. Qed.

Lemma answered {A} (m : World → World * result A) w : is_Some (Registries.answer_of (m w).2) →
  ∃ x, m w = ((m w).1, Ret x).
Proof. intros [x Hx]. destruct (m w) as [w' [y|st]]; [by exists y|done]. Qed.

Lemma journal_steps : succeeds journal_start journal_granted ∧ succeeds journal_granted journal_end.
Proof.
  destruct journal_facts as (F1 & F2 & _). split; [clear F2|clear F1].
  - destruct (answered _ _ F1) as [x E].
    exact (performs_handled _ (allocate_epoch _) 6 _ (Ret x) (handled_allocate _) E).
  - destruct (answered _ _ F2) as [x E].
    exact (performs_handled _ (commit _ _) 7 _ (Ret x) (handled_commit _ _) E).
Qed.

#[local] Opaque journal_start journal_granted journal_end.

Lemma journal_carries_state_witness : ∃ s',
  visit_all apply (w_out journal_end) (w_state Registries.demo_first) = (s', status_ok) ∧
  same_durable s' (w_state journal_end) ∧
  jr_kind <$> w_out journal_end = [KFence; KGrantClose; KExtentAdopt; KGrantOpen; KCommitRecord].
Proof.
  destruct journal_facts as (_ & _ & F).
  destruct (proj1 (journal_carries_state (w_state Registries.demo_first) [] journal_end)) as (s' & E & Hd).
  - eapply rtc_l; [exact (proj1 journal_steps)|]. exact (rtc_once _ _ (proj2 journal_steps)).
  - exists s'. split; [exact E|]. split; [exact Hd|]. exact F.
Defined.
End Replays.
