(* ===== verification/Snapshot.v ===== *)
(** * The registry's checkpoint

    Models [RegistryState::serialize] and [RegistryState::deserialize] of
    [src/registry_state.cpp]: the whole durable state as one canonical byte
    string with a digest trailer, and the reading that validates everything
    before it replaces anything. *)
From S2P Require Import Prelude Order SortedVec Status Ids Text Digest Canonical Scope.
From S2P Require Import Fence Lineage Evidence Arbiter Codec Readers Journal Fabric Registry.
Open Scope Z_scope.

#[local] Opaque Digest256_of w_blob.

Definition kStateFormatVersion : Z := 1.

(** ** [serialize] *)

(** The extent list a fence record is written with. *)
Definition record_scope (s : RegistryState) (f : FenceRecord) : Scope :=
  default [] (snd <$> sv_find fst (Digest256_hex (fr_scope f)) (rs_scopes s)).

(** A list of nested encodings. *)
Definition w_blobs {A} (encode : A → bytes) (l : list A) : bytes :=
  w_sequence (λ x, w_blob (encode x)) l.

Definition state_body (s : RegistryState) : bytes :=
  w_u32 kStateFormatVersion ++ w_text (rs_store_id s) ++
  w_counter (clock_now (rs_clock s)) ++ w_counter (rs_last_step s) ++
  w_blob (encode_boot_record (rs_boot s)) ++ w_counter (rs_incarnations s) ++
  w_counter (rs_tokens s) ++ w_counter (rs_grants s) ++ w_counter (rs_sequence s) ++
  w_counter (rs_generation s) ++ w_u64 (rs_commits s) ++
  w_blob (encode_policy (rs_policy s)) ++
  w_blobs encode_domain (rs_domains s) ++
  w_blobs encode_extent_state (ft_extents (rs_fences s)) ++
  w_blobs (λ f, encode_fence_payload f (record_scope s f)) (ft_records (rs_fences s)) ++
  w_blobs encode_grant (lt_grants (rs_lineage s)) ++
  w_blobs encode_boot_record (lt_boots (rs_lineage s)) ++
  w_blobs encode_idempotency (rs_idempotency s) ++
  w_blobs encode_interrupt (rs_interrupts s).

Definition serialize (s : RegistryState) : bytes :=
  state_body s ++ w_digest (Digest256_of (state_body s)).

(** ** [deserialize] *)

(** The local variables of [deserialize] once the body is read. *)
Record Snapshot := mkSnapshot {
  sn_store_id : StoreId;
  sn_clock : Z;
  sn_last_step : Step;
  sn_boot : BootRecord;
  sn_incarnations : Z;
  sn_tokens : Z;
  sn_grants : Z;
  sn_sequence : Z;
  sn_generation : Z;
  sn_commits : Z;
  sn_policy : ArbiterPolicy;
  sn_domains : list DomainDefinition;
  sn_extents : list ExtentFenceState;
  sn_records : list FenceRecord;
  sn_lineage : list EpochGrant;
  sn_boots : list BootRecord;
  sn_idempotency : list IdempotencyEntry;
  sn_interrupts : list InterruptMark
}.

(** The domain loop, filling a [std::map]. *)
Fixpoint r_domains (n : nat) (domains : list DomainDefinition) (r : reader)
  : result (list DomainDefinition * reader) :=
  match n with
  | O => Ret (domains, r)
  | S n =>
      let* (d, r) := r_nested r_domain r in
      match sv_find dd_domain (dd_domain d) domains with
      | Some _ => Err (fail0 Outcome.Corrupt Reason.DuplicateEntry)
      | None => r_domains n (sv_set dd_domain d domains) r
      end
  end.

Definition r_domain_map (r : reader) : result (list DomainDefinition * reader) :=
  let* (n, r) := r_count kMaxDomains r in r_domains (Z.to_nat n) [] r.

Definition r_fence_record (r : reader) : result (FenceRecord * reader) :=
  let* (p, r) := r_nested r_fence_payload r in Ret (p.1, r).

Definition r_state (r : reader) : result (Snapshot * reader) :=
  let* (version, r) := r_u32 r in
  if negb (version =? kStateFormatVersion)
  then Err (mkStatus Outcome.Unsupported Reason.UnsupportedVersion version)
  else
    let* (store_id, r) := r_id Outcome.Corrupt r in
    let* (clock, r) := r_u64 r in
    let* (last_step, r) := r_u64 r in
    let* (boot, r) := r_nested r_boot_record r in
    let* (incarnations, r) := r_u64 r in
    let* (tokens, r) := r_u64 r in
    let* (grant_counter, r) := r_u64 r in
    let* (sequence, r) := r_u64 r in
    let* (generation, r) := r_u64 r in
    let* (commits, r) := r_u64 r in
    let* (policy, r) := r_nested r_policy r in
    let* (domains, r) := r_domain_map r in
    let* (extents, r) := r_sequence kMaxIndexedExtents (r_nested r_extent_state) r in
    let* (records, r) := r_sequence kMaxFenceRecords r_fence_record r in
    let* (grants, r) := r_sequence kMaxLineageEntries (r_nested r_grant) r in
    let* (boots, r) := r_sequence kMaxLineageEntries (r_nested r_boot_record) r in
    let* (idempotency, r) := r_sequence kMaxDedupEntries (r_nested r_idempotency) r in
    let* (interrupts, r) := r_sequence kMaxInterruptedMarks (r_nested r_interrupt) r in
    Ret (mkSnapshot store_id clock last_step boot incarnations tokens grant_counter sequence
           generation commits policy domains extents records grants boots idempotency interrupts,
         r).

Definition remember_all (l : list Scope) (s : RegistryState) : RegistryState :=
  foldl (λ s scope, remember_scope scope s) s l.

(** The assignments, up to [rebuild]. *)
Definition install (n : Snapshot) (fences : FenceTable) (lineage : LineageTable)
    (s : RegistryState) : RegistryState :=
  remember_all ((dd_scope <$> sn_domains n) ++ (eg_extents <$> lt_grants lineage))
    (mkRegistry (rs_config s) (sn_store_id n)
       (clock_observe_persisted (mkStepClock 0) (sn_clock n)).1 (sn_last_step n) (sn_boot n)
       (sn_sequence n) (if sn_generation n =? 0 then 1 else sn_generation n) fences lineage
       (rs_fabric s) (sn_domains n) (sn_policy n) (sn_idempotency n) (sn_interrupts n) []
       (sn_tokens n) (sn_grants n) (sn_incarnations n) (sn_commits n) (rs_hits s) (rs_restarts s)
       (rs_phase s)).

(** Every fence record can be written back with its extents. *)
Definition resolves (s : RegistryState) : bool :=
  forallb (λ f, has_scope s (fr_scope f)) (ft_records (rs_fences s)).

Definition restore (n : Snapshot) (s : RegistryState) : RegistryState * Status :=
  match fence_import (sn_extents n) (sn_records n) with
  | Err st => (s, st)
  | Ret fences =>
      match lineage_import (sn_lineage n) (sn_boots n) with
      | Err st => (s, st)
      | Ret lineage =>
          let (s, st) := rebuild (install n fences lineage s) in
          if negb (is_ok st) then (s, st)
          else if negb (resolves s) then (s, fail0 Outcome.Corrupt Reason.ScopeNotRegistered)
          else (s, status_ok)
      end
  end.

Definition deserialize (s : RegistryState) (data : bytes) : RegistryState * Status :=
  if zlen data <? 32 then (s, fail0 Outcome.Corrupt Reason.TruncatedFrame)
  else
    let cut := Z.to_nat (zlen data - 32) in
    let body := take cut data in
    match r_digest (reader_of (drop cut data)) with
    | Err st => (s, st)
    | Ret (expected, _) =>
        if negb (eqb expected (Digest256_of body))
        then (s, fail0 Outcome.Corrupt Reason.IntegrityMismatch)
        else
          match decode_all r_state body with
          | Err st => (s, st)
          | Ret n => restore n s
          end
    end.

(** ** Reading back what was written *)

(** What a durable state satisfies beyond the registry's invariant: every field
    fits its encoding, every fence record belongs to a registered domain. *)
Record durable (s : RegistryState) : Prop := {
  du_inv : registry_inv s;
  du_store : id_valid (rs_store_id s);
  du_words : words [clock_now (rs_clock s); rs_last_step s; rs_sequence s; rs_generation s;
                    rs_commits s];
  du_clock : clock_now (rs_clock s) ≠ u64_max;
  du_generation : rs_generation s ≠ 0;
  du_boot : boot_wf (rs_boot s);
  du_policy : arbiter_policy_wf (rs_policy s) ∧ policy_validate (rs_policy s) = status_ok;
  du_domains : zlen (rs_domains s) <= kMaxDomains;
  du_extents : Forall extent_state_wf (ft_extents (rs_fences s));
  du_records : zlen (ft_records (rs_fences s)) <= kMaxFenceRecords ∧
    Forall (λ f, fr_token f <= rs_tokens s ∧ fence_payload_wf f (record_scope s f) ∧
                 fr_scope f ∈ scope_digest ∘ dd_scope <$> rs_domains s)
      (ft_records (rs_fences s));
  du_lineage : Forall (λ g, eg_domain g ≠ [] ∧ eg_epoch g ≠ 0) (lt_grants (rs_lineage s));
  du_boots : zlen (lt_boots (rs_lineage s)) <= kMaxLineageEntries ∧
    is_ok (check_boots ∅ (lt_boots (rs_lineage s))) = true ∧
    Forall (λ b, br_incarnation b <= rs_incarnations s) (lt_boots (rs_lineage s));
  du_idempotency : zlen (rs_idempotency s) <= kMaxDedupEntries ∧
    Forall idempotency_wf (rs_idempotency s);
  du_interrupts : zlen (rs_interrupts s) <= kMaxInterruptedMarks ∧
    Forall (λ m, interrupt_wf m ∧ im_incarnation m <= rs_incarnations s) (rs_interrupts s)
}.

(** *** Lengths of the nested encodings *)

Ltac small_blob :=
  unfold encode_boot_record, encode_policy, encode_domain, encode_extent_state,
    encode_fence_payload, encode_grant, encode_idempotency, encode_interrupt, w_digest in *;
  blob_bound.

Lemma small_boot b : boot_wf b → zlen (encode_boot_record b) <= kMaxSnapshotBytes.
Proof. intros [Hid _]. small_blob. Qed.

Lemma small_policy p : arbiter_policy_wf p → zlen (encode_policy p) <= kMaxSnapshotBytes.
Proof. intros (Hid & Hp & _). pose proof (zlen_profile _ Hp). small_blob. Qed.

Lemma small_domain d : domain_wf d → zlen (encode_domain d) <= kMaxSnapshotBytes.
Proof. intros (Hd & Hn & Hp & Hs). pose proof (zlen_scope _ Hs). small_blob. Qed.

Lemma small_extent e : extent_state_wf e → zlen (encode_extent_state e) <= kMaxSnapshotBytes.
Proof. intros [Hid _]. small_blob. Qed.

Lemma small_fence f scope : fence_payload_wf f scope →
  zlen (encode_fence_payload f scope) <= kMaxSnapshotBytes.
Proof.
  intros (Hid & Hs & Ed & _). pose proof (zlen_scope _ Hs). pose proof (length_scope_digest scope).
  rewrite <-Ed in *. small_blob.
Qed.

Lemma small_grant g : grant_codable g → zlen (encode_grant g) <= kMaxSnapshotBytes.
Proof.
  intros (Hid & Hs & Ed & _). pose proof (zlen_scope _ Hs).
  pose proof (length_scope_digest (eg_extents g)). rewrite <-Ed in *. small_blob.
Qed.

Lemma small_idempotency e : zlen (encode_idempotency e) <= kMaxSnapshotBytes.
Proof. small_blob. Qed.

Lemma small_interrupt m : interrupt_wf m → zlen (encode_interrupt m) <= kMaxSnapshotBytes.
Proof. intros [Hid _]. small_blob. Qed.

(** *** Lists of nested encodings *)

Lemma zlen_blobs {A} (encode : A → bytes) l : zlen l <= zlen (l ≫= λ x, w_blob (encode x)).
Proof.
  apply zlen_bind_ge. intros x _. rewrite zlen_blob. pose proof (zlen_nonneg (encode x)). lia.
Qed.

Lemma decodes_blobs {A B} bound (d : reader → result (B * reader)) (encode : A → bytes)
    (l : list A) (f : A → B) : zlen l <= bound → is_u32 bound →
  (∀ x, x ∈ l → decodes d (f x) (w_blob (encode x))) →
  decodes (r_sequence bound d) (f <$> l) (w_blobs encode l).
Proof.
  intros Hb Hu Hl. unfold w_blobs.
  assert (E : w_sequence (λ x, w_blob (encode x)) l =
    w_u32 (u32 (zlen l)) ++ (l ≫= λ x, w_blob (encode x))) by done.
  intros off tl. unfold r_sequence, r_count. rewrite E, <-app_assoc.
  pose proof (zlen_nonneg l). unfold is_u32, u32 in *. rewrite Z.mod_small by lia.
  rewrite decodes_u32 by (unfold is_u32; lia).
  destruct (Z.ltb_spec bound (zlen l)); [lia|]. unfold remaining. cbn [rd_rest].
  destruct (Z.ltb_spec (zlen ((l ≫= λ x, w_blob (encode x)) ++ tl)) (zlen l)) as [L|_].
  { rewrite zlen_app in L. pose proof (zlen_nonneg tl).
    pose proof (zlen_blobs encode l). lia. }
  unfold zlen at 1. rewrite Nat2Z.id. clear E.
  assert (Hr : decodes (r_repeat (length l) d) (f <$> l) (l ≫= λ x, w_blob (encode x))).
  { clear -Hl. induction l as [|x l IH]; csimpl; [apply decodes_ret|].
    eapply decodes_bind; [apply Hl; by left|].
    eapply decodes_bind_last; [apply IH; intros; apply Hl; by right|apply decodes_ret]. }
  rewrite Hr. do 3 f_equal. rewrite zlen_app. change (zlen (w_u32 (zlen l))) with 4. lia.
Qed.

Lemma decodes_blobs_id {A} bound (d : reader → result (A * reader)) (encode : A → bytes) l :
  zlen l <= bound → is_u32 bound →
  (∀ x, x ∈ l → zlen (encode x) <= kMaxSnapshotBytes ∧ decodes d x (encode x)) →
  decodes (r_sequence bound (r_nested d)) l (w_blobs encode l).
Proof.
  intros Hb Hu Hl. rewrite <-(list_fmap_id l) at 1. apply decodes_blobs; [done..|].
  intros x Hx. destruct (Hl x Hx). by apply decodes_nested.
Qed.

(** A sorted list refilled from its own elements is itself. *)
Lemma decodes_domains l : ∀ acc, sv_sorted dd_domain (acc ++ l) →
  (∀ d, d ∈ l → domain_wf d) →
  decodes (r_domains (length l) acc) (acc ++ l) (l ≫= λ d, w_blob (encode_domain d)).
Proof.
  induction l as [|d l IH]; intros acc Hs Hl; csimpl.
  { rewrite app_nil_r. apply decodes_ret. }
  assert (Hd : domain_wf d) by (apply Hl; by left).
  eapply decodes_bind; [apply decodes_nested; [by apply small_domain|by apply decodes_domain]|].
  assert (Ha : sv_sorted dd_domain acc ∧ ∀ x, x ∈ acc → ltb (dd_domain x) (dd_domain d) = true).
  { unfold sv_sorted in *. apply StronglySorted_app in Hs as (Hx & H1 & _). split; [done|].
    intros x Hin. apply Hx; [done|by left]. }
  destruct Ha as [Ha Hlt].
  assert (En : sv_find dd_domain (dd_domain d) acc = None).
  { apply sv_find_None_elem; [done|]. intros x Hx E. specialize (Hlt x Hx).
    rewrite E, ltb_irrefl in Hlt. done. }
  rewrite En. assert (Eset : sv_set dd_domain d acc = acc ++ [d]).
  { clear -Hlt. induction acc as [|x acc IH]; [done|]. rewrite sv_set_cons.
    rewrite (Hlt x) by by left. cbn [app]. f_equal. apply IH. intros y Hy. apply Hlt. by right. }
  rewrite Eset. replace (acc ++ d :: l) with ((acc ++ [d]) ++ l) by by rewrite <-app_assoc.
  apply IH.
  - by rewrite <-app_assoc.
  - intros x Hx. apply Hl. by right.
Qed.

Lemma decodes_domain_map l : sv_sorted dd_domain l → Forall domain_wf l → zlen l <= kMaxDomains →
  decodes r_domain_map l (w_blobs encode_domain l).
Proof.
  intros Hs Hl Hb off tl. rewrite Forall_forall in Hl. unfold r_domain_map, r_count, w_blobs.
  assert (E : w_sequence (λ x, w_blob (encode_domain x)) l =
    w_u32 (u32 (zlen l)) ++ (l ≫= λ x, w_blob (encode_domain x))) by done.
  rewrite E, <-app_assoc. pose proof (zlen_nonneg l). unfold kMaxDomains, u32 in *.
  rewrite Z.mod_small by lia. rewrite decodes_u32 by (unfold is_u32; lia).
  destruct (Z.ltb_spec 64 (zlen l)); [lia|]. unfold remaining. cbn [rd_rest].
  destruct (Z.ltb_spec (zlen ((l ≫= λ x, w_blob (encode_domain x)) ++ tl)) (zlen l)) as [L|_].
  { rewrite zlen_app in L. pose proof (zlen_nonneg tl). pose proof (zlen_blobs encode_domain l). lia. }
  unfold zlen at 1. rewrite Nat2Z.id, (decodes_domains l [] Hs Hl). cbn [app].
  do 3 f_equal. rewrite zlen_app. change (zlen (w_u32 (zlen l))) with 4. lia.
Qed.

(** *** The whole body *)

Definition snapshot_of (s : RegistryState) : Snapshot :=
  mkSnapshot (rs_store_id s) (clock_now (rs_clock s)) (rs_last_step s) (rs_boot s)
    (rs_incarnations s) (rs_tokens s) (rs_grants s) (rs_sequence s) (rs_generation s)
    (rs_commits s) (rs_policy s) (rs_domains s) (ft_extents (rs_fences s))
    (ft_records (rs_fences s)) (lt_grants (rs_lineage s)) (lt_boots (rs_lineage s))
    (rs_idempotency s) (rs_interrupts s).

Section body.
Context (s : RegistryState) (Hs : durable s).

Lemma decodes_extents :
  decodes (r_sequence kMaxIndexedExtents (r_nested r_extent_state)) (ft_extents (rs_fences s))
    (w_blobs encode_extent_state (ft_extents (rs_fences s))).
Proof.
  destruct (ri_fences _ (du_inv _ Hs)) as (_ & Hl & _). pose proof (du_extents _ Hs) as Hf.
  rewrite Forall_forall in Hf.
  apply decodes_blobs_id; [done|by unfold is_u32, kMaxIndexedExtents; lia|].
  intros x Hx. split; [by apply small_extent, Hf|by apply decodes_extent_state, Hf].
Qed.

Lemma decodes_records :
  decodes (r_sequence kMaxFenceRecords r_fence_record) (ft_records (rs_fences s))
    (w_blobs (λ f, encode_fence_payload f (record_scope s f)) (ft_records (rs_fences s))).
Proof.
  destruct (du_records _ Hs) as [Hl Hf]. rewrite Forall_forall in Hf.
  rewrite <-(list_fmap_id (ft_records (rs_fences s))) at 1.
  apply (decodes_blobs _ _ (λ f, encode_fence_payload f (record_scope s f)));
    [done|by unfold is_u32, kMaxFenceRecords; lia|].
  intros f Hin. destruct (Hf f Hin) as (_ & Hw & _). unfold r_fence_record.
  eapply decodes_bind_last; [|apply (decodes_ret (f, record_scope s f).1)].
  apply decodes_nested; [by apply small_fence|by apply decodes_fence_payload].
Qed.

Lemma decodes_grants :
  decodes (r_sequence kMaxLineageEntries (r_nested r_grant)) (lt_grants (rs_lineage s))
    (w_blobs encode_grant (lt_grants (rs_lineage s))).
Proof.
  destruct (ri_lineage _ (du_inv _ Hs)) as [_ Hl]. pose proof (ri_grants _ (du_inv _ Hs)) as Hf.
  rewrite Forall_forall in Hf.
  apply decodes_blobs_id; [done|by unfold is_u32, kMaxLineageEntries; lia|].
  intros x Hx. destruct (Hf x Hx) as [Hg _]. split; [by apply small_grant|by apply decodes_grant].
Qed.

Lemma decodes_boots :
  decodes (r_sequence kMaxLineageEntries (r_nested r_boot_record)) (lt_boots (rs_lineage s))
    (w_blobs encode_boot_record (lt_boots (rs_lineage s))).
Proof.
  destruct (du_boots _ Hs) as [Hl _]. pose proof (ri_boots _ (du_inv _ Hs)) as Hf.
  rewrite Forall_forall in Hf.
  apply decodes_blobs_id; [done|by unfold is_u32, kMaxLineageEntries; lia|].
  intros x Hx. split; [by apply small_boot, Hf|by apply decodes_boot_record, Hf].
Qed.

Lemma decodes_entries :
  decodes (r_sequence kMaxDedupEntries (r_nested r_idempotency)) (rs_idempotency s)
    (w_blobs encode_idempotency (rs_idempotency s)).
Proof.
  destruct (du_idempotency _ Hs) as [Hl Hf]. rewrite Forall_forall in Hf.
  apply decodes_blobs_id; [done|by unfold is_u32, kMaxDedupEntries; lia|].
  intros x Hx. split; [apply small_idempotency|by apply decodes_idempotency, Hf].
Qed.

Lemma decodes_marks :
  decodes (r_sequence kMaxInterruptedMarks (r_nested r_interrupt)) (rs_interrupts s)
    (w_blobs encode_interrupt (rs_interrupts s)).
Proof.
  destruct (du_interrupts _ Hs) as [Hl Hf]. rewrite Forall_forall in Hf.
  apply decodes_blobs_id; [done|by unfold is_u32, kMaxInterruptedMarks; lia|].
  intros x Hx. destruct (Hf x Hx) as [Hm _].
  split; [by apply small_interrupt|by apply decodes_interrupt].
Qed.

Lemma decodes_state : decodes r_state (snapshot_of s) (state_body s).
Proof.
  pose proof (du_words _ Hs) as Hw. pose proof (ri_words _ (du_inv _ Hs)) as Hw2.
  destruct (ri_domains _ (du_inv _ Hs)) as [Hds Hdg]. destruct (du_policy _ Hs) as [Hp _].
  pose proof (du_boot _ Hs) as Hb. pose proof (du_store _ Hs) as Hid.
  pose proof (du_domains _ Hs) as Hdl. open_wf. unfold r_state, state_body.
  eapply decodes_bind; [by apply decodes_u32; unfold is_u32, kStateFormatVersion; lia|].
  apply decodes_guard; [done|].
  eapply decodes_bind; [by apply decodes_id|]. do 2 (eapply decodes_bind; [by apply decodes_u64|]).
  eapply decodes_bind; [apply decodes_nested; [by apply small_boot|by apply decodes_boot_record]|].
  do 6 (eapply decodes_bind; [by apply decodes_u64|]).
  eapply decodes_bind; [apply decodes_nested; [by apply small_policy|by apply decodes_policy]|].
  eapply decodes_bind.
  { apply decodes_domain_map; [done| |done]. eapply Forall_impl; [exact Hdg|]. by intros d []. }
  eapply decodes_bind; [apply decodes_extents|]. eapply decodes_bind; [apply decodes_records|].
  eapply decodes_bind; [apply decodes_grants|]. eapply decodes_bind; [apply decodes_boots|].
  eapply decodes_bind; [apply decodes_entries|].
  eapply decodes_bind_last; [apply decodes_marks|apply decodes_ret].
Qed.

(** *** Re-importing *)

Lemma import_fences : ∃ t, fence_import (ft_extents (rs_fences s)) (ft_records (rs_fences s)) = Ret t ∧
  ft_extents t = ft_extents (rs_fences s) ∧ ft_records t = ft_records (rs_fences s) ∧ fence_wf t.
Proof.
  pose proof (ri_fences _ (du_inv _ Hs)) as Hwf. pose proof Hwf as ((Hsort & Hok) & Hl & _).
  destruct (du_records _ Hs) as [Hr _].
  destruct (fence_import _ _) as [t|st] eqn:E.
  - exists t. split; [done|]. destruct (restart_extents _ _ Hwf E) as [Ee Hw].
    split; [done|]. split; [|done]. revert E. unfold fence_import.
    destruct (_ <? _); [done|]. destruct (negb _); [done|]. intros [= <-]. cbn [ft_records].
    by rewrite (proj2 (Z.ltb_ge _ _)).
  - exfalso. revert E. unfold fence_import. rewrite (proj2 (Z.ltb_ge _ _)) by done.
    assert (Esort : sort_by extent_state_less (ft_extents (rs_fences s)) = ft_extents (rs_fences s)).
    { by apply (sort_by_sv_sorted es_extent). }
    rewrite Esort. assert (Hv : is_ok (validate_extents 0 None (ft_extents (rs_fences s))) = true).
    { apply validate_extents_ok. split; [|by apply StronglySorted_Sorted].
      eapply Forall_impl; [exact Hok|]. intros x [H1 H2]. split; [done|lia]. }
    by rewrite Hv.
Qed.

Lemma import_lineage : lineage_import (lt_grants (rs_lineage s)) (lt_boots (rs_lineage s)) =
  Ret (mkLineage (lt_grants (rs_lineage s)) (lt_boots (rs_lineage s)) 1).
Proof.
  pose proof (du_inv _ Hs) as Hi. destruct (ri_lineage _ Hi) as [Hwf Hl].
  destruct (du_boots _ Hs) as (Hbl & Hbc & _). unfold lineage_import.
  rewrite !(proj2 (Z.ltb_ge _ _)) by done. cbn [orb].
  assert (Hc : is_ok (check_grants import_guard ∅ ∅ ∅ (lt_grants (rs_lineage s))) = true).
  { destruct Hwf as (H1 & H2 & H3 & H4).
    apply check_grants_ok. rewrite hex_keys_NoDup. split_and!; try done; try set_solver.
    - pose proof (du_lineage _ Hs) as Hg. rewrite Forall_forall in *.
      intros g Hin. destruct (Hg g Hin) as [Hd He]. specialize (H4 g Hin). cbn in H4.
      unfold import_guard, is_none. rewrite !(proj2 (Z.eqb_neq _ _)) by (done || apply H4).
      by rewrite (proj2 (id_empty_false _)).
    - intros g Hin. rewrite lookup_empty. cbn. pose proof (ri_grants _ Hi) as Hg.
      rewrite Forall_forall in Hg. destruct (Hg g Hin) as [(_ & _ & _ & Hw) _]. open_wf.
      unfold is_u64 in *. lia. }
  rewrite Hc. cbn [negb]. cbv zeta. by rewrite Hbc.
Qed.
End body.

(** *** Counters *)

Lemma raise_all_le {A} (f : A → Z) l v : Forall (λ x, f x <= v) l → raise_all f l v = v.
Proof.
  unfold raise_all. induction 1 as [|x l Hx _ IH]; [done|]. simpl. rewrite raise_max.
  by rewrite Z.max_l.
Qed.

Lemma raise_all_ge {A} (f : A → Z) l : ∀ v, v <= raise_all f l v.
Proof.
  unfold raise_all. induction l as [|x l IH]; intros v; simpl; [lia|].
  specialize (IH (raise v (f x))). rewrite raise_max in *. lia.
Qed.

Lemma raise_all_u64 {A} (f : A → Z) l : ∀ v, is_u64 v → Forall (λ x, is_u64 (f x)) l →
  is_u64 (raise_all f l v).
Proof.
  unfold raise_all. induction l as [|x l IH]; intros v Hv Hl; simpl; [done|].
  apply Forall_cons in Hl as [Hx Hl]. apply IH; [|done]. rewrite raise_max.
  unfold is_u64 in *. lia.
Qed.

(** *** The scope table after an import *)

Lemma zlen_fmap {A B} (f : A → B) l : zlen (f <$> l) = zlen l.
Proof. unfold zlen. by rewrite length_fmap. Qed.

Lemma remember_keeps (scope : Scope) s : zlen (rs_scopes s) < kMaxIndexedExtents →
  sv_sorted fst (rs_scopes s) → scope ≠ [] →
  sv_sorted fst (rs_scopes (remember_scope scope s)) ∧
  (∀ k, has_scope (remember_scope scope s) k = true ↔ k = scope_digest scope ∨ has_scope s k = true) ∧
  zlen (rs_scopes (remember_scope scope s)) <= zlen (rs_scopes s) + 1 ∧
  (has_scope s (scope_digest scope) = true →
     rs_scopes (remember_scope scope s) = rs_scopes s).
Proof.
  intros Hl Hs Hne. unfold remember_scope, has_scope.
  rewrite (proj2 (scope_empty_false scope)) by done.
  rewrite (proj2 (Z.leb_gt _ _)) by done.
  set (key := Digest256_hex (scope_digest scope)).
  destruct (sv_find fst key (rs_scopes s)) as [p|] eqn:E; cbn [rs_scopes set_scopes].
  - split; [done|]. split; [|split; [lia|done]]. intros k. split; [auto|].
    intros [->|Hk]; [|done]. fold key. by rewrite E.
  - split; [by apply sv_set_sorted|]. split; [|split; [by apply zlen_sv_set|done]].
    intros k. rewrite sv_find_set by done. cbn [fst]. case_decide as Ek.
    + split; [|done]. intros _. left. by apply digest_hex_inj.
    + split; [auto|]. intros [->|Hk]; [done|done].
Qed.

Lemma remember_all_scopes l s : remember_all l s = set_scopes (rs_scopes (remember_all l s)) s.
Proof.
  revert s. induction l as [|x l IH]; intros s; [by destruct s|]. cbn [remember_all foldl].
  change (foldl _ (remember_scope x s) l) with (remember_all l (remember_scope x s)).
  rewrite IH at 1. unfold remember_scope. by repeat case_match.
Qed.

Lemma remember_all_grow l : ∀ s, sv_sorted fst (rs_scopes s) → Forall (λ x : Scope, x ≠ []) l →
  zlen (rs_scopes s) + zlen l <= kMaxIndexedExtents →
  sv_sorted fst (rs_scopes (remember_all l s)) ∧
  zlen (rs_scopes (remember_all l s)) <= zlen (rs_scopes s) + zlen l ∧
  ∀ k, has_scope (remember_all l s) k = true ↔ k ∈ scope_digest <$> l ∨ has_scope s k = true.
Proof.
  induction l as [|x l IH]; intros s Hs Hne Hl.
  { split; [done|]. cbn. split; [unfold zlen; simpl; lia|set_solver]. }
  apply Forall_cons in Hne as [Hx Hne].
  assert (zlen (x :: l) = 1 + zlen l) as El by (unfold zlen; simpl; lia). rewrite El in *.
  pose proof (zlen_nonneg l).
  destruct (remember_keeps x s) as (Hs' & Hk & Hl' & _); [lia|done..|].
  cbn [remember_all foldl].
  change (foldl _ (remember_scope x s) l) with (remember_all l (remember_scope x s)).
  destruct (IH (remember_scope x s)) as (A1 & A2 & A3); [done..|lia|].
  split; [done|]. split; [lia|]. intros k. rewrite A3, Hk, fmap_cons, elem_of_cons. tauto.
Qed.

Lemma remember_all_keep l : ∀ s, zlen (rs_scopes s) < kMaxIndexedExtents →
  sv_sorted fst (rs_scopes s) →
  Forall (λ x : Scope, x ≠ [] ∧ has_scope s (scope_digest x) = true) l →
  rs_scopes (remember_all l s) = rs_scopes s.
Proof.
  induction l as [|x l IH]; intros s Hl Hs Hf; [done|]. apply Forall_cons in Hf as [[Hx Hh] Hf].
  cbn [remember_all foldl].
  change (foldl _ (remember_scope x s) l) with (remember_all l (remember_scope x s)).
  destruct (remember_keeps x s) as (_ & _ & _ & E); [done..|]. specialize (E Hh).
  rewrite IH; rewrite ?E; [done..|]. eapply Forall_impl; [exact Hf|]. intros y [Hy Hhy].
  split; [done|]. unfold has_scope in *. by rewrite E.
Qed.

(** *** The restored state *)

(** What a restart sees of the state it was checkpointed from. *)
Record restored (s s' : RegistryState) : Prop := {
  rd_store : rs_store_id s' = rs_store_id s;
  rd_clock : rs_clock s' = rs_clock s;
  rd_last : rs_last_step s' = rs_last_step s;
  rd_boot : rs_boot s' = rs_boot s;
  rd_sequence : rs_sequence s' = rs_sequence s;
  rd_generation : rs_generation s' = rs_generation s;
  rd_commits : rs_commits s' = rs_commits s;
  rd_policy : rs_policy s' = rs_policy s;
  rd_domains : rs_domains s' = rs_domains s;
  rd_extents : ft_extents (rs_fences s') = ft_extents (rs_fences s);
  rd_records : ft_records (rs_fences s') = ft_records (rs_fences s);
  rd_grants : lt_grants (rs_lineage s') = lt_grants (rs_lineage s);
  rd_boots : lt_boots (rs_lineage s') = lt_boots (rs_lineage s);
  rd_idempotency : rs_idempotency s' = rs_idempotency s;
  rd_interrupts : rs_interrupts s' = rs_interrupts s;
  rd_incarnations : rs_incarnations s' = rs_incarnations s;
  rd_counters : rs_tokens s <= rs_tokens s' ∧ rs_grants s <= rs_grants s'
}.

(** The effect boundary's tokens and grants are words. *)
Definition fabric_words (f : FabricStore) : Prop :=
  Forall (λ m, is_u64 (mr_token m) ∧ is_u64 (mr_grant m)) (fb_records f) ∧
  Forall (λ e, is_u64 (es_token e)) (ft_extents (fb_fences f)).

Lemma extent_below s e : registry_inv s → e ∈ ft_extents (rs_fences s) → es_token e <= rs_tokens s.
Proof.
  intros Hi He. destruct (ri_fences _ Hi) as ((Hs & _) & _).
  pose proof (ri_marks _ Hi (es_extent e)) as Hm. unfold high_water, fence_find in Hm.
  rewrite (proj2 (sv_find_Some es_extent (es_extent e) e _ Hs)) in Hm by done. done.
Qed.

Section restore.
Context (s t : RegistryState) (Hs : durable s) (Ht : fabric_words (rs_fabric t)).
Context (fences : FenceTable) (lineage : LineageTable).
Context (Hfe : ft_extents fences = ft_extents (rs_fences s)).
Context (Hfr : ft_records fences = ft_records (rs_fences s)) (Hfw : fence_wf fences).
Context (Hlg : lt_grants lineage = lt_grants (rs_lineage s)).
Context (Hlb : lt_boots lineage = lt_boots (rs_lineage s)).

Definition installed : RegistryState := install (snapshot_of s) fences lineage t.

Lemma installed_scopes : sv_sorted fst (rs_scopes installed) ∧
  ∀ d, d ∈ rs_domains s → has_scope installed (scope_digest (dd_scope d)) = true.
Proof.
  unfold installed, install, remember_all. rewrite foldl_app. set (s1 := mkRegistry _ _ _ _ _ _ _ _ _ _ _ _ _ _ _ _ _ _ _ _ _ _).
  fold (remember_all (dd_scope <$> sn_domains (snapshot_of s)) s1).
  set (s2 := remember_all (dd_scope <$> _) s1).
  fold (remember_all (eg_extents <$> lt_grants lineage) s2).
  pose proof (du_inv _ Hs) as Hi. destruct (ri_domains _ Hi) as [_ Hd]. rewrite Forall_forall in Hd.
  pose proof (du_domains _ Hs) as Hl.
  destruct (remember_all_grow (dd_scope <$> rs_domains s) s1) as (A1 & A2 & A3).
  { constructor. }
  { apply Forall_fmap, Forall_forall. intros d Hin. destruct (Hd d Hin) as [_ [? _]]. done. }
  { rewrite zlen_fmap. change (zlen (rs_scopes s1)) with 0. unfold kMaxDomains, kMaxIndexedExtents in *. lia. }
  change (dd_scope <$> rs_domains s) with (dd_scope <$> sn_domains (snapshot_of s)) in A1, A2, A3.
  fold s2 in A1, A2, A3.
  assert (Hlen : zlen (rs_scopes s2) < kMaxIndexedExtents).
  { rewrite zlen_fmap in A2. change (zlen (rs_scopes s1)) with 0 in A2.
    cbn [sn_domains snapshot_of] in A2. unfold kMaxDomains, kMaxIndexedExtents in *. lia. }
  assert (Hds : ∀ d, d ∈ rs_domains s → has_scope s2 (scope_digest (dd_scope d)) = true).
  { intros d Hin. apply A3. left. by apply list_elem_of_fmap_2, list_elem_of_fmap_2. }
  assert (E : rs_scopes (remember_all (eg_extents <$> lt_grants lineage) s2) = rs_scopes s2).
  { apply remember_all_keep; [done..|]. apply Forall_fmap, Forall_forall. intros g Hg.
    rewrite Hlg in Hg. pose proof (ri_registered _ Hi) as Hr. rewrite Forall_forall in Hr.
    destruct (Hr g Hg) as (d & Hf & Ed). apply sv_find_elem in Hf as [Hin _]. cbn.
    rewrite <-Ed. destruct (Hd d Hin) as [_ [? _]]. auto. }
  unfold has_scope in *. rewrite E. done.
Qed.

(** The counters a rebuild leaves. *)
Lemma rebuilt : ∃ s', rebuild installed = (s', status_ok) ∧ restored s s' ∧
  rs_scopes s' = rs_scopes installed ∧ rs_fences s' = fences ∧ rs_lineage s' = lineage ∧
  words [rs_tokens s'; rs_grants s'].
Proof.
  pose proof (du_inv _ Hs) as Hi. destruct (du_policy _ Hs) as [_ Hpol].
  unfold installed, install. rewrite remember_all_scopes. set (sc := rs_scopes (remember_all _ _)).
  unfold rebuild. cbn [rs_fences rs_lineage rs_fabric rs_policy rs_tokens rs_grants
    rs_incarnations rs_interrupts set_scopes].
  assert (Hv1 : is_ok (fence_validate fences) = true).
  { destruct Hfw as ((Hsort & Hok) & _). apply validate_extents_ok.
    split; [|by apply StronglySorted_Sorted]. eapply Forall_impl; [exact Hok|].
    intros x [? ?]. split; [done|lia]. }
  assert (Hpos : Forall (λ g, 0 <= eg_epoch g) (lt_grants lineage)).
  { rewrite Hlg. eapply Forall_impl; [apply (ri_grants _ Hi)|]. intros g [(_ & _ & _ & Hw) _].
    open_wf. unfold is_u64 in *. lia. }
  assert (Hv2 : is_ok (lineage_validate lineage) = true).
  { apply validate_iff; [done|]. rewrite Hlg. apply (ri_lineage _ Hi). }
  rewrite Hv1, Hv2. cbn [negb]. cbv zeta.
  pose proof (ri_words _ Hi) as Hwords. open_wf. destruct Ht as [Hrec Hext].
  pose proof (ri_tokens _ Hi) as Htok. destruct (du_records _ Hs) as [_ Hrecs].
  destruct (du_boots _ Hs) as (_ & _ & Hbi). destruct (du_interrupts _ Hs) as [_ Him].
  rewrite Hfe, Hfr, Hlg, Hlb. cbn [sn_tokens sn_grants sn_incarnations sn_interrupts snapshot_of].
  rewrite (raise_all_le es_token (ft_extents (rs_fences s))) by
    (apply Forall_forall; intros e He; by apply extent_below).
  rewrite (raise_all_le eg_token (lt_grants (rs_lineage s))) by
    (eapply Forall_impl; [exact Htok|]; intros g [? _]; done).
  rewrite (raise_all_le fr_token (ft_records (rs_fences s))) by
    (eapply Forall_impl; [exact Hrecs|]; intros f [? _]; done).
  rewrite (raise_all_le eg_id (lt_grants (rs_lineage s))) by
    (eapply Forall_impl; [exact Htok|]; intros g [_ ?]; done).
  rewrite (raise_all_le br_incarnation (lt_boots (rs_lineage s))) by done.
  rewrite (raise_all_le im_incarnation (rs_interrupts s)) by
    (eapply Forall_impl; [exact Him|]; intros m [_ ?]; done).
  eexists. split; [by f_equal|]. split; [|split_and!; [done..|]].
  - split; cbn; try done.
    + destruct (rs_clock s) as [c] eqn:Ec. pose proof (du_words _ Hs) as Hwd.
      pose proof (du_clock _ Hs) as Hmax. rewrite Ec in *. cbn in Hwd, Hmax. open_wf.
      unfold clock_observe_persisted. cbn. unfold is_u64 in *.
      destruct (Z.leb_spec c 0); cbn; [f_equal; lia|].
      by rewrite (proj2 (Z.eqb_neq _ _)).
    + by rewrite (proj2 (Z.eqb_neq _ _)) by apply (du_generation _ Hs).
    + split; [|apply raise_all_ge]. etrans; [|apply raise_all_ge]. apply raise_all_ge.
  - cbn. repeat (apply Forall_cons; split); [..|constructor].
    + apply raise_all_u64; [by apply raise_all_u64|]. eapply Forall_impl; [exact Hrec|]. by intros m [].
    + apply raise_all_u64; [done|]. eapply Forall_impl; [exact Hrec|]. by intros m [].
Qed.
End restore.

Lemma restored_inv s s' : registry_inv s → restored s s' → fence_wf (rs_fences s') →
  words [rs_tokens s'; rs_grants s'] → registry_inv s'.
Proof.
  intros Hi [? ? ? Eb ? ? ? Ep Ed Ee Er Eg Ebo ? ? Ei [Ht Hg]] Hf Hw.
  destruct Hi as [_ Hl Hgr Hx Hr Htok Hm Hd Hbo Hws Hboot Hcu].
  split; rewrite ?Eb, ?Ed, ?Eg, ?Ebo, ?Ei; try done.
  - unfold lineage_wf. by rewrite Eg.
  - eapply Forall_impl; [exact Htok|]. intros g. cbn. lia.
  - intros e. specialize (Hm e). rewrite high_water_mark, Ee, <-high_water_mark. lia.
  - rewrite Ep. open_wf. repeat (apply Forall_cons; split; [assumption|]). constructor.
Qed.

Lemma serialize_cut s : let cut := Z.to_nat (zlen (serialize s) - 32) in
  32 <= zlen (serialize s) ∧ take cut (serialize s) = state_body s ∧
  drop cut (serialize s) = Digest256_of (state_body s).
Proof.
  unfold serialize, w_digest. set (b := state_body s). set (d := Digest256_of b).
  assert (Hd : zlen d = 32) by (unfold zlen, d; by rewrite length_digest).
  cbv zeta. rewrite zlen_app, Hd. pose proof (zlen_nonneg b).
  replace (zlen b + 32 - 32) with (zlen b) by lia. unfold zlen. rewrite Nat2Z.id.
  rewrite take_app_length, drop_app_length. unfold zlen in *. split; [lia|done].
Qed.

(** A completed read of a body, and how [deserialize] goes on from it. *)
Lemma deserialize_body t data n : 32 <= zlen data →
  drop (Z.to_nat (zlen data - 32)) data = Digest256_of (take (Z.to_nat (zlen data - 32)) data) →
  decode_all r_state (take (Z.to_nat (zlen data - 32)) data) = Ret n →
  deserialize t data = restore n t.
Proof.
  intros Hl Ed En. unfold deserialize. rewrite (proj2 (Z.ltb_ge _ _)) by done. cbv zeta.
  rewrite Ed, En. pose proof (decodes_digest (Digest256_of (take (Z.to_nat (zlen data - 32)) data))
    (length_digest _) 0 []) as E. unfold w_digest in E. rewrite app_nil_r in E.
  unfold reader_of. rewrite E. by rewrite eqb_refl.
Qed.

Lemma fence_import_not_ok es rs st : fence_import es rs = Err st → is_ok st = false.
Proof.
  unfold fence_import. destruct (_ <? _); [by intros [= <-]|].
  destruct (is_ok _) eqn:E; cbn [negb]; [done|]. by intros [= <-].
Qed.

Lemma lineage_import_not_ok gs bs st : lineage_import gs bs = Err st → is_ok st = false.
Proof.
  unfold lineage_import. destruct (_ || _); [by intros [= <-]|].
  destruct (is_ok (check_grants _ _ _ _ _)) eqn:E; cbn [negb]; [|by intros [= <-]].
  cbv zeta. destruct (is_ok (check_boots _ _)) eqn:E2; cbn [negb]; [done|]. by intros [= <-].
Qed.

Lemma rebuild_frame s s' st : rebuild s = (s', st) →
  rs_fences s' = rs_fences s ∧ rs_lineage s' = rs_lineage s ∧ rs_policy s' = rs_policy s ∧
  (is_ok st = true → is_ok (fence_validate (rs_fences s)) = true ∧
     is_ok (lineage_validate (rs_lineage s)) = true ∧ is_ok (policy_validate (rs_policy s)) = true).
Proof.
  unfold rebuild. destruct (is_ok (fence_validate _)) eqn:E1; cbn [negb]; cbv zeta.
  2: { intros [= <- <-]. by rewrite E1. }
  destruct (is_ok (lineage_validate _)) eqn:E2; cbn [negb].
  2: { intros [= <- <-]. by rewrite E2. }
  intros [= <- <-]. cbn. done.
Qed.

(** What a restore that succeeds has checked. *)
Lemma restore_ok n s s' st : restore n s = (s', st) → is_ok st = true →
  is_ok (fence_validate (rs_fences s')) = true ∧ is_ok (lineage_validate (rs_lineage s')) = true ∧
  is_ok (policy_validate (rs_policy s')) = true ∧ resolves s' = true.
Proof.
  unfold restore. destruct (fence_import _ _) as [f|e] eqn:Ef.
  2: { intros [= <- <-] Hok. by rewrite (fence_import_not_ok _ _ _ Ef) in Hok. }
  destruct (lineage_import _ _) as [l|e] eqn:El.
  2: { intros [= <- <-] Hok. by rewrite (lineage_import_not_ok _ _ _ El) in Hok. }
  destruct (rebuild _) as [s1 st1] eqn:Er. destruct (is_ok st1) eqn:E1; cbn [negb].
  2: { intros [= <- <-]. congruence. }
  destruct (resolves s1) eqn:E2; cbn [negb]; intros [= <- <-]; [|done]. intros _.
  destruct (rebuild_frame _ _ _ Er) as (-> & -> & -> & H). by destruct (H E1) as (? & ? & ?).
Qed.

Lemma honest_domains n : ∀ acc, honest (r_domains n acc).
Proof.
  induction n as [|n IH]; intros acc; [done|]. cbn [r_domains].
  apply honest_bind; [eauto with honest|]. intros d r st.
  destruct (sv_find _ _ _); [by intros [= <-]|apply IH].
Qed.

Lemma honest_state : honest r_state.
Proof.
  assert (honest r_domain_map).
  { unfold r_domain_map. apply honest_bind; [apply honest_count|]. intros. apply honest_domains. }
  assert (honest r_fence_record) by (unfold r_fence_record; repeat honest_step).
  unfold r_state. repeat honest_step.
Qed.

(** A checkpoint loses nothing. Reading back the snapshot of a durable
    state succeeds, whatever state it is read into; the state it leaves has the
    same store, clock, boot, sequence, policy, domains, marks, fence records,
    grants, boots and interrupts, counters no lower (and no lower than what the
    fabric log shows), and satisfies the registry's invariant. *)
Lemma checkpoint_restores (s t : RegistryState) : durable s → fabric_words (rs_fabric t) →
  ∃ s', deserialize t (serialize s) = (s', status_ok) ∧ restored s s' ∧ registry_inv s' ∧
    ∀ e, high_water (rs_fences s') e = high_water (rs_fences s) e.
Proof.
  intros Hs Ht. pose proof (du_inv _ Hs) as Hi. destruct (serialize_cut s) as (Hl & Eb & Ed).
  erewrite deserialize_body; [|done|by rewrite Eb|rewrite Eb; by apply decodes_all, decodes_state].
  unfold restore. cbn [sn_extents sn_records sn_lineage sn_boots snapshot_of].
  destruct (import_fences s Hs) as (f & -> & Hfe & Hfr & Hfw).
  rewrite (import_lineage s Hs). set (l := mkLineage _ _ _).
  destruct (rebuilt s t Hs Ht f l Hfe Hfr Hfw eq_refl eq_refl) as (s' & E & Hr & Esc & Ef & El & Hw).
  unfold installed in E. rewrite E. cbn [negb is_ok outcome status_ok].
  assert (Hres : resolves s' = true).
  { unfold resolves. apply forallb_forall. intros r Hin. apply list_elem_of_In in Hin.
    rewrite Ef, Hfr in Hin. destruct (du_records _ Hs) as [_ Hrec]. rewrite Forall_forall in Hrec.
    destruct (Hrec r Hin) as (_ & _ & Hd). apply list_elem_of_fmap in Hd as (d & -> & Hd).
    destruct (installed_scopes s t Hs f l eq_refl) as [_ Hsc]. specialize (Hsc d Hd).
    unfold has_scope in *. by rewrite Esc. }
  rewrite Hres. exists s'. split; [done|]. split; [done|]. split.
  - apply (restored_inv s); [done..|by rewrite Ef|done].
  - intros e. by rewrite !high_water_mark, (rd_extents _ _ Hr).
Qed.

Module Snapshots.

(** Nothing unverified is installed. Data that is too short, or whose last
    32 bytes are not the digest of the rest, leaves the state as it was; and
    when [deserialize] succeeds the digest matched, the fence table and the
    lineage validate, the policy is valid and every fence record's extents are
    known. *)
Theorem restore_validates (t t' : RegistryState) (data : bytes) (st : Status) :
  deserialize t data = (t', st) →
  let cut := Z.to_nat (zlen data - 32) in
  (zlen data < 32 ∨ drop cut data ≠ Digest256_of (take cut data) →
     t' = t ∧ outcome st = Outcome.Corrupt) ∧
  (is_ok st = true →
     drop cut data = Digest256_of (take cut data) ∧ is_ok (fence_validate (rs_fences t')) = true ∧
     is_ok (lineage_validate (rs_lineage t')) = true ∧
     is_ok (policy_validate (rs_policy t')) = true ∧ resolves t' = true).
Proof.
  unfold deserialize. cbv zeta. destruct (Z.ltb_spec (zlen data) 32) as [L|L].
  { intros [= <- <-]. done. }
  set (cut := Z.to_nat (zlen data - 32)).
  assert (Hlen : length (drop cut data) = 32%nat) by (rewrite length_drop; unfold cut, zlen in *; lia).
  pose proof (decodes_digest (drop cut data) Hlen 0 []) as E.
  unfold w_digest in E. rewrite app_nil_r in E. unfold reader_of. rewrite E. clear E.
  destruct (eqb (drop cut data) (Digest256_of (take cut data))) eqn:Ed; cbn [negb].
  - apply eqb_eq in Ed. intros Hr. split; [intros [?|?]; [lia|done]|]. intros Hok. split; [done|].
    destruct (decode_all r_state _) as [n|st'] eqn:En; [|injection Hr as <- <-].
    + by eapply restore_ok.
    + by rewrite (honest_all _ _ _ honest_state En) in Hok.
  - apply eqb_neq in Ed. intros [= <- <-]. split; [done|]. done.
Qed.

(** ** A checkpoint of the run *)

Definition run_state : RegistryState := w_state Registries.demo_second.
Definition run_scope : Scope := Decisions.demo_scope.
Definition run_record : FenceRecord :=
  mkFenceRecord 2 (str "d") (scope_digest run_scope) 1 1 Reason.CompensatingFenceRequired 6 1 7 1.

Lemma run_facts :
  rs_store_id run_state = str "store" ∧ clock_now (rs_clock run_state) = 6 ∧
  rs_last_step run_state = 6 ∧ rs_sequence run_state = 10 ∧ rs_generation run_state = 11 ∧
  rs_commits run_state = 0 ∧ rs_boot run_state = Registries.demo_boot ∧
  rs_policy run_state = Decisions.demo_policy ∧
  rs_domains run_state =
    [Registries.demo_domain "d" run_scope; Registries.demo_domain "e" [str "n2"]] ∧
  ft_extents (rs_fences run_state) =
    [mkExtentState (str "n1") 2 1 1 1 6; mkExtentState (str "n2") 3 1 2 2 6] ∧
  ft_records (rs_fences run_state) = [run_record] ∧ record_scope run_state run_record = run_scope ∧
  ((λ g, (eg_domain g, eg_epoch g)) <$> lt_grants (rs_lineage run_state)) =
    [(str "d", 1); (str "e", 1)] ∧
  lt_boots (rs_lineage run_state) = [] ∧ rs_idempotency run_state = [] ∧
  rs_interrupts run_state = [] ∧ rs_tokens run_state = 3.
Proof. vm_compute. repeat split. Qed.

Lemma run_inv : registry_inv run_state.
Proof. exact (proj2 Registries.demo_second_run). Qed.

#[local] Opaque run_state.

Lemma run_ids : id_valid (str "d") ∧ id_valid (str "n1") ∧ id_valid (str "n2") ∧
  id_valid (str "node") ∧ id_valid (str "store") ∧ scope_wf run_scope.
Proof.
  split_and!; [apply Registries.demo_id; set_solver..|].
  by destruct (Registries.demo_domain_good "d" run_scope ltac:(left) ltac:(left)).
Qed.

Lemma run_durable : durable run_state.
Proof.
  pose proof run_inv as Hi.
  destruct run_facts as (F1 & F2 & F3 & F4 & F5 & F6 & F7 & F8 & Ed & Ee & Er & Es & Eg & Eb & Ei & Em & Et).
  destruct run_ids as (Id & In1 & In2 & Inode & Istore & Hscope).
  split; rewrite ?F1, ?F2, ?F3, ?F4, ?F5, ?F6, ?F7, ?F8, ?Ed, ?Ee, ?Er, ?Eb, ?Ei, ?Em, ?Et;
    clear F1 F2 F3 F4 F5 F6 F7 F8 Ed Ee Er Eb Ei Em Et.
  - exact Hi.
  - exact Istore.
  - exact (Registries.demo_words [6; 6; 10; 11; 0] eq_refl).
  - discriminate.
  - discriminate.
  - exact (conj Inode (Registries.demo_words [0; 0; 0; 0; 0] eq_refl)).
  - exact (conj Registries.demo_policy_wf eq_refl).
  - discriminate.
  - apply Forall_cons. split; [exact (conj In1 (Registries.demo_words [2; 1; 1; 1; 6] eq_refl))|].
    apply Forall_singleton. exact (conj In2 (Registries.demo_words [3; 1; 2; 2; 6] eq_refl)).
  - split; [discriminate|]. apply Forall_singleton. split; [discriminate|]. rewrite Es. split; [|left].
    refine (conj Id (conj (or_intror Hscope) (conj eq_refl _))).
    exact (Registries.demo_words [2; 1; 1; 6; 1; 7; 1] eq_refl).
  - assert (H : Forall (λ p : DomainId * Epoch, p.1 ≠ [] ∧ p.2 ≠ 0)
      ((λ g, (eg_domain g, eg_epoch g)) <$> lt_grants (rs_lineage run_state))).
    { rewrite Eg. repeat constructor; discriminate. }
    by rewrite Forall_fmap in H.
  - split; [discriminate|]. split; [reflexivity|constructor].
  - split; [discriminate|constructor].
  - split; [discriminate|constructor].
Qed.

Lemma restore_validates_witness :
  deserialize registry0 (str "not a snapshot") =
    (registry0, fail0 Outcome.Corrupt Reason.TruncatedFrame) ∧
  ∀ t' st, deserialize registry0 (str "not a snapshot") = (t', st) → t' = registry0.
Proof.
  split; [reflexivity|]. intros t' st E.
  exact (proj1 (proj1 (restore_validates registry0 t' (str "not a snapshot") st E)
                  (or_introl eq_refl))).
Defined.
End Snapshots.
