(* ===== verification/Service.v ===== *)
(** * The registry service

    Models [RegistryService] of [include/sbf/registry.hpp] and
    [src/registry_service.cpp]: recovery at open, the transition every request
    runs under the state mutex (advance the clock, operate, append what was
    emitted), the session handshake, the dispatch of a frame and the worker loop
    of a connection.  A node is the service object with the files of its
    directory.  What the system calls of a transition do is the argument
    [Calls]; a thread holds the mutex for a whole transition, so connections
    interleave transition by transition. *)
From S2P Require Import Prelude Order SortedVec Status Ids Text Digest Canonical Scope.
From S2P Require Import Fence Lineage Evidence Arbiter Codec Wire Messages Journal Fabric.
From S2P Require Import Registry Snapshot.
Open Scope Z_scope.

(** ** The service and its files *)

Record Node := mkNode {
  nd_config : RegistryConfig;
  nd_store : Store;
  nd_disk : Disk;
  nd_fabric : FabricDisk;
  nd_state : RegistryState;
  nd_sessions : list SessionBinding;      (* std::map, by session *)
  nd_next_session : SessionId;
  nd_since_checkpoint : Z;
  nd_recovery : StoreRecoveryReport;
  nd_phase : RegistryPhase;
  nd_stopping : bool;
  nd_handled : Z;
  nd_rejected : Z;
  nd_poison : Z
}.

(** What the system calls of one transition do: each append of a record, the
    checkpoint after them, and the append of an effect. *)
Record Calls := mkCalls {
  ca_appends : list AppendIo;
  ca_checkpoint : CheckpointIo;
  ca_effect : AppendIo
}.

Definition calls_done : Calls := mkCalls [] checkpoint_done AppendDone.

(** Fields replaced. *)
Definition set_journal (s : Store) (d : Disk) (since : Z) (n : Node) : Node :=
  mkNode (nd_config n) s d (nd_fabric n) (nd_state n) (nd_sessions n) (nd_next_session n) since
    (nd_recovery n) (nd_phase n) (nd_stopping n) (nd_handled n) (nd_rejected n) (nd_poison n).
Definition set_registry (s : RegistryState) (f : FabricDisk) (n : Node) : Node :=
  mkNode (nd_config n) (nd_store n) (nd_disk n) f s (nd_sessions n) (nd_next_session n)
    (nd_since_checkpoint n) (nd_recovery n) (nd_phase n) (nd_stopping n) (nd_handled n)
    (nd_rejected n) (nd_poison n).
Definition set_sessions (l : list SessionBinding) (next : SessionId) (n : Node) : Node :=
  mkNode (nd_config n) (nd_store n) (nd_disk n) (nd_fabric n) (nd_state n) l next
    (nd_since_checkpoint n) (nd_recovery n) (nd_phase n) (nd_stopping n) (nd_handled n)
    (nd_rejected n) (nd_poison n).
Definition set_counters (handled rejected poison : Z) (n : Node) : Node :=
  mkNode (nd_config n) (nd_store n) (nd_disk n) (nd_fabric n) (nd_state n) (nd_sessions n)
    (nd_next_session n) (nd_since_checkpoint n) (nd_recovery n) (nd_phase n) (nd_stopping n)
    handled rejected poison.
Definition set_phase (phase : RegistryPhase) (stopping : bool) (n : Node) : Node :=
  mkNode (nd_config n) (nd_store n) (nd_disk n) (nd_fabric n) (nd_state n) (nd_sessions n)
    (nd_next_session n) (nd_since_checkpoint n) (nd_recovery n) phase stopping (nd_handled n)
    (nd_rejected n) (nd_poison n).

Definition count_handled (n : Node) : Node :=
  set_counters (u64 (nd_handled n + 1)) (nd_rejected n) (nd_poison n) n.
Definition count_rejected (n : Node) : Node :=
  set_counters (nd_handled n) (u64 (nd_rejected n + 1)) (nd_poison n) n.
Definition count_poison (n : Node) : Node :=
  set_counters (nd_handled n) (nd_rejected n) (u64 (nd_poison n + 1)) n.

(** ** [append_records] *)

Fixpoint append_all (ios : list AppendIo) (rs : list JournalRecord) (n : Node) : Node * Status :=
  match rs with
  | [] => (n, status_ok)
  | r :: rs =>
      let '(s, d, st) := store_append (default AppendDone (head ios)) (nd_store n) (nd_disk n) r in
      if negb (is_ok st) then (set_journal s d (nd_since_checkpoint n) n, st)
      else append_all (tail ios) rs (set_journal s d (u64 (nd_since_checkpoint n + 1)) n)
  end.

Definition checkpoint (io : CheckpointIo) (n : Node) : Node * Status :=
  let '(s, d, st) :=
    store_checkpoint io (nd_store n) (nd_disk n) (serialize (nd_state n)) (st_last (nd_store n))
      (clock_now (rs_clock (nd_state n))) in
  if negb (is_ok st) then (set_journal s d (nd_since_checkpoint n) n, st)
  else (set_journal s d 0 n, status_ok).

Definition append_records (ca : Calls) (rs : list JournalRecord) (n : Node) : Node * Status :=
  let (n, st) := append_all (ca_appends ca) rs n in
  if negb (is_ok st) then (n, st)
  else if rc_checkpoint_every (nd_config n) <=? nd_since_checkpoint n
  then checkpoint (ca_checkpoint ca) n
  else (n, status_ok).

(** ** Transitions *)

(** An operation of the registry on the node's state and effect log. *)
Definition operate {A} (m : M A) (n : Node) : Node * list JournalRecord * result A :=
  let '(w, r) := m (mkWorld (nd_state n) [] (default [] (fd_log (nd_fabric n)))) in
  (set_registry (w_state w)
     (mkFabricDisk (fd_header (nd_fabric n))
        (match fd_log (nd_fabric n) with Some _ => Some (w_log w) | None => None end)) n,
   w_out w, r).

(** [if (!state_.clock().advance()) return ...]. *)
Definition advance_clock (n : Node) : Node * bool :=
  let (c, ok) := clock_advance (rs_clock (nd_state n)) 1 in
  (set_registry (set_clock c (nd_state n)) (nd_fabric n) n, ok).

Definition now_of (n : Node) : Step := clock_now (rs_clock (nd_state n)).

Definition clock_exhausted : Status := fail0 Outcome.Exhausted Reason.CounterOverflow.

(** Advance the clock, operate, append the records whatever the outcome: the
    transition fails only when the clock or the journal does. *)
Definition transition {A} (ca : Calls) (m : Step → M A) (n : Node) : Node * result (result A) :=
  let (n, ok) := advance_clock n in
  if negb ok then (n, Err clock_exhausted)
  else
    let '(n, records, r) := operate (m (now_of n)) n in
    let (n, st) := append_records ca records n in
    if negb (is_ok st) then (n, Err st) else (n, Ret r).

(** [define_domain], before the service starts: a refusal appends nothing. *)
Definition service_define_domain (ca : Calls) (d : DomainDefinition) (n : Node) : Node * Status :=
  let (n, ok) := advance_clock n in
  if negb ok then (n, clock_exhausted)
  else
    let '(n, records, r) := operate (define_domain d (now_of n)) n in
    match r with
    | Err st => (n, st)
    | Ret _ => append_records ca records n
    end.

(** ** [open] *)

Record OpenCalls := mkOpenCalls {
  oc_net : Status;
  oc_directory : Status;
  oc_store : OpenIo;
  oc_fabric : OpenIo;
  oc_append : Calls
}.

Definition open_calls_done : OpenCalls :=
  mkOpenCalls status_ok status_ok open_done open_done calls_done.

Definition service_options : StoreOpenOptions := mkOptions true true 0.

Definition loaded (r : StoreRecoveryReport) : StoreRecoveryReport :=
  mkReport (rp_created r) true (rp_torn r) (rp_torn_bytes r) (rp_records r) (rp_last_sequence r)
    (rp_last_step r).

(** Definitions, lineage and fences from the snapshot; the sequence it covers. *)
Definition load_state (config : RegistryConfig) (d : Disk) (s : RegistryState)
  : RegistryState * result (option Sequence) :=
  match load_snapshot d with
  | Err _ => (s, Ret None)
  | Ret (blob, header) =>
      let (s, st) := deserialize s blob in
      if negb (is_ok st) then (s, Err st)
      else if negb (eqb (rs_store_id s) (rc_store_id config))
      then (s, Err (fail0 Outcome.Conflict Reason.StoreNotFound))
      else (s, Ret (Some (sn_covers header)))
  end.

(** A journal record the snapshot covers is skipped. *)
Definition replay_visitor (covers : Sequence) (r : JournalRecord) (s : RegistryState)
  : RegistryState * Status :=
  if jr_sequence r <=? covers then (s, status_ok) else apply r s.

(** The state rebuilt from the directory, before the restart is recorded. *)
Definition recover_state (config : RegistryConfig) (d : Disk) (s : RegistryState)
  : RegistryState * result (option Sequence) :=
  match load_state config d s with
  | (s, Err st) => (s, Err st)
  | (s, Ret covers) =>
      let (s, st) := store_replay (replay_visitor (default 0 covers)) d s in
      if negb (is_ok st) then (s, Err st)
      else
        let (s, st) := rebuild s in
        if negb (is_ok st) then (s, Err st) else (s, Ret covers)
  end.

(** The conservative restart, recorded. *)
Definition restart (ca : Calls) (n : Node) : Node * Status :=
  let (n, ok) := advance_clock n in
  if negb ok then (n, clock_exhausted)
  else
    let '(n, records, r) := operate (recover_after_restart (now_of n)) n in
    match r with
    | Err st => (n, st)
    | Ret _ => append_records ca records n
    end.

Definition finish_open (report : StoreRecoveryReport) (n : Node) : Node :=
  mkNode (nd_config n) (nd_store n) (nd_disk n) (nd_fabric n) (nd_state n) (nd_sessions n) 0
    (nd_since_checkpoint n)
    (mkReport (rp_created report) (rp_snapshot_loaded report) (rp_torn report)
       (rp_torn_bytes report) (rp_records report) (st_last (nd_store n)) (rp_last_step report))
    Ready (nd_stopping n) (nd_handled n) (nd_rejected n) (nd_poison n).

Definition set_config (c : RegistryConfig) (n : Node) : Node :=
  mkNode c (nd_store n) (nd_disk n) (nd_fabric n) (nd_state n) (nd_sessions n) (nd_next_session n)
    (nd_since_checkpoint n) (nd_recovery n) (nd_phase n) (nd_stopping n) (nd_handled n)
    (nd_rejected n) (nd_poison n).
Definition set_recovery (r : StoreRecoveryReport) (n : Node) : Node :=
  mkNode (nd_config n) (nd_store n) (nd_disk n) (nd_fabric n) (nd_state n) (nd_sessions n)
    (nd_next_session n) (nd_since_checkpoint n) r (nd_phase n) (nd_stopping n) (nd_handled n)
    (nd_rejected n) (nd_poison n).

Definition service_open (oc : OpenCalls) (config : RegistryConfig) (n : Node) : Node * Status :=
  if negb (is_ok (oc_net oc)) then (n, oc_net oc)
  else
    let n := set_config config n in
    if negb (is_ok (oc_directory oc)) then (n, oc_directory oc)
    else
      match store_open (oc_store oc) (rc_store_id config) service_options (nd_disk n) with
      | (d, Err st) => (set_journal (nd_store n) d (nd_since_checkpoint n) n, st)
      | (d, Ret (store, report)) =>
          let n := set_recovery report (set_journal store d (nd_since_checkpoint n) n) in
          match fabric_open (oc_fabric oc) (rc_store_id config) service_options report
                  (nd_fabric n) with
          | (f, Err st) => (set_registry (nd_state n) f n, st)
          | (f, Ret (fabric, report)) =>
              let (s, st) := initialise (set_fabric fabric (nd_state n)) config (mkStepClock 0)
                               (mkBoot 0 0 (rc_node config) 0 0 false false 0) in
              if negb (is_ok st) then (set_registry s f n, st)
              else
                match recover_state config (nd_disk n) s with
                | (s, Err st) => (set_registry s f n, st)
                | (s, Ret covers) =>
                    let (n, st) := restart (oc_append oc) (set_registry s f n) in
                    if negb (is_ok st) then (n, st)
                    else
                      (finish_open
                         (if bool_decide (is_Some covers) then loaded report else report) n,
                       status_ok)
                end
          end
      end.

(** ** The handshake *)

(** A response as it is before [handle_hello]: only the identity is filled in. *)
Definition hello_refused (n : Node) (st : Status) : HelloResponse :=
  mkHelloResponse st 0 0 0 kFrameVersion (rc_node (nd_config n)) 0.

Definition handle_hello (ca : Calls) (q : HelloRequest) (n : Node)
  : Node * result (HelloResponse * SessionBinding) :=
  if id_empty (hq_node q) then (n, Err (fail0 Outcome.Invalid Reason.EmptyValue))
  else if negb (hq_client_protocol q =? kFrameVersion)
  then (n, Err (mkStatus Outcome.Unsupported Reason.UnsupportedVersion (hq_client_protocol q)))
  else if rc_max_sessions (nd_config n) <=? zlen (nd_sessions n)
  then (n, Err (mkStatus Outcome.Exhausted Reason.BoundedTableFull (zlen (nd_sessions n))))
  else
    let (n, ok) := advance_clock n in
    if negb ok then (n, Err clock_exhausted)
    else
      let '(n, records, r) := operate (allocate_incarnation (now_of n)) n in
      match r with
      | Err st => (n, Err st)
      | Ret incarnation =>
          let (n, st) := append_records ca records n in
          if negb (is_ok st) then (n, Err st)
          else
            let session := (try_increment (nd_next_session n) 1).1 in
            let boot := br_boot (rs_boot (nd_state n)) in
            let binding := mkBinding session (hq_node q) boot incarnation (hq_kind q) 0 0 in
            let kept := match sv_find sb_session session (nd_sessions n) with
                        | Some _ => nd_sessions n
                        | None => sv_set sb_session binding (nd_sessions n)
                        end in
            (set_sessions kept session n,
             Ret (mkHelloResponse status_ok session boot incarnation kFrameVersion
                    (rc_node (nd_config n)) 1, binding))
      end.

Definition release_session (session : SessionId) (n : Node) : Node :=
  set_sessions (List.filter (λ b, negb (sb_session b =? session)) (nd_sessions n))
    (nd_next_session n) n.

(** ** The dispatch of a frame *)

Definition check_envelope (e : RequestEnvelope) (b : SessionBinding) : Status :=
  let st := validate_against e b in
  if negb (is_ok st) then st
  else if negb (en_incarnation e =? sb_incarnation b)
  then mkStatus Outcome.Invalid Reason.SessionMismatch 4
  else status_ok.

(** What a handler replies with. *)
Definition Reply : Type := MessageType * bytes.

(** The part every handler starts with: decode the payload, check the envelope. *)
Definition with_request {A} (d : reader → result (A * reader)) (envelope : A → RequestEnvelope)
    (payload : bytes) (b : SessionBinding) (n : Node)
    (k : A → Node * result Reply) : Node * result Reply :=
  match decode_all d payload with
  | Err st => (n, Err st)
  | Ret q =>
      let st := check_envelope (envelope q) b in
      if negb (is_ok st) then (n, Err st) else k q
  end.

(** The part every handler of a mutation ends with. *)
Definition reply_with {A} (ca : Calls) (m : Step → M A) (n : Node)
    (respond : Node → result A → Reply) : Node * result Reply :=
  match transition ca m n with
  | (n, Err st) => (n, Err st)
  | (n, Ret r) => (n, Ret (respond n r))
  end.

Definition only_coordinators (b : SessionBinding) (n : Node) (k : Node * result Reply)
  : Node * result Reply :=
  if bool_decide (sb_kind b = Coordinator) then k
  else (n, Err (fail0 Outcome.Refused Reason.EligibilityNotAuthorization)).

Definition handle_define (ca : Calls) (payload : bytes) (b : SessionBinding) (n : Node) :=
  with_request r_mq mq_envelope payload b n (λ q,
    reply_with ca (define_domain (mq_definition q)) n (λ n r,
      (MessageType.DefineDomainResponse,
       encode_mp (mkDefineDomainResponse (result_status r) (rs_generation (nd_state n)))))).

(** The fields of a request the registry reads. *)
Definition allocate_args (q : AllocateEpochRequest) : AllocateRequest :=
  mkAllocate (aq_domain q) (aq_scope q) (aq_incarnation q) (aq_boot q) (aq_attempt_sequence q).

Definition allocate_reply (r : result AllocateResponse) : AllocateEpochResponse :=
  match r with
  | Err st => mkAllocateEpochResponse st 0 0 0 0 0 0 0 [] 0
  | Ret a =>
      mkAllocateEpochResponse status_ok (Registry.ar_epoch a) (ar_token a) (Registry.ar_grant a)
        (Registry.ar_valid_until a) (ar_lineage_gen a) (ar_policy_gen a) (ar_fence_gen a)
        (Registry.ar_policy a) (ar_step a)
  end.

Definition handle_allocate (ca : Calls) (payload : bytes) (b : SessionBinding) (n : Node) :=
  with_request r_aq aq_envelope payload b n (λ q,
    if negb (aq_incarnation q =? en_incarnation (aq_envelope q)) ||
       negb (aq_boot q =? en_boot (aq_envelope q))
    then (n, Err (mkStatus Outcome.Invalid Reason.SessionMismatch 5))
    else
      only_coordinators b n
        (reply_with ca (allocate_epoch (allocate_args q)) n (λ _ r,
           (MessageType.AllocateEpochResponse, encode_ar (allocate_reply r))))).

Definition decide_args (q : Messages.DecideRequest) : Registry.DecideRequest :=
  mkDecide (Messages.dq_domain q) (Messages.dq_scope q) (Messages.dq_epoch q)
    (Messages.dq_incarnation q) (Messages.dq_boot q) (dq_presented_fence_token q)
    (Messages.dq_mode q) (dq_attempt_sequence q) (Messages.dq_evidence q)
    (Messages.dq_requested_at q).

(** [decide] changes nothing but the clock, and emits nothing. *)
Definition handle_decide (payload : bytes) (b : SessionBinding) (n : Node)
  : Node * result Reply :=
  with_request r_dq dq_envelope payload b n (λ q,
    let (n, ok) := advance_clock n in
    if negb ok then (n, Err clock_exhausted)
    else
      let (st, d) := registry_decide (nd_state n) (decide_args q) (now_of n) in
      (n, Ret (MessageType.DecideResponse, encode_dr (mkDecideResponse st d)))).

Definition commit_args (q : Messages.CommitRequest) : Registry.CommitRequest :=
  mkCommit (Messages.cq_domain q) (Messages.cq_scope q) (Messages.cq_epoch q)
    (Messages.cq_incarnation q) (Messages.cq_grant q) (cq_fence_token q)
    (Messages.cq_operation q) (cq_payload_digest q).

Definition commit_reply (r : result Registry.CommitResponse) : Messages.CommitResponse :=
  match r with
  | Err st => Messages.mkCommitResponse st 0 0 Digest256_zero false
  | Ret c =>
      Messages.mkCommitResponse status_ok (cr_sequence c) (cr_token c) (cr_effect c)
        (Registry.cr_verified c)
  end.

Definition handle_commit (ca : Calls) (payload : bytes) (b : SessionBinding) (n : Node) :=
  with_request r_cq cq_envelope payload b n (λ q,
    only_coordinators b n
      (reply_with ca (commit (ca_effect ca) (commit_args q)) n (λ _ r,
         (MessageType.CommitResponse, encode_cr (commit_reply r))))).

Definition fence_args (q : Messages.FenceRequest) : Registry.FenceRequest :=
  Registry.mkFenceRequest (Messages.fq_domain q) (Messages.fq_scope q) (Messages.fq_epoch q)
    (Messages.fq_incarnation q) (Messages.fq_cause q).

(** The mark a refused fence had reached: the token of the last fence emitted. *)
Definition last_fence (rs : list JournalRecord) : FenceToken :=
  foldl (λ t r, if bool_decide (jr_kind r = KFence) then aux (jr_status r) else t) 0 rs.

Definition handle_fence (ca : Calls) (payload : bytes) (b : SessionBinding) (n : Node)
  : Node * result Reply :=
  with_request r_fq fq_envelope payload b n (λ q,
    let (n, ok) := advance_clock n in
    if negb ok then (n, Err clock_exhausted)
    else
      let '(n, records, r) := operate (fence (fence_args q) (now_of n)) n in
      let (n, st) := append_records ca records n in
      if negb (is_ok st) then (n, Err st)
      else
        (n, Ret (MessageType.FenceResponse,
           encode_fp
             match r with
             | Err st => mkFenceResponse st (last_fence records) 0
             | Ret (token, sequence) => mkFenceResponse status_ok token sequence
             end))).

(** A release of a grant that is not open names its epoch. *)
Definition release_reply (s : RegistryState) (q : Messages.ReleaseRequest)
    (r : result (Epoch * FenceToken)) : ReleaseResponse :=
  match r with
  | Ret (epoch, token) => mkReleaseResponse status_ok epoch token
  | Err st =>
      mkReleaseResponse st
        (match find_grant (rs_lineage s) (rq_grant q) with
         | Some g => if is_open g then 0 else eg_epoch g
         | None => 0
         end) 0
  end.

Definition handle_release (ca : Calls) (payload : bytes) (b : SessionBinding) (n : Node) :=
  with_request r_rq rq_envelope payload b n (λ q,
    reply_with ca (release (mkRelease (rq_grant q) (rq_cause q))) n (λ _ r,
      (MessageType.ReleaseResponse, encode_rp (release_reply (nd_state n) q r)))).

Definition inspect_report (s : RegistryState) : bytes :=
  str "store=" ++ rs_store_id s ++
  str " boot=" ++ hex_u64 (br_boot (rs_boot s)) ++
  str " incarnation=" ++ hex_u64 (br_incarnation (rs_boot s)) ++
  str " step=" ++ hex_u64 (clock_now (rs_clock s)) ++
  str " grants=" ++ decimal (zlen (lt_grants (rs_lineage s))) ++
  str " open=" ++ decimal (zlen (open_grants (rs_lineage s))) ++
  str " extents=" ++ decimal (zlen (ft_extents (rs_fences s))) ++
  str " interrupts=" ++ decimal (zlen (rs_interrupts s)) ++
  str " mutations=" ++ decimal (zlen (fb_records (rs_fabric s))) ++
  str " commits=" ++ decimal (rs_commits s) ++
  str " token_counter=" ++ hex_u64 (rs_tokens s).

Definition handle_inspect (payload : bytes) (b : SessionBinding) (n : Node) : Node * result Reply :=
  with_request r_iq iq_envelope payload b n (λ _,
    let s := nd_state n in
    (n, Ret (MessageType.InspectResponse,
       encode_ip (mkInspectResponse status_ok (inspect_report s) (rs_generation s)
                    (rs_sequence s))))).

Definition handle_frame (ca : Calls) (f : Frame) (b : SessionBinding) (n : Node)
  : Node * result Reply :=
  let payload := fr_payload f in
  match fh_type (fr_header f) with
  | MessageType.PingRequest => (n, Ret (MessageType.PingResponse, []))
  | MessageType.ShutdownRequest => (n, Ret (MessageType.ShutdownResponse, []))
  | t =>
      if is_none (sb_session b) then (n, Err (fail0 Outcome.Invalid Reason.SessionMismatch))
      else
        match t with
        | MessageType.DefineDomainRequest => handle_define ca payload b n
        | MessageType.AllocateEpochRequest => handle_allocate ca payload b n
        | MessageType.DecideRequest => handle_decide payload b n
        | MessageType.CommitRequest => handle_commit ca payload b n
        | MessageType.FenceRequest => handle_fence ca payload b n
        | MessageType.ReleaseRequest => handle_release ca payload b n
        | MessageType.InspectRequest => handle_inspect payload b n
        | _ => (n, Err (mkStatus Outcome.Unsupported Reason.InvalidEnum (MessageType.code t)))
        end
  end.

(** ** The worker of a connection *)

(** [closes_connection]. *)
Definition closes_connection (r : Reason) : bool :=
  match r with
  | Reason.SessionMismatch | Reason.BadMagic | Reason.InvalidEnum | Reason.TruncatedFrame
  | Reason.OversizedPayload | Reason.StickyFailure | Reason.IntegrityMismatch
  | Reason.UnsupportedVersion => true
  | _ => false
  end.

Record Connection := mkConnection {
  cn_decoder : FrameDecoder;
  cn_binding : SessionBinding;
  cn_open : bool
}.

Definition no_binding : SessionBinding := mkBinding 0 [] 0 0 Coordinator 0 0.

Definition accepted_connection : Connection :=
  mkConnection (decoder kMaxFramePayloadBytes) no_binding true.

Definition error_reply (st : Status) (detail : bytes) : Reply :=
  (MessageType.ErrorResponse, encode_er (mkErrorResponse st detail)).

(** The binding after a request is admitted. *)
Definition admit_request (id : RequestId) (b : SessionBinding) : SessionBinding :=
  mkBinding (sb_session b) (sb_node b) (sb_boot b) (sb_incarnation b) (sb_kind b) id
    (try_increment (sb_accepted_requests b) 1).1.

(** The first frame of a connection. *)
Definition serve_hello (ca : Calls) (f : Frame) (b : SessionBinding) (stop : bool) (n : Node)
  : Node * SessionBinding * bool * Reply :=
  if negb (bool_decide (fh_type (fr_header f) = MessageType.HelloRequest))
  then (n, b, true, error_reply (fail0 Outcome.Invalid Reason.SessionMismatch)
                      (str "first frame must be a hello"))
  else
    match decode_all r_hq (fr_payload f) with
    | Err st =>
        (count_rejected n, b, true, (MessageType.HelloResponse, encode_hp (hello_refused n st)))
    | Ret q =>
        match handle_hello ca q n with
        | (n, Err st) =>
            (count_rejected n, b, true, (MessageType.HelloResponse, encode_hp (hello_refused n st)))
        | (n, Ret (response, binding)) =>
            (count_handled n, binding, stop, (MessageType.HelloResponse, encode_hp response))
        end
    end.

(** A later frame; [stop] is [stop_connection], which each turn may set or clear. *)
Definition serve_request (ca : Calls) (f : Frame) (b : SessionBinding) (stop : bool) (n : Node)
  : Node * SessionBinding * bool * Reply :=
  let id := fh_request_id (fr_header f) in
  if id <=? sb_last_request b
  then (count_rejected n, b, true,
        error_reply (mkStatus Outcome.Invalid Reason.RequestIdRegression id)
          (str "request id must strictly increase within a session"))
  else
    let b := admit_request id b in
    match handle_frame ca f b n with
    | (n, Err st) =>
        (count_rejected n, b, closes_connection (reason st), error_reply st (status_to_string st))
    | (n, Ret reply) => (count_handled n, b, stop, reply)
    end.

Definition serve_frame (ca : Calls) (f : Frame) (b : SessionBinding) (stop : bool) (n : Node)
  : Node * SessionBinding * bool * Reply :=
  if is_none (sb_session b) then serve_hello ca f b stop n else serve_request ca f b stop n.

Definition reply_frame (id : RequestId) (r : Reply) : Frame :=
  mkFrame (mkFrameHeader kFrameMagic kFrameVersion r.1 0 id 0 0 0) r.2.

(** The loop over the frames of a chunk: what the calls of each turn do and
    whether its reply was written.  A failed write or a shutdown ends it. *)
Fixpoint serve_frames (env : list (Calls * bool)) (fs : list Frame) (b : SessionBinding)
    (stop : bool) (n : Node) : Node * SessionBinding * bool * list bytes :=
  match fs with
  | [] => (n, b, stop, [])
  | f :: fs =>
      let '(ca, wrote) := default (calls_done, true) (head env) in
      let '(n, b, stop, reply) := serve_frame ca f b stop n in
      if negb wrote then (n, b, true, [])
      else
        let out := encode_frame (reply_frame (fh_request_id (fr_header f)) reply) in
        if bool_decide (reply.1 = MessageType.ShutdownResponse)
        then (set_phase (nd_phase n) true n, b, true, [out])
        else
          let '(n, b, stop, rest) := serve_frames (tail env) fs b stop n in
          (n, b, stop, out :: rest)
  end.

(** The session of a closing connection is forgotten. *)
Definition close_connection (b : SessionBinding) (n : Node) : Node :=
  if is_set (sb_session b) then release_session (sb_session b) n else n.

(** One chunk read from the socket: the bytes written back. *)
Definition serve_chunk (env : list (Calls * bool)) (chunk : bytes) (c : Connection) (n : Node)
  : Node * Connection * list bytes :=
  let '(d, frames, st) := push (cn_decoder c) chunk in
  if negb (is_ok st)
  then (close_connection (cn_binding c) (count_poison n), mkConnection d (cn_binding c) false, [])
  else
    let '(n, b, stop, out) := serve_frames env frames (cn_binding c) false n in
    if stop || nd_stopping n then (close_connection b n, mkConnection d b false, out)
    else (n, mkConnection d b true, out).
