(* ===== verification/Sessions.v ===== *)
(** * Sessions

    What the registry service of [src/registry_service.cpp] guarantees its
    clients while any number of connections are served: who holds a session, what
    a frame may change and on whose authority, and in what order the requests of
    a session are served.  A connection's worker thread takes the state mutex
    for one transition at a time, so a step of the system is the turn of one
    worker on one frame. *)
From S2P Require Import Prelude Order SortedVec Status Ids Text Digest Canonical Scope.
From S2P Require Import Fence Lineage Evidence Arbiter Codec Readers Wire Messages Journal Fabric.
From S2P Require Import Registry Replay Snapshot Service.
Open Scope Z_scope.

(** ** The workers of a running service *)

(** A worker: its connection, the frames of the last chunk not served yet, and
    [stop_connection]. *)
Record Worker := mkWorker {
  wk_decoder : FrameDecoder;
  wk_binding : SessionBinding;
  wk_pending : list Frame;
  wk_stop : bool
}.

Definition accepted_worker : Worker :=
  mkWorker (cn_decoder accepted_connection) (cn_binding accepted_connection) [] false.

(** A frame served: the binding and flag it leaves, and whether the loop over
    the chunk goes on. *)
Definition served (wrote : bool) (reply : Reply) (d : FrameDecoder) (b : SessionBinding)
    (rest : list Frame) (stop : bool) : Worker :=
  if negb wrote || bool_decide (reply.1 = MessageType.ShutdownResponse)
  then mkWorker d b [] true
  else mkWorker d b rest stop.

(** [stopping_] is set once the reply to a shutdown is on the wire. *)
Definition shut (wrote : bool) (reply : Reply) (n : Node) : Node :=
  if wrote && bool_decide (reply.1 = MessageType.ShutdownResponse)
  then set_phase (nd_phase n) true n else n.

Abbreviation System := (Node * gmap nat Worker)%type.

Inductive serves : System → System → Prop :=
  | serves_accept n W k : W !! k = None →
      serves (n, W) (n, <[k := accepted_worker]> W)
  | serves_receive n W k d b chunk d' frames st : W !! k = Some (mkWorker d b [] false) →
      push d chunk = (d', frames, st) → is_ok st = true →
      serves (n, W) (n, <[k := mkWorker d' b frames false]> W)
  | serves_malformed n W k d b chunk d' frames st : W !! k = Some (mkWorker d b [] false) →
      push d chunk = (d', frames, st) → is_ok st = false →
      serves (n, W) (close_connection b (count_poison n), delete k W)
  | serves_frame n W k d b f fs stop ca wrote n' b' stop' reply :
      W !! k = Some (mkWorker d b (f :: fs) stop) →
      serve_frame ca f b stop n = (n', b', stop', reply) →
      serves (n, W) (shut wrote reply n', <[k := served wrote reply d b' fs stop']> W)
  | serves_close n W k d b stop : W !! k = Some (mkWorker d b [] stop) →
      serves (n, W) (close_connection b n, delete k W).

(** ** What serving a frame leaves alone *)

(** Everything but the registry's own state, its files and the counters. *)
Definition service_part (n : Node) :=
  (nd_config n, nd_sessions n, nd_next_session n, identity (nd_state n), nd_phase n, nd_stopping n).

Definition steady (n n' : Node) : Prop := service_part n' = service_part n.

#[export] Instance steady_preorder : PreOrder steady.
Proof. unfold steady. split; repeat intros ?; congruence. Qed.

Lemma steady_journal s d v n : steady n (set_journal s d v n).
Proof. done. Qed.

Lemma steady_counters a b c n : steady n (set_counters a b c n).
Proof. done. Qed.

(** Appending changes the journal, and nothing else. *)
Lemma append_all_journal ios rs n : ∃ s d v, (append_all ios rs n).1 = set_journal s d v n.
Proof.
  revert ios n. induction rs as [|r rs IH]; intros ios n.
  { exists (nd_store n), (nd_disk n), (nd_since_checkpoint n). by destruct n. }
  cbn [append_all]. destruct (store_append _ _ _ _) as [[s d] st].
  destruct (is_ok st); cbn [negb]; [|by eauto]. set (n1 := set_journal _ _ _ _).
  destruct (IH (tail ios) n1) as (s' & d' & v' & ->). by exists s', d', v'.
Qed.

Lemma append_records_journal ca rs n : ∃ s d v, (append_records ca rs n).1 = set_journal s d v n.
Proof.
  unfold append_records. destruct (append_all_journal (ca_appends ca) rs n) as (s & d & v & E).
  destruct (append_all _ _ _) as [n1 st]. cbn [fst] in E. subst n1.
  destruct (is_ok st); cbn [negb]; [|by eauto]. destruct (_ <=? _); [|by eauto].
  unfold checkpoint. destruct (store_checkpoint _ _ _ _ _ _) as [[s' d'] st'].
  destruct (is_ok st'); by eauto.
Qed.

Lemma steady_append_records ca rs n : steady n (append_records ca rs n).1.
Proof. by destruct (append_records_journal ca rs n) as (s & d & v & ->). Qed.

Lemma append_records_fabric ca rs n : nd_fabric (append_records ca rs n).1 = nd_fabric n.
Proof. by destruct (append_records_journal ca rs n) as (s & d & v & ->). Qed.

Lemma steady_clock n : steady n (advance_clock n).1.
Proof. unfold advance_clock. by destruct (clock_advance _ _) as [c ok]. Qed.

Lemma operate_registry {A} (m : M A) n n' rs r : operate m n = (n', rs, r) →
  ∃ w', m (mkWorld (nd_state n) [] (default [] (fd_log (nd_fabric n)))) = (w', r) ∧
    nd_state n' = w_state w' ∧ rs = w_out w' ∧ nd_config n' = nd_config n ∧
    nd_sessions n' = nd_sessions n ∧ nd_next_session n' = nd_next_session n ∧
    nd_phase n' = nd_phase n ∧ nd_stopping n' = nd_stopping n.
Proof.
  unfold operate. destruct (m _) as [w' r'] eqn:E. intros [= <- <- <-]. by exists w'.
Qed.

Lemma steady_operate {A} (m : M A) n n' rs r : keeps identity_in m → operate m n = (n', rs, r) →
  steady n n'.
Proof.
  intros Hm H. destruct (operate_registry _ _ _ _ _ H) as (w' & E & Es & _ & E1 & E2 & E3 & E4 & E5).
  pose proof (Hm (mkWorld (nd_state n) [] (default [] (fd_log (nd_fabric n))))) as Hk.
  rewrite E in Hk. unfold identity_in in Hk. cbn [fst w_state] in Hk. unfold steady, service_part.
  by rewrite E1, E2, E3, E4, E5, Es, Hk.
Qed.

Lemma steady_transition {A} ca (m : Step → M A) n : (∀ now, keeps identity_in (m now)) →
  steady n (transition ca m n).1.
Proof.
  intros Hm. unfold transition. pose proof (steady_clock n) as Hc.
  destruct (advance_clock n) as [n1 ok]. cbn [fst] in Hc. destruct ok; cbn [negb]; [|done].
  destruct (operate _ _) as [[n2 rs] r] eqn:E. apply steady_operate in E; [|done].
  pose proof (steady_append_records ca rs n2) as Ha.
  destruct (append_records _ _ _) as [n3 st]. cbn [fst] in Ha.
  assert (steady n n3) by (do 2 (etrans; [eassumption|]); done).
  by destruct (is_ok st).
Qed.

Section keeps_handlers.
Context {X : Type} (p : World → X) `{!Emits p}.

Lemma keeps_check_registered d sc : keeps p (check_registered d sc).
Proof. unfold check_registered. repeat keeps_step. Qed.

Lemma keeps_check_grant q : keeps p (check_grant q).
Proof. unfold check_grant. repeat keeps_step. Qed.
#[local] Hint Resolve keeps_check_registered keeps_check_grant : keeps.

Lemma keeps_define_domain d now : keeps p (define_domain d now).
Proof. unfold define_domain. repeat keeps_step. Qed.

Lemma keeps_supersede q now g : keeps p (supersede q now g).
Proof. unfold supersede. repeat keeps_step. Qed.

Lemma keeps_open_new q now : keeps p (open_new q now).
Proof. unfold open_new. repeat keeps_step. Qed.
#[local] Hint Resolve keeps_supersede keeps_open_new : keeps.

Lemma keeps_allocate_epoch q now : keeps p (allocate_epoch q now).
Proof. unfold allocate_epoch. repeat keeps_step. Qed.

Lemma keeps_fence_loop q now l last : keeps p (fence_loop q now l last).
Proof.
  revert last. induction l as [|g l IH]; intros last; cbn [fence_loop]; repeat keeps_step; apply IH.
Qed.
#[local] Hint Resolve keeps_fence_loop : keeps.

Lemma keeps_fence q now : keeps p (fence q now).
Proof. unfold fence. repeat keeps_step. Qed.

Lemma keeps_release q now : keeps p (release q now).
Proof. unfold release. repeat keeps_step. Qed.
End keeps_handlers.

#[export] Hint Resolve keeps_check_registered keeps_check_grant : keeps.

Lemma keeps_commit io q now : keeps identity_in (commit io q now).
Proof. unfold commit. repeat keeps_step. Qed.

(** ** The envelope of a request *)

(** The envelope a frame carries, when its payload decodes. *)
Definition envelope_in {A} (d : reader → result (A * reader)) (envelope : A → RequestEnvelope)
    (payload : bytes) : option RequestEnvelope :=
  match decode_all d payload with Ret q => Some (envelope q) | Err _ => None end.

Definition envelope_of (f : Frame) : option RequestEnvelope :=
  let payload := fr_payload f in
  match fh_type (fr_header f) with
  | MessageType.DefineDomainRequest => envelope_in r_mq mq_envelope payload
  | MessageType.AllocateEpochRequest => envelope_in r_aq aq_envelope payload
  | MessageType.DecideRequest => envelope_in r_dq dq_envelope payload
  | MessageType.CommitRequest => envelope_in r_cq cq_envelope payload
  | MessageType.FenceRequest => envelope_in r_fq fq_envelope payload
  | MessageType.ReleaseRequest => envelope_in r_rq rq_envelope payload
  | MessageType.InspectRequest => envelope_in r_iq iq_envelope payload
  | _ => None
  end.

(** The envelope names the session it came in on. *)
Definition names (b : SessionBinding) (e : RequestEnvelope) : Prop :=
  en_session e = sb_session b ∧ en_session e ≠ 0 ∧ en_node e = sb_node b ∧ en_boot e = sb_boot b ∧
  en_incarnation e = sb_incarnation b.

Lemma check_envelope_names e b : is_ok (check_envelope e b) = true → names b e.
Proof.
  unfold check_envelope, validate_against, is_none, names.
  destruct (Z.eqb_spec (en_session e) 0); [done|].
  destruct (Z.eqb_spec (en_session e) (sb_session b)); [|done].
  destruct (eqb (en_node e) (sb_node b)) eqn:En; [|done]. apply eqb_eq in En.
  destruct (Z.eqb_spec (en_boot e) (sb_boot b)); [|done].
  by destruct (Z.eqb_spec (en_incarnation e) (sb_incarnation b)).
Qed.

(** What any request but a ping, a shutdown or an inspection does to the node:
    nothing, or it is on the session's authority. *)
Definition on_authority (b : SessionBinding) (e : option RequestEnvelope) (n n' : Node) : Prop :=
  n' = n ∨ ∃ env, e = Some env ∧ names b env.

Section requests.
Context {A : Type} (d : reader → result (A * reader)) (envelope : A → RequestEnvelope).
Context (payload : bytes) (b : SessionBinding) (n : Node) (k : A → Node * result Reply).

(** Nothing happens unless the payload decodes to a request of this session. *)
Lemma with_request_cases :
  (∃ st, with_request d envelope payload b n k = (n, Err st)) ∨
  ∃ q, decode_all d payload = Ret q ∧ names b (envelope q) ∧
    with_request d envelope payload b n k = k q.
Proof.
  unfold with_request. destruct (decode_all d payload) as [q|st] eqn:E; [|by eauto].
  destruct (is_ok (check_envelope (envelope q) b)) eqn:C; cbn [negb]; [|by eauto].
  right. exists q. split; [done|]. split; [by apply check_envelope_names|done].
Qed.

Lemma with_request_authority : on_authority b (envelope_in d envelope payload) n
  (with_request d envelope payload b n k).1.
Proof.
  destruct with_request_cases as [[st ->]|(q & E & Hq & ->)]; [by left|].
  right. exists (envelope q). unfold envelope_in. by rewrite E.
Qed.

Lemma with_request_steady : (∀ q, steady n (k q).1) →
  steady n (with_request d envelope payload b n k).1.
Proof. intros H. by destruct with_request_cases as [[st ->]|(q & _ & _ & ->)]. Qed.
End requests.

Lemma steady_reply {A} ca (m : Step → M A) n respond : (∀ now, keeps identity_in (m now)) →
  steady n (reply_with ca m n respond).1.
Proof.
  intros Hm. unfold reply_with. pose proof (steady_transition ca m n Hm) as H.
  by destruct (transition ca m n) as [n1 [r|st]].
Qed.

Lemma steady_coordinators b n k : steady n k.1 → steady n (only_coordinators b n k).1.
Proof. intros H. unfold only_coordinators. by case_bool_decide. Qed.

Lemma steady_decide payload b n : steady n (handle_decide payload b n).1.
Proof.
  apply with_request_steady. intros q. pose proof (steady_clock n) as H.
  destruct (advance_clock n) as [n1 ok]. destruct ok; cbn [negb]; [|exact H].
  by destruct (registry_decide _ _ _).
Qed.

Lemma steady_fence ca payload b n : steady n (handle_fence ca payload b n).1.
Proof.
  apply with_request_steady. intros q. pose proof (steady_clock n) as Hc.
  destruct (advance_clock n) as [n1 ok]. cbn [fst] in Hc. destruct ok; cbn [negb]; [|exact Hc].
  destruct (operate _ _) as [[n2 rs] r] eqn:E. apply steady_operate in E; [|apply (keeps_fence identity_in)].
  pose proof (steady_append_records ca rs n2) as Ha.
  destruct (append_records _ _ _) as [n3 st]. cbn [fst] in Ha.
  assert (steady n n3) by (do 2 (etrans; [eassumption|]); done).
  by destruct (is_ok st).
Qed.

Lemma steady_handle_frame ca f b n : steady n (handle_frame ca f b n).1.
Proof.
  unfold handle_frame. cbv zeta.
  destruct (fh_type (fr_header f)); try done; destruct (is_none (sb_session b)); try done.
  - apply with_request_steady. intros q. apply steady_reply. intros. apply (keeps_define_domain identity_in).
  - apply with_request_steady. intros q. destruct (_ || _); [done|].
    apply steady_coordinators, steady_reply. intros. apply (keeps_allocate_epoch identity_in).
  - apply steady_decide.
  - apply with_request_steady. intros q. apply steady_coordinators, steady_reply.
    intros. apply keeps_commit.
  - apply steady_fence.
  - apply with_request_steady. intros q. apply steady_reply. intros. apply (keeps_release identity_in).
  - by apply with_request_steady.
Qed.

(** ** The handshake *)

Lemma allocate_incarnation_cases now w w' r : is_u64 (rs_incarnations (w_state w)) →
  allocate_incarnation now w = (w', r) →
  rs_boot (w_state w') = rs_boot (w_state w) ∧
  match r with
  | Ret i => i = rs_incarnations (w_state w) + 1 ∧ rs_incarnations (w_state w') = i ∧ i <= u64_max
  | Err _ => rs_incarnations (w_state w') = rs_incarnations (w_state w)
  end.
Proof.
  intros Hu. unfold allocate_incarnation, mbind, m_bind, state, refuse_if. cbv zeta.
  destruct (Z.eqb_spec (rs_incarnations (w_state w)) u64_max) as [|Hm]; [by intros [= <- <-]|].
  unfold mret, m_ret. rewrite u64_id by (unfold is_u64, u64_max in *; lia).
  set (next := rs_incarnations (w_state w) + 1).
  assert (Hn : is_u64 next) by (unfold next, is_u64, u64_max in *; lia).
  unfold emit. set (r0 := mkRecord _ _ _ _ _). unfold apply.
  destruct (negb _); [by intros [= <- <-]|]. destruct (_ <? _); [by intros [= <- <-]|].
  rewrite (apply_kind_incarnation r0 (observe r0 (w_state w)) next eq_refl eq_refl Hn).
  destruct (observe_core r0 (w_state w)) as (_ & _ & _ & _ & _ & _ & Ei & Eb & _).
  unfold apply_incarnation. rewrite Ei.
  destruct (Z.leb_spec next (rs_incarnations (w_state w))); [unfold next in *; lia|].
  cbn [negb is_ok outcome status_ok]. intros [= <- <-]. cbn [w_state]. split; [exact Eb|].
  split; [done|]. split; [done|]. unfold next, is_u64, u64_max in *. lia.
Qed.

(** A handshake: refused without touching the sessions, or granted with the next
    session and incarnation of the current boot. *)
Lemma handle_hello_cases ca q n n' r : is_u64 (rs_incarnations (nd_state n)) →
  handle_hello ca q n = (n', r) →
  nd_config n' = nd_config n ∧ rs_boot (nd_state n') = rs_boot (nd_state n) ∧
  nd_stopping n' = nd_stopping n ∧ rs_incarnations (nd_state n) <= rs_incarnations (nd_state n') <= u64_max ∧
  match r with
  | Err _ => nd_sessions n' = nd_sessions n ∧ nd_next_session n' = nd_next_session n
  | Ret (response, b) =>
      b = mkBinding (try_increment (nd_next_session n) 1).1 (hq_node q)
            (br_boot (rs_boot (nd_state n))) (rs_incarnations (nd_state n) + 1) (hq_kind q) 0 0 ∧
      rs_incarnations (nd_state n') = rs_incarnations (nd_state n) + 1 ∧
      zlen (nd_sessions n) < rc_max_sessions (nd_config n) ∧
      nd_next_session n' = sb_session b ∧
      nd_sessions n' = match sv_find sb_session (sb_session b) (nd_sessions n) with
                       | Some _ => nd_sessions n
                       | None => sv_set sb_session b (nd_sessions n)
                       end ∧
      hp_session response = sb_session b ∧ hp_boot response = sb_boot b ∧
      hp_incarnation response = sb_incarnation b
  end.
Proof.
  intros Hu. assert (rs_incarnations (nd_state n) <= rs_incarnations (nd_state n) <= u64_max)
    by (unfold is_u64, u64_max in *; lia).
  unfold handle_hello. destruct (id_empty _); [by intros [= <- <-]|].
  destruct (negb _); [by intros [= <- <-]|].
  destruct (Z.leb_spec (rc_max_sessions (nd_config n)) (zlen (nd_sessions n)));
    [by intros [= <- <-]|].
  pose proof (steady_clock n) as Hc. destruct (advance_clock n) as [n1 ok]. cbn [fst] in Hc.
  unfold steady, service_part, identity in Hc. injection Hc as C1 C2 C3 C4 C5 C6 C7.
  destruct ok; cbn [negb]; [|intros [= <- <-]; rewrite C1, C2, C3, C4, C5, C7; done].
  destruct (operate _ n1) as [[n2 rs] r2] eqn:Eo.
  destruct (operate_registry _ _ _ _ _ Eo) as (w' & Ea & Es & _ & O1 & O2 & O3 & O4 & O5).
  apply allocate_incarnation_cases in Ea as [Hb Hr]; [|cbn; by rewrite C4].
  cbn [w_state] in Hb, Hr.
  assert (O6 : rs_boot (nd_state n2) = rs_boot (nd_state n)) by (rewrite Es, Hb; done).
  destruct r2 as [i|st].
  2: { intros [= <- <-]. rewrite O1, O2, O3, O5, O6, Es, Hr, C1, C2, C3, C4, C7. done. }
  destruct Hr as (Hi & Hi' & Hmax). rewrite C4 in Hi.
  pose proof (steady_append_records ca rs n2) as Hj.
  destruct (append_records ca rs n2) as [n3 st]. cbn [fst] in Hj.
  unfold steady, service_part, identity in Hj. injection Hj as J1 J2 J3 J4 J5 J6 J7.
  assert (L4 : rs_incarnations (nd_state n3) = rs_incarnations (nd_state n) + 1)
    by (rewrite J4, Es, Hi', Hi; done).
  assert (L5 : rs_boot (nd_state n3) = rs_boot (nd_state n)) by by rewrite J5.
  assert (L1 : nd_config n3 = nd_config n) by by rewrite J1, O1.
  assert (L2 : nd_sessions n3 = nd_sessions n) by by rewrite J2, O2.
  assert (L3 : nd_next_session n3 = nd_next_session n) by by rewrite J3, O3.
  assert (L7 : nd_stopping n3 = nd_stopping n) by by rewrite J7, O5.
  destruct (is_ok st); cbn [negb].
  2: { intros [= <- <-]. rewrite L1, L2, L3, L4, L5, L7. split_and!; try done; lia. }
  intros [= <- <-]. cbn [nd_config nd_state nd_stopping nd_next_session nd_sessions set_sessions
    sb_session sb_boot sb_incarnation hp_session hp_boot hp_incarnation].
  rewrite L1, L2, L3, L4, L5, L7, Hi. split_and!; try done; lia.
Qed.

(** ** Who holds a session *)

(** A binding as the handshake made it: the request counters are the worker's. *)
Definition identity_of (b : SessionBinding) : SessionBinding :=
  mkBinding (sb_session b) (sb_node b) (sb_boot b) (sb_incarnation b) (sb_kind b) 0 0.

Definition bindings (W : gmap nat Worker) : gmap nat SessionBinding :=
  (λ w, identity_of (wk_binding w)) <$> W.

(** The table of sessions lists exactly the connections that hold one, within
    its bound; sessions and incarnations are held once, and were issued by this
    boot. *)
Record well_bound (n : Node) (B : gmap nat SessionBinding) : Prop := {
  wb_counters : 0 <= nd_next_session n <= rs_incarnations (nd_state n) ∧
    rs_incarnations (nd_state n) <= u64_max;
  wb_table : sv_sorted sb_session (nd_sessions n) ∧
    zlen (nd_sessions n) <= rc_max_sessions (nd_config n);
  wb_listed : ∀ b, b ∈ nd_sessions n ↔ sb_session b ≠ 0 ∧ ∃ k, B !! k = Some b;
  wb_issued : ∀ k b, B !! k = Some b → sb_session b ≠ 0 →
    0 < sb_session b <= nd_next_session n ∧ sb_incarnation b <= rs_incarnations (nd_state n) ∧
    sb_boot b = br_boot (rs_boot (nd_state n));
  wb_distinct : ∀ i j b c, B !! i = Some b → B !! j = Some c → sb_session b ≠ 0 →
    sb_session c ≠ 0 → i ≠ j → sb_session b ≠ sb_session c ∧ sb_incarnation b ≠ sb_incarnation c
}.

Lemma bindings_insert W k w : bindings (<[k := w]> W) = <[k := identity_of (wk_binding w)]> (bindings W).
Proof. exact (fmap_insert (λ w, identity_of (wk_binding w)) W k w). Qed.

Lemma bindings_delete W k : bindings (delete k W) = delete k (bindings W).
Proof. apply fmap_delete. Qed.

Lemma bindings_lookup W k w : W !! k = Some w → bindings W !! k = Some (identity_of (wk_binding w)).
Proof. intros E. unfold bindings. by rewrite lookup_fmap, E. Qed.

(** A worker that keeps its identity. *)
Lemma bindings_same W k w w' : W !! k = Some w →
  identity_of (wk_binding w') = identity_of (wk_binding w) → bindings (<[k := w']> W) = bindings W.
Proof. intros E H. rewrite bindings_insert, H. by apply insert_id, bindings_lookup. Qed.

(** Only these parts of the node matter; incarnations may have been burnt. *)
Lemma well_bound_node n n' B : well_bound n B → nd_config n' = nd_config n →
  nd_sessions n' = nd_sessions n → nd_next_session n' = nd_next_session n →
  rs_boot (nd_state n') = rs_boot (nd_state n) →
  rs_incarnations (nd_state n) <= rs_incarnations (nd_state n') <= u64_max → well_bound n' B.
Proof.
  intros [H1 H2 H3 H4 H5] E1 E2 E3 E4 Hi. split; rewrite ?E1, ?E2, ?E3, ?E4; try done; [lia|].
  intros k b Hk Hb. destruct (H4 k b Hk Hb) as (? & ? & ?). split; [done|]. split; [lia|done].
Qed.

Lemma well_bound_steady n n' B : well_bound n B → steady n n' → well_bound n' B.
Proof.
  intros H E. unfold steady, service_part, identity in E. injection E as E1 E2 E3 E4 E5 _ _.
  apply (well_bound_node n); try done. destruct (wb_counters _ _ H). rewrite E4. lia.
Qed.

(** A new worker holds nothing. *)
Lemma well_bound_fresh n B k : well_bound n B → B !! k = None →
  well_bound n (<[k := identity_of no_binding]> B).
Proof.
  intros [H1 H2 H3 H4 H5] Hk. split; try done.
  - intros b. rewrite H3. split.
    + intros [Hb [j Hj]]. split; [done|]. exists j. by rewrite lookup_insert_ne by congruence.
    + intros [Hb [j Hj]]. split; [done|].
      apply lookup_insert_Some in Hj as [[_ <-]|[_ Hj]]; [done|by exists j].
  - intros j b [[_ <-]|[_ Hj]]%lookup_insert_Some Hb; [done|by eapply H4].
  - intros i j b c [[_ <-]|[_ Hi]]%lookup_insert_Some [[_ <-]|[_ Hj]]%lookup_insert_Some Hb Hc;
      try done. by apply (H5 i j).
Qed.

Lemma sv_filter_sorted {V} (key : V → Z) (p : V → bool) l : sv_sorted key l →
  sv_sorted key (List.filter p l).
Proof.
  induction 1 as [|x l Hl IH Hx]; cbn; [constructor|]. destruct (p x); [|done].
  constructor; [done|]. rewrite Forall_forall in *. intros y Hy. apply Hx.
  apply list_elem_of_In, filter_In in Hy as [Hy _]. by apply list_elem_of_In.
Qed.

(** A closing connection gives back the session it holds, and no other. *)
Lemma well_bound_close n B k b : well_bound n B → B !! k = Some (identity_of b) →
  well_bound (close_connection b n) (delete k B).
Proof.
  intros [H1 [H2s H2l] H3 H4 H5] Hk.
  assert (Hd : ∀ j c, delete k B !! j = Some c → B !! j = Some c ∧ j ≠ k).
  { intros j c [Hj E]%lookup_delete_Some. done. }
  unfold close_connection, is_set. destruct (Z.eqb_spec (sb_session b) 0) as [Hz|Hz]; cbn [negb].
  - split; try done.
    + intros c. rewrite H3. split.
      * intros [Hc [j Hj]]. split; [done|]. exists j. rewrite lookup_delete_ne; [done|].
        intros <-. rewrite Hk in Hj. by injection Hj as <-.
      * intros [Hc [j [Hj _]%Hd]]. eauto.
    + intros j c [Hj _]%Hd. by eapply H4.
    + intros i j c c' [Hi _]%Hd [Hj _]%Hd. by apply (H5 i j).
  - split; cbn [release_session nd_sessions nd_next_session nd_state nd_config set_sessions].
    + done.
    + split; [by apply sv_filter_sorted|]. etrans; [apply zlen_filter|done].
    + intros c. rewrite list_elem_of_In, filter_In, <-list_elem_of_In, H3, negb_true_iff, Z.eqb_neq.
      split.
      * intros [[Hc [j Hj]] Hne]. split; [done|]. exists j. rewrite lookup_delete_ne; [done|].
        intros <-. rewrite Hk in Hj. by injection Hj as <-.
      * intros [Hc [j [Hj Hjk]%Hd]]. split; [by eauto|]. by apply (H5 j k c _ Hj Hk).
    + intros j c [Hj _]%Hd. by eapply H4.
    + intros i j c c' [Hi _]%Hd [Hj _]%Hd. by apply (H5 i j).
Qed.

(** A handshake binds a worker that held nothing. *)
Lemma well_bound_bind n n' B k b : well_bound n B → B !! k = Some (identity_of no_binding) →
  nd_config n' = nd_config n → rs_boot (nd_state n') = rs_boot (nd_state n) →
  rs_incarnations (nd_state n') = rs_incarnations (nd_state n) + 1 →
  rs_incarnations (nd_state n') <= u64_max →
  zlen (nd_sessions n) < rc_max_sessions (nd_config n) →
  nd_next_session n' = nd_next_session n + 1 → sb_session b = nd_next_session n + 1 →
  sb_incarnation b = rs_incarnations (nd_state n) + 1 →
  sb_boot b = br_boot (rs_boot (nd_state n)) → identity_of b = b →
  nd_sessions n' = sv_set sb_session b (nd_sessions n) →
  well_bound n' (<[k := b]> B).
Proof.
  intros [H1 [H2s H2l] H3 H4 H5] Hk E1 E2 E3 Hmax Hroom E4 E5 E6 E7 E8 E9.
  assert (Hlt : ∀ j c, B !! j = Some c → sb_session c ≠ 0 →
    sb_session c < sb_session b ∧ sb_incarnation c < sb_incarnation b).
  { intros j c Hj Hc. destruct (H4 j c Hj Hc) as (? & ? & ?). lia. }
  assert (Hnew : sv_find sb_session (sb_session b) (nd_sessions n) = None).
  { apply sv_find_None_elem; [done|]. intros c [Hc [j Hj]]%H3. destruct (Hlt j c Hj Hc). lia. }
  split; rewrite ?E1, ?E2, ?E3, ?E4, ?E9.
  - lia.
  - split; [by apply sv_set_sorted|]. unfold zlen in *. rewrite length_sv_set, Hnew. lia.
  - intros c. split.
    + intros [->|Hc]%elem_of_sv_set_1.
      * split; [lia|]. exists k. apply lookup_insert_eq.
      * apply H3 in Hc as [Hc [j Hj]]. split; [done|]. exists j.
        rewrite lookup_insert_ne; [done|]. intros <-. rewrite Hk in Hj. by injection Hj as <-.
    + intros [Hc [j [[<- <-]|[Hne Hj]]%lookup_insert_Some]].
      * rewrite sv_set_Permutation by done. left.
      * apply elem_of_sv_set_2; [apply H3; eauto|]. destruct (Hlt j c Hj Hc). lia.
  - intros j c [[<- <-]|[Hne Hj]]%lookup_insert_Some Hc; [split_and!; [lia|lia|lia|done]|].
    destruct (H4 j c Hj Hc) as (? & ? & ?). split_and!; lia.
  - intros i j c c' [[<- <-]|[Hi' Hi]]%lookup_insert_Some [[<- <-]|[Hj' Hj]]%lookup_insert_Some
      Hc Hc' Hne; [done| | |by apply (H5 i j)].
    + destruct (Hlt j c' Hj Hc'). lia.
    + destruct (Hlt i c Hi Hc). lia.
Qed.

(** ** One turn *)

(** A binding without a session is the one the worker began with. *)
Definition untouched (b : SessionBinding) : Prop := sb_session b = 0 → b = no_binding.

(** A turn of a worker without a session: it stays without, or a handshake binds it. *)
Lemma serve_hello_bound ca f stop n n' b' stop' reply k B : well_bound n B →
  B !! k = Some (identity_of no_binding) →
  serve_hello ca f no_binding stop n = (n', b', stop', reply) →
  well_bound n' (<[k := identity_of b']> B) ∧ untouched b'.
Proof.
  intros H Hk. assert (Hu : is_u64 (rs_incarnations (nd_state n))).
  { destruct (wb_counters _ _ H). unfold is_u64, u64_max in *. lia. }
  assert (Hsame : <[k := identity_of no_binding]> B = B) by by apply insert_id.
  unfold serve_hello. destruct (negb _); [by intros [= <- <- <- <-]; rewrite Hsame|].
  destruct (decode_all r_hq _) as [q|st]; [|intros [= <- <- <- <-]; rewrite Hsame; split; [|done];
    by eapply well_bound_steady; [exact H|apply steady_counters]].
  destruct (handle_hello ca q n) as [n1 [[resp b1]|st]] eqn:E;
    apply handle_hello_cases in E as (E1 & E2 & E3 & E4 & E5); try done.
  - intros [= <- <- <- <-]. destruct E5 as (-> & Ei & Hroom & En & Es & _).
    cbn [sb_session] in *. pose proof (wb_counters _ _ H) as [Hn Hm].
    assert (En' : (try_increment (nd_next_session n) 1).1 = nd_next_session n + 1).
    { rewrite try_increment_spec by (unfold is_u64, u64_max in *; lia).
      destruct (decide _) as [|Hx]; [done|].
      exfalso. unfold is_u64, u64_max in *. lia. }
    rewrite En' in *. set (b := mkBinding _ _ _ _ _ _ _) in *.
    split; [|intros Hz; unfold b in Hz; cbn in Hz; lia].
    eapply well_bound_steady; [|apply steady_counters].
    apply (well_bound_bind n); try done; try lia.
    rewrite Es. assert (Hf : sv_find sb_session (nd_next_session n + 1) (nd_sessions n) = None).
    { destruct (wb_table _ _ H) as [Hs _]. apply sv_find_None_elem; [done|].
      intros c Hc. apply (wb_listed _ _ H) in Hc as [Hc [j Hj]].
      destruct (wb_issued _ _ H j c Hj Hc). lia. }
    by rewrite Hf.
  - intros [= <- <- <- <-]. destruct E5 as [E5 E6]. rewrite Hsame. split; [|done].
    eapply well_bound_steady; [|apply steady_counters].
    by apply (well_bound_node n).
Qed.

Lemma serve_request_bound ca f b stop n n' b' stop' reply :
  serve_request ca f b stop n = (n', b', stop', reply) → steady n n' ∧ identity_of b' = identity_of b.
Proof.
  unfold serve_request. cbv zeta.
  destruct (_ <=? _); [by intros [= <- <- <- <-]|].
  pose proof (steady_handle_frame ca f (admit_request (fh_request_id (fr_header f)) b) n) as H.
  destruct (handle_frame _ _ _ _) as [n1 [r|st]]; intros [= <- <- <- <-]; (split; [|done]);
    (etrans; [exact H|apply steady_counters]).
Qed.

Lemma well_bound_turn ca f b stop n n' b' stop' reply k B : well_bound n B → untouched b →
  B !! k = Some (identity_of b) → serve_frame ca f b stop n = (n', b', stop', reply) →
  well_bound n' (<[k := identity_of b']> B) ∧ untouched b'.
Proof.
  intros H Hb Hk. unfold serve_frame, is_none. destruct (Z.eqb_spec (sb_session b) 0) as [Hz|Hz].
  - rewrite (Hb Hz) in *. by apply serve_hello_bound.
  - intros [Hs Hi]%serve_request_bound. rewrite Hi, insert_id by done.
    split; [by eapply well_bound_steady|]. intros Hz'. apply (f_equal sb_session) in Hi. cbn in Hi. congruence.
Qed.

Definition workers_ok (s : System) : Prop :=
  well_bound s.1 (bindings s.2) ∧ ∀ k w, s.2 !! k = Some w → untouched (wk_binding w).

Lemma steady_shut_bound wrote reply n B : well_bound n B → well_bound (shut wrote reply n) B.
Proof. unfold shut. destruct (wrote && _); [|done]. intros H.
  apply (well_bound_node n); try done. destruct (wb_counters _ _ H). cbn. lia.
Qed.

Lemma served_binding wrote reply d b fs stop : wk_binding (served wrote reply d b fs stop) = b.
Proof. unfold served. by destruct (_ || _). Qed.

Lemma serves_workers_ok s s' : serves s s' → workers_ok s → workers_ok s'.
Proof.
  intros Hs [H Hu]. destruct Hs as [n W k Hk|n W k d b chunk d' frames st Hk _ _|
    n W k d b chunk d' frames st Hk _ _|n W k d b f fs stop ca wrote n' b' stop' reply Hk E|
    n W k d b stop Hk]; split; cbn [fst snd] in *.
  - rewrite bindings_insert. apply well_bound_fresh; [done|]. unfold bindings. by rewrite lookup_fmap, Hk.
  - by intros j w [[_ <-]|[_ Hj]]%lookup_insert_Some; [|by eapply Hu].
  - by rewrite (bindings_same _ _ _ _ Hk).
  - intros j w [[_ <-]|[_ Hj]]%lookup_insert_Some; [exact (Hu _ _ Hk)|by eapply Hu].
  - rewrite bindings_delete. apply (well_bound_close _ _ _ b); [|by apply (bindings_lookup _ _ _ Hk)].
    by eapply well_bound_steady; [exact H|apply steady_counters].
  - intros j w [_ Hj]%lookup_delete_Some. by eapply Hu.
  - rewrite bindings_insert, served_binding. apply steady_shut_bound.
    eapply well_bound_turn; [exact H|exact (Hu _ _ Hk)|exact (bindings_lookup _ _ _ Hk)|exact E].
  - intros j w [[_ <-]|[_ Hj]]%lookup_insert_Some; [|by eapply Hu]. rewrite served_binding.
    eapply well_bound_turn; [exact H|exact (Hu _ _ Hk)|exact (bindings_lookup _ _ _ Hk)|exact E].
  - rewrite bindings_delete. apply (well_bound_close _ _ _ b); [done|].
    by apply (bindings_lookup _ _ _ Hk).
  - intros j w [_ Hj]%lookup_delete_Some. by eapply Hu.
Qed.

(** The service as [open] leaves it. *)
Definition opened (n : Node) : Prop :=
  nd_sessions n = [] ∧ nd_next_session n = 0 ∧ is_u64 (rs_incarnations (nd_state n)) ∧
  0 <= rc_max_sessions (nd_config n).

Lemma opened_workers_ok n : opened n → workers_ok (n, ∅).
Proof.
  intros (E1 & E2 & Hu & Hm). split; [|by intros k w Hk].
  unfold bindings. cbn [fst snd]. rewrite fmap_empty. split; rewrite ?E1, ?E2.
  - unfold is_u64, u64_max in *. lia.
  - split; [constructor|]. done.
  - intros b. split; [by intros ?%elem_of_nil|]. by intros [_ [k Hk]].
  - by intros k b Hk.
  - by intros i j b c Hi.
Qed.

Lemma serves_ok n s : opened n → rtc serves (n, ∅) s → workers_ok s.
Proof.
  intros Hn Hr. assert (H : workers_ok (n, ∅)) by by apply opened_workers_ok.
  induction Hr as [s|s s1 s2 Hs _ IH]; [done|]. by eapply IH, serves_workers_ok.
Qed.

(** ** Who may commit an effect *)

Lemma operate_fabric {A} (m : M A) n n' rs r : keeps w_log m → operate m n = (n', rs, r) →
  nd_fabric n' = nd_fabric n.
Proof.
  intros Hm. unfold operate. set (w := mkWorld _ _ _). specialize (Hm w).
  destruct (m w) as [w' r'] eqn:E. cbn [fst] in Hm. rewrite Hm. unfold w. cbn [w_log].
  intros [= <- _ _]. cbn [nd_fabric set_registry]. by destruct (nd_fabric n) as [h [log|]].
Qed.

Lemma transition_fabric {A} ca (m : Step → M A) n : (∀ now, keeps w_log (m now)) →
  nd_fabric (transition ca m n).1 = nd_fabric n.
Proof.
  intros Hm. unfold transition, advance_clock. destruct (clock_advance _ _) as [c ok].
  destruct ok; cbn [negb]; [|done]. destruct (operate _ _) as [[n2 rs] r] eqn:E.
  apply operate_fabric in E; [|done]. pose proof (append_records_fabric ca rs n2) as Ha.
  destruct (append_records _ _ _) as [n3 st]. cbn [fst] in Ha. rewrite E in Ha.
  by destruct (is_ok st).
Qed.

Lemma reply_fabric {A} ca (m : Step → M A) n respond : (∀ now, keeps w_log (m now)) →
  nd_fabric (reply_with ca m n respond).1 = nd_fabric n.
Proof.
  intros Hm. unfold reply_with. pose proof (transition_fabric ca m n Hm) as H.
  by destruct (transition ca m n) as [n1 [r|st]].
Qed.

Lemma keeps_log_incarnation now : keeps w_log (allocate_incarnation now).
Proof.
  intros w. unfold allocate_incarnation, mbind, m_bind, state, refuse_if. cbv zeta.
  destruct (_ =? _); [done|]. unfold mret, m_ret, emit. destruct (apply _ _) as [s1 st].
  by destruct (is_ok st).
Qed.

Lemma hello_fabric ca q n : nd_fabric (handle_hello ca q n).1 = nd_fabric n.
Proof.
  unfold handle_hello, advance_clock. destruct (id_empty _); [done|]. destruct (negb _); [done|].
  destruct (_ <=? _); [done|]. destruct (clock_advance _ _) as [c ok].
  destruct ok; cbn [negb]; [|done]. destruct (operate _ _) as [[n2 rs] r] eqn:E.
  apply operate_fabric in E; [|apply keeps_log_incarnation]. destruct r as [i|st]; [|done].
  pose proof (append_records_fabric ca rs n2) as Ha.
  destruct (append_records _ _ _) as [n3 st]. cbn [fst] in Ha. rewrite E in Ha.
  by destruct (is_ok st).
Qed.

(** A commit that reaches the effect log holds an open grant. *)
Lemma transition_commit ca q n :
  nd_fabric (transition ca (commit (ca_effect ca) q) n).1 = nd_fabric n ∨
  ∃ g, g ∈ lt_grants (rs_lineage (nd_state n)) ∧ bound q g.
Proof.
  unfold transition, advance_clock. destruct (clock_advance _ _) as [c ok].
  destruct ok; cbn [negb]; [|by left]. set (n1 := set_registry _ _ _). unfold operate.
  set (w := mkWorld _ _ _). destruct (commit_cases (ca_effect ca) q (now_of n1) w)
    as [[st ->]|(g & Hg & Hb & _)].
  2: { right. by exists g. }
  left. match goal with |- context [append_records ca ?r ?n] =>
    pose proof (append_records_fabric ca r n) as Ha; destruct (append_records ca r n) as [n3 st3] end.
  cbn [fst] in Ha. assert (E : nd_fabric n3 = nd_fabric n).
  { rewrite Ha. cbn. by destruct (nd_fabric n) as [h [log|]]. }
  by destruct (is_ok st3).
Qed.

(** What authorises an effect: a commit request of a coordinator's session, that
    names the session, for an open grant it describes exactly. *)
Record authorised (f : Frame) (b : SessionBinding) (s : RegistryState) : Prop := {
  au_request : Messages.CommitRequest;
  au_decodes : decode_all r_cq (fr_payload f) = Ret au_request;
  au_type : fh_type (fr_header f) = MessageType.CommitRequest;
  au_session : names b (cq_envelope au_request);
  au_coordinator : sb_kind b = Coordinator;
  au_grant : ∃ g, g ∈ lt_grants (rs_lineage s) ∧ bound (commit_args au_request) g
}.

Ltac request_cases q E Hn :=
  match goal with |- context [with_request ?d ?e ?p ?b ?n ?k] =>
    destruct (with_request_cases d e p b n k) as [[? ->]|(q & E & Hn & ->)] end.

Lemma handle_frame_fabric ca f b n :
  nd_fabric (handle_frame ca f b n).1 = nd_fabric n ∨ authorised f b (nd_state n).
Proof.
  unfold handle_frame. cbv zeta.
  destruct (fh_type (fr_header f)) eqn:Et; try (by left);
    destruct (is_none (sb_session b)); try (by left).
  - left. unfold handle_define.
    request_cases q E0 Hn;
      [done|]. apply reply_fabric. intros. apply (keeps_define_domain w_log).
  - left. unfold handle_allocate.
    request_cases q E0 Hn;
      [done|]. destruct (_ || _); [done|]. unfold only_coordinators. case_bool_decide; [|done].
    apply reply_fabric. intros. apply (keeps_allocate_epoch w_log).
  - left. unfold handle_decide, advance_clock.
    request_cases q E0 Hn;
      [done|]. destruct (clock_advance _ _) as [c ok]. destruct ok; cbn [negb]; [|done].
    by destruct (registry_decide _ _ _).
  - unfold handle_commit.
    request_cases q E Hn;
      [by left|]. unfold only_coordinators. case_bool_decide as Hk; [|by left].
    unfold reply_with. destruct (transition_commit ca (commit_args q) n) as [Eq|Hg].
    + left. by destruct (transition _ _ _) as [n1 [r|st]].
    + right. exact (Build_authorised f b _ q E Et Hn Hk Hg).
  - left. unfold handle_fence, advance_clock.
    request_cases q E0 Hn;
      [done|]. destruct (clock_advance _ _) as [c ok]. destruct ok; cbn [negb]; [|done].
    destruct (operate _ _) as [[n2 rs] r] eqn:E.
    apply operate_fabric in E; [|apply (keeps_fence w_log)].
    pose proof (append_records_fabric ca rs n2) as Ha.
    destruct (append_records _ _ _) as [n3 st]. cbn [fst] in Ha. rewrite E in Ha.
    by destruct (is_ok st).
  - left. unfold handle_release.
    request_cases q E0 Hn;
      [done|]. apply reply_fabric. intros. apply (keeps_release w_log).
  - left. unfold handle_inspect.
    by request_cases q E0 Hn.
Qed.

Lemma handle_frame_authority ca f b n : on_authority b (envelope_of f) n (handle_frame ca f b n).1.
Proof.
  unfold handle_frame, envelope_of. cbv zeta.
  destruct (fh_type (fr_header f)); try (by left);
    destruct (is_none (sb_session b)); try (by left); apply with_request_authority.
Qed.

(** Only a coordinator allocates or commits. *)
Lemma handle_frame_coordinator ca f b n :
  fh_type (fr_header f) ∈ [MessageType.AllocateEpochRequest; MessageType.CommitRequest] →
  (handle_frame ca f b n).1 = n ∨ sb_kind b = Coordinator.
Proof.
  unfold handle_frame. cbv zeta. intros Ht.
  apply elem_of_cons in Ht as [->|Ht]; [|apply list_elem_of_singleton in Ht as ->];
    (destruct (is_none (sb_session b)); [by left|]).
  - unfold handle_allocate. request_cases q E Hn; [by left|]. destruct (_ || _); [by left|].
    unfold only_coordinators. case_bool_decide; [by right|by left].
  - unfold handle_commit. request_cases q E Hn; [by left|].
    unfold only_coordinators. case_bool_decide; [by right|by left].
Qed.

(** ** The order of requests *)

Lemma serve_request_last ca f b stop n n' b' stop' reply :
  serve_request ca f b stop n = (n', b', stop', reply) →
  sb_last_request b <= sb_last_request b'.
Proof.
  unfold serve_request. cbv zeta. destruct (Z.leb_spec (fh_request_id (fr_header f)) (sb_last_request b)).
  - by intros [= _ <- _ _].
  - destruct (handle_frame _ _ _ _) as [n1 [r|st]]; intros [= _ <- _ _]; cbn; lia.
Qed.

(** Nothing forgets how far a session has come: every worker that holds session
    [s] has seen request [l], and [s] is not issued again. *)
Definition come_to (s : SessionId) (l : RequestId) (x : System) : Prop :=
  s <= nd_next_session x.1 ∧
  ∀ k w, x.2 !! k = Some w → sb_session (wk_binding w) = s → l <= sb_last_request (wk_binding w).

Lemma come_to_insert s l n n' W k w : come_to s l (n, W) →
  nd_next_session n <= nd_next_session n' →
  (sb_session (wk_binding w) = s → l <= sb_last_request (wk_binding w)) →
  come_to s l (n', <[k := w]> W).
Proof.
  intros [Hs Hw] Hn Hk. split; cbn [fst snd] in *; [lia|].
  by intros j v [[_ <-]|[_ Hj]]%lookup_insert_Some; [|by eapply Hw].
Qed.

Lemma come_to_delete s l n n' W k : come_to s l (n, W) → nd_next_session n' = nd_next_session n →
  come_to s l (n', delete k W).
Proof.
  intros [Hs Hw] Hn. split; cbn [fst snd] in *; [lia|].
  intros j v [_ Hj]%lookup_delete_Some. by eapply Hw.
Qed.

Lemma serve_hello_next ca f stop n n' b' stop' reply B : well_bound n B →
  serve_hello ca f no_binding stop n = (n', b', stop', reply) →
  nd_next_session n <= nd_next_session n' ∧ (b' = no_binding ∨ nd_next_session n < sb_session b').
Proof.
  intros H. assert (Hu : is_u64 (rs_incarnations (nd_state n))).
  { destruct (wb_counters _ _ H). unfold is_u64, u64_max in *. lia. }
  unfold serve_hello. destruct (negb _); [intros [= <- <- _ _]; split; [lia|by left]|].
  destruct (decode_all r_hq _) as [q|st]; [|intros [= <- <- _ _]; cbn; split; [lia|by left]].
  destruct (handle_hello ca q n) as [n1 [[resp b1]|st]] eqn:E;
    apply handle_hello_cases in E as (E1 & E2 & E3 & E4 & E5); try done; intros [= <- <- _ _].
  - destruct E5 as (-> & Ei & Hroom & En & _). cbn [sb_session] in *.
    pose proof (wb_counters _ _ H) as [Hn Hm].
    assert (En' : (try_increment (nd_next_session n) 1).1 = nd_next_session n + 1).
    { rewrite try_increment_spec by (unfold is_u64, u64_max in *; lia).
      destruct (decide _) as [|Hx]; [done|]. exfalso. unfold is_u64, u64_max in *. lia. }
    cbn [nd_next_session count_handled set_counters]. rewrite En, En'. split; [lia|]. right. lia.
  - destruct E5 as [_ E6]. cbn [nd_next_session count_rejected set_counters]. rewrite E6. split; [lia|by left].
Qed.

Lemma serves_come_to s l x y : s ≠ 0 → workers_ok x → serves x y → come_to s l x → come_to s l y.
Proof.
  intros Hs0 [Hb Hu] Hs H. pose proof H as [Hs1 Hw].
  destruct Hs as [n W k Hk|n W k d b chunk d' frames st Hk _ _|
    n W k d b chunk d' frames st Hk _ _|n W k d b f fs stop ca wrote n' b' stop' reply Hk E|
    n W k d b stop Hk]; cbn [fst snd] in *.
  - apply (come_to_insert _ _ n); [done|lia|]. cbn. congruence.
  - apply (come_to_insert _ _ n); [done|lia|]. exact (Hw _ _ Hk).
  - apply (come_to_delete _ _ n); [done|]. unfold close_connection. by destruct (is_set _).
  - assert (Hsh : nd_next_session (shut wrote reply n') = nd_next_session n')
      by (unfold shut; by destruct (_ && _)).
    apply (come_to_insert _ _ n); [done|rewrite Hsh|rewrite served_binding];
      unfold serve_frame, is_none in E; specialize (Hu _ _ Hk); cbn [wk_binding] in Hu;
      destruct (Z.eqb_spec (sb_session b) 0) as [Hz|Hz].
    + rewrite (Hu Hz) in E. by destruct (serve_hello_next _ _ _ _ _ _ _ _ _ Hb E).
    + apply serve_request_bound in E as [E _]. unfold steady, service_part in E.
      injection E as _ _ -> _ _ _ _. lia.
    + rewrite (Hu Hz) in E. destruct (serve_hello_next _ _ _ _ _ _ _ _ _ Hb E) as [_ [->|]].
      * intros Ez. cbn in Ez. congruence.
      * lia.
    + intros Es. pose proof E as [_ Ei]%serve_request_bound. apply (f_equal sb_session) in Ei.
      cbn in Ei. apply serve_request_last in E. specialize (Hw _ _ Hk). cbn in Hw.
      etrans; [apply Hw; congruence|done].
  - apply (come_to_delete _ _ n); [done|]. unfold close_connection. by destruct (is_set _).
Qed.

Lemma run_come_to s l x y : s ≠ 0 → workers_ok x → rtc serves x y → come_to s l x → come_to s l y.
Proof.
  intros Hs Hx Hr. induction Hr as [x|x x1 y Hxy _ IH]; [done|]. intros H.
  apply IH; [by eapply serves_workers_ok|by eapply serves_come_to].
Qed.

(** ** The loop over a chunk *)

Lemma serve_frames_cons env f fs b stop n :
  serve_frames env (f :: fs) b stop n =
  let '(ca, wrote) := default (calls_done, true) (head env) in
  let '(n1, b1, stop1, reply) := serve_frame ca f b stop n in
  let out := encode_frame (reply_frame (fh_request_id (fr_header f)) reply) in
  if negb wrote then (n1, b1, true, [])
  else if bool_decide (reply.1 = MessageType.ShutdownResponse)
  then (shut wrote reply n1, b1, true, [out])
  else
    let '(n2, b2, stop2, rest) := serve_frames (tail env) fs b1 stop1 n1 in
    (n2, b2, stop2, out :: rest).
Proof.
  cbn [serve_frames]. destruct (default _ _) as [ca wrote].
  destruct (serve_frame ca f b stop n) as [[[n1 b1] stop1] reply]. unfold shut.
  by destruct wrote; cbn [negb]; [case_bool_decide|].
Qed.

(** A worker alone: its loop is a run of the system. *)
Lemma serve_frames_run env d fs k W : ∀ b stop n n' b' stop' out,
  serve_frames env fs b stop n = (n', b', stop', out) →
  rtc serves (n, <[k := mkWorker d b fs stop]> W) (n', <[k := mkWorker d b' [] stop']> W).
Proof.
  revert env. induction fs as [|f fs IH]; intros env b stop n n' b' stop' out.
  { by intros [= <- <- <- <-]. }
  rewrite serve_frames_cons. destruct (default _ _) as [ca wrote].
  destruct (serve_frame ca f b stop n) as [[[n1 b1] stop1] reply] eqn:E. cbv zeta.
  intros H. eapply rtc_l.
  { eapply (serves_frame _ _ _ _ _ _ _ _ _ wrote); [apply lookup_insert_eq|exact E]. }
  rewrite insert_insert_eq. unfold served. destruct wrote; cbn [negb orb] in *.
  - case_bool_decide as Hr; [by injection H as <- <- <- <-|]. unfold shut.
    rewrite bool_decide_eq_false_2 by done. cbn [andb].
    destruct (serve_frames (tail env) fs b1 stop1 n1) as [[[n2 b2] stop2] rest] eqn:E2.
    injection H as <- <- <- <-. by eapply IH.
  - by injection H as <- <- <- <-.
Qed.

(** A chunk received and served. *)
Lemma receive_run env chunk d b k W n d' frames st n' b' stop' out :
  push d chunk = (d', frames, st) → is_ok st = true →
  serve_frames env frames b false n = (n', b', stop', out) →
  rtc serves (n, <[k := mkWorker d b [] false]> W) (n', <[k := mkWorker d' b' [] stop']> W).
Proof.
  intros Ep Es Ef. eapply rtc_l; [eapply serves_receive; [apply lookup_insert_eq|exact Ep|exact Es]|].
  rewrite insert_insert_eq. by eapply serve_frames_run.
Qed.

Lemma handle_frame_shutdown ca f b n n' reply : handle_frame ca f b n = (n', Ret reply) →
  reply.1 = MessageType.ShutdownResponse → fh_type (fr_header f) = MessageType.ShutdownRequest.
Proof.
  unfold handle_frame, handle_define, handle_allocate, handle_commit, handle_release, reply_with,
    only_coordinators. cbv zeta.
  destruct (fh_type (fr_header f)); try done; try (by intros [= _ <-]);
    destruct (is_none (sb_session b)); try done.
  - request_cases q E Hn; [done|]. destruct (transition _ _ _) as [n1 [r|st]]; by intros [= _ <-].
  - request_cases q E Hn; [done|]. destruct (_ || _); [done|]. case_bool_decide; [|done].
    destruct (transition _ _ _) as [n1 [r|st]]; by intros [= _ <-].
  - unfold handle_decide. request_cases q E Hn; [done|]. destruct (advance_clock n) as [n1 []]; [|done].
    cbn [negb]. destruct (registry_decide _ _ _). by intros [= _ <-].
  - request_cases q E Hn; [done|]. case_bool_decide; [|done].
    destruct (transition _ _ _) as [n1 [r|st]]; by intros [= _ <-].
  - unfold handle_fence. request_cases q E Hn; [done|]. destruct (advance_clock n) as [n1 []]; [|done].
    cbn [negb]. destruct (operate _ _) as [[n2 rs] r]. destruct (append_records _ _ _) as [n3 st].
    destruct (negb (is_ok st)); by intros [= _ <-].
  - request_cases q E Hn; [done|]. destruct (transition _ _ _) as [n1 [r|st]]; by intros [= _ <-].
  - unfold handle_inspect. request_cases q E Hn; [done|]. by intros [= _ <-].
Qed.

Lemma serve_frame_shutdown ca f b stop n n' b' stop' reply :
  serve_frame ca f b stop n = (n', b', stop', reply) → reply.1 = MessageType.ShutdownResponse →
  fh_type (fr_header f) = MessageType.ShutdownRequest.
Proof.
  unfold serve_frame, serve_hello, serve_request. cbv zeta. destruct (is_none _).
  - destruct (negb _); [by intros [= _ _ _ <-]|]. destruct (decode_all _ _); [|by intros [= _ _ _ <-]].
    destruct (handle_hello _ _ _) as [n1 [[resp b1]|st]]; by intros [= _ _ _ <-].
  - destruct (_ <=? _); [by intros [= _ _ _ <-]|].
    destruct (handle_frame _ _ _ _) as [n1 [r|st]] eqn:E; intros [= _ _ _ <-]; [|done].
    by eapply handle_frame_shutdown.
Qed.

Lemma shut_other wrote reply n : reply.1 ≠ MessageType.ShutdownResponse → shut wrote reply n = n.
Proof. intros H. unfold shut. rewrite bool_decide_false by done. by rewrite andb_false_r. Qed.

Module Serving.

(** C14: At every moment of a run of the service, however its connections interleave:
    the session table is within its bound and lists exactly the sessions the
    connections hold; no two connections share a session or an incarnation; and
    every session was issued by the running boot. *)
Theorem sessions_exclusive (n0 : Node) (s : System) : opened n0 → rtc serves (n0, ∅) s →
  zlen (nd_sessions s.1) <= rc_max_sessions (nd_config s.1) ∧
  (∀ b, b ∈ nd_sessions s.1 ↔ sb_session b ≠ 0 ∧ ∃ k w, s.2 !! k = Some w ∧
     identity_of (wk_binding w) = b) ∧
  ∀ i j v w, s.2 !! i = Some v → s.2 !! j = Some w → sb_session (wk_binding v) ≠ 0 →
    sb_boot (wk_binding v) = br_boot (rs_boot (nd_state s.1)) ∧
    (i ≠ j → sb_session (wk_binding w) ≠ 0 →
     sb_session (wk_binding v) ≠ sb_session (wk_binding w) ∧
     sb_incarnation (wk_binding v) ≠ sb_incarnation (wk_binding w)).
Proof.
  intros Hn Hr. destruct (serves_ok _ _ Hn Hr) as [[_ [_ Hl] H3 H4 H5] _]. split; [done|]. split.
  - intros b. rewrite H3. unfold bindings. split; intros [Hb (k & Hk)]; (split; [done|]).
    + rewrite lookup_fmap in Hk. destruct (s.2 !! k) as [w|] eqn:E; [|done].
      injection Hk as Hk. by exists k, w.
    + destruct Hk as (w & E & <-). exists k. by rewrite lookup_fmap, E.
  - intros i j v w Hi%bindings_lookup Hj%bindings_lookup Hv. split.
    + apply (H4 i _ Hi Hv).
    + intros Hne Hw. by apply (H5 i j _ _ Hi Hj).
Qed.

(** C27: A session acts only on its own authority. Take the whole turn of a worker
    on a frame of an established session, the reply and what follows it included.
    When it changes the node beyond the two request counters the frame's id
    exceeds every id the session used before, and either its payload decodes to a
    request whose envelope names exactly this session, node, boot and
    incarnation - and if it allocates or commits the session is a coordinator's -
    or it is a shutdown request whose reply was written: that needs no envelope
    and any kind of session may send it, and it does nothing but set the stop
    flag. *)
Theorem identity_enforced (ca : Calls) (f : Frame) (b b' : SessionBinding) (stop stop' wrote : bool)
    (n n' : Node) (reply : Reply) : sb_session b ≠ 0 →
  serve_frame ca f b stop n = (n', b', stop', reply) →
  let m := shut wrote reply n' in
  m = count_rejected n ∨ m = count_handled n ∨
  (sb_last_request b < fh_request_id (fr_header f) ∧
   ((∃ e, envelope_of f = Some e ∧ names b e) ∧
    (fh_type (fr_header f) ∈ [MessageType.AllocateEpochRequest; MessageType.CommitRequest] →
     sb_kind b = Coordinator) ∨
    fh_type (fr_header f) = MessageType.ShutdownRequest ∧ wrote = true ∧
    m = set_phase (nd_phase n) true (count_handled n))).
Proof.
  intros Hb E0. cbv zeta. pose proof (serve_frame_shutdown _ _ _ _ _ _ _ _ _ E0) as Hshut. revert E0.
  unfold serve_frame, is_none. destruct (Z.eqb_spec (sb_session b) 0); [done|].
  unfold serve_request. cbv zeta.
  destruct (Z.leb_spec (fh_request_id (fr_header f)) (sb_last_request b)) as [|Hid].
  { intros [= <- _ _ <-]. left. apply shut_other. done. }
  set (b1 := admit_request (fh_request_id (fr_header f)) b).
  pose proof (handle_frame_authority ca f b1 n) as Ha.
  pose proof (handle_frame_coordinator ca f b1 n) as Hc.
  destruct (handle_frame ca f b1 n) as [n1 r]. cbn [fst] in Ha, Hc. intros E.
  assert (Hcase : n1 = n ∨ (∃ e, envelope_of f = Some e ∧ names b e) ∧
    (fh_type (fr_header f) ∈ [MessageType.AllocateEpochRequest; MessageType.CommitRequest] →
     sb_kind b = Coordinator)).
  { destruct Ha as [|(e & Ee & Hn)]; [by left|]. destruct (decide (fh_type (fr_header f) ∈
      [MessageType.AllocateEpochRequest; MessageType.CommitRequest])) as [Hin|Hin].
    - destruct (Hc Hin) as [|Hk]; [by left|]. right. split; [by exists e|done].
    - right. split; [by exists e|done]. }
  destruct Hcase as [->|Hauth]; [|right; right; by split; [|left]].
  destruct r as [reply'|st]; injection E as <- _ _ <-; [|left; by apply shut_other].
  right. destruct (decide (reply'.1 = MessageType.ShutdownResponse)) as [Er|Er];
    [|left; by apply shut_other].
  unfold shut. rewrite bool_decide_true by done. destruct wrote; [|by left].
  right. split; [done|]. right. auto.
Qed.

(** C5: No effect without authority. Serving a frame extends the durable effect log
    only if the frame is a commit request of an established coordinator's
    session that names the session, for a grant that is open and that it
    describes exactly: domain, extents, epoch, incarnation and token. *)
Theorem effects_authorised (ca : Calls) (f : Frame) (b b' : SessionBinding) (stop stop' : bool)
    (n n' : Node) (reply : Reply) :
  serve_frame ca f b stop n = (n', b', stop', reply) →
  nd_fabric n' = nd_fabric n ∨
  sb_session b ≠ 0 ∧ sb_last_request b < fh_request_id (fr_header f) ∧
  authorised f (admit_request (fh_request_id (fr_header f)) b) (nd_state n).
Proof.
  unfold serve_frame, is_none. destruct (Z.eqb_spec (sb_session b) 0) as [|Hb].
  - unfold serve_hello. destruct (negb _); [intros [= <- _ _ _]; by left|].
    destruct (decode_all _ _) as [q|st]; [|intros [= <- _ _ _]; by left].
    pose proof (hello_fabric ca q n) as H.
    destruct (handle_hello _ _ _) as [n1 [[resp b1]|st]]; intros [= <- _ _ _]; by left.
  - unfold serve_request. cbv zeta.
    destruct (Z.leb_spec (fh_request_id (fr_header f)) (sb_last_request b)) as [|Hid].
    { intros [= <- _ _ _]. by left. }
    set (b1 := admit_request (fh_request_id (fr_header f)) b).
    pose proof (handle_frame_fabric ca f b1 n) as [H|H]; [left|by right].
    destruct (handle_frame ca f b1 n) as [n1 [r|st]]; injection H0 as <- _ _ _; exact H.
Qed.

(** C26: Requests are served in order and once. Whatever happens between, no frame
    whose id the session has already reached is served again: it is answered
    with a regression error, the connection is told to stop and only the
    counter of refusals moves. *)
Theorem request_served_once (n0 : Node) (x y : System) (i j : nat) (v w : Worker) (ca : Calls)
    (f : Frame) (stop : bool) :
  opened n0 → rtc serves (n0, ∅) x → x.2 !! i = Some v → sb_session (wk_binding v) ≠ 0 →
  rtc serves x y → y.2 !! j = Some w → sb_session (wk_binding w) = sb_session (wk_binding v) →
  fh_request_id (fr_header f) <= sb_last_request (wk_binding v) →
  serve_frame ca f (wk_binding w) stop y.1 =
    (count_rejected y.1, wk_binding w, true,
     error_reply (mkStatus Outcome.Invalid Reason.RequestIdRegression (fh_request_id (fr_header f)))
       (str "request id must strictly increase within a session")).
Proof.
  intros Hn Hx Hv Hs Hxy Hw Ew Hid. pose proof (serves_ok _ _ Hn Hx) as Hok.
  assert (Hc : come_to (sb_session (wk_binding v)) (sb_last_request (wk_binding v)) x).
  { destruct Hok as [[_ _ _ H4 H5] _]. split.
    - destruct (H4 _ _ (bindings_lookup _ _ _ Hv) Hs) as ([_ ?] & _). done.
    - intros k u Hu Eu. destruct (decide (k = i)) as [->|Hne]; [by simplify_eq|].
      destruct (H5 k i _ _ (bindings_lookup _ _ _ Hu) (bindings_lookup _ _ _ Hv)) as [Hd _];
        cbn in *; congruence. }
  apply (run_come_to _ _ _ _ Hs Hok Hxy) in Hc as [_ Hc]. specialize (Hc _ _ Hw Ew).
  unfold serve_frame, is_none. rewrite (proj2 (Z.eqb_neq _ _)) by congruence.
  unfold serve_request. rewrite (proj2 (Z.leb_le _ _)) by lia. done.
Qed.

(** The loop of a worker refines the interleaved system: serving a chunk on a
    connection, alone, is a run of the system that leaves the worker waiting
    for the next chunk, or gone with its session released. *)
Theorem chunk_is_a_run (env : list (Calls * bool)) (chunk : bytes) (c c' : Connection)
    (n n' : Node) (out : list bytes) (k : nat) (W : gmap nat Worker) :
  serve_chunk env chunk c n = (n', c', out) →
  rtc serves (n, <[k := mkWorker (cn_decoder c) (cn_binding c) [] false]> W)
    (n', if cn_open c' then <[k := mkWorker (cn_decoder c') (cn_binding c') [] false]> W
         else delete k W).
Proof.
  unfold serve_chunk. destruct (push (cn_decoder c) chunk) as [[d frames] st] eqn:Ep.
  destruct (is_ok st) eqn:Es; cbn [negb].
  - destruct (serve_frames env frames (cn_binding c) false n) as [[[n1 b1] stop1] out1] eqn:Ef.
    intros H. etrans; [by eapply receive_run|].
    destruct (stop1 || nd_stopping n1) eqn:Eo; injection H as <- <- <-; cbn [cn_open].
    + eapply rtc_l; [eapply serves_close, lookup_insert_eq|]. by rewrite delete_insert_eq.
    + apply orb_false_iff in Eo as [-> _]. done.
  - intros [= <- <- <-]. cbn [cn_open]. eapply rtc_l.
    { eapply serves_malformed; [apply lookup_insert_eq|exact Ep|exact Es]. }
    by rewrite delete_insert_eq.
Qed.
(** C28: Every frame is answered. While replies can be written and no shutdown is
    asked for, a chunk of frames is answered frame by frame, in order, each
    reply carrying the id of its request, violations included. *)
Theorem every_frame_answered (env : list (Calls * bool)) (fs : list Frame) (b b' : SessionBinding)
    (stop stop' : bool) (n n' : Node) (out : list bytes) :
  Forall (λ e, e.2 = true) env →
  Forall (λ f, fh_type (fr_header f) ≠ MessageType.ShutdownRequest) fs →
  serve_frames env fs b stop n = (n', b', stop', out) →
  ∃ rs : list Reply, length rs = length fs ∧
    out = zip_with (λ f r, encode_frame (reply_frame (fh_request_id (fr_header f)) r)) fs rs.
Proof.
  intros Henv Hfs. revert env b stop n n' b' stop' out Henv.
  induction Hfs as [|f fs Hf Hfs IH]; intros env b stop n n' b' stop' out Henv.
  { intros [= <- <- <- <-]. by exists []. }
  rewrite serve_frames_cons.
  assert (Hw : (default (calls_done, true) (head env)).2 = true) by (by destruct Henv).
  assert (Ht : Forall (λ e, e.2 = true) (tail env)) by (by destruct Henv).
  destruct (default _ _) as [ca wrote]. cbn [snd] in Hw. subst wrote.
  destruct (serve_frame ca f b stop n) as [[[n1 b1] stop1] reply] eqn:E. cbn [negb]. cbv zeta.
  case_bool_decide as Hr; [destruct Hf; by eapply serve_frame_shutdown|].
  destruct (serve_frames (tail env) fs b1 stop1 n1) as [[[n2 b2] stop2] rest] eqn:E2.
  intros [= <- <- <- <-]. destruct (IH _ _ _ _ _ _ _ _ Ht E2) as (rs & Hl & ->).
  exists (reply :: rs). split; [cbn; by rewrite Hl|done].
Qed.

(** C38: A violation is forgotten. A frame whose request id the session has already
    used must end the connection, but the flag that says so is overwritten by
    the next frame of the same chunk: when that one is refused for a reason of
    its own that does not close the connection, the loop ends with the flag
    clear and the connection goes on. *)
Theorem violation_forgiven (ca1 ca2 : Calls) (f1 f2 : Frame) (b : SessionBinding)
    (n n' : Node) (st : Status) : sb_session b ≠ 0 →
  fh_request_id (fr_header f1) <= sb_last_request b < fh_request_id (fr_header f2) →
  handle_frame ca2 f2 (admit_request (fh_request_id (fr_header f2)) b) (count_rejected n) =
    (n', Err st) →
  closes_connection (reason st) = false →
  (∃ r, serve_frame ca1 f1 b false n = (count_rejected n, b, true, r)) ∧
  ∃ out, serve_frames [(ca1, true); (ca2, true)] [f1; f2] b false n =
    (count_rejected n', admit_request (fh_request_id (fr_header f2)) b, false, out) ∧
    length out = 2%nat.
Proof.
  intros Hb [H1 H2] Hf Hc.
  assert (E1 : ∀ ca stop, ∃ r, serve_frame ca f1 b stop n = (count_rejected n, b, true, r) ∧
    r.1 = MessageType.ErrorResponse).
  { intros ca stop. unfold serve_frame, is_none. rewrite (proj2 (Z.eqb_neq _ _)) by done.
    unfold serve_request. cbv zeta. rewrite (proj2 (Z.leb_le _ _)) by done. by eexists. }
  assert (E2 : serve_frame ca2 f2 b true (count_rejected n) =
    (count_rejected n', admit_request (fh_request_id (fr_header f2)) b, false,
     error_reply st (status_to_string st))).
  { unfold serve_frame, is_none. rewrite (proj2 (Z.eqb_neq _ _)) by done.
    unfold serve_request. cbv zeta. rewrite (proj2 (Z.leb_gt _ _)) by done. by rewrite Hf, Hc. }
  destruct (E1 ca1 false) as (r & E & Er). split; [by exists r|].
  rewrite serve_frames_cons. cbn [head default from_option id tail]. rewrite E. cbn [negb]. cbv zeta.
  rewrite bool_decide_eq_false_2 by (rewrite Er; done).
  rewrite serve_frames_cons. cbn [head default from_option id tail]. rewrite E2. cbn [negb]. cbv zeta.
  rewrite bool_decide_eq_false_2 by done. cbn [serve_frames]. by eexists.
Qed.

(** ** A service opened on an empty directory, and its connections *)

Definition demo_node : Node :=
  (service_open open_calls_done Registries.demo_config
     (mkNode Registries.demo_config (mkStore [] false 0 0 false) no_disk (mkFabricDisk None None)
        registry0 [] 0 0 (mkReport false false false 0 0 0 0) Uninitialised false 0 0 0)).1.

Definition client_frame (t : MessageType.MessageType) (id : RequestId) (payload : bytes) : Frame :=
  mkFrame (mkFrameHeader kFrameMagic kFrameVersion t 0 id 0 0 0) payload.
Definition hello (kind : ClientKind) : bytes :=
  encode_frame (client_frame MessageType.HelloRequest 1
    (encode_hq (mkHelloRequest (str "client") kind kFrameVersion))).

(** A connection accepted, then served one chunk. *)
Definition join (chunk : bytes) (n : Node) : Node * Worker :=
  let '(d, frames, _) := push (cn_decoder accepted_connection) chunk in
  let '(n, b, stop, _) := serve_frames [] frames no_binding false n in
  (n, mkWorker d b [] stop).

Lemma join_run k W n chunk : W !! k = None →
  is_ok (push (cn_decoder accepted_connection) chunk).2 = true →
  rtc serves (n, W) ((join chunk n).1, <[k := (join chunk n).2]> W).
Proof.
  intros Hk. unfold join. destruct (push _ chunk) as [[d fs] st] eqn:Ep. cbn [snd]. intros Hok.
  destruct (serve_frames [] fs no_binding false n) as [[[n' b'] stop'] out] eqn:Es. cbn [fst snd].
  eapply rtc_l; [by apply serves_accept|]. by eapply receive_run.
Qed.

(** A coordinator, then an observer. *)
Definition demo_first : Node * Worker := join (hello Coordinator) demo_node.
Definition demo_both : Node * Worker := join (hello Observer) demo_first.1.
Definition demo_workers : gmap nat Worker := <[1%nat := demo_both.2]> (<[0%nat := demo_first.2]> ∅).
Definition demo_system : System := (demo_both.1, demo_workers).

Definition me (session : SessionId) (i : IncarnationId) : RequestEnvelope :=
  mkEnvelope session (str "client") 1 i.
Definition define_frame : Frame :=
  client_frame MessageType.DefineDomainRequest 1 (encode_mq (mkDefineDomainRequest (me 1 2)
    (Registries.demo_domain "d" Decisions.demo_scope))).
Definition allocate_frame (id : RequestId) (session : SessionId) (i : IncarnationId) : Frame :=
  client_frame MessageType.AllocateEpochRequest id (encode_aq (mkAllocateEpochRequest (me session i)
    (str "d") Decisions.demo_scope i 1 1 wallclock0)).
Definition commit_frame : Frame :=
  client_frame MessageType.CommitRequest 3 (encode_cq (Messages.mkCommitRequest (me 1 2) (str "d")
    Decisions.demo_scope 1 2 1 1 1 (str "set") Digest256_zero wallclock0)).

(** The coordinator's domain and grant, then its commit. *)
Definition demo_granted := serve_frames [] [define_frame; allocate_frame 2 1 2]
  (wk_binding demo_first.2) false demo_both.1.
Definition demo_commit :=
  serve_frame calls_done commit_frame demo_granted.1.1.2 false demo_granted.1.1.1.

Definition effects (n : Node) : Z := zlen (default [] (fd_log (nd_fabric n))).

Lemma serving_facts :
  (nd_sessions demo_node = [] ∧ nd_next_session demo_node = 0 ∧
   rs_incarnations (nd_state demo_node) = 1 ∧ rc_max_sessions (nd_config demo_node) = 64) ∧
  is_ok (push (cn_decoder accepted_connection) (hello Coordinator)).2 = true ∧
  is_ok (push (cn_decoder accepted_connection) (hello Observer)).2 = true ∧
  wk_binding demo_first.2 = mkBinding 1 (str "client") 1 2 Coordinator 0 0 ∧
  wk_binding demo_both.2 = mkBinding 2 (str "client") 1 3 Observer 0 0 ∧
  length demo_granted.2 = 2%nat ∧ effects demo_granted.1.1.1 = 0 ∧ effects demo_commit.1.1.1 = 144 ∧
  sb_session demo_granted.1.1.2 = 1 ∧ (demo_commit.2).1 = MessageType.CommitResponse ∧
  (handle_frame calls_done (allocate_frame 1 2 3)
     (admit_request 1 (wk_binding demo_both.2)) (count_rejected demo_both.1)).2 =
    Err (fail0 Outcome.Refused Reason.EligibilityNotAuthorization).
Proof. vm_compute. repeat split. Qed.

(** The definitions, as rewriting rules. *)
Lemma demo_first_def : join (hello Coordinator) demo_node = demo_first.
Proof. exact eq_refl. Qed.
Lemma demo_both_def : join (hello Observer) demo_first.1 = demo_both.
Proof. exact eq_refl. Qed.

Lemma tuple4 {A B C D} (x : A * B * C * D) : x = (x.1.1.1, x.1.1.2, x.1.2, x.2).
Proof. by destruct x as [[[? ?] ?] ?]. Qed.

Lemma demo_granted_def :
  serve_frames [] [define_frame; allocate_frame 2 1 2] (wk_binding demo_first.2) false demo_both.1 =
  demo_granted.
Proof. unfold demo_granted. exact eq_refl. Qed.

Lemma demo_granted_run :
  serve_frames [] [define_frame; allocate_frame 2 1 2] (wk_binding demo_first.2) false demo_both.1 =
  (demo_granted.1.1.1, demo_granted.1.1.2, demo_granted.1.2, demo_granted.2).
Proof. etransitivity; [exact demo_granted_def|apply tuple4]. Qed.

Lemma demo_commit_def :
  serve_frame calls_done commit_frame demo_granted.1.1.2 false demo_granted.1.1.1 = demo_commit.
Proof. unfold demo_commit. exact eq_refl. Qed.

Lemma demo_commit_run :
  serve_frame calls_done commit_frame demo_granted.1.1.2 false demo_granted.1.1.1 =
  (demo_commit.1.1.1, demo_commit.1.1.2, demo_commit.1.2, demo_commit.2).
Proof. etransitivity; [exact demo_commit_def|apply tuple4]. Qed.

Lemma demo_run : rtc serves (demo_node, ∅) demo_system.
Proof.
  destruct serving_facts as (_ & P1 & P2 & _). unfold demo_system, demo_workers.
  pose proof (join_run 0 ∅ demo_node (hello Coordinator) (lookup_empty _) P1) as H1.
  assert (E : (<[0%nat := demo_first.2]> ∅ : gmap nat Worker) !! 1%nat = None).
  { rewrite lookup_insert_ne by discriminate. apply lookup_empty. }
  pose proof (join_run 1 _ demo_first.1 (hello Observer) E P2) as H2.
  rewrite demo_first_def in H1. rewrite demo_both_def in H2. etrans; [exact H1|exact H2].
Qed.

#[local] Opaque demo_node demo_first demo_both demo_granted demo_commit.

Lemma demo_opened : opened demo_node.
Proof.
  destruct serving_facts as ((E1 & E2 & E3 & E4) & _). unfold opened. rewrite E1, E2, E3, E4.
  split; [reflexivity|]. split; [reflexivity|]. split; [split|]; lia.
Qed.

Lemma sessions_exclusive_witness :
  sb_session (wk_binding demo_first.2) ≠ sb_session (wk_binding demo_both.2) ∧
  zlen (nd_sessions demo_both.1) <= rc_max_sessions (nd_config demo_both.1).
Proof.
  destruct (sessions_exclusive demo_node demo_system demo_opened demo_run) as (Hl & _ & H).
  split; [|exact Hl]. destruct serving_facts as (_ & _ & _ & B1 & B2 & _).
  destruct (H 0%nat 1%nat demo_first.2 demo_both.2 eq_refl eq_refl) as [_ H'];
    [rewrite B1; discriminate|]. apply H'; [done|rewrite B2; discriminate].
Defined.

Lemma effects_authorised_witness :
  effects demo_commit.1.1.1 = effects demo_granted.1.1.1 + 144 ∧
  authorised commit_frame (admit_request 3 demo_granted.1.1.2) (nd_state demo_granted.1.1.1).
Proof.
  destruct serving_facts as (_ & _ & _ & _ & _ & _ & F1 & F2 & _).
  split; [by rewrite F1, F2|].
  destruct (effects_authorised calls_done commit_frame demo_granted.1.1.2 demo_commit.1.1.2 false
    demo_commit.1.2 demo_granted.1.1.1 demo_commit.1.1.1 demo_commit.2) as [E|(_ & _ & H)].
  - exact demo_commit_run.
  - unfold effects in F1, F2. rewrite E in F2. congruence.
  - exact H.
Defined.

(** A commit of the coordinator, and a shutdown asked for by the observer. *)
Lemma identity_enforced_witness : envelope_of commit_frame = Some (me 1 2) ∧
  sb_session demo_granted.1.1.2 ≠ 0 ∧
  (demo_commit.1.1.1 = count_rejected demo_granted.1.1.1 ∨
   demo_commit.1.1.1 = count_handled demo_granted.1.1.1 ∨
   sb_kind demo_granted.1.1.2 = Coordinator).
Proof.
  destruct serving_facts as (_ & _ & _ & _ & _ & _ & _ & _ & S & _).
  assert (Hs : sb_session demo_granted.1.1.2 ≠ 0) by (rewrite S; discriminate).
  split; [vm_compute; reflexivity|]. split; [exact Hs|].
  destruct (identity_enforced calls_done commit_frame demo_granted.1.1.2 demo_commit.1.1.2 false
    demo_commit.1.2 false demo_granted.1.1.1 demo_commit.1.1.1 demo_commit.2 Hs)
    as [E|[E|(_ & [[_ H]|(H & _)])]].
  - exact demo_commit_run.
  - by left.
  - right. by left.
  - right. right. apply H. right. left.
  - discriminate H.
Defined.

(** Any session stops the service. *)
Lemma observer_shuts_down :
  let r := serve_frame calls_done (client_frame MessageType.ShutdownRequest 1 []) (wk_binding demo_both.2)
             false demo_both.1 in
  sb_kind (wk_binding demo_both.2) = Observer ∧ nd_stopping (shut true r.2 r.1.1.1) = true.
Proof.
  destruct serving_facts as (_ & _ & _ & _ & B2 & _). cbv zeta. rewrite B2. split; [done|]. done.
Qed.

Lemma request_served_once_witness :
  (serve_frame calls_done (client_frame MessageType.PingRequest 0 []) (wk_binding demo_first.2)
     false demo_both.1).1.1.1 = count_rejected demo_both.1.
Proof.
  destruct serving_facts as (_ & _ & _ & B1 & _).
  assert (Hid : 0 <= sb_last_request (wk_binding demo_first.2)) by (rewrite B1; cbn; lia).
  assert (Hs : sb_session (wk_binding demo_first.2) ≠ 0) by (rewrite B1; discriminate).
  pose proof (request_served_once demo_node demo_system demo_system 0 0 demo_first.2 demo_first.2
    calls_done (client_frame MessageType.PingRequest 0 []) false demo_opened demo_run eq_refl Hs
    (rtc_refl _ _) eq_refl eq_refl Hid) as E.
  change (demo_system.1) with demo_both.1 in E. rewrite E. reflexivity.
Defined.

Lemma chunk_is_a_run_witness : ∃ n' c' out,
  serve_chunk [] (hello Coordinator) accepted_connection demo_node = (n', c', out) ∧
  rtc serves (demo_node, <[0%nat := accepted_worker]> ∅)
    (n', if cn_open c' then <[0%nat := mkWorker (cn_decoder c') (cn_binding c') [] false]> ∅
         else delete 0%nat ∅).
Proof.
  destruct (serve_chunk [] (hello Coordinator) accepted_connection demo_node) as [[n' c'] out] eqn:E.
  exists n', c', out. split; [reflexivity|].
  exact (chunk_is_a_run [] (hello Coordinator) accepted_connection c' demo_node n' out 0 ∅ E).
Defined.

Lemma every_frame_answered_witness :
  ∃ rs : list Reply, length rs = 2%nat ∧ length demo_granted.2 = length rs.
Proof.
  destruct (every_frame_answered [] [define_frame; allocate_frame 2 1 2] (wk_binding demo_first.2)
    demo_granted.1.1.2 false demo_granted.1.2 demo_both.1 demo_granted.1.1.1 demo_granted.2)
    as (rs & Hl & E).
  - constructor.
  - repeat constructor; discriminate.
  - exact demo_granted_run.
  - exists rs. split; [exact Hl|]. destruct serving_facts as (_ & _ & _ & _ & _ & G & _).
    rewrite Hl. exact G.
Defined.

Lemma violation_forgiven_witness : ∃ n' b' out,
  serve_frames [(calls_done, true); (calls_done, true)]
    [client_frame MessageType.PingRequest 0 []; allocate_frame 1 2 3] (wk_binding demo_both.2)
    false demo_both.1 = (n', b', false, out) ∧ length out = 2%nat.
Proof.
  destruct serving_facts as (_ & _ & _ & _ & B2 & _ & _ & _ & _ & _ & F).
  destruct (handle_frame calls_done (allocate_frame 1 2 3) (admit_request 1 (wk_binding demo_both.2))
    (count_rejected demo_both.1)) as [n' r] eqn:E. cbn [snd] in F. subst r.
  destruct (violation_forgiven calls_done calls_done (client_frame MessageType.PingRequest 0 [])
    (allocate_frame 1 2 3) (wk_binding demo_both.2) demo_both.1 n' _
    ltac:(rewrite B2; discriminate) ltac:(rewrite B2; cbn; lia) E eq_refl)
    as (_ & out & H & Hl).
  eexists _, _, out. split; [exact H|exact Hl].
Defined.
End Serving.
