(* ===== verification/Recovery.v ===== *)
(** * Recovery

    A registry service that crashes and opens again over the files it left
    ([RegistryService::open] of [src/registry_service.cpp]) finds the state it
    had: the snapshot of the last checkpoint and the records appended since
    rebuild what every acknowledged operation did.  [carries] says of a running
    node that its directory holds its state; transitions and checkpoints keep
    it, and it is enough for recovery, wherever the journal was cut. *)
From S2P Require Import Prelude Order SortedVec Status Ids Text Digest Canonical Scope.
From S2P Require Import Fence Lineage Evidence Arbiter Codec Readers Wire Messages Journal Fabric.
From S2P Require Import Registry Replay Snapshot Service Sessions.
Open Scope Z_scope.

(** ** What recovery preserves *)

(** The parts of a table its records and entries determine. *)
Definition bare_fences (t : FenceTable) : FenceTable :=
  mkFenceTable (ft_extents t) (ft_records t) [] [] 0.
Definition bare_lineage (t : LineageTable) : LineageTable :=
  mkLineage (lt_grants t) (lt_boots t) 0.

(** The state without volatile fields, caches and the counters a restart raises
    anew from what it finds. *)
Definition seen (s : RegistryState) : RegistryState :=
  mkRegistry config0 (rs_store_id s) (mkStepClock 0) (rs_last_step s) (rs_boot s)
    (rs_sequence s) 0 (bare_fences (rs_fences s)) (bare_lineage (rs_lineage s)) fabric0
    (rs_domains s) (rs_policy s) (rs_idempotency s) (rs_interrupts s) [] 0 0
    (rs_incarnations s) (rs_commits s) 0 0 Uninitialised.

Definition alike (s s' : RegistryState) : Prop := seen s = seen s'.

#[export] Instance alike_equiv : Equivalence alike.
Proof. unfold alike. split; repeat intros ?; congruence. Qed.

Lemma same_durable_alike s s' : same_durable s s' → alike s s'.
Proof. intros E. by same_states s s'. Qed.

(** Destruct two states that look alike. *)
Ltac alike_states s s' :=
  lazymatch goal with H : alike s s' |- _ =>
    destruct s as [? ? ? ? ? ? ? [? ? ? ? ?] [? ? ?] ? ? ? ? ? ? ? ? ? ? ? ? ?],
             s' as [? ? ? ? ? ? ? [? ? ? ? ?] [? ? ?] ? ? ? ? ? ? ? ? ? ? ? ? ?];
    unfold alike, seen, bare_fences, bare_lineage in H; cbn in *; injection H; clear H;
    intros; subst end.

(** A transition that acts alike on both. *)
Definition acts_alike (f : RegistryState → RegistryState * Status) : Prop :=
  ∀ s s', alike s s' → alike (f s).1 (f s').1 ∧ (f s).2 = (f s').2.

Lemma through_payload {A} (d : reader → result (A * reader)) payload k :
  (∀ x, acts_alike (k x)) → acts_alike (with_payload d payload k).
Proof.
  intros Hk s s' E. unfold with_payload. destruct (decode_all d payload); [by apply Hk|done].
Qed.

Ltac shown := split; reflexivity.

(** The next early return. *)
Ltac early := match goal with |- context [if ?c then _ else _] => destruct c; cbn; [shown|] end.

Lemma through_boot_begin b : acts_alike (apply_boot_begin b).
Proof.
  intros s s' E. alike_states s s'. unfold apply_boot_begin, begin_boot, find_boot. cbn.
  destruct (_ || _); cbn; [shown|]. case_bool_decide; shown.
Qed.

Lemma through_boot_end b : acts_alike (apply_boot_end b).
Proof.
  intros s s' E. alike_states s s'. unfold apply_boot_end, end_boot. cbn.
  destruct (end_in _ _ _ _) as [l [st|]]; shown.
Qed.

Lemma alike_remember scope s s' : alike s s' →
  alike (remember_scope scope s) (remember_scope scope s').
Proof.
  assert (H : ∀ t, seen (remember_scope scope t) = seen t).
  { intros t. unfold remember_scope. repeat case_match; done. }
  intros E. unfold alike. by rewrite !H.
Qed.

Lemma through_domain d : acts_alike (apply_domain d).
Proof.
  intros s s' E. unfold apply_domain. assert (Ed : rs_domains s = rs_domains s').
  { by alike_states s s'. }
  unfold find_domain. rewrite Ed. repeat case_match; try done. split; [|done]. cbn [fst].
  apply alike_remember. by alike_states s s'.
Qed.

Lemma through_grant_open g : acts_alike (apply_grant_open g).
Proof.
  intros s s' E. alike_states s s'.
  unfold apply_grant_open, open_grant, find_grant, max_epoch, open_grant_for. cbn.
  repeat early. destruct (evict _ _) as [kept room]. destruct room; shown.
Qed.

Lemma through_grant_close g : acts_alike (apply_grant_close g).
Proof.
  intros s s' E. alike_states s s'. unfold apply_grant_close, lineage_close_grant. cbn.
  case_bool_decide; [shown|]. destruct (close_in _ _ _ _ _) as [l [st|]]; shown.
Qed.

Lemma alike_tokens v s s' : alike s s' →
  alike (set_tokens (raise (rs_tokens s) v) s) (set_tokens (raise (rs_tokens s') v) s').
Proof. intros E. by alike_states s s'. Qed.

Lemma through_fence f scope : acts_alike (apply_fence f scope).
Proof.
  intros s s' E. unfold apply_fence. cbv zeta.
  apply (alike_tokens (fr_token f)), (alike_remember scope) in E.
  generalize dependent (remember_scope scope (set_tokens (raise (rs_tokens s) (fr_token f)) s)).
  generalize dependent (remember_scope scope (set_tokens (raise (rs_tokens s') (fr_token f)) s')).
  clear s s'. intros s' s E. alike_states s s'. unfold fence_apply. cbn.
  destruct (scope_empty scope); [shown|]. destruct (is_none _); [shown|].
  destruct (_ <? _); [shown|]. destruct (apply_extents _ _ _) as [es st].
  destruct (is_ok st); shown.
Qed.

Lemma through_adopt f scope : acts_alike (apply_adopt f scope).
Proof.
  intros s s' E. unfold apply_adopt. cbv zeta.
  apply (alike_tokens (fr_token f)), (alike_remember scope) in E.
  generalize dependent (remember_scope scope (set_tokens (raise (rs_tokens s) (fr_token f)) s)).
  generalize dependent (remember_scope scope (set_tokens (raise (rs_tokens s') (fr_token f)) s')).
  clear s s'. intros s' s E. alike_states s s'. unfold fence_adopt. cbn.
  do 3 early. destruct (adopt_check _ _ _ _); [shown|]. early. shown.
Qed.

Lemma through_incarnation v : acts_alike (apply_incarnation v).
Proof. intros s s' E. alike_states s s'. unfold apply_incarnation. cbn. early. shown. Qed.

Lemma through_interrupt m : acts_alike (apply_interrupt m).
Proof. intros s s' E. alike_states s s'. unfold apply_interrupt. cbn. shown. Qed.

Lemma through_policy p : acts_alike (λ s, (set_policy p s, status_ok)).
Proof. intros s s' E. alike_states s s'. shown. Qed.

Lemma through_commits : acts_alike (λ s, (set_commits (u64 (rs_commits s + 1)) s, status_ok)).
Proof. intros s s' E. alike_states s s'. shown. Qed.

Create HintDb through.
#[export] Hint Resolve through_payload through_boot_begin through_boot_end through_domain
  through_grant_open through_grant_close through_fence through_adopt through_incarnation
  through_interrupt through_policy through_commits : through.

Lemma through_kind r : acts_alike (apply_kind r).
Proof.
  unfold apply_kind. cbv zeta. destruct (jr_kind r); try (by intros s s' E); auto 6 with through.
Qed.

Lemma alike_observe r s s' : alike s s' → alike (observe r s) (observe r s').
Proof.
  intros E. alike_states s s'. unfold observe. cbn. by case_match.
Qed.

Lemma through_apply r : acts_alike (apply r).
Proof.
  intros s s' E. unfold apply. destruct (negb _); [done|].
  assert (Es : rs_sequence s = rs_sequence s') by by alike_states s s'.
  rewrite Es. destruct (_ <? _); [done|]. by apply through_kind, alike_observe.
Qed.

(** Replaying a journal into related states. *)
Lemma visit_related {S} (R : S → S → Prop) (visitor : JournalRecord → S → S * Status) rs :
  (∀ r s s', R s s' → R (visitor r s).1 (visitor r s').1 ∧ (visitor r s).2 = (visitor r s').2) →
  ∀ s s', R s s' → R (visit_all visitor rs s).1 (visit_all visitor rs s').1 ∧
    (visit_all visitor rs s).2 = (visit_all visitor rs s').2.
Proof.
  intros Hv. induction rs as [|r rs IH]; intros s s' HR; [done|]. cbn [visit_all].
  destruct (Hv r s s' HR) as [H1 H2].
  destruct (visitor r s) as [x st], (visitor r s') as [x' st']. cbn [fst snd] in *. subst st'.
  destruct (is_ok st); [by apply IH|done].
Qed.

Lemma through_visitor c r : acts_alike (replay_visitor c r).
Proof. intros s s' E. unfold replay_visitor. destruct (_ <=? _); [done|]. by apply through_apply. Qed.

(** Records past what the snapshot covers are all applied. *)
Lemma visit_past c rs : ∀ b (s : RegistryState), c <= b → contiguous b rs →
  visit_all (replay_visitor c) rs s = visit_all apply rs s.
Proof.
  induction rs as [|r rs IH]; intros b s Hb Hc; [done|]. destruct Hc as [E Hc]. cbn [visit_all].
  unfold replay_visitor at 1. rewrite (proj2 (Z.leb_gt _ _)) by lia.
  destruct (apply r s) as [x st]. destruct (is_ok st); [|done]. apply (IH (b + 1)); [lia|done].
Qed.

(** Records the snapshot covers are all skipped. *)
Lemma visit_covered c rs : ∀ b (s : RegistryState), b + zlen rs <= c → contiguous b rs →
  visit_all (replay_visitor c) rs s = (s, status_ok).
Proof.
  induction rs as [|r rs IH]; intros b s Hb Hc; [done|]. destruct Hc as [E Hc]. cbn [visit_all].
  rewrite zlen_cons in Hb. pose proof (zlen_nonneg rs).
  unfold replay_visitor at 1. rewrite (proj2 (Z.leb_le _ _)) by lia.
  cbn [is_ok outcome status_ok]. apply (IH (b + 1)); [lia|done].
Qed.

(** What no record changes, once observed. *)
Definition fixed (s : RegistryState) : StoreId * Sequence := (rs_store_id s, rs_sequence s).

Lemma remember_fixed scope s : fixed (remember_scope scope s) = fixed s.
Proof. unfold remember_scope. repeat case_match; done. Qed.

Lemma kind_fixed r s : fixed (apply_kind r s).1 = fixed s.
Proof.
  unfold apply_kind, with_payload. cbv zeta.
  destruct (jr_kind r); try done; destruct (decode_all _ _) as [x|]; try done;
    unfold apply_boot_begin, apply_boot_end, apply_domain, apply_grant_open, apply_grant_close,
      apply_fence, apply_adopt, apply_incarnation; cbv zeta; repeat case_match; try done; cbn [fst];
    try (by rewrite remember_fixed).
  all: match goal with |- fixed (set_fences _ (remember_scope ?sc ?s)) = _ =>
         change (fixed (remember_scope sc s) = fixed s); by rewrite remember_fixed end.
Qed.

Lemma apply_fixed r s s' st : apply r s = (s', st) → is_ok st = true →
  fixed s' = (rs_store_id s, jr_sequence r).
Proof.
  unfold apply. destruct (negb _); [intros [= _ <-]; done|].
  destruct (_ <? _); [intros [= _ <-]; done|]. intros Ea _.
  pose proof (kind_fixed r (observe r s)) as K. rewrite Ea in K. cbn [fst] in K. rewrite K.
  unfold observe. cbv zeta. by case_match.
Qed.

(** A record that is refused has moved the sequence all the same. *)
Lemma refused_moves r s : jr_sequence r = u64 (rs_sequence s + 1) →
  0 <= rs_sequence s < u64_max → is_ok (apply r s).2 = false →
  rs_sequence (apply r s).1 = rs_sequence s + 1.
Proof.
  intros E Hb Hbad. rewrite u64_id in E by (unfold is_u64, u64_max in *; lia). revert Hbad.
  unfold apply, is_set. rewrite E, u64_id by (unfold is_u64, u64_max in *; lia).
  rewrite (proj2 (Z.eqb_neq (rs_sequence s + 1) 0)) by lia. rewrite Z.ltb_irrefl. cbn [negb].
  intros _. pose proof (kind_fixed r (observe r s)) as K. etrans; [exact (f_equal snd K)|].
  unfold observe. cbv zeta. cbn [fixed snd]. rewrite E. by case_match.
Qed.

(** A record the state refuses leaves a hole: what is emitted next skips the number
    the journal waits for, and the journal refuses it whatever its calls do. *)
Lemma refused_record_wedges kind payload status now w w' st kind' payload' status' now' w2 w3 r io s d :
  emit kind payload status now w = (w', Err st) → st_last s = rs_sequence (w_state w) →
  0 <= rs_sequence (w_state w) < u64_max - 2 → st_open s = true →
  rs_sequence (w_state w2) = rs_sequence (w_state w') →
  emit kind' payload' status' now' w2 = (w3, Ret tt) → last (w_out w3) = Some r →
  store_append io s d r = (s, d, mkStatus Outcome.Invalid Reason.SequenceRegression (jr_sequence r)).
Proof.
  intros E Hl Hb Ho E2 E3 Hr. set (n := rs_sequence (w_state w)) in *. unfold u64_max in Hb.
  assert (En : rs_sequence (w_state w') = n + 1).
  { revert E. unfold emit. cbv zeta. fold n. set (r0 := mkRecord _ _ _ _ _).
    pose proof (refused_moves r0 (w_state w)) as K. destruct (apply r0 _) as [x sx].
    cbn [fst snd] in K. destruct (is_ok sx); cbn [negb]; [done|]. intros [= <- _]. cbn [w_state].
    apply K; [done|unfold u64_max; lia|done]. }
  revert E3. unfold emit. cbv zeta. destruct (apply _ _) as [x sx]. destruct (negb (is_ok sx)); [done|].
  intros [= <-]. cbn [w_out] in Hr. rewrite last_snoc in Hr. injection Hr as <-. cbn [jr_sequence].
  unfold store_append. rewrite Ho, Hl. cbn [negb jr_sequence]. rewrite E2, En.
  rewrite !u64_id by (unfold is_u64; lia). by rewrite (proj2 (Z.eqb_neq _ _)) by lia.
Qed.

(** Replay counts. *)
Lemma visit_fixed rs : ∀ s s', contiguous (rs_sequence s) rs →
  visit_all apply rs s = (s', status_ok) →
  rs_sequence s' = rs_sequence s + zlen rs ∧ rs_store_id s' = rs_store_id s.
Proof.
  induction rs as [|r rs IH]; intros s s' Hc; cbn [visit_all].
  { intros [= <-]. change (zlen []) with 0. split; [lia|done]. }
  destruct Hc as [E Hc]. destruct (apply r s) as [x st] eqn:Ea. destruct (is_ok st) eqn:Ok.
  2: { intros [= _ ->]. done. }
  pose proof (apply_fixed _ _ _ _ Ea Ok) as Ex. injection Ex as Ei Ex.
  intros Hv. rewrite zlen_cons. destruct (IH x s') as [-> ->]; [|done|split; [lia|done]].
  by rewrite Ex, E.
Qed.

(** ** Appending *)

(** The journal holds exactly [rs], which end at the last sequence appended;
    a journal that outgrows [fits] below is not read back. *)
Record logged (s : Store) (d : Disk) (base : Z) (rs : list JournalRecord) : Prop := {
  lg_covers : Sequence;
  lg_headed : headed (st_id s) d lg_covers;
  lg_journal : dk_journal d = Some (log_of (encode_record <$> rs));
  lg_contiguous : contiguous base rs;
  lg_wf : Forall record_wf rs;
  lg_base : 0 <= base <= lg_covers;
  lg_covered : lg_covers <= base + zlen rs;
  lg_last : base + zlen rs = st_last s;
  lg_bound : st_last s <= u64_max
}.

Definition holds (n : Node) (base : Z) (rs : list JournalRecord) : Prop :=
  logged (nd_store n) (nd_disk n) base rs ∧ st_open (nd_store n) = true.

Definition journal_size (n : Node) : Z := zlen (default [] (dk_journal (nd_disk n))).

(** The journal can be read back, and the next sequence is one. *)
Definition fits (n : Node) : Prop :=
  st_last (nd_store n) < u64_max ∧ journal_size n <= kMaxFabricStoreBytes.

Section appending.
Context (now : Step) (Hnow : is_u64 now).

(** One record appended to a journal that holds [rs]. *)
Lemma append_logged io s d base rs r s' d' st : logged s d base rs → st_open s = true →
  stamped now r → store_append io s d r = (s', d', st) → is_ok st = true →
  logged s' d' base (rs ++ [r]) ∧ st_open s' = true ∧ st_id s' = st_id s ∧
  jr_sequence r = st_last s + 1 ∧ st_last s' = st_last s + 1 ∧ dk_snapshot d' = dk_snapshot d.
Proof.
  intros [covers Hh Hj Hc Hw Hb Hcov Hlast Hbound] Hopen (Hne & Hstep & Haux) E Hok.
  pose proof (zlen_nonneg rs). unfold store_append in E. rewrite Hopen in E. cbn [negb] in E.
  destruct (Z.eqb_spec (jr_sequence r) (u64 (st_last s + 1))) as [Es|]; cbn [negb] in E;
    [|injection E as <- <- <-; done].
  assert (Hlt : st_last s < u64_max).
  { destruct (decide (st_last s = u64_max)) as [Em|]; [|lia]. rewrite Em in Es. by rewrite Es in Hne. }
  rewrite u64_id in Es by (unfold is_u64, u64_max in *; lia).
  destruct (Z.ltb_spec kMaxJournalRecordBytes (zlen (encode_record r))) as [|Hlen];
    [injection E as <- <- <-; done|].
  destruct io as [|a k]; injection E as <- <- <-; [|done]. cbn [append_file] in *.
  cbn [st_last st_open st_id dk_snapshot dk_journal]. rewrite Hj. cbn [default from_option]. unfold id.
  split; [|repeat split; lia]. apply (Build_logged _ _ _ _ covers); cbn [st_last st_id dk_journal].
  - by apply headed_journal.
  - rewrite fmap_app. f_equal. symmetry. apply log_of_snoc.
  - apply contiguous_app. split; [done|]. split; [lia|done].
  - apply Forall_app. split; [done|]. apply Forall_singleton. split; [done|]. split; [done|].
    repeat (apply Forall_cons; split); [unfold is_u64, u64_max in *; lia|by rewrite Hstep|done|done].
  - done.
  - rewrite zlen_app. change (zlen [r]) with 1. lia.
  - rewrite zlen_app. change (zlen [r]) with 1. lia.
  - lia.
Qed.

Lemma append_all_holds ios rs : ∀ n n' st base qs, holds n base qs → Forall (stamped now) rs →
  append_all ios rs n = (n', st) → is_ok st = true →
  holds n' base (qs ++ rs) ∧ contiguous (st_last (nd_store n)) rs ∧
  dk_snapshot (nd_disk n') = dk_snapshot (nd_disk n) ∧ st_id (nd_store n') = st_id (nd_store n).
Proof.
  revert ios. induction rs as [|r rs IH]; intros ios n n' st base qs [Hd Ho] Hst E Hok.
  { injection E as <- _. by rewrite app_nil_r. }
  apply Forall_cons in Hst as [Hr Hst]. cbn [append_all] in E.
  destruct (store_append _ _ _ _) as [[s d] st1] eqn:Ea. destruct (is_ok st1) eqn:E1; cbn [negb] in E.
  2: { injection E as _ <-. congruence. }
  destruct (append_logged _ _ _ _ _ _ _ _ _ Hd Ho Hr Ea E1) as (Hd1 & Ho1 & Hi1 & Hq & Hs & Hsn).
  eapply (IH _ _ _ _ base (qs ++ [r])) in E as (H1 & H2 & H3 & H4); [|by split|done|done].
  cbn [nd_disk nd_store set_journal] in *. rewrite <-app_assoc in H1. rewrite Hs in H2.
  rewrite H3, H4. done.
Qed.
End appending.

(** ** A directory that carries its node's state *)

(** The state [open] starts from. *)
Definition blank (config : RegistryConfig) (f : FabricStore) : RegistryState :=
  (initialise (set_fabric f registry0) config (mkStepClock 0)
     (mkBoot 0 0 (rc_node config) 0 0 false false 0)).1.

(** The snapshot, read back into a blank state, looks like [from]; replaying the
    journal over [from] gives a state that looks like the node's. *)
Record carries (n : Node) : Prop := {
  cr_base : Sequence;
  cr_records : list JournalRecord;
  cr_covers : Sequence;
  cr_from : RegistryState;
  cr_holds : holds n cr_base cr_records;
  cr_id : st_id (nd_store n) = rc_store_id (nd_config n) ∧ id_valid (st_id (nd_store n)) ∧
    rs_store_id (nd_state n) = rc_store_id (nd_config n);
  cr_sequence : rs_sequence (nd_state n) = st_last (nd_store n);
  cr_load : ∀ f, fabric_words f → ∃ s0 cv,
    load_state (nd_config n) (nd_disk n) (blank (nd_config n) f) = (s0, Ret cv) ∧
    default 0 cv = cr_covers ∧ alike cr_from s0;
  cr_covered : cr_covers <= st_last (nd_store n);
  cr_replay : ∃ s1, visit_all (replay_visitor cr_covers) cr_records cr_from = (s1, status_ok) ∧
    alike s1 (nd_state n)
}.

Lemma load_state_disk config d d' s : dk_snapshot d' = dk_snapshot d →
  load_state config d' s = load_state config d s.
Proof. intros E. unfold load_state, load_snapshot. by rewrite E. Qed.

Lemma io_status_not_ok fault : is_ok (io_status fault) = false.
Proof. done. Qed.

(** A checkpoint that succeeds: the snapshot holds the state, the journal is empty. *)
Lemma checkpoint_holds io n n' st base rs : holds n base rs → id_valid (st_id (nd_store n)) →
  is_u64 (clock_now (rs_clock (nd_state n))) → checkpoint io n = (n', st) → is_ok st = true →
  st_last (nd_store n') < u64_max →
  holds n' (st_last (nd_store n)) [] ∧ nd_state n' = nd_state n ∧ nd_config n' = nd_config n ∧
  st_id (nd_store n') = st_id (nd_store n) ∧ st_last (nd_store n') = st_last (nd_store n) ∧
  ∃ h, load_snapshot (nd_disk n') = Ret (serialize (nd_state n), h) ∧
    sn_covers h = st_last (nd_store n).
Proof.
  intros ([covers Hh _ _ _ Hbc _ Hlast Hbound] & Ho) Hid Hnow. unfold checkpoint, store_checkpoint.
  rewrite Ho, Z.eqb_refl. pose proof (zlen_nonneg rs).
  cbn [negb]. destruct (Z.ltb_spec kMaxSnapshotBytes (zlen (serialize (nd_state n)))) as [|Hl].
  { intros [= <- <-]. done. }
  cbv zeta. generalize dependent (serialize (nd_state n)). intros blob Hl.
  unfold atomic_write_file.
  destruct (ck_snapshot io) as [fl|]; [intros [= <- <-]; done|]. cbn [is_ok outcome status_ok negb].
  destruct (ck_flush io) as [fl|]; [intros [= <- <-]; done|].
  destruct (ck_rotate io) as [fl|]; [intros [= <- <-]; done|]. cbn [is_ok outcome status_ok negb].
  destruct (ck_reopen io) as [fl|]; [intros [= <- <-]; done|]. cbn [is_ok outcome status_ok negb].
  intros [= <- <-] _. cbn [nd_state nd_config nd_store nd_disk set_journal st_id st_last]. intros Hmax.
  assert (Hb : 0 <= st_last (nd_store n) < u64_max) by lia.
  pose proof (installed_headed _ _ _ _ _ Hh Hb Hid Hl Hnow (Some [])) as Hhd.
  pose proof (installed_loads (nd_store n) (nd_disk n) _ _ Hb Hid Hl Hnow (Some [])) as Hld.
  split; [|split_and!; try done; by eexists]. split; [|done].
  apply (Build_logged _ _ _ _ (st_last (nd_store n))); cbn [st_id st_last nd_store nd_disk
    set_journal dk_journal]; try done; change (zlen []) with 0; lia.
Qed.

Lemma append_all_state ios rs n : nd_state (append_all ios rs n).1 = nd_state n ∧
  nd_config (append_all ios rs n).1 = nd_config n.
Proof. by destruct (append_all_journal ios rs n) as (s & d & v & ->). Qed.

(** The sequence of the registry is the journal's. *)
Definition in_step (n : Node) : Prop := rs_sequence (nd_state n) = st_last (nd_store n).

(** Records appended to a node that carries its state, after an operation that
    did what they say: a record the state refused would have put it out of step. *)
Lemma appended_carries ios rs n n1 n2 st w now : carries n → is_u64 now → Forall (stamped now) rs →
  nd_config n1 = nd_config n → nd_store n1 = nd_store n → nd_disk n1 = nd_disk n →
  nd_state n1 = w_state w → w_out w = rs →
  journaled (nd_state n) w ∨ wedged (nd_state n) w ∧ in_step n2 →
  append_all ios rs n1 = (n2, st) → is_ok st = true → st_last (nd_store n2) < u64_max → carries n2.
Proof.
  intros [base qs covers from Hh (Hi1 & Hi2 & Hi3) Hsq Hl Hc (s1 & Hv & Hd)] Hs Hst Ec Es Ed En Ew
    Hj E Hok Hmax.
  assert (Hh' : holds n1 base qs) by (unfold holds in *; by rewrite Es, Ed).
  destruct (append_all_holds now Hs _ _ _ _ _ _ _ Hh' Hst E Hok) as (Hh2 & Hcr & Hsn & Hid).
  assert (H : journaled (nd_state n) w).
  { destruct Hj as [|[(s2 & r0 & Hv2 & Eq & Hbad & Hd2) Hin]]; [done|]. exfalso.
    rewrite Es in Hcr. destruct (visit_fixed rs (nd_state n) s2) as [Hq _];
      [by rewrite Hsq|by rewrite <-Ew|].
    destruct Hh2 as ([cov2 _ _ _ _ Hb0 _ Hb2 _] & _), Hh as ([cov1 _ _ _ _ _ _ Hb _] & _).
    rewrite zlen_app in Hb2. pose proof (zlen_nonneg qs). pose proof (zlen_nonneg rs).
    pose proof (refused_moves r0 s2 Eq ltac:(lia) Hbad) as Hm.
    rewrite (sequence_proper _ _ Hd2) in Hm. unfold in_step in Hin.
    pose proof (append_all_state ios rs n1) as [Hns _]. rewrite E in Hns. cbn [fst] in Hns.
    rewrite Hns, En in Hin. lia. }
  destruct H as (s2 & Hv2 & Hd2).
  pose proof (append_all_state ios rs n1) as [Hns Hnc]. rewrite E in Hns, Hnc. cbn [fst] in Hns, Hnc.
  assert (Econf : nd_config n2 = nd_config n) by congruence.
  destruct (visit_related alike apply rs through_apply s1 (nd_state n) Hd) as [Hr1 Hr2].
  rewrite <-Ew, Hv2 in Hr1, Hr2. cbn [fst snd] in Hr1, Hr2. rewrite Ew in Hr1, Hr2.
  rewrite Es in Hcr.
  destruct (visit_fixed rs (nd_state n) s2) as [Hq Hi]; [by rewrite Hsq|by rewrite <-Ew|].
  assert (Efix : fixed (nd_state n2) = fixed s2).
  { rewrite Hns, En. unfold fixed. clear -Hd2. by same_states s2 (w_state w). }
  injection Efix as Ei Eq. pose proof Hh2 as ([_ _ _ _ _ _ _ Hb2 _] & _).
  pose proof Hh as ([_ _ _ _ _ _ _ Hb _] & _). rewrite zlen_app in Hb2.
  apply (Build_carries _ base (qs ++ rs) covers from); rewrite ?Econf, ?Hid, ?Es; try done.
  - split; [done|]. split; [done|]. by rewrite Ei, Hi.
  - rewrite Eq, Hq, Hsq. lia.
  - intros f Hf. destruct (Hl f Hf) as (s0 & cv & E0 & Hcv). exists s0, cv. split; [|done].
    rewrite <-E0. apply load_state_disk. by rewrite Hsn, Ed.
  - pose proof (zlen_nonneg rs). lia.
  - exists (visit_all apply rs s1).1. rewrite visit_all_app, Hv.
    cbn [is_ok outcome status_ok]. rewrite (visit_past covers rs (st_last (nd_store n))) by done.
    split; [|rewrite Hr1, Hns, En; by apply same_durable_alike].
    destruct (visit_all apply rs s1) as [x stx]. cbn [fst snd] in *. by subst stx.
Qed.

(** A checkpoint re-founds the directory on the current state. *)
Lemma checkpoint_carries io n n' st : carries n → Snapshot.durable (nd_state n) →
  checkpoint io n = (n', st) → is_ok st = true → st_last (nd_store n') < u64_max → carries n'.
Proof.
  intros [base qs covers from Hh (Hi1 & Hi2 & Hi3) Hsq Hl Hc Hr] Hdur E Hok Hmax.
  assert (Hnow : is_u64 (clock_now (rs_clock (nd_state n)))).
  { pose proof (Snapshot.du_words _ Hdur) as Hw. open_wf. done. }
  destruct (checkpoint_holds _ _ _ _ _ _ Hh Hi2 Hnow E Hok Hmax)
    as (Hh' & Es & Ec & Eid & El & h & Hload & Hcv).
  apply (Build_carries _ (st_last (nd_store n)) [] (st_last (nd_store n)) (nd_state n));
    rewrite ?Es, ?Ec, ?Eid, ?El; try done.
  - intros f Hf. assert (Hf' : fabric_words (rs_fabric (blank (nd_config n) f))).
    { unfold blank, initialise. repeat (case_match; try exact Hf). }
    destruct (checkpoint_restores (nd_state n) (blank (nd_config n) f) Hdur Hf')
      as (s' & Ed & Hres & _).
    exists s', (Some (st_last (nd_store n))). split; [|split; [done|]].
    + unfold load_state. rewrite Hload, Ed. cbn [negb is_ok outcome status_ok].
      rewrite (rd_store _ _ Hres), Hi3, eqb_refl. cbn [negb]. by rewrite Hcv.
    + destruct Hres as [R1 R2 R3 R4 R5 R6 R7 R8 R9 R10 R11 R12 R13 R14 R15 R16 _].
      unfold alike, seen, bare_fences, bare_lineage.
      by rewrite R1, R3, R4, R5, R7, R8, R9, R10, R11, R12, R13, R14, R15, R16.
  - exists (nd_state n). done.
Qed.

(** ** Transitions *)

Lemma clock_advances n : (advance_clock n).2 = true → is_u64 (now_of (advance_clock n).1).
Proof.
  unfold advance_clock, clock_advance. destruct (_ <? _); [done|]. intros _. apply u64_is.
Qed.

Lemma carries_clock n c : carries n → carries (set_registry (set_clock c (nd_state n)) (nd_fabric n) n).
Proof.
  intros [base qs covers from Hh Hi Hsq Hl Hc (s1 & Hv & Hd)].
  apply (Build_carries _ base qs covers from); try done.
  exists s1. split; [done|]. etrans; [exact Hd|]. cbn [nd_state set_registry]. by destruct (nd_state n).
Qed.

(** A checkpoint writes down only what its format can hold. *)
Definition checkpointable (n : Node) : Prop :=
  nd_since_checkpoint n ≠ 0 ∨ Snapshot.durable (nd_state n).

Lemma checkpoint_keeps io n n' st : checkpoint io n = (n', st) → is_ok st = true →
  nd_since_checkpoint n' = 0 ∧ nd_state n' = nd_state n ∧ st_last (nd_store n') = st_last (nd_store n).
Proof.
  unfold checkpoint, store_checkpoint. rewrite Z.eqb_refl. cbn [negb]. cbv zeta.
  generalize (serialize (nd_state n)). intros blob.
  destruct (negb (st_open (nd_store n))); [by intros [= _ <-]|].
  destruct (kMaxSnapshotBytes <? zlen blob); [by intros [= _ <-]|]. unfold atomic_write_file.
  destruct (ck_snapshot io) as [fl|]; [by intros [= _ <-]|]. cbn [is_ok outcome status_ok negb].
  destruct (ck_flush io) as [fl|]; [by intros [= _ <-]|].
  destruct (ck_rotate io) as [fl|]; [by intros [= _ <-]|]. cbn [is_ok outcome status_ok negb].
  destruct (ck_reopen io) as [fl|]; [by intros [= _ <-]|]. cbn [is_ok outcome status_ok negb].
  by intros [= <- <-] _.
Qed.

(** Appending what an operation wrote, and perhaps checkpointing. *)
Lemma records_carry ca rs n n1 n2 st w now : carries n → is_u64 now → Forall (stamped now) rs →
  nd_config n1 = nd_config n → nd_store n1 = nd_store n → nd_disk n1 = nd_disk n →
  nd_state n1 = w_state w → w_out w = rs →
  journaled (nd_state n) w ∨ wedged (nd_state n) w ∧ in_step n2 →
  append_records ca rs n1 = (n2, st) → is_ok st = true →
  st_last (nd_store n2) < u64_max → checkpointable n2 → carries n2.
Proof.
  intros Hn Hnow Hst Ec Es Ed En Ew Hj E Hok Hmax Hdur. unfold append_records in E.
  destruct (append_all (ca_appends ca) rs n1) as [n3 st3] eqn:Ea.
  destruct (is_ok st3) eqn:E3; cbn [negb] in E; [|injection E as _ <-; congruence].
  destruct (_ <=? _).
  - destruct (checkpoint_keeps _ _ _ _ E Hok) as (Z0 & Es2 & El2). unfold in_step in Hj.
    rewrite Es2, El2 in Hj. rewrite El2 in Hmax.
    assert (H3 : carries n3).
    { exact (appended_carries _ _ _ _ _ _ _ _ Hn Hnow Hst Ec Es Ed En Ew Hj Ea E3 Hmax). }
    destruct Hdur as [|Hdur]; [done|]. rewrite Es2 in Hdur.
    eapply checkpoint_carries; [done..|by rewrite El2].
  - injection E as <- _. exact (appended_carries _ _ _ _ _ _ _ _ Hn Hnow Hst Ec Es Ed En Ew Hj Ea E3 Hmax).
Qed.

(** The clock advances, an operation is answered, its records are appended. *)
Lemma operation_carries {A} ca (m : M A) n n1 n2 n3 rs r st : carries n →
  advance_clock n = (n1, true) → stamps (now_of n1) m →
  (∀ w w', w_state w = nd_state n1 → w_out w = [] → m w = (w', r) → after (nd_state n1) w' r) →
  match r with Ret _ => True | Err _ => in_step n3 end → operate m n1 = (n2, rs, r) → append_records ca rs n2 = (n3, st) → is_ok st = true →
  st_last (nd_store n3) < u64_max → checkpointable n3 → carries n3.
Proof.
  intros Hn Ec Hst Hj Hin Eo Ea Hok Hmax Hdur.
  assert (Hc : carries n1 ∧ is_u64 (now_of n1)).
  { pose proof (clock_advances n) as H. rewrite Ec in H. split; [|by apply H].
    unfold advance_clock in Ec. destruct (clock_advance _ _) as [c ok].
    injection Ec as <- ->. by apply carries_clock. }
  destruct Hc as [Hc Hnow]. unfold operate in Eo. set (w := mkWorld _ _ _) in *.
  destruct (Hst w) as (qs & Eq & Hqs). destruct (m w) as [w' r'] eqn:Em. cbn [fst] in Eq.
  injection Eo as E2 <- ->. unfold w in Eq. cbn [w_out app] in Eq.
  apply (records_carry ca (w_out w') n1 n2 n3 st w' (now_of n1)); try done; try (by subst n2).
  - by rewrite Eq.
  - specialize (Hj w w' eq_refl eq_refl Em). destruct r; [by left|]. destruct Hj; auto.
Qed.

Lemma journaled_here w : w_out w = [] → journaled (w_state w) w.
Proof. intros E. exists (w_state w). by rewrite E. Qed.

(** One operation answered, its records appended: it succeeded, or it was refused
    with the registry still in step with its journal - no record was refused. *)
Inductive acknowledges (n n' : Node) : Prop :=
  | acknowledges_operation {A} ca (m : Step → M A) r : handled m →
      transition ca m n = (n', Ret r) → match r with Ret _ => True | Err _ => in_step n' end →
      fits n' → checkpointable n' → acknowledges n n'.

Lemma acknowledges_carries n n' : acknowledges n n' → carries n → carries n'.
Proof.
  intros [A ca m r Hm E Hin [Hmax _] Hdur] Hn. unfold transition in E.
  destruct (advance_clock n) as [n1 ok] eqn:Ec. destruct ok; cbn [negb] in E; [|done].
  destruct (operate _ n1) as [[n2 rs] r'] eqn:Eo.
  destruct (append_records ca rs n2) as [n3 st] eqn:Ea. destruct (is_ok st) eqn:Ok; cbn [negb] in E;
    [|done]. injection E as -> ->.
  apply (operation_carries ca (m (now_of n1)) n n1 n2 n' rs r st); try done.
  - by apply handled_stamps.
  - intros w w' Ew Ew2 Em. apply (handled_tracks m (now_of n1) Hm _ w); [|exact Em].
    rewrite <-Ew. by apply journaled_here.
Qed.

(** Refusals are not successes. *)
Definition refuses {A} (m : M A) : Prop := ∀ w st, (m w).2 = Err st → is_ok st = false.

Lemma refuses_bind {A B} (m : M A) (k : A → M B) :
  refuses m → (∀ x, refuses (k x)) → refuses (m ≫= k).
Proof.
  intros Hm Hk w st. unfold mbind, m_bind. specialize (Hm w st).
  destruct (m w) as [w1 [x|e]]; cbn [snd] in *; [apply Hk|intros [= <-]; by apply Hm].
Qed.

Lemma refuses_for_each {A} (l : list A) f : (∀ x, refuses (f x)) → refuses (for_each l f).
Proof. intros Hf. induction l as [|x l IH]; cbn [for_each]; [done|]. by apply refuses_bind. Qed.

Lemma refuses_emit kind payload status now : refuses (emit kind payload status now).
Proof.
  intros w st. unfold emit. destruct (apply _ _) as [s st1]. destruct (is_ok st1) eqn:E; [done|].
  cbn [negb snd]. by intros [= <-].
Qed.

Lemma refuses_recover now : refuses (recover_after_restart now).
Proof.
  assert (Hr : ∀ c st, is_ok st = false → refuses (refuse_if c st)).
  { intros [] st Hst w st'; [|done]. cbn. by intros [= <-]. }
  assert (Hf : ∀ d sc e i g c b, refuses (fence_scope d sc e i g c b now)).
  { intros. unfold fence_scope. apply refuses_bind; [done|]. intros s.
    apply refuses_bind; [by apply Hr|]. intros _. cbv zeta.
    apply refuses_bind; [apply refuses_emit|done]. }
  unfold recover_after_restart. apply refuses_bind; [done|]. intros s0. apply refuses_bind.
  { apply refuses_for_each. intros b. unfold end_open_boot. destruct (is_set _); [done|].
    apply refuses_emit. }
  intros _. apply refuses_bind; [done|]. intros s1. apply refuses_bind.
  { apply refuses_for_each. intros g. unfold interrupt_grant, close_grant.
    apply refuses_bind; [apply Hf|]. intros _. apply refuses_bind; [apply refuses_emit|]. intros _.
    apply refuses_bind; [|done]. apply refuses_bind; [done|]. intros s. apply refuses_emit. }
  intros _. apply refuses_bind; [done|]. intros s2. apply refuses_bind; [by apply Hr|]. intros _.
  cbv zeta. apply refuses_bind; [done|]. intros _. apply refuses_emit.
Qed.

(** The restart's records. *)
Lemma restart_carries ca n n' st : carries n → restart ca n = (n', st) → is_ok st = true →
  is_u64 (rs_incarnations (nd_state n)) → st_last (nd_store n') < u64_max → checkpointable n' →
  carries n'.
Proof.
  intros Hn E Hok Hu Hmax Hdur. unfold restart in E.
  destruct (advance_clock n) as [n1 ok] eqn:Ec.
  destruct ok; cbn [negb] in E; [|injection E as _ <-; done].
  destruct (operate _ n1) as [[n2 rs] [u|st1]] eqn:Eo.
  - apply (operation_carries ca (recover_after_restart (now_of n1)) n n1 n2 n' rs (Ret u) st); try done.
    + apply stamps_recover.
    + intros w w' Ew Ew2 Em. eapply tracks_recover; [|rewrite <-Ew; by apply journaled_here|exact Em].
      rewrite Ew. unfold advance_clock in Ec. destruct (clock_advance _ _) as [c ok].
      by injection Ec as <- _.
  - injection E as _ ->. exfalso. revert Eo. unfold operate.
    pose proof (refuses_recover (now_of n1) (mkWorld (nd_state n1) []
      (default [] (fd_log (nd_fabric n1)))) st) as H.
    destruct (recover_after_restart _ _) as [w r]. intros [= _ _ ->]. cbn [snd] in H.
    rewrite H in Hok; done.
Qed.

(** ** Opening again *)

(** What a crash leaves past the last complete record: nothing, or a part of one. *)
Definition torn (tl : bytes) : Prop :=
  tl = [] ∨ ∃ p k, framable p ∧ tl = take k (frame p) ∧ (0 < k < length (frame p))%nat.

Lemma scan_torn_tail {A} (on_record : bytes → A → A * Status) tl off acc : torn tl →
  scan_from on_record off tl acc = (acc, off, if decide (tl = []) then CleanEnd else TornAt (zlen tl)).
Proof.
  intros [->|(p & k & Hp & -> & Hk)]; [by rewrite scan_nil|]. rewrite scan_torn by done.
  assert (Hlen : length (take k (frame p)) = k) by (rewrite length_take; lia).
  destruct (decide _) as [E0|_]; [rewrite E0 in Hlen; simpl in Hlen; lia|].
  unfold zlen. by rewrite Hlen.
Qed.

(** The directory of a node that crashed while appending [tl]. *)
Definition crashed (n : Node) (tl : bytes) : Disk :=
  mkDisk (dk_header (nd_disk n)) (dk_snapshot (nd_disk n))
    (Some (default [] (dk_journal (nd_disk n)) ++ tl)).

(** Counters above everything the tables show. *)
Definition counters_above (s : RegistryState) : Prop :=
  Forall (λ e, es_token e <= rs_tokens s) (ft_extents (rs_fences s)) ∧
  Forall (λ f, fr_token f <= rs_tokens s) (ft_records (rs_fences s)) ∧
  Forall (λ g, eg_token g <= rs_tokens s ∧ eg_id g <= rs_grants s) (lt_grants (rs_lineage s)).

Lemma raise_all_elem {A} (f : A → Z) l : ∀ v x, x ∈ l → f x <= raise_all f l v.
Proof.
  induction l as [|y l IH]; intros v x; [by intros ?%elem_of_nil|].
  intros [->|Hx]%elem_of_cons; [|by apply IH]. unfold raise_all. cbn [foldl].
  etrans; [|apply raise_all_ge]. rewrite raise_max. lia.
Qed.

Lemma raise_all_elem_le {A} (f : A → Z) l v w x : x ∈ l → raise_all f l v <= w → f x <= w.
Proof. intros Hx Hw. etrans; [by apply raise_all_elem|done]. Qed.

(** What is rebuilt of a state that looks like a well-formed one. *)
Lemma rebuild_alike s t : Snapshot.durable s → alike s t →
  ∃ t', rebuild t = (t', status_ok) ∧ alike s t' ∧ counters_above t'.
Proof.
  intros Hs E. pose proof (du_inv _ Hs) as Hi. destruct (du_policy _ Hs) as [_ Hpol].
  destruct (ri_fences _ Hi) as ((Hsort & Hok) & _).
  assert (Hv1 : is_ok (fence_validate (rs_fences t)) = true).
  { assert (Ee : ft_extents (rs_fences t) = ft_extents (rs_fences s)) by by alike_states s t.
    unfold fence_validate. rewrite Ee. apply validate_extents_ok.
    split; [|by apply StronglySorted_Sorted]. eapply Forall_impl; [exact Hok|].
    intros x [? ?]. split; [done|lia]. }
  assert (Hv2 : is_ok (lineage_validate (rs_lineage t)) = true).
  { assert (Eg : lt_grants (rs_lineage t) = lt_grants (rs_lineage s)) by by alike_states s t.
    apply validate_iff; rewrite Eg; [|apply (ri_lineage _ Hi)].
    eapply Forall_impl; [apply (ri_grants _ Hi)|]. intros g [(_ & _ & _ & Hw) _].
    open_wf. unfold is_u64 in *. lia. }
  assert (Hp : policy_validate (rs_policy t) = status_ok).
  { assert (rs_policy t = rs_policy s) as -> by by alike_states s t. done. }
  assert (Hb : Forall (λ b, br_incarnation b <= rs_incarnations t) (lt_boots (rs_lineage t))).
  { destruct (du_boots _ Hs) as (_ & _ & H). by alike_states s t. }
  assert (Hm : Forall (λ m, im_incarnation m <= rs_incarnations t) (rs_interrupts t)).
  { destruct (du_interrupts _ Hs) as [_ H].
    assert (H' : Forall (λ m, im_incarnation m <= rs_incarnations s) (rs_interrupts s))
      by (eapply Forall_impl; [exact H|]; by intros m [_ ?]).
    clear H. by alike_states s t. }
  unfold rebuild. rewrite Hv1, Hv2, Hp. cbn [negb]. cbv zeta.
  rewrite (raise_all_le br_incarnation), (raise_all_le im_incarnation) by done.
  eexists. split; [reflexivity|]. split; [etrans; [exact E|]; by destruct t|].
  set (tokens := raise_all mr_token _ _). set (grants := raise_all mr_grant _ _).
  unfold counters_above. cbn [rs_tokens rs_grants rs_fences rs_lineage set_incarnations set_grants set_tokens].
  repeat split.
  - apply Forall_forall. intros e He. eapply raise_all_elem_le; [exact He|].
    unfold tokens. do 4 (etrans; [|apply raise_all_ge]). done.
  - apply Forall_forall. intros e He. eapply raise_all_elem_le; [exact He|].
    unfold tokens. do 2 (etrans; [|apply raise_all_ge]). done.
  - apply Forall_forall. intros e He. split; (eapply raise_all_elem_le; [exact He|]).
    + unfold tokens. do 3 (etrans; [|apply raise_all_ge]). done.
    + unfold grants. etrans; [|apply raise_all_ge]. done.
Qed.

Lemma store_open_id io id options d d' s report :
  store_open io id options d = (d', Ret (s, report)) → st_id s = id.
Proof. unfold store_open. repeat case_match; try done. by intros [= _ <- _]. Qed.

(** Recovery over the files of a node that carries its state. *)
Lemma crashed_recovers n tl f options : carries n → fits n → Snapshot.durable (nd_state n) → torn tl →
  journal_size n + zlen tl <= kMaxFabricStoreBytes → fabric_words f → so_allow_torn options = true →
  ∃ store report d s cv,
    store_open open_done (rc_store_id (nd_config n)) options (crashed n tl) = (d, Ret (store, report)) ∧
    d = crashed n [] ∧ st_last store = st_last (nd_store n) ∧
    recover_state (nd_config n) d (blank (nd_config n) f) = (s, Ret cv) ∧
    alike (nd_state n) s ∧ counters_above s ∧
    ∀ fabric since rec phase stop a b c sessions next,
      carries (mkNode (nd_config n) store d fabric s sessions next since rec phase stop a b c).
Proof.
  intros Hn [Hmax Hroom] Hs Htl Hfit Hf Hopt.
  destruct Hn as [base qs covers from (Hd & Ho) (Hi1 & Hi2 & Hi3) Hsq Hl Hc (s1 & Hv & Ha)].
  pose proof Hd as [cov Hhd Hj Hcont Hwf Hbc Hcov Hlast Hbound].
  destruct (open_recovers options (rc_store_id (nd_config n)) (crashed n tl) cov base qs tl)
    as (store & report & Eo & Hd' & _ & Hop & Hlst); try done.
  - rewrite <-Hi1. by apply headed_journal.
  - lia.
  - cbn [crashed dk_journal]. by rewrite Hj.
  - rewrite zlen_app. unfold journal_size in Hfit. rewrite Hj in Hfit. exact Hfit.
  - by left.
  - intros off acc. by apply scan_torn_tail.
  - assert (Ed : mkDisk (dk_header (crashed n tl)) (dk_snapshot (crashed n tl))
        (Some (log_of (encode_record <$> qs))) = crashed n []).
    { unfold crashed. cbn [dk_header dk_snapshot]. rewrite Hj. cbn [default from_option].
      unfold id. by rewrite app_nil_r. }
    cbv zeta in Eo. rewrite Ed in Eo. clear Hd'.
    assert (Hst : st_last store = st_last (nd_store n)) by lia.
    assert (Hj0 : dk_journal (crashed n []) = Some (log_of (encode_record <$> qs))).
    { cbn [crashed dk_journal]. rewrite Hj. cbn [default from_option]. unfold id. by rewrite app_nil_r. }
    destruct (Hl f Hf) as (s0 & cv & Eload & Hcv & H0).
    destruct (visit_related alike (replay_visitor covers) qs (through_visitor covers) from s0 H0)
      as [Hr1 Hr2]. rewrite Hv in Hr1, Hr2. cbn [fst snd] in Hr1, Hr2.
    destruct (visit_all (replay_visitor covers) qs s0) as [s2 st2] eqn:Ev. cbn [fst snd] in Hr1, Hr2.
    subst st2. assert (Ha2 : alike (nd_state n) s2) by (rewrite <-Ha; exact Hr1).
    destruct (rebuild_alike _ _ Hs Ha2) as (s3 & Er & Ha3 & Hca).
    exists store, report, (crashed n []), s3, cv. split; [exact Eo|]. split; [done|].
    split; [exact Hst|]. split; [|split; [done|]; split; [done|]].
    + unfold recover_state.
      rewrite (load_state_disk _ (nd_disk n) (crashed n [])), Eload, Hcv by done.
      rewrite (replay_exact _ (crashed n []) qs); [by rewrite Ev, Er|exact Hj0|done|].
      unfold journal_size in Hroom. by rewrite Hj in Hroom.
    + intros fabric since rec phase stop a b c sessions next.
      apply (Build_carries _ base qs covers from); cbn [nd_store nd_disk nd_config nd_state].
      * split; [|done]. cbn [nd_store nd_disk].
        apply (Build_logged _ _ _ _ cov); try done; [|by rewrite Hst|by rewrite Hst].
        rewrite (store_open_id _ _ _ _ _ _ _ Eo), <-Hi1. by apply headed_journal.
      * rewrite (store_open_id _ _ _ _ _ _ _ Eo), <-Hi1. split; [done|]. split; [done|].
        rewrite Hi1, <-Hi3. by alike_states (nd_state n) s3.
      * rewrite Hst, <-Hsq. by alike_states (nd_state n) s3.
      * intros f' Hf'. destruct (Hl f' Hf') as (t0 & cv' & E' & ?). exists t0, cv'. split; [|done].
        rewrite <-E'. by apply load_state_disk.
      * by rewrite Hst.
      * exists s1. split; [done|]. etrans; [exact Ha|exact Ha3].
Qed.

(** ** The effect log read back *)

Definition effect_words (m : MutationRecord) : Prop := is_u64 (mr_token m) ∧ is_u64 (mr_grant m).

Lemma mutation_words r m r' : r_mutation r = Ret (m, r') → effect_words m.
Proof.
  unfold r_mutation, r_counter.
  repeat lazymatch goal with
  | |- match ?d ?r with Ret _ => _ | Err _ => _ end = _ → _ =>
      let E := fresh "E" in destruct (d r) as [[? ?]|] eqn:E; [|done]
  | |- (if ?c then _ else _) = _ → _ => destruct c; [done|]
  end.
  intros [= <- _]. split; cbn [mr_token mr_grant]; by eapply r_u64_word.
Qed.

Lemma mutation_all_words payload m : decode_all r_mutation payload = Ret m → effect_words m.
Proof.
  unfold decode_all. destruct (r_mutation _) as [[x r]|] eqn:E; [|done].
  destruct (finish r); [|done]. intros [= <-]. by eapply mutation_words.
Qed.

(** What every accepted record keeps, the loop keeps. *)
Lemma scan_keeps {A} (on_record : bytes → A → A * Status) (P : A → Prop) fuel : ∀ off rest acc,
  (∀ p a, P a → P (on_record p a).1) → P acc → P (scan_log on_record fuel off rest acc).1.1.
Proof.
  induction fuel as [|fuel IH]; intros off rest acc Hp Ha; [done|]. cbn [scan_log].
  destruct rest; [done|]. destruct (_ <? _); [done|]. destruct (_ || _); [done|].
  destruct (_ <? _); [done|]. destruct (negb _); [done|].
  match goal with |- context [on_record ?p acc] => specialize (Hp p acc Ha) as H1;
    destruct (on_record p acc) as [acc' st] end.
  cbn [fst] in H1. destruct (negb _); [done|]. by apply IH.
Qed.

Lemma fabric_open_words io id options report d d' f report' :
  fabric_open io id options report d = (d', Ret (f, report')) → fabric_words f.
Proof.
  unfold fabric_open. destruct (id_empty id); [done|]. destruct (oi_directory io); [done|].
  destruct (open_header _ _ _ _) as [h [created|]]; [|done].
  destruct (fabric_recover _ _ _ _) as [log [[a tn]|]] eqn:E; [|done].
  destruct (oi_journal io); [done|]. intros [= _ <- _].
  split; cbn [fb_records fb_fences ft_extents fence_table0]; [|constructor].
  enough (H : Forall effect_words (fs_records a)).
  { unfold retain. destruct (_ <? _); [by apply Forall_drop|done]. }
  revert E. unfold fabric_recover. destruct (fd_log d) as [l|]; [|intros [= _ <- _]; constructor].
  destruct (read_file_bounded _ _) as [data|]; [|done].
  unfold scan. set (start := mkFabricScan _ _ _ _ _ _ _).
  pose proof (scan_keeps fabric_step (λ a, Forall effect_words (fs_records a)) (S (length data)) 0
    data start) as Hk.
  destruct (scan_log _ _ _ _ _) as [[a1 g] e]. cbn [fst] in Hk.
  assert (Ha : Forall effect_words (fs_records a1)).
  { apply Hk; [|constructor]. intros p x Hx. unfold fabric_step.
    destruct (decode_all r_mutation p) as [m|] eqn:Em; [|done]. destruct (negb _); [done|].
    cbn [fst fs_records]. apply Forall_app. split; [done|]. apply Forall_singleton.
    by eapply mutation_all_words. }
  destruct e; repeat case_match; intros [= _ E2]; try done; by simplify_eq.
Qed.

(** ** [open], whole *)

Lemma carries_parts n n' : carries n → nd_config n' = nd_config n → nd_store n' = nd_store n →
  nd_disk n' = nd_disk n → nd_state n' = nd_state n → carries n'.
Proof.
  intros [base qs covers from Hh Hi Hsq Hl Hc Hr] E1 E2 E3 E4.
  apply (Build_carries _ base qs covers from); unfold holds in *; rewrite ?E1, ?E2, ?E3, ?E4; done.
Qed.

(** A directory from which a service with configuration [config] recovers. *)
Definition recoverable (config : RegistryConfig) (d0 : Disk) : Prop :=
  ∃ store report d, store_open open_done (rc_store_id config) service_options d0 =
      (d, Ret (store, report)) ∧
    ∀ f s, fabric_words f → initialise (set_fabric f registry0) config (mkStepClock 0)
      (mkBoot 0 0 (rc_node config) 0 0 false false 0) = (s, status_ok) →
    ∃ s' cv, recover_state config d s = (s', Ret cv) ∧ is_u64 (rs_incarnations s') ∧
      ∀ n, nd_config n = config → nd_store n = store → nd_disk n = d → nd_state n = s' → carries n.

Lemma initialise_status s config clock boot s' st : initialise s config clock boot = (s', st) →
  is_ok st = true → st = status_ok.
Proof.
  unfold initialise. destruct (_ || _); [by intros [= _ <-]|].
  destruct (is_ok (policy_validate _)) eqn:E; cbn [negb]; [|intros [= _ <-]; congruence].
  destruct (_ || _); by intros [= _ <-].
Qed.

(** The service that opens over it carries its state again. *)
Lemma open_carries oc config m0 m st : recoverable config (nd_disk m0) → nd_state m0 = registry0 →
  oc_store oc = open_done → nd_phase m0 = Uninitialised →
  service_open oc config m0 = (m, st) → is_ok st = true → nd_phase m = Ready →
  st_last (nd_store m) < u64_max → checkpointable m → carries m.
Proof.
  intros (store & report & d & Eo & Hrec) E0 Eio Ep E Hok Hready Hmax Hdur. unfold service_open in E.
  destruct (is_ok (oc_net oc)) eqn:E1; cbn [negb] in E; [|injection E as _ <-; congruence].
  destruct (is_ok (oc_directory oc)) eqn:E2; cbn [negb] in E; [|injection E as _ <-; congruence].
  rewrite Eio in E. cbn [nd_disk set_config] in E. rewrite Eo in E.
  cbn [nd_fabric set_config set_recovery set_journal] in E.
  destruct (fabric_open _ _ _ _ _) as [f [[fabric rep]|st1]] eqn:Ef.
  2: { injection E as <- _. cbn in Hready. congruence. }
  pose proof (fabric_open_words _ _ _ _ _ _ _ _ Ef) as Hw.
  cbn [nd_state set_config set_recovery set_journal] in E. rewrite E0 in E.
  destruct (initialise _ _ _ _) as [s st2] eqn:Ei. destruct (is_ok st2) eqn:E3; cbn [negb] in E;
    [|injection E as _ <-; congruence].
  rewrite (initialise_status _ _ _ _ _ _ Ei E3) in Ei.
  destruct (Hrec fabric s Hw Ei) as (s' & cv & Er & Hu & Hc).
  cbn [nd_disk set_recovery set_journal set_config] in E. rewrite Er in E.
  destruct (restart _ _) as [n1 st3] eqn:Es. destruct (is_ok st3) eqn:E4; cbn [negb] in E;
    [|injection E as _ <-; congruence].
  injection E as <- <-. eapply restart_carries in Es; [|by apply Hc|done|exact Hu|exact Hmax|exact Hdur].
  by apply (carries_parts n1).
Qed.

(** What a crash leaves is such a directory. *)
Lemma crashed_recoverable n tl : carries n → fits n → Snapshot.durable (nd_state n) → torn tl →
  journal_size n + zlen tl <= kMaxFabricStoreBytes → recoverable (nd_config n) (crashed n tl).
Proof.
  intros Hn Hf Hs Ht Hfit.
  destruct (crashed_recovers n tl fabric0 service_options Hn Hf Hs Ht Hfit) as
    (store & report & d & _ & _ & Eo & Ed & _ & _); [by split|done|].
  exists store, report, d. split; [exact Eo|]. intros f s Hw Ei.
  destruct (crashed_recovers n tl f service_options Hn Hf Hs Ht Hfit Hw eq_refl) as
    (store' & report' & d' & s' & cv & Eo' & _ & _ & Er & Ha & _ & Hc).
  rewrite Eo in Eo'. injection Eo' as <- <- <-.
  exists s', cv. split; [|split].
  - rewrite <-Er. unfold blank. by rewrite Ei.
  - pose proof (ri_words _ (du_inv _ Hs)) as Hws. open_wf. by alike_states (nd_state n) s'.
  - intros n1 E1 E2 E3 E4. destruct n1. cbn in E1, E2, E3, E4. subst. apply Hc.
Qed.

Lemma store_open_snapshot io id options d d' r :
  store_open io id options d = (d', Ret r) → dk_snapshot d' = dk_snapshot d.
Proof.
  unfold store_open. destruct (id_empty id); [done|]. destruct (oi_directory io); [done|].
  destruct (open_header _ _ _ _) as [h [created|]] eqn:Eh; [|done].
  assert (Hs : dk_snapshot h = dk_snapshot d).
  { revert Eh. unfold open_header. destruct (dk_header d); [by intros [= <- _]|].
    destruct (negb _); [done|]. destruct (atomic_write_file _ _ _) as [? ?]. by intros [= <- _]. }
  destruct (open_snapshot _ _); [|done]. destruct (open_journal _ _ _ _) as [j [[? ?]|]]; [|done].
  destruct (oi_journal io); [done|]. by intros [= <- _].
Qed.

Lemma policy_ok_status p : is_ok (policy_validate p) = true → policy_validate p = status_ok.
Proof.
  unfold policy_validate, profile_validate. cbv zeta.
  set (st := validate_slots _ _ _). destruct (is_ok st) eqn:E; cbn [negb].
  - repeat match goal with |- context [if ?c then _ else _] =>
      lazymatch c with is_ok _ => fail | _ => destruct c end end; done.
  - repeat match goal with |- context [if ?c then _ else _] =>
      lazymatch c with is_ok _ => fail | _ => destruct c end end; done || (intros H; congruence).
Qed.

(** So is an empty one. *)
Lemma empty_recoverable config : id_valid (rc_store_id config) → recoverable config no_disk.
Proof.
  intros Hid. destruct (fresh_open (rc_store_id config) service_options Hid) as
    (d & store & report & Eo & Hd & Hl & Hi & Hop); [done..|].
  pose proof (store_open_snapshot _ _ _ _ _ _ Eo) as Hsn. cbn [dk_snapshot no_disk] in Hsn.
  exists store, report, d. split; [exact Eo|]. intros f s Hw Ei.
  destruct Hd as [covers Hh Hj _ _ _ Hb Hlast Hbound]. change (zlen []) with 0 in Hlast.
  assert (Hcov : covers = 0) by lia. subst covers.
  assert (Hload : ∀ t, load_state config d t = (t, Ret None)).
  { intros t. unfold load_state, load_snapshot. by rewrite Hsn. }
  assert (Hs : rs_incarnations s = 0 ∧ rs_sequence s = 0 ∧ rs_store_id s = rc_store_id config ∧
    lt_boots (rs_lineage s) = [] ∧ rs_interrupts s = [] ∧ rs_fences s = fence_table0 ∧
    rs_lineage s = lineage0 ∧ policy_validate (rs_policy s) = status_ok).
  { revert Ei. unfold initialise. destruct (_ || _); [done|].
    destruct (is_ok (policy_validate _)) eqn:Ep; cbn [negb]; [|by intros [= _ E]; rewrite E in Ep].
    destruct (_ || _); [done|]. intros [= <-]. cbn. split_and!; try done. by apply policy_ok_status. }
  destruct Hs as (S1 & S2 & S3 & S4 & S5 & S6 & S7 & S8).
  assert (Er : ∃ s', rebuild s = (s', status_ok) ∧ alike s s' ∧ rs_incarnations s' = 0).
  { unfold rebuild. rewrite S8. cbv zeta. rewrite S6, S7, S5.
    eexists. split; [reflexivity|]. split; [by destruct s|]. exact S1. }
  destruct Er as (s' & Er & Ha & Hin). exists s', None. split; [|split; [rewrite Hin; apply zero_u64|]].
  - unfold recover_state. rewrite Hload. cbn [default from_option].
    rewrite (replay_exact _ d []) by (first [exact Hj|done]).
    cbn [visit_all]. change (is_ok status_ok) with true. cbn [negb]. by rewrite Er.
  - intros n E1 E2 E3 E4. apply (Build_carries _ 0 [] 0 s); unfold holds; rewrite ?E1, ?E2, ?E3, ?E4.
    + split; [|done]. apply (Build_logged _ _ _ _ 0); try done; unfold u64_max in *; lia || done.
    + rewrite Hi. split; [done|]. split; [done|]. rewrite <-S3. by alike_states s s'.
    + rewrite Hl, <-S2. by alike_states s s'.
    + intros f' _. eexists _, None. split; [apply Hload|]. split; [done|].
      unfold blank. revert Ei. unfold initialise. destruct (_ || _); [done|].
      destruct (is_ok (policy_validate _)) eqn:Ep; cbn [negb]; [|by intros [= _ E]; rewrite E in Ep].
      destruct (_ || _); [done|]. by intros [= <-].
    + lia.
    + exists s. by split.
Qed.

Lemma append_records_config ca rs n : nd_config (append_records ca rs n).1 = nd_config n.
Proof. by destruct (append_records_journal ca rs n) as (s & d & v & ->). Qed.

Lemma advance_clock_config n : nd_config (advance_clock n).1 = nd_config n.
Proof. unfold advance_clock. by destruct (clock_advance _ _). Qed.

Lemma transition_config {A} ca (m : Step → M A) n : nd_config (transition ca m n).1 = nd_config n.
Proof.
  unfold transition. pose proof (advance_clock_config n) as Hc.
  destruct (advance_clock n) as [n1 ok]. cbn [fst] in Hc. destruct ok; cbn [negb]; [|done].
  destruct (operate _ n1) as [[n2 rs] r] eqn:Eo.
  destruct (operate_registry _ _ _ _ _ Eo) as (_ & _ & _ & _ & Ec & _).
  pose proof (append_records_config ca rs n2) as Ha. destruct (append_records _ _ _) as [n3 st].
  cbn [fst] in Ha. destruct (negb _); cbn [fst]; congruence.
Qed.

Lemma restart_config ca n : nd_config (restart ca n).1 = nd_config n.
Proof.
  unfold restart. pose proof (advance_clock_config n) as Hc.
  destruct (advance_clock n) as [n1 ok]. cbn [fst] in Hc. destruct ok; cbn [negb]; [|done].
  destruct (operate _ n1) as [[n2 rs] r] eqn:Eo.
  destruct (operate_registry _ _ _ _ _ Eo) as (_ & _ & _ & _ & Ec & _).
  destruct r as [u|st]; [|cbn [fst]; congruence]. rewrite append_records_config. congruence.
Qed.

Lemma service_open_config oc config m0 m st : service_open oc config m0 = (m, st) →
  nd_phase m0 = Uninitialised → nd_phase m = Ready → is_ok st = true → nd_config m = config.
Proof.
  unfold service_open. destruct (is_ok (oc_net oc)) eqn:E1; cbn [negb]; [|intros [= _ <-]; congruence].
  destruct (is_ok (oc_directory oc)); cbn [negb]; [|by intros [= <- _]].
  destruct (store_open _ _ _ _) as [d [[store report]|]]; [|by intros [= <- _]].
  cbn [nd_fabric set_config set_recovery set_journal].
  destruct (fabric_open _ _ _ _ _) as [f [[fabric rep]|]]; [|by intros [= <- _]].
  destruct (initialise _ _ _ _) as [s st2]. destruct (is_ok st2); cbn [negb]; [|by intros [= <- _]].
  destruct (recover_state _ _ _) as [s1 [cv|]]; [|by intros [= <- _]].
  match goal with |- context [restart ?ca ?n] => pose proof (restart_config ca n) as Hr;
    destruct (restart ca n) as [n1 st3] end. cbn [fst] in Hr.
  destruct (is_ok st3); cbn [negb]; by intros [= <- _].
Qed.

(** ** The life of a service *)

(** Opened and ready: the fields of a new service object, the files [d0]. *)
Definition opens (config : RegistryConfig) (d0 : Disk) (m : Node) : Prop :=
  ∃ oc m0, nd_state m0 = registry0 ∧ nd_phase m0 = Uninitialised ∧ nd_disk m0 = d0 ∧
    oc_store oc = open_done ∧ service_open oc config m0 = (m, status_ok) ∧ nd_phase m = Ready.

(** Born in an empty directory; deciding and answering, refusals included; its
    sessions, its counters and the files of its effects changing; dying while a
    record is written, and opened again over what is left.  A record or checkpoint
    that could not be written ends the life: the service answers no more. *)
Inductive lives (config : RegistryConfig) : Node → Prop :=
  | lives_born m : opens config no_disk m → fits m → checkpointable m → lives config m
  | lives_decides n : lives config n → lives config (advance_clock n).1
  | lives_acknowledges n n' : lives config n → acknowledges n n' → lives config n'
  | lives_elsewhere n n' : lives config n → nd_config n' = nd_config n → nd_store n' = nd_store n →
      nd_disk n' = nd_disk n → nd_state n' = nd_state n → lives config n'
  | lives_again n tl m : lives config n → Snapshot.durable (nd_state n) → torn tl →
      journal_size n + zlen tl <= kMaxFabricStoreBytes → opens config (crashed n tl) m →
      fits m → checkpointable m → lives config m.

Lemma opens_carries config d0 m : recoverable config d0 → opens config d0 m → fits m →
  checkpointable m → carries m ∧ fits m ∧ nd_config m = config.
Proof.
  intros Hr (oc & m0 & E0 & Ep & <- & Eio & E & Hready) Hf Hc. split; [|split; [done|]].
  - by eapply open_carries; [exact Hr|exact E0|exact Eio|exact Ep|exact E| |exact Hready|apply Hf|].
  - by eapply service_open_config.
Qed.

Lemma lives_carries config n : id_valid (rc_store_id config) → lives config n →
  carries n ∧ fits n ∧ nd_config n = config.
Proof.
  intros Hid. induction 1 as [m Ho Hf Hc|n _ (Hn & Hf & Hc)|n n' _ (Hn & Hf & Hc) Ha|
    n n' _ (Hn & Hf & Hc) E1 E2 E3 E4|n tl m _ (Hn & Hf & Hc) Hs Ht Hfit Ho Hfm Hcm].
  - by apply (opens_carries config no_disk); [apply empty_recoverable|..].
  - unfold advance_clock. destruct (clock_advance _ _) as [c ok]. split; [|done].
    by apply carries_clock.
  - split; [by eapply acknowledges_carries|]. destruct Ha as [A ca m r _ E _ Hf' _]. split; [done|].
    pose proof (transition_config ca m n) as H. rewrite E in H. cbn [fst] in H. congruence.
  - split; [by apply (carries_parts n)|]. unfold fits, journal_size in *. rewrite E1, E2, E3. done.
  - eapply opens_carries; [|exact Ho|done|done]. rewrite <-Hc. by apply crashed_recoverable.
Qed.

Module Recoveries.


(** ** A domain defined, then a crash *)

Definition new_node : Node :=
  mkNode Registries.demo_config (mkStore [] false 0 0 false) no_disk (mkFabricDisk None None)
    registry0 [] 0 0 (mkReport false false false 0 0 0 0) Uninitialised false 0 0 0.
Definition first_domain : DomainDefinition := Registries.demo_domain "d" Decisions.demo_scope.
Definition defined := transition calls_done (define_domain first_domain) Serving.demo_node.
Definition defined_node : Node := defined.1.
Definition defined_state : RegistryState := nd_state defined_node.
Definition first_state : RegistryState :=
  (initialise (set_fabric (rs_fabric (nd_state Serving.demo_node)) registry0) Registries.demo_config
     (mkStepClock 0) Registries.demo_boot).1.

Lemma crash_facts :
  nd_phase Serving.demo_node = Ready ∧ nd_since_checkpoint Serving.demo_node = 1 ∧
  st_last (nd_store Serving.demo_node) = 1 ∧ journal_size Serving.demo_node = 90 ∧
  defined.2 = Ret (Ret tt) ∧ nd_since_checkpoint defined_node = 2 ∧
  st_last (nd_store defined_node) = 2 ∧ journal_size defined_node = 161 ∧
  rs_config first_state = Registries.demo_config.
Proof. vm_compute. repeat split. Qed.

Lemma opened_status : (service_open open_calls_done Registries.demo_config new_node).2 = status_ok.
Proof. by vm_compute. Qed.

Lemma first_status :
  (initialise (set_fabric (rs_fabric (nd_state Serving.demo_node)) registry0)
     Registries.demo_config (mkStepClock 0) Registries.demo_boot).2 = status_ok.
Proof. by vm_compute. Qed.

Lemma demo_node_state : nd_state Serving.demo_node =
  w_state (recover_after_restart 1 (mkWorld (set_clock (mkStepClock 1) first_state) [] [])).1.
Proof. by vm_compute. Qed.

Lemma defined_node_state : nd_state defined_node = w_state (define_domain first_domain 2
  (mkWorld (set_clock (mkStepClock 2) (nd_state Serving.demo_node)) [] [])).1.
Proof. by vm_compute. Qed.

Lemma state_facts :
  rs_store_id defined_state = str "store" ∧ clock_now (rs_clock defined_state) = 2 ∧
  rs_last_step defined_state = 2 ∧ rs_sequence defined_state = 2 ∧
  rs_generation defined_state = 3 ∧ rs_commits defined_state = 0 ∧
  rs_boot defined_state = mkBoot 1 1 (str "node") 1 0 false false 1 ∧
  rs_policy defined_state = Decisions.demo_policy ∧ rs_domains defined_state = [first_domain] ∧
  ft_extents (rs_fences defined_state) = [] ∧ ft_records (rs_fences defined_state) = [] ∧
  lt_grants (rs_lineage defined_state) = [] ∧
  lt_boots (rs_lineage defined_state) = [mkBoot 1 1 (str "node") 1 0 false false 1] ∧
  rs_idempotency defined_state = [] ∧ rs_interrupts defined_state = [] ∧
  rs_incarnations defined_state = 1.
Proof. vm_compute. repeat split. Qed.

Lemma defined_def :
  transition calls_done (define_domain first_domain) Serving.demo_node = (defined_node, defined.2).
Proof. unfold defined_node, defined. apply surjective_pairing. Qed.

Lemma node_def : service_open open_calls_done Registries.demo_config new_node =
  (Serving.demo_node, (service_open open_calls_done Registries.demo_config new_node).2).
Proof. unfold Serving.demo_node, new_node. apply surjective_pairing. Qed.

Lemma state_def : nd_state defined_node = defined_state.
Proof. unfold defined_state. exact eq_refl. Qed.

Lemma first_def : initialise (set_fabric (rs_fabric (nd_state Serving.demo_node)) registry0)
    Registries.demo_config (mkStepClock 0) Registries.demo_boot = (first_state, status_ok).
Proof. rewrite <-first_status. unfold first_state. apply surjective_pairing. Qed.

#[local] Opaque Serving.demo_node defined defined_node defined_state first_state.

Lemma clock_core c s : same_core s (set_clock c s).
Proof. by split_and!. Qed.

Lemma defined_inv : registry_inv defined_state.
Proof.
  rewrite <-state_def, defined_node_state.
  assert (H0 : registry_inv first_state).
  { eapply (initial_inv _ Registries.demo_config); [apply Registries.demo_policy_wf| |exact first_def].
    done. }
  assert (Hc : rs_config first_state = Registries.demo_config).
  { by destruct crash_facts as (_ & _ & _ & _ & _ & _ & _ & _ & E). }
  apply (op_step_progress (mkWorld (set_clock (mkStepClock 2) (nd_state Serving.demo_node)) [] [])).
  - apply op_domain, Registries.demo_domain_good; left.
  - apply (same_core_inv (nd_state Serving.demo_node)); [apply clock_core|]. rewrite demo_node_state.
    apply (op_step_progress (mkWorld (set_clock (mkStepClock 1) first_state) [] [])).
    + apply op_recover; [unfold is_u64; lia|]. cbn [w_state set_clock rs_config]. rewrite Hc. by vm_compute.
    + apply (same_core_inv first_state); [apply clock_core|exact H0].
Qed.
Lemma defined_durable : Snapshot.durable defined_state.
Proof.
  pose proof defined_inv as Hi.
  destruct state_facts as (Es & Ec & El & Eq & Eg & Ek & Eb & Ep & Ed & Ee & Er & Eu & Et & Ei & Em & En).
  split; rewrite ?Ec, ?El, ?Eq, ?Eg, ?Ek, ?Eb, ?Ep, ?Ed, ?Ee, ?Er, ?Et, ?Ei, ?Em, ?En, ?Es, ?Eu;
    clear Ec El Eq Eg Ek Eb Ep Ed Ee Er Et Ei Em En Es Eu.
  - exact Hi.
  - by vm_compute.
  - exact (Registries.demo_words [2; 2; 2; 3; 0] eq_refl).
  - discriminate.
  - discriminate.
  - split; [by vm_compute|]. exact (Registries.demo_words [1; 1; 1; 0; 1] eq_refl).
  - exact (conj Registries.demo_policy_wf eq_refl).
  - discriminate.
  - constructor.
  - split; [discriminate|constructor].
  - constructor.
  - split; [discriminate|]. split; [reflexivity|]. by apply Forall_singleton.
  - split; [discriminate|constructor].
  - split; [discriminate|constructor].
Qed.

(** The service answers the definition, then dies five bytes into its next record. *)
Definition cut : bytes := take 5 (frame (str "record")).

Lemma cut_torn : torn cut.
Proof.
  right. exists (str "record"), 5%nat. split; [by vm_compute|]. split; [reflexivity|].
  vm_compute. lia.
Qed.

Lemma defined_lives : lives Registries.demo_config defined_node.
Proof.
  destruct crash_facts as (F1 & F2 & F3 & F4 & F5 & F6 & F7 & F8 & _).
  apply (lives_acknowledges _ Serving.demo_node).
  - apply lives_born.
    + exists open_calls_done, new_node. do 4 (split; [reflexivity|]). split; [|exact F1].
      etransitivity; [exact node_def|]. rewrite opened_status. reflexivity.
    + split; [rewrite F3|rewrite F4]; by vm_compute.
    + left. rewrite F2. discriminate.
  - eapply (acknowledges_operation _ _ calls_done); [apply (handled_define first_domain)| | | |].
    + etransitivity; [exact defined_def|]. rewrite F5. reflexivity.
    + exact I.
    + split; [rewrite F7|rewrite F8]; by vm_compute.
    + left. rewrite F6. discriminate.
Qed.

End Recoveries.
