(* ===== verification/Selection.v ===== *)
(** * Authority plan selection

    Models the planner of [include/sbf/arbiter.hpp] and [src/selection.cpp]: the
    branch-and-bound search for a largest set of candidates that may hold
    authority together, its exhaustive reference, the greedy heuristic and the
    validator every plan passes.  A selection is a list of candidate indices in
    ascending preference rank; the search recurses over the part of the
    preference order not yet visited, so [position] is what the list has lost. *)
From S2P Require Import Prelude Order SortedVec Status Ids Text Digest Canonical Scope.
From S2P Require Import Fence Lineage Evidence Arbiter.
Open Scope Z_scope.

Inductive SelectionOutcome : Set :=
  | ProvenOptimal | ProvenInfeasible | SearchLimitReached | Indeterminate | PlanRejected.

Definition selection_to_string (o : SelectionOutcome) : bytes :=
  str match o with
      | ProvenOptimal => "PROVEN_OPTIMAL" | ProvenInfeasible => "PROVEN_INFEASIBLE"
      | SearchLimitReached => "SEARCH_LIMIT_REACHED" | Indeterminate => "INDETERMINATE"
      | PlanRejected => "INVALID"
      end.

Record AuthorityPlan := mkPlan {
  pl_outcome : SelectionOutcome;
  pl_status : Status;
  pl_authorized : list AuthorityDecision;
  pl_refused : list ClaimId;
  pl_must_fence : list ClaimId;
  pl_nodes : Z;
  pl_proven : bool;
  pl_validated : bool
}.

(** [preference_less]: higher epoch, then higher token, then domain, then claim. *)
Definition preference_less (a b : AuthorityRequest) : bool :=
  if negb (rq_epoch a =? rq_epoch b) then rq_epoch b <? rq_epoch a
  else if negb (rq_token a =? rq_token b) then rq_token b <? rq_token a
  else if negb (eqb (rq_domain a) (rq_domain b)) then ltb (rq_domain a) (rq_domain b)
  else ltb (rq_claim a) (rq_claim b).

Definition exclusive_overlap (a b : AuthorityRequest) : bool :=
  if negb (is_exclusive (rq_mode a)) || negb (is_exclusive (rq_mode b)) then false
  else overlaps (rq_scope a) (rq_scope b).

(** ** The search *)

(** What [prepare] computes from the candidates: one entry per candidate, the
    candidates by preference, and the place of each in that order. *)
Record SearchSpace := mkSpace {
  sp_legal : list bool;
  sp_conflict : list (list bool);
  sp_order : list nat;
  sp_rank : list nat
}.

Definition legal_at (sp : SearchSpace) (i : nat) : bool := nth i (sp_legal sp) false.
Definition conflict_at (sp : SearchSpace) (i j : nat) : bool :=
  nth j (nth i (sp_conflict sp) []) false.
Definition rank_at (sp : SearchSpace) (i : nat) : nat := nth i (sp_rank sp) 0%nat.

(** The first rank that differs decides. *)
Fixpoint earlier (rank : nat → nat) (candidate incumbent : list nat) : bool :=
  match candidate, incumbent with
  | x :: candidate, y :: incumbent =>
      if (rank x =? rank y)%nat then earlier rank candidate incumbent else (rank x <? rank y)%nat
  | _, _ => false
  end.

Definition better_selection (rank : nat → nat) (candidate incumbent : list nat) : bool :=
  if negb (length candidate =? length incumbent)%nat
  then (length incumbent <? length candidate)%nat
  else earlier rank candidate incumbent.

Record Progress := mkProgress { pg_nodes : Z; pg_exhausted : bool; pg_best : list nat }.

(** Legal, and in conflict with nothing taken. *)
Definition compatible (sp : SearchSpace) (candidate : nat) (chosen : list nat) : bool :=
  legal_at sp candidate && forallb (λ taken, negb (conflict_at sp candidate taken)) chosen.

Fixpoint search (sp : SearchSpace) (budget : Z) (rest chosen : list nat) (p : Progress) : Progress :=
  if pg_exhausted p then p
  else
    let nodes := u64 (pg_nodes p + 1) in
    if budget <? nodes then mkProgress nodes true (pg_best p)
    else
      match rest with
      | [] =>
          mkProgress nodes false
            (if better_selection (rank_at sp) chosen (pg_best p) then chosen else pg_best p)
      | candidate :: later =>
          let p := mkProgress nodes false (pg_best p) in
          let p :=
            if (length (pg_best p) <=? length chosen + length rest)%nat
            then if compatible sp candidate chosen
                 then search sp budget later (chosen ++ [candidate]) p else p
            else p in
          search sp budget later chosen p
      end.

(** ** [prepare] *)

(** [rank_of[order[rank]] = rank], for every rank. *)
Fixpoint fill_ranks (rank : nat) (order : list nat) (v : list nat) : list nat :=
  match order with
  | [] => v
  | i :: order => fill_ranks (S rank) order (<[i := rank]> v)
  end.

Definition isolated (view : ArbiterView) : ArbiterView :=
  mkView (vw_policy view) (vw_fences view) (vw_lineage view) (vw_now view) (vw_registry_gen view)
    (vw_domain_gen view) [] (vw_floors view).

(** The entry of the conflict matrix for candidates [i] and [j]. *)
Definition conflicts (candidates : list AuthorityRequest) (i j : nat) : bool :=
  if (i =? j)%nat then false
  else
    match candidates !! (i `min` j)%nat, candidates !! (i `max` j)%nat with
    | Some a, Some b => exclusive_overlap a b
    | _, _ => false
    end.

Definition preferred (candidates : list AuthorityRequest) (i j : nat) : bool :=
  match candidates !! i, candidates !! j with
  | Some a, Some b => preference_less a b
  | _, _ => false
  end.

Definition prepare (candidates : list AuthorityRequest) (view : ArbiterView)
  : SearchSpace * list AuthorityDecision :=
  let n := length candidates in
  let order := sort_by (preferred candidates) (seq 0 n) in
  let decisions := map (λ r, decide_authority r (isolated view)) candidates in
  (mkSpace (map is_authoritative decisions)
     (map (λ i, map (conflicts candidates i) (seq 0 n)) (seq 0 n))
     order (fill_ranks 0 order (replicate n 0%nat)),
   decisions).

(** ** [build_plan] *)

Definition plan_status (o : SelectionOutcome) (nodes : Z) : Status :=
  match o with
  | ProvenOptimal => status_ok
  | ProvenInfeasible => mkStatus Outcome.Ok Reason.ProvenInfeasible 0
  | SearchLimitReached => mkStatus Outcome.SearchLimitReached Reason.SearchLimitReached nodes
  | Indeterminate => mkStatus Outcome.Indeterminate Reason.NoCertificate nodes
  | PlanRejected => mkStatus Outcome.Invalid Reason.PlanInvalid nodes
  end.

(** Claims to fence, each once, in the order the decisions name them. *)
Definition collect (claims : list ClaimId) (more : list ClaimId) : list ClaimId :=
  foldl (λ l c, if existsb (eqb c) l then l else l ++ [c]) claims more.

Definition build_plan (candidates : list AuthorityRequest) (decisions : list AuthorityDecision)
    (selected : list nat) (o : SelectionOutcome) (nodes : Z) (proven : bool) : AuthorityPlan :=
  let authorized := omap (λ i, decisions !! i) selected in
  let refused :=
    omap (λ i, rq_claim <$> candidates !! i)
      (List.filter (λ i, negb (existsb (Nat.eqb i) selected)) (seq 0 (length candidates))) in
  mkPlan o (plan_status o nodes) authorized (sort_by ltb refused)
    (sort_by ltb (foldl (λ l d, collect l (ad_must_fence d)) [] authorized))
    nodes proven false.

(** ** [validate_plan] *)

(** The candidate a decision names, decided again. *)
Definition recheck (candidates : list AuthorityRequest) (view : ArbiterView)
    (d : AuthorityDecision) : result AuthorityRequest :=
  match List.find (λ c, eqb (rq_claim c) (ad_claim d)) candidates with
  | None => Err (fail0 Outcome.Invalid Reason.PlanInvalid)
  | Some c =>
      let again := decide_authority c (isolated view) in
      if negb (is_authoritative again)
      then Err (mkStatus Outcome.Invalid Reason.PlanInvalid (aux (ad_status again)))
      else if negb (eqb (decision_digest again) (decision_digest d))
      then Err (fail0 Outcome.Corrupt Reason.InternalInvariantViolation)
      else Ret c
  end.

Fixpoint recheck_all (candidates : list AuthorityRequest) (view : ArbiterView)
    (ds : list AuthorityDecision) : result (list AuthorityRequest) :=
  match ds with
  | [] => Ret []
  | d :: ds =>
      match recheck candidates view d with
      | Err st => Err st
      | Ret c =>
          match recheck_all candidates view ds with
          | Err st => Err st
          | Ret cs => Ret (c :: cs)
          end
      end
  end.

(** The first pair that overlaps: the place of its second member. *)
Fixpoint overlap_after (a : AuthorityRequest) (l : list AuthorityRequest) (j : Z) : option Z :=
  match l with
  | [] => None
  | b :: l => if exclusive_overlap a b then Some j else overlap_after a l (j + 1)
  end.

Fixpoint first_overlap (l : list AuthorityRequest) (i : Z) : option Z :=
  match l with
  | [] => None
  | a :: l =>
      match overlap_after a l (i + 1) with Some j => Some j | None => first_overlap l (i + 1) end
  end.

Definition validate_plan (plan : AuthorityPlan) (candidates : list AuthorityRequest)
    (view : ArbiterView) : Status :=
  match recheck_all candidates view (pl_authorized plan) with
  | Err st => st
  | Ret selected =>
      match first_overlap selected 0 with
      | Some j => mkStatus Outcome.Conflict Reason.OverlappingExclusiveClaim j
      | None => status_ok
      end
  end.

(** ** The entry points *)

Definition effective_budget (budget : Z) : Z := if budget =? 0 then kMaxSearchNodes else budget.

(** The outcome of a search, by whether it completed and found anything. *)
Definition search_outcome (complete : bool) (best : list nat) : SelectionOutcome :=
  match complete, best with
  | true, [] => ProvenInfeasible
  | true, _ => ProvenOptimal
  | false, [] => Indeterminate
  | false, _ => SearchLimitReached
  end.

(** [plan.status.aux = nodes], then the plan's own validation. *)
Definition validated (plan : AuthorityPlan) (candidates : list AuthorityRequest)
    (view : ArbiterView) : AuthorityPlan :=
  mkPlan (pl_outcome plan)
    (mkStatus (outcome (pl_status plan)) (reason (pl_status plan)) (pl_nodes plan))
    (pl_authorized plan) (pl_refused plan) (pl_must_fence plan) (pl_nodes plan) (pl_proven plan)
    (is_ok (validate_plan plan candidates view)).

Definition select_authority_set (candidates : list AuthorityRequest) (view : ArbiterView)
    (budget : Z) : AuthorityPlan :=
  match candidates with
  | [] => mkPlan ProvenInfeasible (mkStatus Outcome.Ok Reason.ProvenInfeasible 0) [] [] [] 0 true true
  | _ =>
      if kMaxCompetingClaims <? zlen candidates
      then mkPlan PlanRejected
             (mkStatus Outcome.Exhausted Reason.BoundedTableFull (zlen candidates)) [] [] [] 0
             false false
      else
        let (sp, decisions) := prepare candidates view in
        let p := search sp (effective_budget budget) (sp_order sp) [] (mkProgress 0 false []) in
        let complete := negb (pg_exhausted p) in
        let plan :=
          validated
            (build_plan candidates decisions (pg_best p) (search_outcome complete (pg_best p))
               (pg_nodes p) complete) candidates view in
        if pl_validated plan then plan
        else
          mkPlan PlanRejected
            (mkStatus Outcome.Corrupt Reason.InternalInvariantViolation (pg_nodes p)) []
            (pl_refused plan) (pl_must_fence plan) (pl_nodes plan) false false
  end.

(** *** The exhaustive reference *)

(** The candidates of a mask, refused at the first that is illegal or in
    conflict with one already taken. *)
Fixpoint subset_of (sp : SearchSpace) (mask : Z) (indices : list nat) (selection : list nat)
  : option (list nat) :=
  match indices with
  | [] => Some selection
  | i :: indices =>
      if Z.testbit mask (Z.of_nat i)
      then if compatible sp i selection then subset_of sp mask indices (selection ++ [i]) else None
      else subset_of sp mask indices selection
  end.

Definition by_rank (sp : SearchSpace) (l : list nat) : list nat :=
  sort_by (λ a b, (rank_at sp a <? rank_at sp b)%nat) l.

(** One turn of the loop over the masks; nothing more is done once the budget is
    exhausted. *)
Definition reference_turn (sp : SearchSpace) (n : nat) (budget : Z) (x : Z * Progress)
  : Z * Progress :=
  let '(mask, p) := x in
  if pg_exhausted p then x
  else
    let nodes := u64 (pg_nodes p + 1) in
    if budget <? nodes then (mask, mkProgress nodes true (pg_best p))
    else
      (mask + 1,
       mkProgress nodes false
         match subset_of sp mask (seq 0 n) [] with
         | None => pg_best p
         | Some l =>
             let selection := by_rank sp l in
             if better_selection (rank_at sp) selection (pg_best p) then selection else pg_best p
         end).

(** [f] applied [2^k] times. *)
Fixpoint iterate2 {A} (k : nat) (f : A → A) (x : A) : A :=
  match k with O => f x | S k => iterate2 k f (iterate2 k f x) end.

Definition reference_search (sp : SearchSpace) (n : nat) (budget : Z) : Progress :=
  (iterate2 n (reference_turn sp n budget) (0, mkProgress 0 false [])).2.

Definition select_authority_set_reference (candidates : list AuthorityRequest)
    (view : ArbiterView) (budget : Z) : AuthorityPlan :=
  if 24 <? zlen candidates
  then mkPlan PlanRejected
         (mkStatus Outcome.Exhausted Reason.BoundedTableFull (zlen candidates)) [] [] [] 0 false false
  else
    let (sp, decisions) := prepare candidates view in
    let p := reference_search sp (length candidates) (effective_budget budget) in
    let complete := negb (pg_exhausted p) in
    validated
      (build_plan candidates decisions (pg_best p) (search_outcome complete (pg_best p))
         (pg_nodes p) complete) candidates view.

(** *** The greedy heuristic *)

Fixpoint greedy (sp : SearchSpace) (order chosen : list nat) : list nat :=
  match order with
  | [] => chosen
  | i :: order => greedy sp order (if compatible sp i chosen then chosen ++ [i] else chosen)
  end.

Definition select_authority_set_greedy (candidates : list AuthorityRequest) (view : ArbiterView)
  : list ClaimId * list AuthorityDecision :=
  let (sp, decisions) := prepare candidates view in
  let chosen := greedy sp (sp_order sp) [] in
  (omap (λ i, rq_claim <$> candidates !! i) chosen, omap (λ i, decisions !! i) chosen).

(** ** The preference between selections *)

Section preference.
Context (rank : nat → nat).

(** [l] is no better than [k]. *)
Definition no_better (l k : list nat) : Prop := better_selection rank l k = false.

Lemma earlier_refl l : earlier rank l l = false.
Proof. induction l as [|x l IH]; simpl; [done|]. by rewrite Nat.eqb_refl. Qed.

Lemma earlier_trans a : ∀ b c, length a = length b → length b = length c →
  earlier rank a b = false → earlier rank b c = false → earlier rank a c = false.
Proof.
  induction a as [|x a IH]; intros [|y b] [|z c]; simpl; try done. intros [= Hab] [= Hbc].
  destruct (Nat.eqb_spec (rank x) (rank y)), (Nat.eqb_spec (rank y) (rank z)),
    (Nat.eqb_spec (rank x) (rank z)); try lia; rewrite ?Nat.ltb_ge; try lia. by apply IH.
Qed.

Lemma earlier_total a : ∀ b, length a = length b → earlier rank a b = false →
  earlier rank b a = false → rank <$> a = rank <$> b.
Proof.
  induction a as [|x a IH]; intros [|y b]; simpl; try done. intros [= Hab].
  rewrite (Nat.eqb_sym (rank y)). destruct (Nat.eqb_spec (rank x) (rank y)) as [->|];
    [intros; f_equal; by apply IH|]. rewrite !Nat.ltb_ge. lia.
Qed.

Lemma no_better_refl l : no_better l l.
Proof. unfold no_better, better_selection. rewrite Nat.eqb_refl. apply earlier_refl. Qed.

Lemma no_better_length l k : no_better l k → (length l <= length k)%nat.
Proof.
  unfold no_better, better_selection. destruct (Nat.eqb_spec (length l) (length k)); simpl; [lia|].
  rewrite Nat.ltb_ge. lia.
Qed.

Lemma shorter_no_better l k : (length l < length k)%nat → no_better l k.
Proof.
  intros H. unfold no_better, better_selection. rewrite (proj2 (Nat.eqb_neq _ _)) by lia. simpl.
  rewrite Nat.ltb_ge. lia.
Qed.

Lemma no_better_trans a b c : no_better a b → no_better b c → no_better a c.
Proof.
  intros H1 H2. pose proof (no_better_length _ _ H1). pose proof (no_better_length _ _ H2).
  destruct (decide (length a = length b ∧ length b = length c)) as [[E1 E2]|].
  2: { apply shorter_no_better. lia. }
  unfold no_better, better_selection in *. rewrite (proj2 (Nat.eqb_eq _ _) E1) in H1.
  rewrite (proj2 (Nat.eqb_eq _ _) E2) in H2. rewrite (proj2 (Nat.eqb_eq _ _)) by congruence.
  by apply (earlier_trans a b c).
Qed.

Lemma no_better_antisym a b : no_better a b → no_better b a → rank <$> a = rank <$> b.
Proof.
  intros H1 H2. pose proof (no_better_length _ _ H1). pose proof (no_better_length _ _ H2).
  unfold no_better, better_selection in *. rewrite (proj2 (Nat.eqb_eq _ _)) in H1 by lia.
  rewrite (proj2 (Nat.eqb_eq _ _)) in H2 by lia. apply earlier_total; [lia|done..].
Qed.

(** Keeping the better of two. *)
Lemma better_keeps l k :
  let best := if better_selection rank l k then l else k in no_better k best ∧ no_better l best.
Proof.
  simpl. destruct (better_selection rank l k) eqn:E; [|split; [apply no_better_refl|done]].
  split; [|apply no_better_refl]. unfold no_better, better_selection in *.
  rewrite (Nat.eqb_sym (length k)). destruct (Nat.eqb_spec (length l) (length k)) as [El|]; simpl in *.
  2: { rewrite Nat.ltb_ge. apply Nat.ltb_lt in E. lia. }
  revert k El E. induction l as [|x l IH]; intros [|y k]; simpl; try done. intros [= El].
  rewrite (Nat.eqb_sym (rank y)). destruct (rank x =? rank y)%nat; [by apply IH|].
  rewrite Nat.ltb_lt, Nat.ltb_ge. lia.
Qed.
End preference.

(** ** The search finds a selection nothing is better than *)

Section searching.
Context (sp : SearchSpace).

(** Candidates taken one by one, each compatible with those before it. *)
Fixpoint grows (chosen more : list nat) : bool :=
  match more with
  | [] => true
  | i :: more => compatible sp i chosen && grows (chosen ++ [i]) more
  end.

Lemma grows_app chosen l k : grows chosen (l ++ k) = grows chosen l && grows (chosen ++ l) k.
Proof.
  revert chosen. induction l as [|i l IH]; intros chosen; simpl; [by rewrite app_nil_r|].
  by rewrite IH, <-andb_assoc, <-app_assoc.
Qed.

Notation nb := (no_better (rank_at sp)).

Lemma search_exhausted budget rest chosen p : pg_exhausted p = true →
  search sp budget rest chosen p = p.
Proof. destruct rest; simpl; by intros ->. Qed.

(** Never worse than before; what it holds was found; and, unless the budget ran
    out, nothing it could have taken is better. *)
Lemma search_spec budget rest : ∀ chosen p, let p' := search sp budget rest chosen p in
  nb (pg_best p) (pg_best p') ∧
  (pg_best p' = pg_best p ∨
   ∃ l, l `sublist_of` rest ∧ grows chosen l = true ∧ pg_best p' = chosen ++ l) ∧
  (pg_exhausted p' = false → ∀ l, l `sublist_of` rest → grows chosen l = true →
     nb (chosen ++ l) (pg_best p')).
Proof.
  induction rest as [|i rest IH]; intros chosen p; cbv zeta; simpl;
    (destruct (pg_exhausted p) eqn:Ex; [split; [apply no_better_refl|split; [by left|congruence]]|]);
    destruct (budget <? _); cbn [pg_best pg_exhausted];
    try (split; [apply no_better_refl|split; [by left|done]]).
  - destruct (better_keeps (rank_at sp) chosen (pg_best p)) as [H1 H2]. split; [done|]. split.
    + destruct (better_selection _ _ _); [right|by left]. exists []. by rewrite app_nil_r.
    + intros _ l Hl _. apply sublist_nil_r in Hl as ->. by rewrite app_nil_r.
  - set (p0 := mkProgress (u64 (pg_nodes p + 1)) false (pg_best p)).
    set (p1 := if (_ <=? _)%nat then _ else p0).
    assert (Hp1 : nb (pg_best p) (pg_best p1) ∧
      (pg_best p1 = pg_best p ∨ ∃ l, l `sublist_of` rest ∧ compatible sp i chosen = true ∧
         grows (chosen ++ [i]) l = true ∧ pg_best p1 = chosen ++ i :: l) ∧
      (pg_exhausted p1 = false → compatible sp i chosen = true → ∀ l, l `sublist_of` rest →
         grows (chosen ++ [i]) l = true → nb (chosen ++ i :: l) (pg_best p1))).
    { unfold p1. destruct (Nat.leb_spec (length (pg_best p)) (length chosen + S (length rest))).
      - destruct (compatible sp i chosen) eqn:Ec.
        + destruct (IH (chosen ++ [i]) p0) as (H1 & H2 & H3). split; [exact H1|]. split.
          * destruct H2 as [H2|(l & Hl & Hg & E)]; [by left|right]. exists l.
            by rewrite <-app_assoc in E.
          * intros He _ l Hl Hg. specialize (H3 He l Hl Hg). by rewrite <-app_assoc in H3.
        + split; [apply no_better_refl|]. split; [by left|done].
      - split; [apply no_better_refl|]. split; [by left|]. intros _ _ l Hl _.
        apply shorter_no_better. rewrite length_app. simpl. apply sublist_length in Hl. lia. }
    destruct Hp1 as (A1 & A2 & A3), (IH chosen p1) as (B1 & B2 & B3). split; [|split].
    + by eapply no_better_trans.
    + destruct B2 as [->|(l & Hl & Hg & E)].
      * destruct A2 as [->|(l & Hl & Hc & Hg & E)]; [by left|right]. exists (i :: l).
        split; [by apply sublist_skip|]. simpl. by rewrite Hc, Hg.
      * right. exists l. split; [by apply sublist_cons|done].
    + intros He l Hl Hg. apply sublist_cons_r in Hl as [Hl|(l' & -> & Hl)]; [by apply B3|].
      apply andb_true_iff in Hg as [Hc Hg].
      destruct (pg_exhausted p1) eqn:E1; [by rewrite search_exhausted, E1 in He|].
      eapply no_better_trans; [|exact B1]. by apply A3.
Qed.
End searching.

(** ** How long the search takes *)

Lemma search_nodes sp budget rest : budget <= u64_max → ∀ chosen p, pg_exhausted p = false →
  0 <= pg_nodes p → pg_nodes p + 2 ^ (zlen rest + 1) - 1 <= budget →
  let p' := search sp budget rest chosen p in
  pg_exhausted p' = false ∧ pg_nodes p <= pg_nodes p' <= pg_nodes p + 2 ^ (zlen rest + 1) - 1.
Proof.
  intros Hb. induction rest as [|i rest IH]; intros chosen p Ex Hp Hn; cbv zeta; simpl; rewrite Ex.
  - change (zlen [] + 1) with 1 in *. rewrite u64_id by (unfold is_u64, u64_max in *; lia).
    rewrite (proj2 (Z.ltb_ge _ _)) by lia. cbn. split; [done|lia].
  - rewrite zlen_cons in *. pose proof (zlen_nonneg rest).
    assert (E : 2 ^ (1 + zlen rest + 1) = 2 * 2 ^ (zlen rest + 1)).
    { replace (1 + zlen rest + 1) with (Z.succ (zlen rest + 1)) by lia. apply Z.pow_succ_r. lia. }
    assert (0 < 2 ^ (zlen rest + 1)) by (apply Z.pow_pos_nonneg; lia). rewrite E in *.
    rewrite u64_id by (unfold is_u64, u64_max in *; lia).
    rewrite (proj2 (Z.ltb_ge _ _)) by lia. set (p0 := mkProgress (pg_nodes p + 1) false (pg_best p)).
    set (p1 := if (_ <=? _)%nat then _ else p0).
    assert (H1 : pg_exhausted p1 = false ∧
      pg_nodes p0 <= pg_nodes p1 <= pg_nodes p0 + 2 ^ (zlen rest + 1) - 1).
    { unfold p1. destruct (_ <=? _)%nat; [destruct (compatible sp i chosen)|].
      - apply IH; [done|cbn; lia|cbn; lia].
      - split; [done|lia].
      - split; [done|lia]. }
    destruct H1 as [Ex1 Hn1]. cbn in Hn1. destruct (IH chosen p1 Ex1) as [Ex2 Hn2]; [lia|lia|].
    split; [done|lia].
Qed.


(** Never a node more than the budget and the one that exhausts it. *)
Lemma search_within sp budget rest : 0 <= budget < u64_max → ∀ chosen p,
  let within p := 0 <= pg_nodes p <= budget + (if pg_exhausted p then 1 else 0) in
  within p → within (search sp budget rest chosen p).
Proof.
  cbv zeta. intros Hb.
  induction rest as [|i rest IH]; intros chosen p Hp; simpl;
    (destruct (pg_exhausted p) eqn:Ex; [by rewrite Ex|]);
    rewrite u64_id by (unfold is_u64, u64_max in *; lia);
    destruct (Z.ltb_spec budget (pg_nodes p + 1)); try (cbn; lia).
  apply IH. destruct (_ <=? _)%nat; [destruct (compatible sp i chosen); [apply IH|]|]; cbn; lia.
Qed.

(** *** Parts of a list *)

Lemma sublist_elems {A} (l k : list A) : l `sublist_of` k → l ⊆ k.
Proof. induction 1; set_solver. Qed.

Lemma StronglySorted_sublist {A} (R : A → A → Prop) (l k : list A) :
  l `sublist_of` k → StronglySorted R k → StronglySorted R l.
Proof.
  induction 1 as [|x l k Hs IH|x l k Hs IH]; intros Hk; [done|..];
    apply StronglySorted_cons in Hk as [Hx Hk]; [|by apply IH].
  constructor; [by apply IH|]. rewrite Forall_forall in *. intros y Hy.
  exact (Hx y (sublist_elems l k Hs y Hy)).
Qed.

Lemma StronglySorted_impl {A} (R Q : A → A → Prop) (l : list A) :
  (∀ x y, R x y → Q x y) → StronglySorted R l → StronglySorted Q l.
Proof. intros H. induction 1; constructor; [done|]. eapply Forall_impl; [eassumption|]. apply H. Qed.

(** ** The exhaustive reference *)

(** What [prepare] promises the searches about [n] candidates. *)
Class WellPrepared (sp : SearchSpace) (n : nat) : Prop := {
  order_all : sp_order sp ≡ₚ seq 0 n;
  order_ranked : StronglySorted (λ a b, (rank_at sp a < rank_at sp b)%nat) (sp_order sp);
  conflict_sym : ∀ i j, conflict_at sp i j = conflict_at sp j i
}.

Section reference.
Context (sp : SearchSpace) (n : nat) {Hsp : WellPrepared sp n}.

Notation nb := (no_better (rank_at sp)).

(** Legal, and in conflict with no other. *)
Definition feasible (l : list nat) : Prop :=
  (∀ i, i ∈ l → legal_at sp i = true) ∧
  (∀ i j, i ∈ l → j ∈ l → i ≠ j → conflict_at sp i j = false).

Lemma compatible_true i chosen : compatible sp i chosen = true ↔
  legal_at sp i = true ∧ ∀ j, j ∈ chosen → conflict_at sp i j = false.
Proof.
  unfold compatible. rewrite andb_true_iff, forallb_forall. setoid_rewrite negb_true_iff.
  by setoid_rewrite list_elem_of_In.
Qed.

Lemma grows_feasible l : NoDup l → grows sp [] l = true ↔ feasible l.
Proof.
  assert (H : ∀ chosen, NoDup (chosen ++ l) → feasible chosen →
    (grows sp chosen l = true ↔ feasible (chosen ++ l))).
  { induction l as [|i l IH]; intros chosen Hd Hf; simpl; [by rewrite app_nil_r|].
    assert (El : chosen ++ i :: l = (chosen ++ [i]) ++ l) by by rewrite <-app_assoc.
    rewrite El in *. rewrite andb_true_iff, compatible_true. split.
    - intros [[Hl Hc] Hg]. apply IH; [done| |done]. destruct Hf as [F1 F2]. split.
      + intros j [Hj| ->%list_elem_of_singleton]%elem_of_app; auto.
      + intros j k [Hj| ->%list_elem_of_singleton]%elem_of_app [Hk| ->%list_elem_of_singleton]%elem_of_app Hne;
          auto; [|done]. rewrite conflict_sym. auto.
    - intros Hall. assert (Hi : i ∈ (chosen ++ [i]) ++ l) by set_solver. destruct Hall as [A1 A2].
      assert (Hn : i ∉ chosen).
      { apply NoDup_app in Hd as [(_ & Hd & _)%NoDup_app _]. intros H. by apply (Hd i H), list_elem_of_singleton. }
      split; [split; [auto|]|].
      + intros j Hj. apply A2; [done|set_solver|]. by intros ->.
      + apply IH; [done| |done]. split; intros; [apply A1|apply A2]; set_solver. }
  intros Hd. apply (H []); [done|]. split; intros; by rewrite ?elem_of_nil in *.
Qed.

Definition chosen_by (mask : Z) : list nat := List.filter (λ i, Z.testbit mask (Z.of_nat i)) (seq 0 n).

Lemma subset_of_grows mask indices : ∀ chosen, subset_of sp mask indices chosen =
  let l := List.filter (λ i, Z.testbit mask (Z.of_nat i)) indices in
  if grows sp chosen l then Some (chosen ++ l) else None.
Proof.
  induction indices as [|i indices IH]; intros chosen; simpl; [by rewrite app_nil_r|].
  destruct (Z.testbit _ _); simpl; [|by apply IH]. destruct (compatible sp i chosen); simpl; [|done].
  rewrite IH. cbv zeta. by rewrite <-app_assoc.
Qed.

Lemma order_NoDup : NoDup (sp_order sp).
Proof. rewrite order_all. apply NoDup_ListNoDup, seq_NoDup. Qed.

Lemma rank_inj i j : i ∈ sp_order sp → j ∈ sp_order sp → rank_at sp i = rank_at sp j → i = j.
Proof.
  intros (l & k & El)%list_elem_of_split Hj Er. pose proof (order_ranked (sp:=sp) (n:=n)) as Hs. rewrite El in Hs, Hj.
  apply StronglySorted_app in Hs as (Hlk & _ & Hk). apply StronglySorted_cons in Hk as [Hk _].
  apply elem_of_app in Hj as [Hj|Hj]; [specialize (Hlk j i Hj ltac:(left)); lia|].
  apply elem_of_cons in Hj as [->|Hj]; [done|]. rewrite Forall_forall in Hk. specialize (Hk j Hj). lia.
Qed.

(** Sorted by rank, a set of candidates is the part of the order it occupies. *)
Lemma by_rank_filter l : NoDup l → l ⊆ sp_order sp →
  by_rank sp l = filter (λ i, i ∈ l) (sp_order sp).
Proof.
  intros Hd Hl. pose proof order_NoDup as Ho.
  assert (Hp : by_rank sp l ≡ₚ filter (λ i, i ∈ l) (sp_order sp)).
  { unfold by_rank. rewrite sort_by_Permutation. apply NoDup_Permutation; [done|by apply NoDup_filter|].
    intros i. rewrite list_elem_of_filter. split; [auto|by intros [? _]]. }
  apply (StronglySorted_unique_strong (λ x y, (rank_at sp y <? rank_at sp x)%nat = false)); [| | |done].
  - intros x y Hx Hy. rewrite Hp, list_elem_of_filter in Hx. rewrite list_elem_of_filter in Hy.
    rewrite !Nat.ltb_ge. intros. apply rank_inj; [apply Hx|apply Hy|lia].
  - apply sort_by_sorted; intros *; rewrite ?Nat.ltb_lt, ?Nat.ltb_ge; lia.
  - apply (StronglySorted_sublist _ _ _ (sublist_filter _ _)). eapply StronglySorted_impl; [|apply (order_ranked (n:=n))].
    intros x y. rewrite Nat.ltb_ge. lia.
Qed.

(** What both searches range over. *)
Definition considered (l : list nat) : Prop := l `sublist_of` sp_order sp ∧ grows sp [] l = true.

Lemma considered_by_rank l : NoDup l → l ⊆ sp_order sp → feasible l → considered (by_rank sp l).
Proof.
  intros Hd Hl [F1 F2]. assert (Hp : by_rank sp l ≡ₚ l) by apply sort_by_Permutation. split.
  - rewrite by_rank_filter by done. apply sublist_filter.
  - apply grows_feasible; [by rewrite Hp|]. split; intros *; rewrite ?Hp; auto.
Qed.

Lemma by_rank_considered l k : considered l → k ≡ₚ l → by_rank sp k = l.
Proof.
  intros [Hs _] Hp. pose proof order_NoDup as Ho.
  assert (Hl : NoDup l) by by eapply sublist_NoDup. assert (Hi : l ⊆ sp_order sp) by by apply sublist_elems.
  apply (StronglySorted_unique_strong (λ x y, (rank_at sp y <? rank_at sp x)%nat = false)).
  - intros x y Hx Hy. unfold by_rank in Hx. rewrite sort_by_Permutation, Hp in Hx.
    rewrite !Nat.ltb_ge. intros. apply rank_inj; [auto..|lia].
  - apply sort_by_sorted; intros *; rewrite ?Nat.ltb_lt, ?Nat.ltb_ge; lia.
  - apply (StronglySorted_sublist _ _ _ Hs). eapply StronglySorted_impl; [|apply (order_ranked (n:=n))].
    intros x y. rewrite Nat.ltb_ge. lia.
  - unfold by_rank. by rewrite sort_by_Permutation.
Qed.

(** *** Every selection is the set of a mask *)

Definition mask_of (l : list nat) : Z := foldr (λ i m, Z.setbit m (Z.of_nat i)) 0 l.

Lemma mask_of_bit l k : 0 <= k → Z.testbit (mask_of l) k = bool_decide (Z.to_nat k ∈ l).
Proof.
  intros Hk. unfold mask_of. induction l as [|j l IH]; cbn [foldr].
  - rewrite Z.bits_0. symmetry. apply bool_decide_eq_false_2, not_elem_of_nil.
  - rewrite Z.setbit_eqb, IH by lia. destruct (Z.eqb_spec (Z.of_nat j) k) as [<-|Hne]; simpl.
    + rewrite Nat2Z.id. symmetry. apply bool_decide_eq_true_2. left.
    + apply bool_decide_ext. rewrite elem_of_cons. split; [auto|]. intros [E|]; [lia|done].
Qed.

Lemma mask_of_range l : (∀ i, i ∈ l → (i < n)%nat) → 0 <= mask_of l < 2 ^ Z.of_nat n.
Proof.
  intros Hl. assert (Hn : 0 <= mask_of l).
  { unfold mask_of. clear Hl. induction l as [|i l IH]; cbn [foldr]; [lia|].
    rewrite Z.setbit_spec'. apply Z.lor_nonneg. split; [done|]. lia. }
  apply Z.bounded_iff_bits_nonneg'; [lia|done|]. intros k Hk. rewrite mask_of_bit by lia.
  apply bool_decide_eq_false_2. intros H%Hl. lia.
Qed.

Lemma order_lt i : i ∈ sp_order sp ↔ (i < n)%nat.
Proof. rewrite order_all, list_elem_of_In, in_seq. lia. Qed.

Lemma chosen_by_mask l : NoDup l → (∀ i, i ∈ l → (i < n)%nat) → chosen_by (mask_of l) ≡ₚ l.
Proof.
  intros Hd Hl. unfold chosen_by. apply NoDup_Permutation; [|done|].
  - apply NoDup_ListNoDup, List.NoDup_filter, seq_NoDup.
  - intros i. rewrite elem_of_filter_true, mask_of_bit, Nat2Z.id, bool_decide_eq_true by lia.
    rewrite list_elem_of_In, in_seq. split; [by intros [_ ?]|]. intros H. pose proof (Hl i H). split; [lia|done].
Qed.

Lemma chosen_by_parts mask : NoDup (chosen_by mask) ∧ chosen_by mask ⊆ sp_order sp.
Proof.
  unfold chosen_by. split; [apply NoDup_ListNoDup, List.NoDup_filter, seq_NoDup|].
  intros i. rewrite elem_of_filter_true, list_elem_of_In, in_seq, order_lt. lia.
Qed.

(** *** The loop over the masks *)

(** After the masks below [mask]: what is held was considered, and nothing they
    offered is better. *)
Definition swept (x : Z * Progress) : Prop :=
  0 <= x.1 ∧ considered (pg_best x.2) ∧
  ∀ m, 0 <= m < x.1 → feasible (chosen_by m) → nb (by_rank sp (chosen_by m)) (pg_best x.2).

Lemma reference_turn_swept budget x : swept x → swept (reference_turn sp n budget x).
Proof.
  destruct x as [mask p]. intros (H0 & Hc & Hall). unfold reference_turn.
  destruct (pg_exhausted p); [done|]. cbn [fst snd] in *. destruct (budget <? _); [done|].
  assert (E : subset_of sp mask (seq 0 n) [] =
    if grows sp [] (chosen_by mask) then Some (chosen_by mask) else None).
  { rewrite subset_of_grows. reflexivity. }
  rewrite E. clear E. destruct (chosen_by_parts mask) as [Hd Hi].
  pose proof (grows_feasible (chosen_by mask) Hd) as Hg.
  split; [cbn; lia|]. cbn [fst snd pg_best]. destruct (grows sp [] (chosen_by mask)).
  - set (l := by_rank sp (chosen_by mask)).
    assert (Hl : considered l) by by apply considered_by_rank, Hg.
    destruct (better_keeps (rank_at sp) l (pg_best p)) as [K1 K2].
    split; [by destruct (better_selection _ _ _)|]. intros m Hm Hf.
    destruct (decide (m = mask)) as [->|]; [exact K2|].
    eapply no_better_trans; [|exact K1]. apply Hall; [lia|done].
  - split; [done|]. intros m Hm Hf. destruct (decide (m = mask)) as [->|]; [|apply Hall; [lia|done]].
    by apply Hg in Hf.
Qed.

Lemma iterate2_swept budget k : ∀ x, swept x → let x' := iterate2 k (reference_turn sp n budget) x in
  swept x' ∧ (pg_exhausted x'.2 = false → x'.1 = x.1 + 2 ^ Z.of_nat k ∧ pg_exhausted x.2 = false).
Proof.
  induction k as [|k IH]; intros x Hx; cbv zeta; simpl.
  - split; [by apply reference_turn_swept|]. destruct x as [mask p]. unfold reference_turn.
    destruct (pg_exhausted p) eqn:E; cbn; [congruence|]. destruct (budget <? _); cbn; [done|].
    intros _. split; [lia|done].
  - destruct (IH x Hx) as [H1 N1], (IH _ H1) as [H2 N2]. split; [done|]. intros E.
    destruct (N2 E) as [E2 E3], (N1 E3) as [E4 E5]. split; [|done].
    rewrite Nat2Z.inj_succ, Z.pow_succ_r by lia. lia.
Qed.

Lemma considered_nil : considered [].
Proof. split; [apply sublist_nil_l|done]. Qed.

(** Both searches end with the same selection when neither runs out. *)
Lemma reference_optimal budget : let p := reference_search sp n budget in
  pg_exhausted p = false → considered (pg_best p) ∧ ∀ l, considered l → nb l (pg_best p).
Proof.
  unfold reference_search. cbv zeta.
  destruct (iterate2_swept budget n (0, mkProgress 0 false [])) as [(_ & Hc & Hall) Hn].
  { split; [cbn; lia|]. split; [apply considered_nil|]. cbn. lia. }
  set (x := iterate2 n _ _) in *. intros E. destruct (Hn E) as [E1 _]. cbn in E1.
  split; [done|]. intros l Hl.
  pose proof Hl as [Hs Hg]. pose proof (sublist_NoDup _ _ order_NoDup Hs) as Hd.
  assert (Hlt : ∀ i, i ∈ l → (i < n)%nat) by (intros i Hi; apply order_lt, (sublist_elems _ _ Hs i Hi)).
  pose proof (chosen_by_mask l Hd Hlt) as Hp.
  rewrite <-(by_rank_considered l (chosen_by (mask_of l)) Hl Hp). apply Hall.
  - rewrite E1. by apply mask_of_range.
  - apply grows_feasible in Hg as [G1 G2]; [|done]. split; intros *; rewrite ?Hp; auto.
Qed.

Lemma search_optimal budget : let p := search sp budget (sp_order sp) [] (mkProgress 0 false []) in
  considered (pg_best p) ∧ (pg_exhausted p = false → ∀ l, considered l → nb l (pg_best p)).
Proof.
  cbv zeta. destruct (search_spec sp budget (sp_order sp) [] (mkProgress 0 false [])) as (_ & H2 & H3).
  split.
  - destruct H2 as [->|(l & Hl & Hg & ->)]; [apply considered_nil|done].
  - intros E l [Hl Hg]. by apply (H3 E l).
Qed.

Lemma optimal_unique l k : considered l → considered k → nb l k → nb k l → l = k.
Proof.
  intros [Hl _] [Hk _] H1 H2. pose proof (no_better_antisym _ _ _ H1 H2) as E.
  apply (sublist_elems _ _) in Hl, Hk. clear H1 H2. revert k E Hk.
  induction l as [|i l IH]; intros [|j k]; simpl; try done. intros [= Er E] Hk.
  f_equal; [apply rank_inj; [apply Hl|apply Hk|done]; left|].
  apply IH; try done; set_solver.
Qed.
End reference.

(** ** What [prepare] computes *)

Lemma fill_ranks_other k order : ∀ v i, i ∉ order → fill_ranks k order v !! i = v !! i.
Proof.
  revert k. induction order as [|j order IH]; intros k v i Hi; simpl; [done|].
  apply not_elem_of_cons in Hi as [Hj Hi]. by rewrite IH, list_lookup_insert_ne by done.
Qed.

Lemma length_fill_ranks order : ∀ k v, length (fill_ranks k order v) = length v.
Proof. induction order as [|j order IH]; intros k v; simpl; [done|]. by rewrite IH, length_insert. Qed.

(** Ranks grow along the order. *)
Lemma fill_ranks_sorted order : ∀ k v, NoDup order → (∀ i, i ∈ order → (i < length v)%nat) →
  let rank i := nth i (fill_ranks k order v) 0%nat in
  StronglySorted (λ a b, (rank a < rank b)%nat) order ∧ ∀ i, i ∈ order → (k <= rank i)%nat.
Proof.
  induction order as [|j order IH]; intros k v Hd Hl; cbv zeta; simpl.
  { split; [constructor|]. by intros i ?%elem_of_nil. }
  apply NoDup_cons in Hd as [Hj Hd].
  destruct (IH (S k) (<[j:=k]> v) Hd) as [Hs Hge].
  { intros i Hi. rewrite length_insert. apply Hl. by right. }
  assert (Ej : nth j (fill_ranks (S k) order (<[j:=k]> v)) 0%nat = k).
  { apply nth_lookup_Some. rewrite fill_ranks_other by done. apply list_lookup_insert_eq, Hl. left. }
  split.
  - constructor; [exact Hs|]. rewrite Forall_forall. intros i Hi. rewrite Ej. specialize (Hge i Hi). lia.
  - intros i [->|Hi]%elem_of_cons; [lia|]. specialize (Hge i Hi). lia.
Qed.

Section prepared.
Context (candidates : list AuthorityRequest) (view : ArbiterView).
Let n := length candidates.
Let sp := (prepare candidates view).1.
Let decisions := (prepare candidates view).2.

Lemma prepare_order : sp_order sp ≡ₚ seq 0 n.
Proof. apply sort_by_Permutation. Qed.

Lemma prepare_ranked : StronglySorted (λ a b, (rank_at sp a < rank_at sp b)%nat) (sp_order sp).
Proof.
  apply fill_ranks_sorted.
  - change (NoDup (sp_order sp)). rewrite prepare_order. apply NoDup_ListNoDup, seq_NoDup.
  - intros i Hi. change (i ∈ sp_order sp) in Hi. rewrite length_replicate.
    rewrite prepare_order, list_elem_of_In, in_seq in Hi. unfold n in *. lia.
Qed.

Lemma prepare_decision i : decisions !! i = (λ r, decide_authority r (isolated view)) <$> candidates !! i.
Proof. apply list_lookup_fmap. Qed.

Lemma prepare_legal i : legal_at sp i = true ↔
  ∃ d, decisions !! i = Some d ∧ ad_verdict d = Authoritative.
Proof.
  unfold legal_at. change (sp_legal sp) with (map is_authoritative decisions).
  split.
  - intros H. destruct (decisions !! i) as [d|] eqn:E.
    + exists d. split; [done|]. erewrite nth_lookup_Some in H; [|by rewrite list_lookup_fmap, E].
      unfold is_authoritative, verdict_carries_authority in H. by apply bool_decide_eq_true in H.
    + rewrite nth_overflow in H; [done|]. rewrite length_map. by apply lookup_ge_None.
  - intros (d & E & Hd). erewrite nth_lookup_Some; [|rewrite list_lookup_fmap, E; reflexivity].
    unfold is_authoritative, verdict_carries_authority. by apply bool_decide_eq_true_2.
Qed.

Lemma prepare_conflict i j : conflict_at sp i j =
  bool_decide (i < n)%nat && bool_decide (j < n)%nat && conflicts candidates i j.
Proof.
  unfold conflict_at.
  change (sp_conflict sp) with (map (λ i, map (conflicts candidates i) (seq 0 n)) (seq 0 n)).
  case_bool_decide as Hi; simpl.
  2: { rewrite (nth_overflow _ _ (n:=i)); [by destruct j|]. rewrite length_map, length_seq. lia. }
  rewrite (nth_indep _ _ (map (conflicts candidates 0) (seq 0 n))) by (rewrite length_map, length_seq; lia).
  rewrite (map_nth (λ i, map (conflicts candidates i) (seq 0 n))), seq_nth by lia. simpl.
  case_bool_decide as Hj; simpl; [|by rewrite nth_overflow by (rewrite length_map, length_seq; lia)].
  rewrite (nth_indep _ _ (conflicts candidates i 0)) by (rewrite length_map, length_seq; lia).
  by rewrite map_nth, seq_nth.
Qed.

Lemma prepare_conflict_sym i j : conflict_at sp i j = conflict_at sp j i.
Proof.
  rewrite !prepare_conflict, (andb_comm (bool_decide (i < n)%nat)). f_equal. unfold conflicts.
  by rewrite (Nat.eqb_sym j), (Nat.min_comm j), (Nat.max_comm j).
Qed.

#[export] Instance prepare_prepared : WellPrepared sp n.
Proof. split; [apply prepare_order|apply prepare_ranked|apply prepare_conflict_sym]. Qed.
End prepared.

(** ** Admissible selections *)

(** Distinct candidates, each authoritative when nothing competes, no two of them
    exclusive over overlapping scopes. *)
Record admissible (candidates : list AuthorityRequest) (view : ArbiterView) (l : list nat) : Prop := {
  am_distinct : NoDup l;
  am_legal : ∀ i, i ∈ l → ∃ r, candidates !! i = Some r ∧
    ad_verdict (decide_authority r (isolated view)) = Authoritative;
  am_apart : ∀ i j a b, i ∈ l → j ∈ l → (i < j)%nat → candidates !! i = Some a →
    candidates !! j = Some b → exclusive_overlap a b = false
}.

(** The decisions of a selection, in its order. *)
Definition decided (candidates : list AuthorityRequest) (view : ArbiterView)
    (l : list nat) (ds : list AuthorityDecision) : Prop :=
  Forall2 (λ i d, ∃ r, candidates !! i = Some r ∧ d = decide_authority r (isolated view)) l ds.

Section plans.
Context (candidates : list AuthorityRequest) (view : ArbiterView).
Let n := length candidates.
Let sp := (prepare candidates view).1.
Let decisions := (prepare candidates view).2.

Lemma conflict_pair i j a b : (i < j)%nat → candidates !! i = Some a → candidates !! j = Some b →
  conflict_at sp i j = exclusive_overlap a b.
Proof.
  intros Hij Ha Hb. unfold sp. rewrite prepare_conflict.
  rewrite !bool_decide_eq_true_2 by (by eapply lookup_lt_Some). simpl. unfold conflicts.
  rewrite (proj2 (Nat.eqb_neq i j)) by lia. by rewrite Nat.min_l, Nat.max_r, Ha, Hb by lia.
Qed.

Lemma admissible_feasible l : NoDup l → feasible sp l ↔ admissible candidates view l.
Proof.
  intros Hd. split.
  - intros [F1 F2]. split; [done| |].
    + intros i Hi. destruct (proj1 (prepare_legal _ _ _) (F1 i Hi)) as (d & E & Hv).
      rewrite prepare_decision in E. destruct (candidates !! i) as [r|]; [|done].
      injection E as <-. by exists r.
    + intros i j a b Hi Hj Hij Ha Hb. rewrite <-(conflict_pair i j a b) by done.
      apply F2; [done..|lia].
  - intros [_ A1 A2]. split.
    + intros i Hi. apply prepare_legal. destruct (A1 i Hi) as (r & Er & Hv).
      exists (decide_authority r (isolated view)). by rewrite prepare_decision, Er.
    + intros i j Hi Hj Hne. destruct (A1 i Hi) as (a & Ea & _), (A1 j Hj) as (b & Eb & _).
      destruct (decide (i < j)%nat).
      * rewrite (conflict_pair i j a b) by done. by apply (A2 i j).
      * unfold sp. rewrite prepare_conflict_sym. fold sp.
        rewrite (conflict_pair j i b a) by (done || lia). apply (A2 j i b a); try done. lia.
Qed.

(** The selections both searches range over are the admissible ones, sorted. *)
Lemma considered_admissible l : considered sp l → admissible candidates view l.
Proof.
  intros [Hs Hg]. pose proof (order_NoDup sp n) as Ho.
  pose proof (sublist_NoDup _ _ Ho Hs) as Hd.
  apply admissible_feasible; [done|].
  by apply (grows_feasible sp n l Hd).
Qed.

Lemma admissible_considered l : admissible candidates view l →
  considered sp (by_rank sp l) ∧ length (by_rank sp l) = length l.
Proof.
  intros Hl. split; [|apply length_sort_by]. pose proof (am_distinct _ _ _ Hl) as Hd.
  apply (considered_by_rank sp n).
  - done.
  - intros i Hi. apply (order_lt sp n). destruct (am_legal _ _ _ Hl i Hi) as (r & E & _).
    by eapply lookup_lt_Some.
  - by apply admissible_feasible.
Qed.

Lemma build_plan_decided l o nodes proven : admissible candidates view l →
  decided candidates view l (pl_authorized (build_plan candidates decisions l o nodes proven)).
Proof.
  intros Hl. cbn [pl_authorized build_plan]. pose proof (am_legal _ _ _ Hl) as H. clear Hl. unfold decided.
  induction l as [|i l IH]; [constructor|]. destruct (H i ltac:(left)) as (r & E & _). simpl.
  unfold decisions at 1. rewrite prepare_decision, E. simpl. constructor; [by exists r|].
  apply IH. intros j Hj. apply H. by right.
Qed.
End plans.

(** *** Authoritative decisions taken in isolation *)

Lemma isolated_decision r view : ad_verdict (decide_authority r (isolated view)) = Authoritative →
  ad_claim (decide_authority r (isolated view)) = rq_claim r ∧
  ad_must_fence (decide_authority r (isolated view)) = [].
Proof.
  intros H. destruct (decide_auth _ _ H) as (p & f & l & _ & E). rewrite E in *.
  pose proof (decide_competing_auth _ _ _ _ _ H) as (_ & _ & _ & Ec & _). split; [by rewrite Ec|].
  unfold decide_competing, overlapping_claims. cbn [isolated vw_competing List.filter].
  cbn [sort_by compete compete_same zlen length]. by destruct (_ && _).
Qed.

(** *** The validator *)

Lemma first_overlap_None l : ∀ i, (∀ p q a b, (p < q)%nat → l !! p = Some a → l !! q = Some b →
    exclusive_overlap a b = false) → first_overlap l i = None.
Proof.
  induction l as [|a l IH]; intros i H; [done|]. cbn [first_overlap].
  assert (E : ∀ k j, (∀ b, b ∈ k → exclusive_overlap a b = false) → overlap_after a k j = None).
  { induction k as [|b k IHk]; intros j Hk; [done|]. cbn [overlap_after].
    rewrite (Hk b) by left. apply IHk. intros c Hc. apply Hk. by right. }
  rewrite E.
  - apply IH. intros p q x y Hpq Hx Hy. by apply (H (S p) (S q)); [lia| |].
  - intros b [q Hq]%list_elem_of_lookup. by apply (H 0%nat (S q)); [lia| |].
Qed.

Lemma exclusive_overlap_sym a b : canonical (rq_scope a) → canonical (rq_scope b) →
  exclusive_overlap a b = exclusive_overlap b a.
Proof. intros Ha Hb. unfold exclusive_overlap. rewrite orb_comm. by destruct (_ || _); [|apply overlaps_sym]. Qed.

Section validating.
Context (candidates : list AuthorityRequest) (view : ArbiterView).
Hypothesis claims_distinct : NoDup (rq_claim <$> candidates).
Hypothesis scopes_canonical : Forall (λ r, canonical (rq_scope r)) candidates.

Lemma find_claim i r : candidates !! i = Some r →
  List.find (λ c, eqb (rq_claim c) (rq_claim r)) candidates = Some r.
Proof.
  intros Hi. destruct (List.find _ candidates) as [c|] eqn:E.
  - apply List.find_some in E as [[j Hj]%list_elem_of_In%list_elem_of_lookup Ec%eqb_eq].
    assert (j = i) as ->; [|congruence].
    eapply (NoDup_lookup (rq_claim <$> candidates)); [done|by rewrite list_lookup_fmap, Hj|].
    rewrite list_lookup_fmap, Hi. simpl. by rewrite Ec.
  - apply list_elem_of_lookup_2, list_elem_of_In in Hi. apply (List.find_none _ _ E) in Hi.
    by rewrite eqb_refl in Hi.
Qed.

Lemma recheck_decided l ds : admissible candidates view l → decided candidates view l ds →
  ∃ cs, recheck_all candidates view ds = Ret cs ∧ Forall2 (λ i c, candidates !! i = Some c) l cs.
Proof.
  intros Hl Hd. pose proof (am_legal _ _ _ Hl) as Hv. clear Hl.
  induction Hd as [|i d l ds (r & Er & ->) _ IH]; [by exists []|].
  destruct (Hv i ltac:(left)) as (r' & Er' & Ha). rewrite Er in Er'. injection Er' as <-.
  destruct IH as (cs & E & Hcs); [intros j Hj; apply Hv; by right|].
  exists (r :: cs). split; [|by constructor]. cbn [recheck_all]. unfold recheck.
  rewrite (proj1 (isolated_decision _ _ Ha)), (find_claim i r Er).
  unfold is_authoritative at 1, verdict_carries_authority. rewrite Ha, eqb_refl. cbn. by rewrite E.
Qed.

Lemma validate_decided plan l : admissible candidates view l →
  decided candidates view l (pl_authorized plan) → validate_plan plan candidates view = status_ok.
Proof.
  intros Hl Hd. unfold validate_plan. destruct (recheck_decided _ _ Hl Hd) as (cs & -> & Hcs).
  rewrite first_overlap_None; [done|]. intros p q a b Hpq Ha Hb.
  destruct (Forall2_lookup_r _ _ _ _ _ Hcs Ha) as (i & Hi & Ea).
  destruct (Forall2_lookup_r _ _ _ _ _ Hcs Hb) as (j & Hj & Eb).
  assert (Hne : i ≠ j).
  { intros ->. pose proof (NoDup_lookup _ _ _ _ (am_distinct _ _ _ Hl) Hi Hj). lia. }
  apply list_elem_of_lookup_2 in Hi, Hj. destruct (decide (i < j)%nat).
  - by apply (am_apart _ _ _ Hl i j).
  - rewrite Forall_forall in scopes_canonical. rewrite exclusive_overlap_sym.
    + apply (am_apart _ _ _ Hl j i); try done. lia.
    + by eapply scopes_canonical, list_elem_of_lookup_2.
    + by eapply scopes_canonical, list_elem_of_lookup_2.
Qed.
End validating.

Lemma decided_must_fence candidates view l ds : admissible candidates view l →
  decided candidates view l ds → sort_by ltb (foldl (λ l d, collect l (ad_must_fence d)) [] ds) = [].
Proof.
  intros Hl Hd. pose proof (am_legal _ _ _ Hl) as Hv. clear Hl.
  assert (H : Forall (λ d, ad_must_fence d = []) ds).
  { induction Hd as [|i d l ds (r & Er & ->) _ IH]; constructor.
    - destruct (Hv i ltac:(left)) as (r' & Er' & Ha). rewrite Er in Er'. injection Er' as <-.
      by apply isolated_decision.
    - apply IH. intros j Hj. apply Hv. by right. }
  assert (E : foldl (λ l d, collect l (ad_must_fence d)) [] ds = []); [|by rewrite E].
  clear Hd. induction H as [|d ds E _ IH]; [done|]. cbn [foldl]. rewrite E. exact IH.
Qed.

(** ** The theorems *)

Module Planning.

(** C13: The planner is sound and, when it says so, optimal. Under any budget the
    authorized decisions are those of an admissible selection: distinct
    candidates, each authoritative when decided with nothing competing, no two
    of them exclusive over overlapping scopes; and the plan names nothing to
    fence. If optimality is claimed, no admissible selection is larger. *)
Theorem selection_optimal (candidates : list AuthorityRequest) (view : ArbiterView) (budget : Z) :
  let plan := select_authority_set candidates view budget in
  ∃ l, admissible candidates view l ∧ decided candidates view l (pl_authorized plan) ∧
    pl_must_fence plan = [] ∧
    (pl_proven plan = true → ∀ k, admissible candidates view k → (length k <= length l)%nat).
Proof.
  cbv zeta. assert (H0 : admissible candidates view []).
  { split; [constructor|..]; intros *; by rewrite elem_of_nil. }
  unfold select_authority_set. destruct candidates as [|r0 rest].
  { exists []. split; [done|]. split; [constructor|]. split; [done|]. intros _ [|i k] Hk; [done|].
    by destruct (am_legal _ _ _ Hk i ltac:(left)) as (r & Er & _). }
  set (cs := r0 :: rest) in *. destruct (kMaxCompetingClaims <? zlen cs).
  { exists []. split; [done|]. by split; [constructor|]. }
  destruct (prepare cs view) as [sp ds] eqn:Ep.
  assert (Esp : sp = (prepare cs view).1) by by rewrite Ep.
  assert (Eds : ds = (prepare cs view).2) by by rewrite Ep.
  pose proof (search_optimal sp (effective_budget budget)) as [Hc Ho]. set (p := search _ _ _ _ _) in *.
  assert (Ha : admissible cs view (pg_best p)) by (apply considered_admissible; by rewrite <-Esp).
  match goal with |- context [build_plan cs ds ?l ?o ?n ?b] =>
    pose proof (build_plan_decided cs view l o n b Ha) as Hd end. rewrite <-Eds in Hd.
  pose proof (decided_must_fence _ _ _ _ Ha Hd) as Hm. cbn [pl_authorized build_plan] in Hm.
  destruct (pl_validated _) eqn:Ev; [|exists []; split; [done|]; by split; [constructor|]].
  exists (pg_best p). split; [done|]. split; [exact Hd|]. split; [exact Hm|].
  cbn [pl_proven validated build_plan]. intros Hp%negb_true_iff k Hk.
  destruct (admissible_considered cs view k Hk) as [Hk1 <-]. rewrite <-Esp in *.
  by eapply no_better_length, Ho.
Qed.

(** The branch-and-bound search agrees with exhaustive enumeration. When both
    claim a proven answer, whatever their budgets, the plans authorize the same
    decisions in the same order, refuse the same claims and have the same
    outcome. *)
Theorem selection_matches_reference (candidates : list AuthorityRequest) (view : ArbiterView)
    (budget budget' : Z) :
  let plan := select_authority_set candidates view budget in
  let reference := select_authority_set_reference candidates view budget' in
  pl_proven plan = true → pl_proven reference = true →
  pl_authorized plan = pl_authorized reference ∧ pl_refused plan = pl_refused reference ∧
  pl_must_fence plan = pl_must_fence reference ∧ pl_outcome plan = pl_outcome reference.
Proof.
  cbv zeta. unfold select_authority_set, select_authority_set_reference.
  destruct (24 <? zlen candidates); [done|]. destruct candidates as [|r0 rest].
  { intros _. destruct (prepare [] view) as [sp ds] eqn:Ep. cbn [length].
    unfold reference_search. cbn [iterate2]. unfold reference_turn. cbn [pg_exhausted pg_nodes].
    destruct (_ <? _); done. }
  set (cs := r0 :: rest) in *. destruct (kMaxCompetingClaims <? zlen cs); [done|].
  destruct (prepare cs view) as [sp ds] eqn:Ep.
  assert (Esp : sp = (prepare cs view).1) by by rewrite Ep.
  pose proof (search_optimal sp (effective_budget budget)) as [Hc Ho].
  assert (Hw : WellPrepared sp (length cs)) by (rewrite Esp; apply prepare_prepared).
  pose proof (reference_optimal sp (length cs) (effective_budget budget')) as Hr.
  set (p := search _ _ _ _ _) in *. set (q := reference_search _ _ _) in *. cbv zeta in Hr.
  destruct (pl_validated _) eqn:Ev; [|done]. cbn [pl_proven validated build_plan].
  intros Hp%negb_true_iff Hq%negb_true_iff. destruct (Hr Hq) as [Hq1 Hq2].
  assert (E : pg_best p = pg_best q).
  { apply (optimal_unique sp (length cs)); [done|done|by apply Hq2|by apply Ho]. }
  cbn [pl_authorized pl_refused pl_must_fence pl_outcome validated build_plan]. by rewrite E, Hp, Hq.
Qed.

(** C39: The search ends with a proof when the budget allows. For distinct claims
    over canonical scopes, a budget of [2^(n+1) - 1] nodes for [n] candidates is
    enough: the plan is proven and passes its own validation, after at most that
    many nodes; and no budget is ever exceeded by more than the one node that
    exhausts it. *)
Theorem planner_completes (candidates : list AuthorityRequest) (view : ArbiterView) (budget : Z) :
  NoDup (rq_claim <$> candidates) → Forall (λ r, canonical (rq_scope r)) candidates →
  zlen candidates <= kMaxCompetingClaims → 0 <= budget < u64_max →
  let plan := select_authority_set candidates view budget in
  pl_nodes plan <= effective_budget budget + 1 ∧ pl_validated plan = true ∧
  (2 ^ (zlen candidates + 1) - 1 <= effective_budget budget →
     pl_proven plan = true ∧ pl_nodes plan <= 2 ^ (zlen candidates + 1) - 1).
Proof.
  intros Hd Hs Hn Hb. cbv zeta.
  assert (Hb' : 0 <= effective_budget budget < u64_max).
  { unfold effective_budget, kMaxSearchNodes, u64_max in *. destruct (budget =? 0); lia. }
  unfold select_authority_set. destruct candidates as [|r0 rest].
  { cbn [pl_nodes pl_validated pl_proven]. split; [lia|]. split; [done|]. done. }
  set (cs := r0 :: rest) in *. rewrite (proj2 (Z.ltb_ge _ _)) by lia.
  destruct (prepare cs view) as [sp ds] eqn:Ep.
  assert (Esp : sp = (prepare cs view).1) by by rewrite Ep.
  assert (Eds : ds = (prepare cs view).2) by by rewrite Ep.
  pose proof (search_optimal sp (effective_budget budget)) as [Hc _].
  pose proof (search_within sp _ (sp_order sp) Hb' [] (mkProgress 0 false []) ltac:(cbn; lia)) as Hw.
  assert (Hlen : zlen (sp_order sp) = zlen cs).
  { unfold zlen. f_equal. by rewrite Esp, prepare_order, length_seq. }
  pose proof (search_nodes sp (effective_budget budget) (sp_order sp) ltac:(lia) []
    (mkProgress 0 false []) eq_refl ltac:(cbn; lia)) as Ht. cbn [pg_nodes] in Ht. rewrite Hlen in Ht.
  set (p := search _ _ _ _ _) in *.
  assert (Ha : admissible cs view (pg_best p)) by (apply considered_admissible; by rewrite <-Esp).
  set (plan := build_plan cs ds _ _ _ _).
  assert (Hv : validate_plan plan cs view = status_ok).
  { apply (validate_decided cs view Hd Hs _ _ Ha). unfold plan. rewrite Eds. by apply build_plan_decided. }
  assert (Ev : pl_validated (validated plan cs view) = true).
  { cbn [pl_validated validated]. by rewrite Hv. }
  cbv beta in Hw. rewrite Ev. cbn [pl_nodes pl_proven validated build_plan plan].
  split; [destruct (pg_exhausted p); lia|]. split; [done|]. intros Hbig.
  destruct Ht as [-> Ht]; [lia|]. split; [done|lia].
Qed.
(** ** Four candidates *)

(** Two domains over one extent each, and one over both, which blocks them. *)
Definition candidate (claim : string) (scope : Scope) (token : FenceToken) : AuthorityRequest :=
  mkRequest (str claim) (str "d") scope 4 7 1 token ExclusiveMutation 3
    (Quorum.bundle_of (map (λ w, mkAttestation (str w) (str "d") (scope_digest scope) 4 7 token 1 1
       40 60 2 true wallclock0) ["w1"; "w2"]%string)) wallclock0.
Definition demo_candidates : list AuthorityRequest :=
  [candidate "wide" [str "n1"; str "n2"] 9; candidate "one" [str "n1"] 8;
   candidate "two" [str "n2"] 8; candidate "none" [] 8].
Definition demo_plan : AuthorityPlan :=
  select_authority_set demo_candidates (Decisions.demo_view []) 0.

Example demo_plan_claims :
  (pl_outcome demo_plan, ad_claim <$> pl_authorized demo_plan, pl_refused demo_plan,
   pl_nodes demo_plan, pl_proven demo_plan, pl_validated demo_plan) =
  (ProvenOptimal, [str "one"; str "two"], [str "none"; str "wide"], 12, true, true).
Proof. vm_compute. reflexivity. Qed.

(** The greedy heuristic takes the preferred wide claim and is left with it. *)
Example demo_greedy : (select_authority_set_greedy demo_candidates (Decisions.demo_view [])).1 = [str "wide"].
Proof. vm_compute. reflexivity. Qed.
Lemma demo_proven :
  pl_proven (select_authority_set demo_candidates (Decisions.demo_view []) 0) = true.
Proof. vm_compute. reflexivity. Qed.
Lemma demo_reference_proven :
  pl_proven (select_authority_set_reference demo_candidates (Decisions.demo_view []) 16) = true.
Proof. vm_compute. reflexivity. Qed.
Lemma demo_authorized :
  ad_claim <$> pl_authorized (select_authority_set demo_candidates (Decisions.demo_view []) 0) =
  [str "one"; str "two"].
Proof. vm_compute. reflexivity. Qed.

Lemma selection_matches_reference_witness :
  ad_claim <$> pl_authorized (select_authority_set_reference demo_candidates (Decisions.demo_view []) 16) =
  [str "one"; str "two"].
Proof.
  destruct (selection_matches_reference demo_candidates (Decisions.demo_view []) 0 16 demo_proven
    demo_reference_proven) as (E & _).
  etransitivity; [exact (f_equal (fmap ad_claim) (eq_sym E))|exact demo_authorized].
Defined.

Lemma planner_completes_witness :
  let plan := select_authority_set demo_candidates (Decisions.demo_view []) 0 in
  pl_validated plan = true ∧ pl_nodes plan <= 31.
Proof.
  intros plan. destruct (planner_completes demo_candidates (Decisions.demo_view []) 0) as (_ & Hv & H).
  - apply (bool_decide_unpack _). vm_compute. exact I.
  - repeat constructor.
  - vm_compute. discriminate.
  - unfold u64_max. lia.
  - split; [exact Hv|]. apply H. vm_compute. discriminate.
Defined.
End Planning.
