(* ===== verification/Witness.v ===== *)
(** * The witness service

    Models [include/sbf/witness.hpp] and the service of
    [src/witness_service.cpp]: what a witness remembers of each subject, the
    statement it makes or refuses, and the worker loop of a connection.  A
    subject is a domain and the digest of a scope.  The memory lives in the
    process: a node here is one run of the service. *)
From S2P Require Import Prelude Order SortedVec Status Ids Text Digest Canonical Scope.
From S2P Require Import Fence Lineage Evidence Arbiter Codec Readers Wire Messages Service.
Open Scope Z_scope.

Definition kMaxSessions : Z := 256.

Record AttestedSubject := mkSubject {
  as_domain : DomainId;
  as_scope : Digest256;
  as_epoch : Epoch;
  as_incarnation : IncarnationId;
  as_token : FenceToken;
  as_generation : Generation;
  as_sequence : Sequence;
  as_issued : Step;
  as_valid_until : Step;
  as_attestations : Z
}.

Record WitnessConfig := mkWitnessConfig {
  wc_witness : WitnessId;
  wc_fault : FaultDomainId;
  wc_horizon : Z;
  wc_max_subjects : Z
}.

Record WitnessNode := mkWitness {
  wn_config : WitnessConfig;
  wn_sessions : list SessionBinding;
  wn_next_session : SessionId;
  wn_next_incarnation : IncarnationId;
  wn_stopping : bool;
  wn_issued : Z;
  wn_conflicts : Z;
  wn_replays : Z;
  wn_regressions : Z;
  wn_handled : Z;
  wn_subjects : gmap (bytes * bytes) AttestedSubject;
  wn_last : Sequence;
  wn_clock : StepClock
}.

(** A witness object as constructed. *)
Definition witness0 : WitnessNode :=
  mkWitness (mkWitnessConfig [] [] 1000 512) [] 0 0 false 0 0 0 0 0 ∅ 0 (mkStepClock 0).

Definition set_wconfig (c : WitnessConfig) (n : WitnessNode) : WitnessNode :=
  mkWitness c (wn_sessions n) (wn_next_session n) (wn_next_incarnation n) (wn_stopping n)
    (wn_issued n) (wn_conflicts n) (wn_replays n) (wn_regressions n) (wn_handled n)
    (wn_subjects n) (wn_last n) (wn_clock n).
Definition set_wsessions (l : list SessionBinding) (s : SessionId) (i : IncarnationId)
    (n : WitnessNode) : WitnessNode :=
  mkWitness (wn_config n) l s i (wn_stopping n) (wn_issued n) (wn_conflicts n) (wn_replays n)
    (wn_regressions n) (wn_handled n) (wn_subjects n) (wn_last n) (wn_clock n).
Definition set_wstopping (b : bool) (n : WitnessNode) : WitnessNode :=
  mkWitness (wn_config n) (wn_sessions n) (wn_next_session n) (wn_next_incarnation n) b
    (wn_issued n) (wn_conflicts n) (wn_replays n) (wn_regressions n) (wn_handled n)
    (wn_subjects n) (wn_last n) (wn_clock n).
Definition set_wcounts (issued conflicts regressions handled : Z) (n : WitnessNode) : WitnessNode :=
  mkWitness (wn_config n) (wn_sessions n) (wn_next_session n) (wn_next_incarnation n)
    (wn_stopping n) issued conflicts (wn_replays n) regressions handled
    (wn_subjects n) (wn_last n) (wn_clock n).
Definition set_wmemory (m : gmap (bytes * bytes) AttestedSubject) (last : Sequence)
    (n : WitnessNode) : WitnessNode :=
  mkWitness (wn_config n) (wn_sessions n) (wn_next_session n) (wn_next_incarnation n)
    (wn_stopping n) (wn_issued n) (wn_conflicts n) (wn_replays n) (wn_regressions n)
    (wn_handled n) m last (wn_clock n).
Definition set_wclock (c : StepClock) (n : WitnessNode) : WitnessNode :=
  mkWitness (wn_config n) (wn_sessions n) (wn_next_session n) (wn_next_incarnation n)
    (wn_stopping n) (wn_issued n) (wn_conflicts n) (wn_replays n) (wn_regressions n)
    (wn_handled n) (wn_subjects n) (wn_last n) c.

Definition count_issued (n : WitnessNode) : WitnessNode :=
  set_wcounts (u64 (wn_issued n + 1)) (wn_conflicts n) (wn_regressions n) (wn_handled n) n.
Definition count_conflict (n : WitnessNode) : WitnessNode :=
  set_wcounts (wn_issued n) (u64 (wn_conflicts n + 1)) (wn_regressions n) (wn_handled n) n.
Definition count_regression (n : WitnessNode) : WitnessNode :=
  set_wcounts (wn_issued n) (wn_conflicts n) (u64 (wn_regressions n + 1)) (wn_handled n) n.
Definition count_chunk (n : WitnessNode) : WitnessNode :=
  set_wcounts (wn_issued n) (wn_conflicts n) (wn_regressions n) (u64 (wn_handled n + 1)) n.

(** ** Configuration and lifecycle *)

Definition configure (c : WitnessConfig) (n : WitnessNode) : WitnessNode * Status :=
  if id_empty (wc_witness c) || id_empty (wc_fault c)
  then (n, fail0 Outcome.Invalid Reason.EmptyValue)
  else if (wc_horizon c =? 0) || (kMaxLeaseHorizonSteps <? wc_horizon c)
  then (n, mkStatus Outcome.Invalid Reason.ValueOutOfRange (wc_horizon c))
  else if (wc_max_subjects c =? 0) || (65536 <? wc_max_subjects c)
  then (n, mkStatus Outcome.Invalid Reason.ValueOutOfRange (wc_max_subjects c))
  else (set_wconfig c n, status_ok).

(** Whether the accept loop runs afterwards; the object is not yet running. *)
Definition start (n : WitnessNode) : WitnessNode * bool :=
  let n := set_wstopping false n in
  let (c, ok) := clock_advance (wn_clock n) 1 in
  (set_wclock c n, ok).

(** ** [attest] *)

Definition subject_key (domain : DomainId) (scope : Digest256) : bytes * bytes :=
  (domain, Digest256_hex scope).

(** A refusal carries no statement. *)
Definition refusal (st : Status) : AttestResponse := mkAttestResponse st attestation0.

(** What the memory of the subject holds against the request. *)
Definition objection (q : AttestRequest) (n : WitnessNode) (known : option AttestedSubject)
  : option (WitnessNode * Status) :=
  match known with
  | Some s =>
      if tq_epoch q <? as_epoch s
      then Some (count_regression n, mkStatus Outcome.Stale Reason.EpochRegression (as_epoch s))
      else if (tq_epoch q =? as_epoch s) && negb (as_incarnation s =? tq_incarnation q)
      then Some (count_conflict n,
                 mkStatus Outcome.Conflict Reason.ConflictingAttestations (as_incarnation s))
      else if (tq_epoch q =? as_epoch s) && negb (tq_fence_token q =? as_token s)
      then Some (count_conflict n,
                 mkStatus Outcome.Conflict Reason.FenceTokenRegressed (as_token s))
      else None
  | None =>
      if wc_max_subjects (wn_config n) <=? Z.of_nat (size (wn_subjects n))
      then Some (n, mkStatus Outcome.Exhausted Reason.BoundedTableFull
                      (Z.of_nat (size (wn_subjects n))))
      else None
  end.

(** The memory after a statement, and the statement. *)
Definition next_subject (q : AttestRequest) (n : WitnessNode) (known : option AttestedSubject)
    (sequence : Sequence) : AttestedSubject :=
  mkSubject (tq_subject_domain q) (scope_digest (tq_subject_scope q)) (tq_epoch q)
    (tq_incarnation q) (tq_fence_token q)
    (match known with Some s => u64 (as_generation s + 1) | None => 1 end) sequence
    (tq_requester_step q) (u64 (tq_requester_step q + wc_horizon (wn_config n)))
    (match known with Some s => u64 (as_attestations s + 1) | None => 1 end).

Definition statement (q : AttestRequest) (n : WitnessNode) (s : AttestedSubject)
  : WitnessAttestation :=
  mkAttestation (wc_witness (wn_config n)) (tq_subject_domain q)
    (scope_digest (tq_subject_scope q)) (tq_epoch q) (tq_incarnation q) (tq_fence_token q)
    (as_generation s) (tq_policy_generation q) (as_issued s) (as_valid_until s) (as_sequence s)
    true (tq_requested_at q).

Definition attest (q : AttestRequest) (n : WitnessNode) : WitnessNode * AttestResponse :=
  if id_empty (tq_subject_domain q)
  then (n, refusal (fail0 Outcome.Invalid Reason.DomainNotRegistered))
  else if scope_empty (tq_subject_scope q)
  then (n, refusal (fail0 Outcome.Invalid Reason.EmptyExtentSet))
  else if is_none (tq_epoch q) || is_none (tq_incarnation q) || is_none (tq_fence_token q)
  then (n, refusal (fail0 Outcome.Invalid Reason.ValueOutOfRange))
  else if is_none (tq_requester_step q)
  then (n, refusal (fail0 Outcome.Unknown Reason.ValueOutOfRange))
  else
    let (c, ok) := clock_advance (wn_clock n) 1 in
    let n := set_wclock c n in
    if negb ok then (n, refusal (fail0 Outcome.Exhausted Reason.CounterOverflow))
    else
      let key := subject_key (tq_subject_domain q) (scope_digest (tq_subject_scope q)) in
      let known := wn_subjects n !! key in
      match objection q n known with
      | Some (n, st) => (n, refusal st)
      | None =>
          if wn_last n =? u64_max
          then (n, refusal (fail0 Outcome.Exhausted Reason.CounterOverflow))
          else
            let sequence := u64 (wn_last n + 1) in
            let s := next_subject q n known sequence in
            (count_issued (set_wmemory (<[key := s]> (wn_subjects n)) sequence n),
             mkAttestResponse status_ok (statement q n s))
      end.

(** ** The worker of a connection *)

Definition hello_response (n : WitnessNode) (st : Status) (b : SessionBinding) : HelloResponse :=
  if is_ok st
  then mkHelloResponse status_ok (sb_session b) (sb_boot b) (sb_incarnation b) kFrameVersion
         (wc_witness (wn_config n)) 1
  else mkHelloResponse st 0 0 0 kFrameVersion (wc_witness (wn_config n)) 0.

(** The handshake: the session is entered in a list nothing is removed from. *)
Definition witness_handshake (q : HelloRequest) (b : SessionBinding) (n : WitnessNode)
  : WitnessNode * SessionBinding * Status :=
  if negb (hq_client_protocol q =? kFrameVersion)
  then (n, b, mkStatus Outcome.Unsupported Reason.UnsupportedVersion (hq_client_protocol q))
  else if kMaxSessions <=? zlen (wn_sessions n)
  then (n, b, fail0 Outcome.Exhausted Reason.BoundedTableFull)
  else
    let session := (try_increment (wn_next_session n) 1).1 in
    let incarnation := (try_increment (wn_next_incarnation n) 1).1 in
    let b := mkBinding session (hq_node q) incarnation incarnation (hq_kind q) 0 0 in
    (set_wsessions (wn_sessions n ++ [b]) session incarnation n, b, status_ok).

Definition witness_hello (f : Frame) (b : SessionBinding) (stop : bool) (n : WitnessNode)
  : WitnessNode * SessionBinding * bool * Reply :=
  if negb (bool_decide (fh_type (fr_header f) = MessageType.HelloRequest))
  then (n, b, true, (MessageType.ErrorResponse, []))
  else
    let '(n, b, st) :=
      match decode_all r_hq (fr_payload f) with
      | Err st => (n, b, st)
      | Ret q => witness_handshake q b n
      end in
    (n, b, if is_ok st then stop else true,
     (MessageType.HelloResponse, encode_hp (hello_response n st b))).

Definition witness_attest (f : Frame) (b : SessionBinding) (stop : bool) (n : WitnessNode)
  : WitnessNode * bool * Reply :=
  let '(n, r) :=
    match decode_all r_tq (fr_payload f) with
    | Err st => (n, refusal st)
    | Ret q =>
        let st := validate_against (tq_envelope q) b in
        if negb (is_ok st) then (n, refusal st) else attest q n
    end in
  (n, if is_ok (tp_status r) then stop else bool_decide (reason (tp_status r) = Reason.SessionMismatch),
   (MessageType.AttestResponse, encode_tp r)).

Definition witness_status (payload : bytes) (n : WitnessNode) : WitnessStatusResponse :=
  match decode_all r_wq payload with
  | Ret _ =>
      mkWitnessStatusResponse status_ok (wc_witness (wn_config n)) (wc_fault (wn_config n))
        (Z.of_nat (size (wn_subjects n))) (wn_last n) (wn_issued n) (wn_conflicts n)
        (wn_replays n) (wn_regressions n) (clock_now (wn_clock n))
  | Err st =>
      mkWitnessStatusResponse st [] [] 0 0 (wn_issued n) (wn_conflicts n) (wn_replays n)
        (wn_regressions n) 0
  end.

(** The binding once a request id is taken. *)
Definition take_request (id : RequestId) (b : SessionBinding) : SessionBinding :=
  mkBinding (sb_session b) (sb_node b) (sb_boot b) (sb_incarnation b) (sb_kind b) id
    (sb_accepted_requests b).

Definition witness_request (f : Frame) (b : SessionBinding) (stop : bool) (n : WitnessNode)
  : WitnessNode * SessionBinding * bool * Reply :=
  let id := fh_request_id (fr_header f) in
  if id <=? sb_last_request b
  then (n, b, true,
        error_reply (mkStatus Outcome.Invalid Reason.RequestIdRegression id)
          (str "request id must strictly increase"))
  else
    let b := take_request id b in
    match fh_type (fr_header f) with
    | MessageType.AttestRequest =>
        let '(n, stop, reply) := witness_attest f b stop n in (n, b, stop, reply)
    | MessageType.WitnessStatusRequest =>
        (n, b, stop, (MessageType.WitnessStatusResponse, encode_wp (witness_status (fr_payload f) n)))
    | _ =>
        (n, b, stop, error_reply (fail0 Outcome.Unsupported Reason.InvalidEnum)
                       (str "unsupported message type"))
    end.

Definition witness_frame (f : Frame) (b : SessionBinding) (stop : bool) (n : WitnessNode)
  : WitnessNode * SessionBinding * bool * Reply :=
  if is_none (sb_session b) then witness_hello f b stop n else witness_request f b stop n.

(** The loop over a chunk's frames; [wrote] says which replies were written. *)
Fixpoint witness_frames (wrote : list bool) (fs : list Frame) (b : SessionBinding) (stop : bool)
    (n : WitnessNode) : WitnessNode * SessionBinding * bool * list bytes :=
  match fs with
  | [] => (n, b, stop, [])
  | f :: fs =>
      let '(n, b, stop, reply) := witness_frame f b stop n in
      if negb (default true (head wrote)) then (n, b, true, [])
      else
        let '(n, b, stop, rest) := witness_frames (tail wrote) fs b stop n in
        (n, b, stop, encode_frame (reply_frame (fh_request_id (fr_header f)) reply) :: rest)
  end.

Definition witness_chunk (wrote : list bool) (chunk : bytes) (c : Connection) (n : WitnessNode)
  : WitnessNode * Connection * list bytes :=
  let '(d, frames, st) := push (cn_decoder c) chunk in
  if negb (is_ok st) then (n, mkConnection d (cn_binding c) false, [])
  else
    let '(n, b, stop, out) := witness_frames wrote frames (cn_binding c) false n in
    let n := count_chunk n in
    (n, mkConnection d b (negb (stop || wn_stopping n)), out).

(** ** A run of a witness, and what it said *)

(** What neither the counters nor the sessions can change. *)
Definition memory (n : WitnessNode) := (wn_config n, wn_subjects n, wn_last n).

(** A turn of the service: a request for a statement, answered or refused, or
    something that leaves its memory alone. *)
Inductive answers (n : WitnessNode) : WitnessNode → option WitnessAttestation → Prop :=
  | answers_statement q n' r : attest q n = (n', r) → is_ok (tp_status r) = true →
      answers n n' (Some (tp_attestation r))
  | answers_refusal q n' r : attest q n = (n', r) → is_ok (tp_status r) = false → answers n n' None
  | answers_other n' : memory n' = memory n → answers n n' None.

(** [issues n h]: a witness configured and run to the state [n] has made the
    statements [h], oldest first. *)
Inductive issues : WitnessNode → list WitnessAttestation → Prop :=
  | issues_configured c n : configure c witness0 = (n, status_ok) → issues n []
  | issues_answer n h n' o : issues n h → answers n n' o →
      issues n' (h ++ match o with Some a => [a] | None => [] end).

(** ** One statement *)

(** What a subject's memory lets the witness say next. *)
Definition follows (s : AttestedSubject) (e : Epoch) (i : IncarnationId) (t : FenceToken) : Prop :=
  as_epoch s <= e ∧ (as_epoch s = e → as_incarnation s = i ∧ as_token s = t).

Definition key_of (a : WitnessAttestation) : bytes * bytes := subject_key (at_domain a) (at_scope a).

Lemma objection_None q n known : objection q n known = None →
  ∀ s, known = Some s → follows s (tq_epoch q) (tq_incarnation q) (tq_fence_token q).
Proof.
  intros H s ->. unfold objection in H. destruct (Z.ltb_spec (tq_epoch q) (as_epoch s)); [done|].
  destruct (Z.eqb_spec (tq_epoch q) (as_epoch s)); simpl in H; [|by split; [lia|]].
  destruct (Z.eqb_spec (as_incarnation s) (tq_incarnation q)); [|done]. simpl in H.
  by destruct (Z.eqb_spec (tq_fence_token q) (as_token s)).
Qed.

Lemma objection_memory q n known n' st : objection q n known = Some (n', st) →
  memory n' = memory n ∧ is_ok st = false ∧ wn_sessions n' = wn_sessions n.
Proof.
  unfold objection. destruct known as [s|]; [|by destruct (_ <=? _); [intros [= <- <-]|]].
  destruct (_ <? _); [by intros [= <- <-]|]. destruct (_ && _); [by intros [= <- <-]|].
  by destruct (_ && _); [intros [= <- <-]|].
Qed.

(** A refusal leaves the memory as it was; a statement is remembered. *)
Inductive attested (q : AttestRequest) (n n' : WitnessNode) (r : AttestResponse) : Prop :=
  | attested_not : is_ok (tp_status r) = false → memory n' = memory n → attested q n n' r
  | attested_statement s : tp_status r = status_ok → wn_last n ≠ u64_max →
      wn_config n' = wn_config n → wn_last n' = u64 (wn_last n + 1) →
      as_sequence s = wn_last n' → as_epoch s = tq_epoch q → as_incarnation s = tq_incarnation q →
      as_token s = tq_fence_token q → wn_subjects n' = <[key_of (tp_attestation r) := s]> (wn_subjects n) →
      (∀ s0, wn_subjects n !! key_of (tp_attestation r) = Some s0 →
         follows s0 (tq_epoch q) (tq_incarnation q) (tq_fence_token q)) →
      tp_attestation r = statement q n s → attested q n n' r.

Lemma attest_attested q n n' r : attest q n = (n', r) → attested q n n' r.
Proof.
  unfold attest. destruct (id_empty _); [by intros [= <- <-]; apply attested_not|].
  destruct (scope_empty _); [by intros [= <- <-]; apply attested_not|].
  destruct (_ || _); [by intros [= <- <-]; apply attested_not|].
  destruct (is_none _); [by intros [= <- <-]; apply attested_not|].
  destruct (clock_advance _ _) as [c ok]. destruct ok; cbn [negb]; [|by intros [= <- <-]; apply attested_not].
  set (n0 := set_wclock c n). destruct (objection q n0 _) as [[n1 st]|] eqn:Eo.
  { intros [= <- <-]. apply objection_memory in Eo as (Em & Es & _). by apply attested_not. }
  destruct (Z.eqb_spec (wn_last n0) u64_max); [by intros [= <- <-]; apply attested_not|].
  set (s := next_subject _ _ _ _). intros [= <- <-].
  apply (attested_statement _ _ _ _ s); try done. intros s0 Hs0. by apply (objection_None _ _ _ Eo).
Qed.

(** ** The order of what a witness says *)

(** Sequences grow; and about one subject the epoch never goes back, and within
    an epoch neither the incarnation nor the token ever changes. *)
Definition consistent (a b : WitnessAttestation) : Prop :=
  at_sequence a < at_sequence b ∧
  (at_domain a = at_domain b → at_scope a = at_scope b →
   at_epoch a <= at_epoch b ∧
   (at_epoch a = at_epoch b → at_incarnation a = at_incarnation b ∧ at_token a = at_token b)).

Record remembers (n : WitnessNode) (h : list WitnessAttestation) : Prop := {
  rm_last : is_u64 (wn_last n);
  rm_own : ∀ a, a ∈ h → at_witness a = wc_witness (wn_config n) ∧ at_sequence a <= wn_last n;
  rm_known : ∀ a, a ∈ h → ∃ s, wn_subjects n !! key_of a = Some s ∧
    at_epoch a <= as_epoch s ∧
    (at_epoch a = as_epoch s → at_incarnation a = as_incarnation s ∧ at_token a = as_token s);
  rm_order : StronglySorted consistent h
}.

Lemma remembers_memory n n' h : memory n' = memory n → remembers n h → remembers n' h.
Proof.
  intros E [H1 H2 H3 H4]. unfold memory in E. injection E as E1 E2 E3.
  split; rewrite ?E1, ?E2, ?E3; done.
Qed.

Lemma StronglySorted_snoc {A} (R : A → A → Prop) l x :
  StronglySorted R l → (∀ y, y ∈ l → R y x) → StronglySorted R (l ++ [x]).
Proof.
  intros Hl Hx. apply StronglySorted_app. split_and!; [|done|by repeat constructor].
  intros y z Hy ->%list_elem_of_singleton. auto.
Qed.

Lemma issues_remembers n h : issues n h → remembers n h.
Proof.
  induction 1 as [c n E|n h n' o _ IH Ha].
  { unfold configure in E. destruct (_ || _); [done|]. destruct (_ || _); [done|].
    destruct (_ || _); [done|]. injection E as <-. split; cbn; [unfold is_u64; lia|..|constructor];
      by intros ? ?%elem_of_nil. }
  destruct Ha as [q n' r Eq Hok|q n' r Eq Hok|n' Em]; [|rewrite app_nil_r..].
  2: { apply attest_attested in Eq as [_ Em|s Es]; [by eapply remembers_memory|].
       by rewrite Es in Hok. }
  2: by eapply remembers_memory.
  apply attest_attested in Eq as [Hf _|s _ Hmax Ec El Esq Ee Ei Et Em Hf Er]; [congruence|].
  destruct IH as [H1 H2 H3 H4]. rewrite u64_id in El by (unfold is_u64, u64_max in *; lia).
  assert (Ka : at_sequence (tp_attestation r) = wn_last n + 1 ∧
    at_witness (tp_attestation r) = wc_witness (wn_config n) ∧
    at_epoch (tp_attestation r) = tq_epoch q ∧ at_incarnation (tp_attestation r) = tq_incarnation q ∧
    at_token (tp_attestation r) = tq_fence_token q).
  { rewrite Er. cbn. by rewrite Esq, El. }
  destruct Ka as (A1 & A2 & A3 & A4 & A5). split.
  - rewrite El. unfold is_u64, u64_max in *. lia.
  - intros a [Ha| ->%list_elem_of_singleton]%elem_of_app; rewrite Ec, El; [|rewrite A1, A2; split; [done|lia]].
    destruct (H2 a Ha). split; [done|lia].
  - intros a Ha. rewrite Em. destruct (decide (key_of a = key_of (tp_attestation r))) as [Ek|Ek].
    + rewrite Ek, lookup_insert_eq. exists s. split; [done|]. rewrite Ee, Ei, Et.
      apply elem_of_app in Ha as [Ha| ->%list_elem_of_singleton]; [|rewrite A3, A4, A5; split; [lia|done]].
      destruct (H3 a Ha) as (s0 & Es0 & Hle & Heq). rewrite Ek in Es0. destruct (Hf s0 Es0) as [F1 F2].
      split; [lia|]. intros E. destruct Heq as [-> ->]; [lia|]. apply F2. lia.
    + rewrite lookup_insert_ne by done. apply H3.
      by apply elem_of_app in Ha as [Ha| ->%list_elem_of_singleton].
  - apply StronglySorted_snoc; [done|]. intros a Ha. split.
    + rewrite A1. destruct (H2 a Ha). lia.
    + intros Ed Esc. destruct (H3 a Ha) as (s0 & Es0 & Hle & Heq).
      assert (Ek : key_of a = key_of (tp_attestation r)) by (unfold key_of; by rewrite Ed, Esc).
      rewrite Ek in Es0. destruct (Hf s0 Es0) as [F1 F2]. rewrite A3, A4, A5.
      split; [lia|]. intros E. destruct Heq as [-> ->]; [lia|]. apply F2. lia.
Qed.

Lemma sorted_pair {A} (R : A → A → Prop) l a b : StronglySorted R l → a ∈ l → b ∈ l →
  a = b ∨ R a b ∨ R b a.
Proof.
  induction 1 as [|x l _ IH Hx]; [by intros ?%elem_of_nil|]. rewrite Forall_forall in Hx.
  intros [->|Ha]%elem_of_cons [->|Hb]%elem_of_cons; auto.
Qed.

(** ** Frames are turns *)

Lemma handshake_parts q b n : let n' := (witness_handshake q b n).1.1 in
  memory n' = memory n ∧ wn_sessions n `prefix_of` wn_sessions n'.
Proof.
  unfold witness_handshake. destruct (negb _); [done|]. destruct (_ <=? _); [done|].
  split; [done|]. by apply prefix_app_r.
Qed.

Lemma hello_parts f b stop n : let n' := (witness_hello f b stop n).1.1.1 in
  memory n' = memory n ∧ wn_sessions n `prefix_of` wn_sessions n'.
Proof.
  unfold witness_hello. destruct (negb _); [done|].
  destruct (decode_all _ _) as [q|st]; [|done]. pose proof (handshake_parts q b n) as H.
  destruct (witness_handshake q b n) as [[n1 b1] st]. exact H.
Qed.

Lemma attest_sessions q n : wn_sessions (attest q n).1 = wn_sessions n.
Proof.
  unfold attest. destruct (id_empty _); [done|]. destruct (scope_empty _); [done|].
  destruct (_ || _); [done|]. destruct (is_none _); [done|].
  destruct (clock_advance _ _) as [c ok]. destruct ok; cbn [negb]; [|done].
  destruct (objection _ _ _) as [[n1 st]|] eqn:Eo; [by apply objection_memory in Eo as (_ & _ & ?)|].
  by destruct (_ =? _).
Qed.

Lemma witness_attest_answers f b stop n n' stop' reply :
  witness_attest f b stop n = (n', stop', reply) → ∃ o, answers n n' o.
Proof.
  unfold witness_attest. destruct (decode_all r_tq (fr_payload f)) as [q|st].
  2: { intros [= <- _ _]. exists None. by apply answers_other. }
  destruct (is_ok (validate_against _ _)); cbn [negb].
  2: { intros [= <- _ _]. exists None. by apply answers_other. }
  destruct (attest q n) as [n1 r] eqn:E. intros [= <- _ _].
  destruct (is_ok (tp_status r)) eqn:Ok; eexists; [by eapply answers_statement|by eapply answers_refusal].
Qed.

Lemma frame_answers f b stop n n' b' stop' reply :
  witness_frame f b stop n = (n', b', stop', reply) → ∃ o, answers n n' o.
Proof.
  unfold witness_frame. destruct (is_none _).
  - intros H. exists None. apply answers_other. destruct (hello_parts f b stop n) as [Hm _].
    by rewrite H in Hm.
  - unfold witness_request. destruct (_ <=? _).
    { intros [= <- _ _ _]. exists None. by apply answers_other. }
    destruct (fh_type (fr_header f)) eqn:Et;
      try (intros [= <- _ _ _]; exists None; by apply answers_other).
    destruct (witness_attest _ _ _ _) as [[n1 s1] r1] eqn:E. intros [= <- _ _ _].
    by eapply witness_attest_answers.
Qed.

Lemma frames_issue fs : ∀ wrote b stop n n' b' stop' out h, issues n h →
  witness_frames wrote fs b stop n = (n', b', stop', out) → ∃ l, issues n' (h ++ l).
Proof.
  induction fs as [|f fs IH]; intros wrote b stop n n' b' stop' out h Hi; simpl.
  { intros [= <- _ _ _]. exists []. by rewrite app_nil_r. }
  destruct (witness_frame f b stop n) as [[[n1 b1] s1] r1] eqn:E.
  destruct (frame_answers _ _ _ _ _ _ _ _ E) as [o Ho].
  pose proof (issues_answer _ _ _ _ Hi Ho) as H1.
  destruct (negb _); [intros [= <- _ _ _]; by eexists|].
  destruct (witness_frames _ fs b1 s1 n1) as [[[n2 b2] s2] out2] eqn:E2. intros [= <- _ _ _].
  destruct (IH _ _ _ _ _ _ _ _ _ H1 E2) as [l Hl]. rewrite <-app_assoc in Hl. by eexists.
Qed.

(** A run continues through whatever a connection sends. *)
Lemma chunk_issues wrote chunk c n n' c' out h : issues n h →
  witness_chunk wrote chunk c n = (n', c', out) → ∃ l, issues n' (h ++ l).
Proof.
  intros Hi. unfold witness_chunk. destruct (push _ _) as [[d frames] st].
  destruct (is_ok st); cbn [negb]; [|intros [= <- _ _]; exists []; by rewrite app_nil_r].
  destruct (witness_frames _ _ _ _ _) as [[[n1 b1] s1] out1] eqn:E. intros [= <- _ _].
  destruct (frames_issue _ _ _ _ _ _ _ _ _ _ Hi E) as [l Hl]. exists l.
  rewrite <-(app_nil_r (h ++ l)). eapply (issues_answer _ _ _ None); [exact Hl|by apply answers_other].
Qed.

(** A frame never removes a session. *)
Lemma frame_sessions f b stop n n' b' stop' reply :
  witness_frame f b stop n = (n', b', stop', reply) → wn_sessions n `prefix_of` wn_sessions n'.
Proof.
  unfold witness_frame. destruct (is_none _).
  - intros H. destruct (hello_parts f b stop n) as [_ Hp]. by rewrite H in Hp.
  - unfold witness_request. destruct (_ <=? _); [by intros [= <- _ _ _]|].
    destruct (fh_type (fr_header f)); try (by intros [= <- _ _ _]).
    unfold witness_attest. destruct (decode_all _ _) as [q|st]; [|by intros [= <- _ _ _]].
    destruct (negb _); [by intros [= <- _ _ _]|]. pose proof (attest_sessions q n) as Ha.
    destruct (attest q n) as [n1 r]. cbn in Ha. intros [= <- _ _ _]. by rewrite Ha.
Qed.

Module Witnessing.

(** What a witness says is consistent. In any run, whatever frames arrive on
    whatever connections, its statements carry growing sequences, and about one
    domain and scope the epoch never goes back, and within an epoch the witness
    never speaks for a second incarnation or another token. *)
Theorem statements_consistent (n : WitnessNode) (h h1 h2 h3 : list WitnessAttestation)
    (a b : WitnessAttestation) :
  issues n h → h = h1 ++ a :: h2 ++ b :: h3 →
  at_witness a = at_witness b ∧ at_sequence a < at_sequence b ∧
  (at_domain a = at_domain b → at_scope a = at_scope b →
   at_epoch a <= at_epoch b ∧
   (at_epoch a = at_epoch b → at_incarnation a = at_incarnation b ∧ at_token a = at_token b)).
Proof.
  intros Hi ->. destruct (issues_remembers _ _ Hi) as [_ Hown _ Hs].
  apply StronglySorted_app in Hs as (_ & _ & Hs). apply StronglySorted_cons in Hs as [Ha _].
  rewrite Forall_forall in Ha. destruct (Ha b) as [H1 H2]; [set_solver|].
  destruct (Hown a) as [E1 _]; [set_solver|]. destruct (Hown b) as [E2 _]; [set_solver|].
  split; [congruence|]. by split.
Qed.

(** C3: No split brain. Let two requests for one domain, scope and epoch be decided
    under one policy whose quorums intersect, on views that may otherwise differ
    in every way, with evidence in which every statement signed by a witness of
    the profile is one that a single run of that witness made. If both are
    authoritative they are for the same incarnation and the same fence token. *)
Theorem split_brain_prevented (p : ArbiterPolicy) (r1 r2 : AuthorityRequest) (v1 v2 : ArbiterView) :
  intersecting (ap_quorum p) → vw_policy v1 = Some p → vw_policy v2 = Some p →
  rq_domain r1 = rq_domain r2 → rq_scope r1 = rq_scope r2 → rq_epoch r1 = rq_epoch r2 →
  (∀ w, w ∈ profile_witnesses (ap_quorum p) → ∃ n h, issues n h ∧
     ∀ a, a ∈ eb_attestations (rq_evidence r1) ++ eb_attestations (rq_evidence r2) →
       at_witness a = w → a ∈ h) →
  ad_verdict (decide_authority r1 v1) = Authoritative →
  ad_verdict (decide_authority r2 v2) = Authoritative →
  rq_incarnation r1 = rq_incarnation r2 ∧ rq_token r1 = rq_token r2.
Proof.
  intros Hq P1 P2 Ed Es Ee Hw A1 A2.
  apply decide_auth in A1 as (p1 & f1 & l1 & A1 & _), A2 as (p2 & f2 & l2 & A2 & _).
  destruct (ap_view _ _ _ _ _ A1) as [Q1 _], (ap_view _ _ _ _ _ A2) as [Q2 _]. simplify_eq.
  destruct (common_witness _ _ _ _ _ _ _ Hq (ap_current _ _ _ _ _ A1) (ap_current _ _ _ _ _ A2))
    as (a1 & a2 & H1 & H2 & Ew & Hin & _ & _ & B1 & B2).
  destruct (Hw _ Hin) as (n & h & Hi & Hh). destruct (issues_remembers _ _ Hi) as [_ _ _ Hs].
  assert (M1 : a1 ∈ h) by (apply Hh; [set_solver|done]).
  assert (M2 : a2 ∈ h) by (apply Hh; [set_solver|done]).
  destruct B1 as (S1 & D1 & E1 & I1 & T1 & _), B2 as (S2 & D2 & E2 & I2 & T2 & _). cbn in *.
  destruct (sorted_pair _ _ _ _ Hs M1 M2) as [->|[[_ C]|[_ C]]]; [split; congruence|..];
    (destruct C as [_ C]; [congruence|congruence|]; destruct C as [C1 C2]; [congruence|]);
    split; congruence.
Qed.

(** Sessions run out for good. A closed connection does not give its session
    back, so once the table is full every later handshake is refused, whatever
    happens in between. *)
Theorem sessions_run_out (n n' : WitnessNode) (b : SessionBinding) (q : HelloRequest) :
  kMaxSessions <= zlen (wn_sessions n) →
  rtc (λ n n', ∃ f b stop b' stop' reply, witness_frame f b stop n = (n', b', stop', reply)) n n' →
  is_ok (witness_handshake q b n').2 = false ∧ (witness_handshake q b n').1.1 = n'.
Proof.
  intros Hn Hr. assert (H : zlen (wn_sessions n) <= zlen (wn_sessions n')).
  { induction Hr as [|n n1 n' (f & c & stop & c' & stop' & reply & E) _ IH]; [lia|].
    apply frame_sessions, prefix_length in E. unfold zlen in *. lia. }
  unfold witness_handshake. destruct (negb _); [done|]. by rewrite (proj2 (Z.leb_le _ _)) by lia.
Qed.

(** ** Three witnesses asked about one incarnation *)

Definition demo_config (w : string) : WitnessConfig := mkWitnessConfig (str w) (str "rack") 1000 512.
Definition demo_witness (w : string) : WitnessNode := (configure (demo_config w) witness0).1.
Definition question (epoch : Epoch) (incarnation : IncarnationId) : AttestRequest :=
  mkAttestRequest (mkEnvelope 1 (str "node") 1 1) (str "d") Decisions.demo_scope epoch incarnation 9 1
    40 wallclock0.
Definition answered (w : string) : WitnessNode * AttestResponse := attest (question 4 7) (demo_witness w).
Definition said (w : string) : WitnessAttestation := tp_attestation (answered w).2.

Lemma answered_issues w : w ∈ ["w1"; "w2"; "w3"]%string → issues (answered w).1 [said w].
Proof.
  intros Hw. change [said w] with ([] ++ [said w]).
  eapply (issues_answer (demo_witness w) [] _ (Some (said w))).
  - apply (issues_configured (demo_config w)). apply elem_of_cons in Hw as [->|Hw]; [done|].
    apply elem_of_cons in Hw as [->|Hw]; [done|]. by apply list_elem_of_singleton in Hw as ->.
  - eapply (answers_statement _ (question 4 7)); [apply surjective_pairing|].
    apply elem_of_cons in Hw as [->|Hw]; [by vm_compute|].
    apply elem_of_cons in Hw as [->|Hw]; [by vm_compute|].
    apply list_elem_of_singleton in Hw as ->. by vm_compute.
Qed.

(** A second epoch for another incarnation, after which the first is refused. *)
Definition moved : WitnessNode * AttestResponse := attest (question 5 8) (answered "w1").1.

Example moved_refuses :
  tp_status (attest (question 4 7) moved.1).2 = mkStatus Outcome.Stale Reason.EpochRegression 5 ∧
  tp_status (attest (question 5 7) moved.1).2 =
    mkStatus Outcome.Conflict Reason.ConflictingAttestations 8.
Proof. vm_compute. split; reflexivity. Qed.

Lemma statements_consistent_witness :
  issues moved.1 [said "w1"; tp_attestation moved.2] ∧
  at_sequence (said "w1") < at_sequence (tp_attestation moved.2).
Proof.
  assert (Hi : issues moved.1 [said "w1"; tp_attestation moved.2]).
  { change [said "w1"; tp_attestation moved.2] with ([said "w1"] ++ [tp_attestation moved.2]).
    eapply (issues_answer _ _ _ (Some (tp_attestation moved.2))); [apply answered_issues; left|].
    eapply (answers_statement _ (question 5 8)); [apply surjective_pairing|by vm_compute]. }
  split; [exact Hi|].
  exact (proj1 (proj2 (statements_consistent _ _ [] [] [] _ _ Hi eq_refl))).
Defined.

(** One incarnation decided twice, on quorums that share only one witness. *)
Definition demo_claim (c : string) (ws : list string) : AuthorityRequest :=
  mkRequest (str c) (str "d") Decisions.demo_scope 4 7 1 9 ExclusiveMutation 3
    (Quorum.bundle_of (map said ws)) wallclock0.
Definition first_claim := demo_claim "c" ["w1"; "w2"]%string.
Definition second_claim := demo_claim "x" ["w2"; "w3"]%string.

Lemma demo_claims_authoritative :
  ad_verdict (decide_authority first_claim (Decisions.demo_view [])) = Authoritative ∧
  ad_verdict (decide_authority second_claim (Decisions.demo_view [])) = Authoritative.
Proof. vm_compute. split; reflexivity. Qed.

Lemma demo_statements w : w ∈ ["w1"; "w2"; "w3"]%string →
  ∀ a, a ∈ eb_attestations (rq_evidence first_claim) ++ eb_attestations (rq_evidence second_claim) →
    at_witness a = str w → a ∈ [said w].
Proof.
  intros Hw a Ha Ew. assert (H : ∃ v, v ∈ ["w1"; "w2"; "w3"]%string ∧ a = said v).
  { change (a ∈ [said "w1"; said "w2"; said "w2"; said "w3"]) in Ha.
    rewrite !elem_of_cons in Ha. destruct Ha as [->|[->|[->|[->|Ha]]]]; [..|by apply elem_of_nil in Ha];
      eexists; (split; [|reflexivity]); rewrite !elem_of_cons; auto. }
  destruct H as (v & Hv & ->). rewrite !elem_of_cons, elem_of_nil in Hv, Hw.
  destruct Hv as [->|[->|[->|[]]]], Hw as [->|[->|[->|[]]]]; (left || (vm_compute in Ew; discriminate)).
Qed.

Lemma split_brain_prevented_witness :
  rq_claim first_claim ≠ rq_claim second_claim ∧ rq_token first_claim = rq_token second_claim.
Proof.
  split; [discriminate|]. destruct demo_claims_authoritative as [A1 A2].
  refine (proj2 (split_brain_prevented Decisions.demo_policy first_claim second_claim
    (Decisions.demo_view []) (Decisions.demo_view []) I eq_refl eq_refl eq_refl eq_refl eq_refl _ A1 A2)).
  intros w Hw. assert (H : ∃ v, v ∈ ["w1"; "w2"; "w3"]%string ∧ w = str v).
  { apply elem_of_list_to_set in Hw. change (w ∈ [str "w1"; str "w2"; str "w3"]) in Hw.
    rewrite !elem_of_cons, elem_of_nil in Hw. destruct Hw as [->|[->|[->|[]]]];
      eexists; (split; [|reflexivity]); rewrite !elem_of_cons; auto. }
  destruct H as (v & Hv & ->). exists (answered v).1, [said v].
  split; [by apply answered_issues|]. by apply demo_statements.
Defined.

(** A table that is full. *)
Definition full_witness : WitnessNode :=
  set_wsessions (repeat no_binding 256) 256 256 (demo_witness "w1").

Lemma sessions_run_out_witness :
  is_ok (witness_handshake (mkHelloRequest (str "node") Coordinator kFrameVersion) no_binding full_witness).2
    = false.
Proof.
  refine (proj1 (sessions_run_out full_witness full_witness no_binding _ _ (rtc_refl _ _))).
  vm_compute. discriminate.
Defined.
End Witnessing.
