(* ===== verification/Auditor.v ===== *)
(** * The offline auditor

    Models [include/sbf/audit.hpp] and [src/audit.cpp]: the check of a fabric
    effect history for mutual exclusion, and the check of a durable registry
    state.  The [std::map] of last writers and the [std::set] of owner keys are
    only searched and inserted into. *)
From S2P Require Import Prelude Order SortedVec Status Ids Text Digest Canonical Scope.
From S2P Require Import Fence Lineage Evidence Arbiter Codec Journal Fabric Registry.
Open Scope Z_scope.

Definition kMaxAuditFindings : Z := 256.

Record AuditFinding := mkFinding {
  af_outcome : Outcome;
  af_reason : Reason;
  af_subject : bytes;
  af_detail : bytes
}.

Record AuditReport := mkAudit {
  au_status : Status;
  au_outcome : Outcome;
  au_checks : Z;
  au_total : Z;
  au_findings : list AuditFinding;
  au_dropped : Z;
  au_mutations : Z;
  au_transitions : Z;
  au_owners : Z;
  au_regressions : Z;
  au_foreign : Z;
  au_escapes : Z;
  au_gaps : Z;
  au_exclusive : bool;
  au_head : Digest256;
  au_grants : Z;
  au_open : Z;
  au_epoch_regressions : Z;
  au_duplicates : Z;
  au_uninterruptible : Z
}.

(** The report both audits start from. *)
Definition audit0 : AuditReport :=
  mkAudit status_ok Outcome.Ok 0 0 [] 0 0 0 0 0 0 0 0 false Digest256_zero 0 0 0 0 0.

(** Counters incremented. *)
Inductive Counter : Set :=
  | Checks | Mutations | Transitions | Owners | Regressions | Foreign | Escapes | Gaps
  | Grants | OpenGrants | EpochRegressions | Duplicates | Uninterruptible.

#[export] Instance counter_eq_dec : EqDecision Counter.
Proof. solve_decision. Defined.

Definition bump (c : Counter) (r : AuditReport) : AuditReport :=
  let up k v := if bool_decide (c = k) then u64 (v + 1) else v in
  mkAudit (au_status r) (au_outcome r) (up Checks (au_checks r)) (au_total r) (au_findings r)
    (au_dropped r) (up Mutations (au_mutations r)) (up Transitions (au_transitions r))
    (up Owners (au_owners r)) (up Regressions (au_regressions r)) (up Foreign (au_foreign r))
    (up Escapes (au_escapes r)) (up Gaps (au_gaps r)) (au_exclusive r) (au_head r)
    (up Grants (au_grants r)) (up OpenGrants (au_open r))
    (up EpochRegressions (au_epoch_regressions r)) (up Duplicates (au_duplicates r))
    (up Uninterruptible (au_uninterruptible r)).

(** [add_finding], then [report.outcome = outcome]. *)
Definition found (o : Outcome) (why : Reason) (subject detail : bytes) (r : AuditReport)
  : AuditReport :=
  let full := kMaxAuditFindings <=? zlen (au_findings r) in
  mkAudit (au_status r) o (au_checks r) (u64 (au_total r + 1))
    (if full then au_findings r else au_findings r ++ [mkFinding o why subject detail])
    (if full then u64 (au_dropped r + 1) else au_dropped r)
    (au_mutations r) (au_transitions r) (au_owners r) (au_regressions r) (au_foreign r)
    (au_escapes r) (au_gaps r) (au_exclusive r) (au_head r) (au_grants r) (au_open r)
    (au_epoch_regressions r) (au_duplicates r) (au_uninterruptible r).

(** The verdict: the flag, the digest of the chain and the final status. *)
Definition verdict (exclusive failed : bool) (head : Digest256) (r : AuditReport) : AuditReport :=
  mkAudit
    (if failed && is_ok (au_status r)
     then mkStatus (au_outcome r) Reason.InternalInvariantViolation (au_total r)
     else au_status r)
    (au_outcome r) (au_checks r) (au_total r) (au_findings r) (au_dropped r) (au_mutations r)
    (au_transitions r) (au_owners r) (au_regressions r) (au_foreign r) (au_escapes r) (au_gaps r)
    exclusive head (au_grants r) (au_open r) (au_epoch_regressions r) (au_duplicates r)
    (au_uninterruptible r).

(** ** The effect history *)

Definition succession_precedes (earlier later : MutationRecord) : bool :=
  if negb (mr_epoch earlier =? mr_epoch later) then mr_epoch earlier <? mr_epoch later
  else if negb (mr_token earlier =? mr_token later) then mr_token earlier <? mr_token later
  else mr_grant earlier <? mr_grant later.

(** One extent of a record against the last record that wrote it. *)
Definition check_extent (m : MutationRecord) (owner : gmap ExtentId MutationRecord) (e : ExtentId)
    (r : AuditReport) : AuditReport :=
  match owner !! e with
  | None => r
  | Some prior =>
      let other := negb (mr_incarnation prior =? mr_incarnation m) in
      let r :=
        if mr_token m <? mr_token prior
        then found Outcome.Fenced Reason.TokenFloorRejected e
               (str "a mutation was appended under a token below the durable high-water mark")
               (bump Regressions r)
        else if (mr_token prior =? mr_token m) && other
        then found Outcome.Conflict Reason.StoreOwnerMismatch e
               (str "two incarnations appended under the same fence token") (bump Foreign r)
        else if other && succession_precedes m prior
        then found Outcome.Fenced Reason.EpochRegression e
               (str "authority succession went backwards for this extent") (bump Escapes r)
        else r in
      if other && negb (mr_token prior =? mr_token m) then bump Transitions r else r
  end.

Definition owner_key (m : MutationRecord) : bytes :=
  mr_domain m ++ str "/" ++ hex_u64 (mr_incarnation m) ++ str "/" ++ hex_u64 (mr_token m).

(** The variables of the loop. *)
Record AuditScan := mkAuditScan {
  sc_report : AuditReport;
  sc_chain : bytes;
  sc_owner : gmap ExtentId MutationRecord;
  sc_owners : gset bytes;
  sc_expected : Z;
  sc_previous : option MutationRecord
}.

(** The stages of the loop body, in order. *)
Definition check_sequence (m : MutationRecord) (expected : Z) (r : AuditReport) : AuditReport :=
  if negb (mr_sequence m =? expected)
  then found Outcome.Corrupt Reason.SequenceRegression (hex_u64 (mr_sequence m))
         (str "fabric log sequence is not contiguous") (bump Gaps r)
  else r.

Definition check_digest (m : MutationRecord) (r : AuditReport) : AuditReport :=
  if negb (eqb (compute_record_digest m) (mr_digest m))
  then found Outcome.Corrupt Reason.IntegrityMismatch (hex_u64 (mr_sequence m))
         (str "mutation record digest does not match its contents") r
  else r.

Definition check_owner (m : MutationRecord) (owners : gset bytes) (r : AuditReport) : AuditReport :=
  if bool_decide (owner_key m ∈ owners) then r else bump Owners r.

Definition resumes (p m : MutationRecord) : bool :=
  negb (mr_incarnation p =? mr_incarnation m) &&
  existsb (contains_extent (mr_scope p)) (mr_scope m) && succession_precedes m p.

Definition check_previous (m : MutationRecord) (previous : option MutationRecord) (r : AuditReport)
  : AuditReport :=
  match previous with
  | Some p =>
      if resumes p m
      then found Outcome.Fenced Reason.EpochRegression (hex_u64 (mr_sequence m))
             (str "a fenced authority resumed after its successor committed") (bump Escapes r)
      else r
  | None => r
  end.

Definition audit_record (x : AuditScan) (m : MutationRecord) : AuditScan :=
  let r := check_sequence m (sc_expected x) (bump Checks (sc_report x)) in
  let r := check_owner m (sc_owners x) (check_digest m r) in
  let r := foldl (λ r e, check_extent m (sc_owner x) e r) r (mr_scope m) in
  let r := check_previous m (sc_previous x) r in
  mkAuditScan (bump Mutations r) (sc_chain x ++ w_digest (mr_digest m))
    (foldl (λ o e, <[e := m]> o) (sc_owner x) (mr_scope m)) ({[owner_key m]} ∪ sc_owners x)
    (u64 (mr_sequence m + 1)) (Some m).

Definition audit_scan (records : list MutationRecord) : AuditScan :=
  foldl audit_record (mkAuditScan audit0 [] ∅ ∅ 1 None) records.

Definition audit_fabric_history (records : list MutationRecord) : AuditReport :=
  let x := audit_scan records in
  let r := sc_report x in
  let exclusive :=
    (au_regressions r =? 0) && (au_foreign r =? 0) && (au_escapes r =? 0) && (au_gaps r =? 0) in
  verdict exclusive (negb exclusive) (Digest256_of (sc_chain x)) r.

(** ** The registry state *)

(** [std::map<std::string, Epoch>::operator[]]: an absent domain starts at zero. *)
Definition top_epoch (highest : gmap DomainId Epoch) (d : DomainId) : Epoch :=
  default 0 (highest !! d).

Record GrantScan := mkGrantScan {
  gs_report : AuditReport;
  gs_ids : gset GrantId;
  gs_highest : gmap DomainId Epoch
}.

(** The stages of the loop body, in order. *)
Definition check_id (g : EpochGrant) (ids : gset GrantId) (r : AuditReport) : AuditReport :=
  if bool_decide (eg_id g ∈ ids)
  then found Outcome.Corrupt Reason.DuplicateEntry (hex_u64 (eg_id g)) (str "duplicate grant id") r
  else r.

Definition check_epoch (g : EpochGrant) (top : Epoch) (r : AuditReport) : AuditReport :=
  if eg_epoch g <? top
  then found Outcome.Stale Reason.EpochRegression (eg_domain g)
         (str "grant epoch went backwards for this domain") (bump EpochRegressions r)
  else r.

Definition check_fenced (fences : FenceTable) (g : EpochGrant) (r : AuditReport) : AuditReport :=
  if incarnation_fenced fences (eg_incarnation g)
  then found Outcome.Fenced Reason.IncarnationFenced (eg_domain g)
         (str "an open grant belongs to an incarnation that is already fenced")
         (bump Uninterruptible r)
  else r.

Definition audit_grant (fences : FenceTable) (x : GrantScan) (g : EpochGrant) : GrantScan :=
  let r := check_id g (gs_ids x) (bump Checks (gs_report x)) in
  let top := top_epoch (gs_highest x) (eg_domain g) in
  let r := check_epoch g top r in
  let r := if is_open g then check_fenced fences g (bump OpenGrants r) else r in
  mkGrantScan r ({[eg_id g]} ∪ gs_ids x) (<[eg_domain g := Z.max top (eg_epoch g)]> (gs_highest x)).

(** The two nested loops over the open grants. *)
Definition audit_pair (g : EpochGrant) (r : AuditReport) (h : EpochGrant) : AuditReport :=
  let r := bump Checks r in
  if negb (overlaps (eg_extents g) (eg_extents h)) then r
  else if eg_incarnation g =? eg_incarnation h then r
  else found Outcome.Conflict Reason.OverlappingExclusiveClaim (eg_domain g)
         (str "two open grants claim overlapping extents for different incarnations")
         (bump Duplicates r).

Fixpoint audit_pairs (r : AuditReport) (open : list EpochGrant) : AuditReport :=
  match open with
  | [] => r
  | g :: rest => audit_pairs (foldl (audit_pair g) r rest) rest
  end.

Definition audit_mark (fences : FenceTable) (g : EpochGrant) (r : AuditReport) (e : ExtentId)
  : AuditReport :=
  if eg_token g <? high_water fences e
  then found Outcome.Fenced Reason.TokenFloorRejected e
         (str "an open grant sits below the durable fence high-water mark") r
  else r.

Definition audit_marks (fences : FenceTable) (r : AuditReport) (g : EpochGrant) : AuditReport :=
  if is_open g then foldl (audit_mark fences g) (bump Checks r) (eg_extents g) else r.

(** A component's own validation. *)
Definition audit_valid (st : Status) (subject : bytes) (r : AuditReport) : AuditReport :=
  bump Checks
    (if is_ok st then r else found Outcome.Corrupt (reason st) subject (status_to_string st) r).

(** [report.grants = size]. *)
Definition with_grants (n : Z) (r : AuditReport) : AuditReport :=
  mkAudit (au_status r) (au_outcome r) (au_checks r) (au_total r) (au_findings r) (au_dropped r)
    (au_mutations r) (au_transitions r) (au_owners r) (au_regressions r) (au_foreign r)
    (au_escapes r) (au_gaps r) (au_exclusive r) (au_head r) n (au_open r)
    (au_epoch_regressions r) (au_duplicates r) (au_uninterruptible r).

Definition audit_registry_state (s : RegistryState) : AuditReport :=
  let fences := rs_fences s in
  let grants := lt_grants (rs_lineage s) in
  let r := audit_valid (fence_validate fences) (str "fence-table") audit0 in
  let r := audit_valid (lineage_validate (rs_lineage s)) (str "lineage") r in
  let r := with_grants (zlen grants) r in
  let r := gs_report (foldl (audit_grant fences) (mkGrantScan r ∅ ∅) grants) in
  let r := audit_pairs r (List.filter is_open grants) in
  let r := foldl (audit_marks fences) r grants in
  let exclusive :=
    (au_duplicates r =? 0) && (au_epoch_regressions r =? 0) && (au_uninterruptible r =? 0) in
  verdict exclusive (match au_findings r with [] => false | _ => true end) (au_head r) r.

(** ** The counters *)

(** The four counters the verdict on a history reads. *)
Definition faults (r : AuditReport) : Z :=
  au_regressions r + au_foreign r + au_escapes r + au_gaps r.

(** The three the verdict on a registry state reads. *)
Definition breaches (r : AuditReport) : Z :=
  au_duplicates r + au_epoch_regressions r + au_uninterruptible r.

(** The two of them that count overlaps and epochs out of order. *)
Definition disorder (r : AuditReport) : Z := au_duplicates r + au_epoch_regressions r.

(** No counter can have wrapped: [n] bounds what was counted so far. *)
Definition counted (n : Z) (r : AuditReport) : Prop :=
  0 <= au_regressions r ∧ 0 <= au_foreign r ∧ 0 <= au_escapes r ∧ 0 <= au_gaps r ∧
  0 <= au_duplicates r ∧ 0 <= au_epoch_regressions r ∧ 0 <= au_uninterruptible r ∧
  faults r <= n ∧ breaches r <= n.

Definition fault_of (c : Counter) : Z :=
  match c with Regressions | Foreign | Escapes | Gaps => 1 | _ => 0 end.
Definition breach_of (c : Counter) : Z :=
  match c with Duplicates | EpochRegressions | Uninterruptible => 1 | _ => 0 end.

Lemma counted_le n m r : counted n r → n <= m → counted m r.
Proof. unfold counted. intros (?&?&?&?&?&?&?&?&?) ?. split_and!; lia. Qed.
Definition disorder_of (c : Counter) : Z :=
  match c with Duplicates | EpochRegressions => 1 | _ => 0 end.

Lemma bump_counts c n r : counted n r → n < u64_max →
  faults (bump c r) = faults r + fault_of c ∧ breaches (bump c r) = breaches r + breach_of c ∧
  disorder (bump c r) = disorder r + disorder_of c ∧
  counted (n + fault_of c + breach_of c) (bump c r).
Proof.
  unfold counted, faults, breaches, disorder, u64_max. intros (?&?&?&?&?&?&?&?&?) Hn.
  assert (U : ∀ v, 0 <= v <= n → u64 (v + 1) = v + 1) by (intros; apply u64_id; unfold is_u64; lia).
  destruct c; simpl; rewrite ?U by lia; split_and!; lia.
Qed.

Lemma found_counts o why s d n r : counted n r →
  faults (found o why s d r) = faults r ∧ breaches (found o why s d r) = breaches r ∧
  counted n (found o why s d r).
Proof. done. Qed.

(** What a verdict sums up: each counter weighs into it or not. *)
Class Meter (m : AuditReport → Z) := {
  weight : Counter → Z;
  weight_bit c : 0 <= weight c <= 1;
  meter_bump c n r : counted n r → n < u64_max → m (bump c r) = m r + weight c;
  meter_found o why s d r : m (found o why s d r) = m r
}.

#[export] Instance faults_meter : Meter faults.
Proof.
  refine {| weight := fault_of |}; [by intros []| |done]. by intros; eapply bump_counts.
Defined.

#[export] Instance breaches_meter : Meter breaches.
Proof.
  refine {| weight := breach_of |}; [by intros []| |done]. by intros; eapply bump_counts.
Defined.

#[export] Instance disorder_meter : Meter disorder.
Proof.
  refine {| weight := disorder_of |}; [by intros []| |done]. by intros; eapply bump_counts.
Defined.

(** [advance m k ok r r']: going from [r] to [r'] counts at most [k] more, and
    leaves [m] as it was exactly when [ok]. *)
Definition advance (m : AuditReport → Z) (k : Z) (ok : Prop) (r r' : AuditReport) : Prop :=
  ∀ n, counted n r → n + k < u64_max → counted (n + k) r' ∧ m r <= m r' ∧ (m r' = m r ↔ ok).

Section Advance.
Context (m : AuditReport → Z) `{!Meter m}.

Lemma advance_mono k k' (ok ok' : Prop) r r' : advance m k ok r r' → k <= k' → (ok ↔ ok') →
  advance m k' ok' r r'.
Proof.
  intros H Hk Ho n Hc Hn. destruct (H n Hc ltac:(lia)) as (?&?&?).
  split_and!; [by eapply counted_le; [|apply Zplus_le_compat_l]|done|tauto].
Qed.

Lemma advance_refl r : advance m 0 True r r.
Proof. intros n Hc _. rewrite Z.add_0_r. split_and!; [done|lia|tauto]. Qed.

Lemma advance_trans k1 k2 ok1 ok2 r r' r'' : 0 <= k2 → advance m k1 ok1 r r' →
  advance m k2 ok2 r' r'' → advance m (k1 + k2) (ok1 ∧ ok2) r r''.
Proof.
  intros Hk H1 H2 n Hc Hn. destruct (H1 n Hc ltac:(lia)) as (Hc1 & ? & <-).
  destruct (H2 _ Hc1 ltac:(lia)) as (? & ? & <-). rewrite Z.add_assoc.
  split_and!; [done|lia|lia].
Qed.

Lemma advance_bump c r : advance m 1 (weight c = 0) r (bump c r).
Proof.
  intros n Hc Hn. pose proof (weight_bit (m:=m) c). rewrite (meter_bump c n) by (done || lia).
  destruct (bump_counts c n r Hc ltac:(lia)) as (_ & _ & _ & H').
  split_and!; [|lia|lia]. eapply counted_le; [exact H'|]. destruct c; simpl; lia.
Qed.

Lemma advance_found o why s d r : advance m 0 True r (found o why s d r).
Proof.
  intros n Hc _. rewrite meter_found, Z.add_0_r.
  split_and!; [by apply found_counts|lia|tauto].
Qed.

Lemma advance_case (b : bool) k ok r r1 r2 : (b = true → advance m k ok r r1) →
  (b = false → advance m k ok r r2) → advance m k ok r (if b then r1 else r2).
Proof. destruct b; auto. Qed.

Lemma advance_weigh c o why s d r : advance m 1 (weight c = 0) r (found o why s d (bump c r)).
Proof.
  eapply advance_mono; [eapply (advance_trans 1 0); [lia|apply advance_bump|apply advance_found]|..];
    [lia|tauto].
Qed.

Lemma advance_count c o why s d (ok : Prop) r : weight c = 1 → ¬ ok →
  advance m 1 ok r (found o why s d (bump c r)).
Proof.
  intros Hw Ho. eapply advance_mono; [apply advance_weigh|lia|]. rewrite Hw. split; [lia|done].
Qed.

Lemma advance_foldl {A} (f : AuditReport → A → AuditReport) (ok : A → Prop) k l r : 0 <= k →
  (∀ x r, x ∈ l → advance m k (ok x) r (f r x)) →
  advance m (k * zlen l) (∀ x, x ∈ l → ok x) r (foldl f r l).
Proof.
  intros Hk. revert r. induction l as [|x l IH]; intros r H; simpl.
  { eapply advance_mono; [apply advance_refl|unfold zlen; simpl; lia|]. set_solver. }
  pose proof (zlen_nonneg l).
  eapply advance_mono; [eapply (advance_trans k (k * zlen l)); [nia|apply H; left|]|..].
  - apply IH. intros y r' Hy. apply H. by right.
  - rewrite zlen_cons. lia.
  - split; [|set_solver]. intros [? ?] y [->|]%elem_of_cons; auto.
Qed.
End Advance.

(** ** Histories *)

(** The records that wrote an extent, in order. *)
Definition writers (e : ExtentId) (l : list MutationRecord) : list MutationRecord :=
  List.filter (λ m, bool_decide (e ∈ mr_scope m)) l.

(** The next writer of an extent has a higher token, or the same one in the
    same incarnation's hands. *)
Definition handover (p m : MutationRecord) : Prop :=
  mr_token p < mr_token m ∨ (mr_token p = mr_token m ∧ mr_incarnation p = mr_incarnation m).

(** A change of hands never lowers the epoch. *)
Definition epoch_kept (p m : MutationRecord) : Prop :=
  mr_incarnation p ≠ mr_incarnation m → mr_epoch p <= mr_epoch m.

#[export] Instance handover_trans : Transitive handover.
Proof. intros a b c. unfold handover. intros [?|[??]] [?|[??]]; lia || (right; split; congruence). Qed.

Lemma writers_snoc e l m :
  writers e (l ++ [m]) = writers e l ++ (if bool_decide (e ∈ mr_scope m) then [m] else []).
Proof. unfold writers. rewrite List.filter_app. simpl. by case_bool_decide. Qed.

Lemma Sorted_snoc {A} (R : A → A → Prop) l x :
  Sorted R (l ++ [x]) ↔ Sorted R l ∧ (∀ y, last l = Some y → R y x).
Proof.
  induction l as [|y l IH]; simpl; [split; [done|repeat constructor]|].
  destruct l as [|z l]; simpl in *.
  - split; [|intros [_ H]; repeat constructor; by apply H].
    intros [_ H%HdRel_inv]%Sorted_inv. split; [by repeat constructor|]. by intros ? [= <-].
  - split.
    + intros [Hs H%HdRel_inv]%Sorted_inv. apply IH in Hs as [Hs Hl]. split; [|done].
      constructor; [done|by constructor].
    + intros [[Hs H%HdRel_inv]%Sorted_inv Hl]. constructor; [by apply IH|by constructor].
Qed.

Lemma history_ok_writers l : history_ok l ↔ ∀ e, Sorted handover (writers e l).
Proof.
  transitivity (∀ e, StronglySorted handover (writers e l)).
  2: { split; intros H e; [apply StronglySorted_Sorted, H|].
       apply Sorted_StronglySorted; [exact handover_trans|apply H]. }
  unfold history_ok. induction l as [|m l IH]; [split; constructor|].
  assert (Hf : Forall (succeeds m) l ↔ ∀ e, e ∈ mr_scope m → Forall (handover m) (writers e l)).
  { rewrite Forall_forall. setoid_rewrite Forall_forall. unfold writers.
    setoid_rewrite elem_of_filter_true. setoid_rewrite bool_decide_eq_true.
    unfold succeeds, handover. naive_solver. }
  split.
  - intros [Hs Hm]%StronglySorted_inv e. pose proof (proj1 IH Hs e) as Hw.
    pose proof (proj1 Hf Hm e) as Hme. unfold writers in *. simpl.
    case_bool_decide; [constructor|]; auto.
  - intros H. constructor.
    + apply IH. intros e. specialize (H e). unfold writers in *. simpl in H.
      case_bool_decide; [by apply StronglySorted_inv in H as [? ?]|done].
    + apply Hf. intros e He. specialize (H e). unfold writers in *. simpl in H.
      rewrite bool_decide_true in H by done. by apply StronglySorted_inv in H as [? ?].
Qed.

(** What [check_extent] and the check against the previous record accept. *)
Definition fits (p m : MutationRecord) : Prop := handover p m ∧ epoch_kept p m.

Lemma fits_iff p m : fits p m ↔
  ¬ mr_token m < mr_token p ∧
  ¬ (mr_token p = mr_token m ∧ mr_incarnation p ≠ mr_incarnation m) ∧
  ¬ (mr_incarnation p ≠ mr_incarnation m ∧ succession_precedes m p = true).
Proof.
  unfold fits, handover, epoch_kept, succession_precedes.
  destruct (Z.eqb_spec (mr_epoch m) (mr_epoch p)), (Z.eqb_spec (mr_token m) (mr_token p)); cbn;
    rewrite ?Z.ltb_lt; destruct (Z.eq_dec (mr_incarnation p) (mr_incarnation m)); lia.
Qed.

Lemma check_extent_advance m owner e r :
  advance faults 2 (∀ p, owner !! e = Some p → fits p m) r (check_extent m owner e r).
Proof.
  unfold check_extent. destruct (owner !! e) as [p|].
  2: { eapply advance_mono; [apply advance_refl|lia|naive_solver]. }
  assert (Hf : (∀ p', Some p = Some p' → fits p' m) ↔ fits p m) by naive_solver.
  pose proof (fits_iff p m) as Hi.
  eapply advance_mono; [eapply (advance_trans _ 1 1 (fits p m) True); [lia| |]|lia|tauto].
  2: { apply advance_case; intros _; [|eapply advance_mono; [apply advance_refl|lia|done]].
     eapply advance_mono; [apply (advance_bump faults)|lia|done]. }
  apply advance_case; intros E1; [|apply advance_case; intros E2; [|apply advance_case; intros E3]].
  - apply (advance_count faults); [done|]. rewrite Hi. apply Z.ltb_lt in E1. tauto.
  - apply (advance_count faults); [done|]. rewrite Hi.
    rewrite andb_true_iff, negb_true_iff, Z.eqb_eq, Z.eqb_neq in E2. tauto.
  - apply (advance_count faults); [done|]. rewrite Hi.
    rewrite andb_true_iff, negb_true_iff, Z.eqb_neq in E3. tauto.
  - eapply advance_mono; [apply advance_refl|lia|]. split; [intros _|done]. apply Hi.
    apply Z.ltb_ge in E1. rewrite andb_false_iff, negb_false_iff, Z.eqb_eq, Z.eqb_neq in E2.
    rewrite andb_false_iff, negb_false_iff, Z.eqb_eq in E3.
    split_and!; [lia|tauto|]. intros [? E]. rewrite E in E3. naive_solver.
Qed.

Definition record_cost (m : MutationRecord) : Z := 6 + 2 * zlen (mr_scope m).

Lemma check_sequence_advance m n r :
  advance faults 1 (mr_sequence m = n) r (check_sequence m n r).
Proof.
  apply advance_case; intros E.
  - apply (advance_count faults); [done|]. by apply Z.eqb_neq, negb_true_iff.
  - eapply advance_mono; [apply advance_refl|lia|]. apply negb_false_iff, Z.eqb_eq in E. tauto.
Qed.

Lemma check_previous_advance m previous r :
  advance faults 1 (∀ p, previous = Some p → resumes p m = false) r (check_previous m previous r).
Proof.
  destruct previous as [p|]; simpl; [destruct (resumes p m) eqn:E|].
  - apply (advance_count faults); [done|]. intros H. by rewrite (H p eq_refl) in E.
  - eapply advance_mono; [apply advance_refl|lia|naive_solver].
  - eapply advance_mono; [apply advance_refl|lia|naive_solver].
Qed.

Lemma audit_record_advance x m :
  advance faults (record_cost m)
    (mr_sequence m = sc_expected x ∧ (∀ e, e ∈ mr_scope m → ∀ p, sc_owner x !! e = Some p → fits p m) ∧
     (∀ p, sc_previous x = Some p → resumes p m = false))
    (sc_report x) (sc_report (audit_record x m)).
Proof.
  unfold audit_record. cbn [sc_report]. pose proof (zlen_nonneg (mr_scope m)). eapply advance_mono.
  - eapply (advance_trans _ _ 1); [lia| |apply (advance_bump faults)].
    eapply (advance_trans _ _ 1); [lia| |apply check_previous_advance].
    eapply (advance_trans _ _ (2 * zlen (mr_scope m))); [lia| |].
    2: { apply advance_foldl; [lia|]. intros e ? _. apply (check_extent_advance m (sc_owner x) e). }
    eapply (advance_trans _ _ 1 _ True); [lia| |].
    2: { apply advance_case; intros _; [eapply advance_mono; [apply advance_refl|lia|done]|].
         eapply advance_mono; [apply (advance_bump faults)|lia|done]. }
    eapply (advance_trans _ _ 0 _ True); [lia| |].
    2: { apply advance_case; intros _; [apply (advance_found faults)|apply advance_refl]. }
    eapply (advance_trans _ 1 1); [lia|apply (advance_bump faults)|apply check_sequence_advance].
  - unfold record_cost. lia.
  - change (weight Checks) with 0. change (weight Mutations) with 0. tauto.
Qed.

(** ** The scan *)

Definition scan_cost (l : list MutationRecord) : Z := foldr (λ m n, record_cost m + n) 0 l.

Lemma scan_cost_snoc l m : scan_cost (l ++ [m]) = scan_cost l + record_cost m.
Proof. unfold scan_cost. induction l as [|x l IH]; simpl; [lia|]. rewrite IH. lia. Qed.

Lemma record_cost_pos m : 6 <= record_cost m.
Proof. unfold record_cost. pose proof (zlen_nonneg (mr_scope m)). lia. Qed.

Lemma scan_cost_length l : 6 * zlen l <= scan_cost l.
Proof.
  induction l as [|m l IH]; [unfold zlen; simpl; lia|]. rewrite zlen_cons. unfold scan_cost in *. simpl.
  pose proof (record_cost_pos m). lia.
Qed.

Lemma scan_snoc l m : audit_scan (l ++ [m]) = audit_record (audit_scan l) m.
Proof. unfold audit_scan. by rewrite foldl_app. Qed.

Lemma insert_all_lookup (m : MutationRecord) (scope : list ExtentId) (o : gmap ExtentId MutationRecord) e :
  foldl (λ o e, <[e := m]> o) o scope !! e = if decide (e ∈ scope) then Some m else o !! e.
Proof.
  revert o. induction scope as [|x scope IH]; intros o; [done|]. cbn [foldl].
  rewrite IH. destruct (decide (e ∈ scope)); [by rewrite decide_True by by right|].
  destruct (decide (x = e)) as [->|Hne].
  - rewrite lookup_insert_eq. by rewrite decide_True by left.
  - rewrite lookup_insert_ne by done. rewrite decide_False; [done|].
    by intros [->|?]%elem_of_cons.
Qed.

Lemma scan_owner l e : sc_owner (audit_scan l) !! e = last (writers e l).
Proof.
  induction l as [|m l IH] using rev_ind; [done|]. rewrite scan_snoc, writers_snoc. cbn [sc_owner audit_record].
  rewrite insert_all_lookup, IH. case_decide as He; case_bool_decide; try done.
  - by rewrite last_snoc.
  - by rewrite app_nil_r.
Qed.

Lemma scan_previous l : sc_previous (audit_scan l) = last l.
Proof. induction l as [|m l IH] using rev_ind; [done|]. by rewrite scan_snoc, last_snoc. Qed.

Lemma scan_expected l : numbered 0 l → zlen l + 1 < u64_max →
  sc_expected (audit_scan l) = zlen l + 1.
Proof.
  induction l as [|m l IH] using rev_ind; [done|]. rewrite numbered_app, zlen_app, scan_snoc.
  change (zlen [m]) with 1. intros (_ & Hm & _) Hl. cbn [sc_expected audit_record]. rewrite Hm.
  apply u64_id. unfold is_u64, u64_max in *. pose proof (zlen_nonneg l). lia.
Qed.

(** The checked order of a history. *)
Definition chain_ok (l : list MutationRecord) : Prop :=
  numbered 0 l ∧ ∀ e, Sorted fits (writers e l).

Lemma contains_extent_elem s e : contains_extent s e = true → e ∈ s.
Proof. unfold contains_extent. destruct (sv_find id e s) eqn:E; [|done]. by apply sv_find_elem in E as [? <-]. Qed.

Lemma fits_resumes l m : (∀ e, e ∈ mr_scope m → ∀ p, last (writers e l) = Some p → fits p m) →
  ∀ p, last l = Some p → resumes p m = false.
Proof.
  intros H p (k & ->)%last_Some. apply not_true_iff_false. unfold resumes.
  rewrite !andb_true_iff, negb_true_iff, Z.eqb_neq, existsb_exists.
  intros [[Hi (e & He%list_elem_of_In & Hc%contains_extent_elem)] Hs].
  specialize (H e He p). rewrite writers_snoc, bool_decide_true, last_snoc in H by done.
  apply fits_iff in H; [tauto|done].
Qed.

Lemma scan_advance l : scan_cost l < u64_max →
  advance faults (scan_cost l) (chain_ok l) audit0 (sc_report (audit_scan l)).
Proof.
  induction l as [|m l IH] using rev_ind; intros Hb.
  { eapply advance_mono; [apply advance_refl|done|]. split; [|done]. intros _. split; [done|].
    intros e. constructor. }
  rewrite scan_cost_snoc in *. pose proof (record_cost_pos m). pose proof (scan_cost_length l).
  pose proof (zlen_nonneg l). rewrite scan_snoc.
  eapply advance_mono; [eapply advance_trans; [|apply IH; lia|apply audit_record_advance]|..]; [lia..|].
  unfold chain_ok. rewrite numbered_app, scan_previous. simpl.
  setoid_rewrite scan_owner. setoid_rewrite writers_snoc.
  assert (Hw : (∀ e, Sorted fits (writers e l ++ (if bool_decide (e ∈ mr_scope m) then [m] else []))) ↔
    (∀ e, Sorted fits (writers e l)) ∧
    (∀ e, e ∈ mr_scope m → ∀ p, last (writers e l) = Some p → fits p m)).
  { rewrite <-forall_and_distr. apply forall_proper. intros e. case_bool_decide.
    - rewrite Sorted_snoc. naive_solver.
    - rewrite app_nil_r. naive_solver. }
  rewrite Hw. split.
  - intros ([Hn Hs] & Hm & Hf & _). rewrite scan_expected in Hm by (done || lia). tauto.
  - intros ([Hn [Hm _]] & Hs & Hf). rewrite scan_expected by (done || lia).
    split_and!; try done. by apply fits_resumes.
Qed.

Lemma chain_ok_history l : chain_ok l ↔
  numbered 0 l ∧ history_ok l ∧ ∀ e, Sorted epoch_kept (writers e l).
Proof.
  unfold chain_ok. rewrite history_ok_writers, <-forall_and_distr.
  assert (H : ∀ k, Sorted fits k ↔ Sorted handover k ∧ Sorted epoch_kept k); [|by setoid_rewrite H].
  intros k. induction k as [|m k IH] using rev_ind; [repeat split; constructor|].
  rewrite !Sorted_snoc, IH. unfold fits. naive_solver.
Qed.

Lemma counted0 : counted 0 audit0.
Proof. done. Qed.

Lemma verdict_flag r n : counted n r →
  (au_regressions r =? 0) && (au_foreign r =? 0) && (au_escapes r =? 0) && (au_gaps r =? 0) =
  bool_decide (faults r = 0).
Proof.
  intros (?&?&?&?&_). apply eq_bool_prop_intro. rewrite !andb_True, !Is_true_true, bool_decide_eq_true.
  unfold faults. rewrite !Z.eqb_eq. lia.
Qed.

(** ** The audit of a registry state *)

(** What the two verdict conditions of a grant ask. *)
Definition interruptible (fences : FenceTable) (g : EpochGrant) : Prop :=
  is_open g = true → incarnation_fenced fences (eg_incarnation g) = false.


Section RegistryAudit.
Context (m : AuditReport → Z) `{!Meter m} (fences : FenceTable).
Hypothesis epochs_count : weight (m:=m) EpochRegressions = 1.
Hypothesis rest_free : weight (m:=m) Checks = 0 ∧ weight (m:=m) OpenGrants = 0.

(** What a grant must satisfy for the meter to stand still. *)
Definition grant_passes (g : EpochGrant) : Prop :=
  weight (m:=m) Uninterruptible = 0 ∨ interruptible fences g.

Lemma check_fenced_advance g r : is_open g = true →
  advance m 2 (grant_passes g) r (check_fenced fences g (bump OpenGrants r)).
Proof.
  intros Ho. unfold check_fenced, grant_passes, interruptible. destruct rest_free as [_ Hz].
  set (ok := weight (m:=m) Uninterruptible = 0 ∨ incarnation_fenced fences (eg_incarnation g) = false).
  eapply advance_mono; [eapply (advance_trans _ 1 1 _ ok); [lia|apply (advance_bump m)|]|lia|].
  - apply advance_case; intros E; unfold ok; rewrite E.
    + eapply advance_mono; [apply (advance_weigh m)|lia|]. naive_solver.
    + eapply advance_mono; [apply advance_refl|lia|]. naive_solver.
  - rewrite Hz. unfold ok. naive_solver.
Qed.

Lemma audit_grant_advance x g :
  advance m 4 (top_epoch (gs_highest x) (eg_domain g) <= eg_epoch g ∧ grant_passes g)
    (gs_report x) (gs_report (audit_grant fences x g)).
Proof.
  unfold audit_grant. cbn [gs_report]. destruct rest_free as [Hz _].
  eapply advance_mono; [eapply (advance_trans _ _ 2 _ (grant_passes g)); [lia| |]|..].
  2: { apply advance_case; intros Ho; [by apply check_fenced_advance|].
       eapply advance_mono; [apply advance_refl|lia|]. split; [intros _|done]. right.
       unfold interruptible. congruence. }
  - eapply (advance_trans _ _ 1 _ (top_epoch (gs_highest x) (eg_domain g) <= eg_epoch g)); [lia| |].
    2: { apply advance_case; intros E.
         - apply (advance_count m); [done|]. apply Z.ltb_lt in E. lia.
         - eapply advance_mono; [apply advance_refl|lia|]. apply Z.ltb_ge in E. tauto. }
    eapply (advance_trans _ 1 0 _ True); [lia|apply (advance_bump m)|].
    apply advance_case; intros _; [apply (advance_found m)|apply advance_refl].
  - lia.
  - rewrite Hz. tauto.
Qed.

Lemma audit_grants_advance l x : epochs_monotone l →
  (∀ g, g ∈ l → top_epoch (gs_highest x) (eg_domain g) <= eg_epoch g) →
  advance m (4 * zlen l) (∀ g, g ∈ l → grant_passes g)
    (gs_report x) (gs_report (foldl (audit_grant fences) x l)).
Proof.
  revert x. induction l as [|g l IH]; intros x Hm Ht; simpl.
  { eapply advance_mono; [apply advance_refl|unfold zlen; simpl; lia|]. set_solver. }
  apply StronglySorted_inv in Hm as [Hm Hg]. rewrite Forall_forall in Hg.
  eapply advance_mono.
  - eapply (advance_trans _ 4); [|apply audit_grant_advance|apply IH; [done|]].
    { pose proof (zlen_nonneg l). lia. }
    intros h Hh. unfold audit_grant, top_epoch. cbn [gs_highest].
    destruct (decide (eg_domain g = eg_domain h)) as [E|E].
    + rewrite E, lookup_insert_eq. simpl. specialize (Hg h Hh E).
      specialize (Ht h ltac:(by right)). unfold top_epoch in *. lia.
    + rewrite lookup_insert_ne by done. apply Ht. by right.
  - rewrite zlen_cons. lia.
  - assert (top_epoch (gs_highest x) (eg_domain g) <= eg_epoch g) by (apply Ht; left). split.
    + intros [[_ ?] ?] h [->|]%elem_of_cons; auto.
    + intros H'. split; [split; [done|apply H'; left]|]. intros h Hh. apply H'. by right.
Qed.

Lemma audit_pairs_advance l r :
  StronglySorted (λ g h, overlaps (eg_extents g) (eg_extents h) = false) l →
  advance m (2 * zlen l * zlen l) True r (audit_pairs r l).
Proof.
  destruct rest_free as [Hz _]. revert r. induction l as [|g l IH]; intros r Hs; simpl.
  { eapply advance_mono; [apply advance_refl|unfold zlen; simpl; lia|done]. }
  apply StronglySorted_inv in Hs as [Hs Hg]. rewrite Forall_forall in Hg. pose proof (zlen_nonneg l).
  eapply advance_mono; [eapply advance_trans; [|apply (advance_foldl m (audit_pair g) (λ _ : EpochGrant, True) 1); [lia|]|by apply IH]|..];
    [nia| |rewrite zlen_cons; nia|naive_solver].
  intros h r' Hh. unfold audit_pair. rewrite (Hg h Hh). simpl.
  eapply advance_mono; [apply (advance_bump m)|lia|]. rewrite Hz. tauto.
Qed.

Lemma audit_marks_advance l r : advance m (zlen l) True r (foldl (audit_marks fences) r l).
Proof.
  destruct rest_free as [Hz _].
  eapply advance_mono; [apply (advance_foldl m (audit_marks fences) (λ _ : EpochGrant, True) 1); [lia|]|lia|naive_solver].
  intros g r' _. unfold audit_marks. apply advance_case; intros _;
    [|eapply advance_mono; [apply advance_refl|lia|done]].
  eapply advance_mono; [eapply (advance_trans _ 1 0 _ True); [lia|apply (advance_bump m)|]|lia|].
  - eapply advance_mono; [apply (advance_foldl m (audit_mark fences g) (λ _ : ExtentId, True) 0); [lia|]|lia|naive_solver].
    intros e r'' _. apply advance_case; intros _; [apply (advance_found m)|apply advance_refl].
  - rewrite Hz. tauto.
Qed.

Lemma audit_valid_advance st subject r : advance m 1 True r (audit_valid st subject r).
Proof.
  destruct rest_free as [Hz _]. unfold audit_valid.
  eapply advance_mono; [eapply (advance_trans _ 0 1 True); [lia| |apply (advance_bump m)]|lia|].
  - apply advance_case; intros _; [apply advance_refl|apply (advance_found m)].
  - rewrite Hz. tauto.
Qed.
End RegistryAudit.

(** Exclusive grants, listed without repetition. *)
Lemma exclusive_pairs l : NoDup (eg_id <$> l) → exclusive l →
  StronglySorted (λ g h, overlaps (eg_extents g) (eg_extents h) = false) (List.filter is_open l).
Proof.
  induction l as [|g l IH]; intros Hn He; [constructor|]. apply NoDup_cons in Hn as [Hg Hn].
  assert (He' : exclusive l) by (intros g1 g2 ??; apply He; by right).
  simpl. destruct (is_open g) eqn:Ho; [|by apply IH]. constructor; [by apply IH|].
  apply Forall_forall. intros h [Hh Hoh]%elem_of_filter_true. apply He; [left|by right|done..|].
  intros E. apply Hg. rewrite E. by apply list_elem_of_fmap_2.
Qed.

Lemma Sorted_adjacent {A} (R : A → A → Prop) l :
  Sorted R l ↔ ∀ k1 p m k2, l = k1 ++ p :: m :: k2 → R p m.
Proof.
  induction l as [|x l IH].
  { split; [|constructor]. by intros _ [|??] ????. }
  split.
  - intros [Hs Hd]%Sorted_inv [|y k1] p m k2 [= -> E]; [subst l; by apply HdRel_inv in Hd|].
    by eapply IH.
  - intros H. constructor.
    + apply IH. intros k1 p m k2 ->. by apply (H (x :: k1) p m k2).
    + destruct l as [|y l]; constructor. by apply (H [] x y l).
Qed.

(** The report of a registry audit, in the terms of the meters. *)
Lemma registry_audit_advance m `{!Meter m} s :
  weight (m:=m) EpochRegressions = 1 → weight (m:=m) Checks = 0 ∧ weight (m:=m) OpenGrants = 0 →
  (∀ n r, m (with_grants n r) = m r) → (∀ b f h r, m (verdict b f h r) = m r) → m audit0 = 0 →
  lineage_wf (rs_lineage s) → exclusive (lt_grants (rs_lineage s)) →
  (∃ n, counted n (audit_registry_state s)) ∧ 0 <= m (audit_registry_state s) ∧
  (m (audit_registry_state s) = 0 ↔
   ∀ g, g ∈ lt_grants (rs_lineage s) → grant_passes m (rs_fences s) g).
Proof.
  intros He Hr Hw Hv H0 Hli Hex. destruct Hli as [(Hnd & Hmon & _ & Hp) Hlen].
  rewrite Forall_forall in Hp. unfold audit_registry_state.
  set (grants := lt_grants (rs_lineage s)) in *. pose proof (zlen_nonneg grants).
  pose proof (zlen_nonneg (List.filter is_open grants)). pose proof (zlen_filter is_open grants).
  set (r1 := audit_valid _ (str "lineage") _). set (r2 := gs_report _). set (r3 := audit_pairs _ _).
  set (r4 := foldl (audit_marks _) _ _).
  assert (A1 : advance m 2 True audit0 r1).
  { eapply advance_mono; [eapply (advance_trans _ 1 1); [lia|by apply (audit_valid_advance m)..]|lia|tauto]. }
  assert (A2 : advance m (4 * zlen grants) (∀ g, g ∈ grants → grant_passes m (rs_fences s) g)
    (with_grants (zlen grants) r1) r2).
  { apply (audit_grants_advance m (rs_fences s) He Hr grants (mkGrantScan _ ∅ ∅)); [done|].
    intros g Hg. unfold top_epoch. cbn [gs_highest]. rewrite lookup_empty. simpl. by apply Hp. }
  assert (A2' : advance m (4 * zlen grants) (∀ g, g ∈ grants → grant_passes m (rs_fences s) g) r1 r2).
  { intros n Hc Hn. destruct (A2 n Hc Hn) as (?&?&?). rewrite Hw in *. done. }
  assert (A3 : advance m (2 * zlen (List.filter is_open grants) * zlen (List.filter is_open grants)) True r2 r3).
  { apply (audit_pairs_advance m); [done|]. by apply exclusive_pairs. }
  assert (A4 : advance m (zlen grants) True r3 r4) by by apply (audit_marks_advance m).
  assert (A34 : advance m (2 * zlen grants * zlen grants + zlen grants) (True ∧ True) r2 r4).
  { eapply advance_mono; [eapply advance_trans; [|exact A3|exact A4]; lia|nia|done]. }
  pose proof (advance_trans _ 2 (4 * zlen grants) _ _ _ _ _ ltac:(lia) A1 A2') as A12.
  pose proof (advance_trans _ _ (2 * zlen grants * zlen grants + zlen grants) _ _ _ _ _ ltac:(nia) A12 A34) as A.
  unfold kMaxLineageEntries in *.
  destruct (A 0 counted0) as (Hc & Hle & Ho); [unfold u64_max; nia|]. rewrite Hv. rewrite H0 in *.
  split; [by eexists|]. split; [done|]. rewrite Ho. tauto.
Qed.

(** What the audit makes of a history. *)
Lemma history_verdict l : scan_cost l < u64_max →
  au_exclusive (audit_fabric_history l) = true ↔
    numbered 0 l ∧ history_ok l ∧
    ∀ e k1 p m k2, writers e l = k1 ++ p :: m :: k2 → mr_incarnation p ≠ mr_incarnation m →
      mr_epoch p <= mr_epoch m.
Proof.
  intros Hb. pose proof (scan_cost_length l). pose proof (zlen_nonneg l).
  destruct (scan_advance l Hb 0 counted0 ltac:(lia)) as (Hc & _ & Hi).
  unfold audit_fabric_history. cbn [au_exclusive verdict].
  rewrite (verdict_flag _ _ Hc), bool_decide_eq_true. change (faults audit0) with 0 in Hi.
  rewrite Hi, chain_ok_history. do 2 f_equiv. apply forall_proper. intros e.
  apply Sorted_adjacent.
Qed.

(** What the audit makes of grants that are exclusive and in order. *)
Lemma registry_audit_clean s :
  lineage_wf (rs_lineage s) → exclusive (lt_grants (rs_lineage s)) →
  au_duplicates (audit_registry_state s) = 0 ∧ au_epoch_regressions (audit_registry_state s) = 0 ∧
  (au_exclusive (audit_registry_state s) = true ↔
   ∀ g, g ∈ lt_grants (rs_lineage s) → is_open g = true →
     incarnation_fenced (rs_fences s) (eg_incarnation g) = false).
Proof.
  intros Hli Hex.
  destruct (registry_audit_advance breaches s) as ([n Hc] & _ & Hb); try done.
  destruct (registry_audit_advance disorder s) as (_ & _ & Hd); try done.
  destruct Hc as (_&_&_&_&?&?&?&_). assert (Hz : disorder (audit_registry_state s) = 0).
  { apply Hd. intros g _. by left. }
  unfold disorder in Hz. split; [lia|]. split; [lia|].
  transitivity (breaches (audit_registry_state s) = 0).
  - unfold breaches. transitivity (au_uninterruptible (audit_registry_state s) = 0); [|lia].
    change (au_exclusive (audit_registry_state s)) with
      ((au_duplicates (audit_registry_state s) =? 0) && (au_epoch_regressions (audit_registry_state s) =? 0)
       && (au_uninterruptible (audit_registry_state s) =? 0)).
    rewrite !andb_true_iff, !Z.eqb_eq. lia.
  - rewrite Hb. apply forall_proper. intros g. unfold grant_passes, interruptible.
    split; [intros H' Hg; by destruct (H' Hg)|]. intros H' Hg. right. by apply H'.
Qed.

Module Auditing.

(** C23: The audit of an effect history answers exactly the question it is meant
    to answer.  As long as no counter can wrap, its flag is raised if and only
    if the records are numbered without a gap from 1, the history is a linear
    succession of owners, and no extent ever changed hands to a lower epoch. *)
Theorem audit_exact (l : list MutationRecord) :
  scan_cost l < u64_max →
  au_exclusive (audit_fabric_history l) = true ↔
    numbered 0 l ∧ history_ok l ∧
    ∀ e k1 p m k2, writers e l = k1 ++ p :: m :: k2 → mr_incarnation p ≠ mr_incarnation m →
      mr_epoch p <= mr_epoch m.
Proof.
  apply history_verdict.
Qed.

(** C24: In every reachable registry state the audit finds no two open grants that
    overlap and no epoch that goes backwards, so its flag is raised if and only
    if no open grant belongs to an incarnation that is already fenced. *)
Theorem registry_audit_exact (s : RegistryState) :
  registry_inv s →
  au_duplicates (audit_registry_state s) = 0 ∧ au_epoch_regressions (audit_registry_state s) = 0 ∧
  (au_exclusive (audit_registry_state s) = true ↔
   ∀ g, g ∈ lt_grants (rs_lineage s) → is_open g = true →
     incarnation_fenced (rs_fences s) (eg_incarnation g) = false).
Proof.
  intros Hi. apply registry_audit_clean; apply Hi.
Qed.

End Auditing.

(** ** Two histories and a state *)

(** Two writers of [n1], the second under the higher token. *)
Definition demo_history : list MutationRecord :=
  [candidate_record Effects.demo_fabric (Effects.writer 7 3); candidate_record Effects.demo_after (Effects.writer 9 4)].

Lemma demo_history_flag : au_exclusive (audit_fabric_history demo_history) = true.
Proof. vm_compute. reflexivity. Qed.

(** The other way round the first writer is late, and the audit says so. *)
Lemma demo_late_flag :
  au_exclusive (audit_fabric_history
    [candidate_record Effects.demo_fabric (Effects.writer 9 4); candidate_record Effects.demo_after (Effects.writer 7 3)]) = false.
Proof. vm_compute. reflexivity. Qed.

Lemma audit_exact_witness :
  au_exclusive (audit_fabric_history demo_history) = true ∧ history_ok demo_history.
Proof.
  split; [exact demo_history_flag|].
  assert (Hb : scan_cost demo_history < u64_max) by (unfold u64_max; vm_compute; reflexivity).
  exact (proj1 (proj2 (proj1 (Auditing.audit_exact demo_history Hb) demo_history_flag))).
Defined.

Lemma registry_audit_exact_witness :
  au_duplicates (audit_registry_state (w_state Registries.demo_second)) = 0 ∧
  au_epoch_regressions (audit_registry_state (w_state Registries.demo_second)) = 0.
Proof.
  destruct Registries.demo_reachable as (_ & _ & _ & Hi & _).
  destruct (Auditing.registry_audit_exact (w_state Registries.demo_second) Hi) as (Hd & He & _).
  split; [exact Hd|exact He].
Defined.
