(* ===== verification/Client.v ===== *)
(** * The clients

    Models [RegistryClient] ([include/sbf/registry.hpp], [src/registry_client.cpp])
    and [WitnessClient] ([include/sbf/witness.hpp], the second half of
    [src/witness_service.cpp]): connecting, the loop that waits for a frame, and
    one request with its answer.  A client owns its socket; what the network does
    is the [Kernel] of [Net]. *)
From S2P Require Import Prelude Order SortedVec Status Ids Text Net Digest Canonical Scope.
From S2P Require Import Fence Lineage Evidence Arbiter Codec Readers Wire Messages.
Open Scope Z_scope.

Definition kMaxRequestsPerSession : Z := 1000000.

(** ** The socket, the decoder and the frames not yet taken *)

Record Link := mkLink {
  ln_valid : bool;                (* socket_.valid() *)
  ln_decoder : FrameDecoder;
  ln_pending : list Frame;
  ln_connected : bool
}.

Definition link0 : Link := mkLink false (decoder kMaxFramePayloadBytes) [] false.

Definition broken (l : Link) : Link := mkLink (ln_valid l) (ln_decoder l) (ln_pending l) false.
Definition joined (l : Link) : Link := mkLink (ln_valid l) (ln_decoder l) (ln_pending l) true.

(** The bytes of a frame as both clients fill it. *)
Definition frame_bytes (type : MessageType) (id : RequestId) (payload : bytes) : bytes :=
  encode_frame (mkFrame (mkFrameHeader kFrameMagic kFrameVersion type 0 id 0 0 0) payload).

Section client.
Context {K : Type} `{Kernel K}.

(** [close]: both classes. *)
Definition link_close (l : Link) (k : K) : Link * K :=
  (mkLink false (ln_decoder l) [] false, if ln_valid l then sys_hangup k else k).

(** The loop of [read_frame]: each turn takes a pending frame or reads a chunk. *)
Fixpoint read_loop (fuel : nat) (l : Link) (k : K)
  : option (Link * K * result (MessageType * bytes)) :=
  match ln_pending l with
  | f :: rest =>
      Some (mkLink (ln_valid l) (ln_decoder l) rest (ln_connected l), k,
            Ret (fh_type (fr_header f), fr_payload f))
  | [] =>
      match fuel with
      | O => None
      | S fuel =>
          match read_some (ln_valid l) 65536 k with
          | (k, Err st) => Some (broken l, k, Err st)
          | (k, Ret []) => Some (broken l, k, Err (fail0 Outcome.Closed Reason.ConnectionClosed))
          | (k, Ret chunk) =>
              let '(d, frames, st) := push (ln_decoder l) chunk in
              if negb (is_ok st) then Some (mkLink (ln_valid l) d frames false, k, Err st)
              else read_loop fuel (mkLink (ln_valid l) d frames (ln_connected l)) k
          end
      end
  end.

(** Every chunk that completes no frame stays buffered, and the decoder never
    holds this many bytes: the loop ends within it ([read_frame_total]). *)
Definition read_fuel : nat := Z.to_nat (kFrameHeaderBytes + kMaxFramePayloadBytes).

Definition read_frame (l : Link) (k : K) : Link * K * result (MessageType * bytes) :=
  default (l, k, Err (fail0 Outcome.Unknown Reason.None)) (read_loop read_fuel l k).

(** ** Connecting *)

(** What a connection is bound to, once the handshake is accepted. *)
Definition bound_to (hello : HelloRequest) (r : HelloResponse) : SessionBinding :=
  mkBinding (hp_session r) (hq_node hello) (hp_boot r) (hp_incarnation r) (hq_kind hello) 0 0.

Definition first_id (r : HelloResponse) : RequestId :=
  if is_set (hp_first_request r) then hp_first_request r else 1.

(** The handshake on a connected socket: the response, or the failure after
    which the client closes.  [raw] is the auxiliary value of a response of
    another type. *)
Definition handshake (raw : MessageType → Z) (hello : HelloRequest) (l : Link) (k : K)
  : Link * K * result HelloResponse :=
  let (k, st) := write_all (ln_valid l) (frame_bytes MessageType.HelloRequest 0 (encode_hq hello)) k in
  if negb (is_ok st) then (l, k, Err st)
  else
    match read_frame l k with
    | (l, k, Err st) => (l, k, Err st)
    | (l, k, Ret (type, payload)) =>
        if negb (bool_decide (type = MessageType.HelloResponse))
        then (l, k, Err (mkStatus Outcome.Invalid Reason.InvalidEnum (raw type)))
        else
          match decode_all r_hp payload with
          | Err st => (l, k, Err st)
          | Ret r => if is_ok (hp_status r) then (l, k, Ret r) else (l, k, Err (hp_status r))
          end
    end.

(** ** [class RegistryClient] *)

Record RegistryClient := mkClient {
  cl_link : Link;
  cl_binding : SessionBinding;
  cl_last_failure : Status;
  cl_requests_sent : Z;
  cl_next_request : RequestId
}.

Definition unbound : SessionBinding := mkBinding 0 [] 0 0 Coordinator 0 0.

Definition client0 : RegistryClient := mkClient link0 unbound status_ok 0 0.

Definition set_link (l : Link) (c : RegistryClient) : RegistryClient :=
  mkClient l (cl_binding c) (cl_last_failure c) (cl_requests_sent c) (cl_next_request c).
Definition failing (st : Status) (c : RegistryClient) : RegistryClient :=
  mkClient (cl_link c) (cl_binding c) st (cl_requests_sent c) (cl_next_request c).
Definition set_next (id : RequestId) (c : RegistryClient) : RegistryClient :=
  mkClient (cl_link c) (cl_binding c) (cl_last_failure c) (cl_requests_sent c) id.

Definition client_close (c : RegistryClient) (k : K) : RegistryClient * K :=
  let (l, k) := link_close (cl_link c) k in (set_link l c, k).

(** [last_failure_ = st; close(); return st]. *)
Definition abandon (st : Status) (c : RegistryClient) (k : K) : RegistryClient * K * Status :=
  let (c, k) := client_close (failing st c) k in (c, k, st).

Definition client_connect (endpoint : Endpoint) (hello : HelloRequest) (c : RegistryClient) (k : K)
  : RegistryClient * K * Status :=
  let (c, k) := client_close c k in
  let (k, st) := net_connect endpoint k in
  if negb (is_ok st) then (failing st c, k, st)
  else
    let l := mkLink true (reset (ln_decoder (cl_link c))) [] (ln_connected (cl_link c)) in
    match handshake MessageType.code hello l k with
    | (l, k, Err st) => abandon st (set_link l c) k
    | (l, k, Ret r) =>
        if negb (hp_server_protocol r =? kFrameVersion)
        then abandon (mkStatus Outcome.Unsupported Reason.UnsupportedVersion (hp_server_protocol r))
               (set_link l c) k
        else
          (mkClient (joined l) (bound_to hello r) (cl_last_failure c) (cl_requests_sent c) (first_id r),
           k, status_ok)
    end.

(** A request is on the wire. *)
Definition count_sent (id : RequestId) (c : RegistryClient) : RegistryClient :=
  let b := cl_binding c in
  mkClient (cl_link c)
    (mkBinding (sb_session b) (sb_node b) (sb_boot b) (sb_incarnation b) (sb_kind b) id
       (try_increment (sb_accepted_requests b) 1).1)
    (cl_last_failure c) (u64 (cl_requests_sent c + 1)) (cl_next_request c).

Definition transact (type : MessageType) (payload : bytes) (expected : MessageType)
    (c : RegistryClient) (k : K) : RegistryClient * K * result bytes :=
  if negb (ln_connected (cl_link c)) then (c, k, Err (fail0 Outcome.Closed Reason.ConnectionClosed))
  else if kMaxRequestsPerSession <=? cl_requests_sent c
  then (c, k, Err (mkStatus Outcome.Exhausted Reason.ResourceExhausted (cl_requests_sent c)))
  else
    let id := cl_next_request c in
    let (next, ok) := try_increment id 1 in
    if negb ok then (c, k, Err (fail0 Outcome.Exhausted Reason.CounterOverflow))
    else
      let c := set_next next c in
      let (k, st) := write_all (ln_valid (cl_link c)) (frame_bytes type id payload) k in
      if negb (is_ok st) then (failing st (set_link (broken (cl_link c)) c), k, Err st)
      else
        let c := count_sent id c in
        match read_frame (cl_link c) k with
        | (l, k, Err st) => (failing st (set_link l c), k, Err st)
        | (l, k, Ret (answer, data)) =>
            let c := set_link l c in
            if bool_decide (answer = MessageType.ErrorResponse)
            then
              (* [return error.status]: a caller goes on when it is a success *)
              let st := match decode_all r_er data with Err st => st | Ret e => er_status e end in
              (failing st c, k, if is_ok st then Ret data else Err st)
            else if negb (bool_decide (answer = expected))
            then
              let st := mkStatus Outcome.Invalid Reason.InvalidEnum (MessageType.code answer) in
              (failing st c, k, Err st)
            else (c, k, Ret data)
        end.

Definition envelope (c : RegistryClient) : RequestEnvelope :=
  let b := cl_binding c in mkEnvelope (sb_session b) (sb_node b) (sb_boot b) (sb_incarnation b).

(** [transact], then [decode]. *)
Definition call {A} (type : MessageType) (payload : bytes) (expected : MessageType)
    (d : reader → result (A * reader)) (c : RegistryClient) (k : K)
  : RegistryClient * K * result A :=
  match transact type payload expected c k with
  | (c, k, Err st) => (c, k, Err st)
  | (c, k, Ret data) => (c, k, decode_all d data)
  end.

(** The requests: the client's envelope and the caller's fields. *)
Definition client_allocate_epoch (domain : DomainId) (scope : Scope) (incarnation : IncarnationId)
    (boot : BootId) (attempt : Sequence) (c : RegistryClient) (k : K)
  : RegistryClient * K * result AllocateEpochResponse :=
  if negb (ln_connected (cl_link c)) then (c, k, Err (fail0 Outcome.Closed Reason.ConnectionClosed))
  else
    call MessageType.AllocateEpochRequest
      (encode_aq (mkAllocateEpochRequest (envelope c) domain scope incarnation boot attempt wallclock0))
      MessageType.AllocateEpochResponse r_ar c k.

Definition client_decide (q : DecideRequest) (c : RegistryClient) (k : K)
  : RegistryClient * K * result DecideResponse :=
  call MessageType.DecideRequest
    (encode_dq (mkDecideRequest (envelope c) (dq_domain q) (dq_scope q) (dq_epoch q)
       (dq_incarnation q) (dq_boot q) (dq_presented_fence_token q) (dq_mode q)
       (dq_attempt_sequence q) (dq_evidence q) (dq_requested_at q)))
    MessageType.DecideResponse r_dr c k.

Definition client_commit (q : CommitRequest) (c : RegistryClient) (k : K)
  : RegistryClient * K * result CommitResponse :=
  call MessageType.CommitRequest
    (encode_cq (mkCommitRequest (envelope c) (cq_domain q) (cq_scope q) (cq_epoch q)
       (cq_incarnation q) (cq_grant q) (cq_fence_token q) (cq_attempt_sequence q)
       (cq_operation q) (cq_payload_digest q) (cq_requested_at q)))
    MessageType.CommitResponse r_cr c k.

Definition client_fence (q : FenceRequest) (c : RegistryClient) (k : K)
  : RegistryClient * K * result FenceResponse :=
  call MessageType.FenceRequest
    (encode_fq (mkFenceRequest (envelope c) (fq_domain q) (fq_scope q) (fq_epoch q)
       (fq_incarnation q) (fq_cause q)))
    MessageType.FenceResponse r_fp c k.

Definition client_release (q : ReleaseRequest) (c : RegistryClient) (k : K)
  : RegistryClient * K * result ReleaseResponse :=
  call MessageType.ReleaseRequest
    (encode_rq (mkReleaseRequest (envelope c) (rq_grant q) (rq_cause q)))
    MessageType.ReleaseResponse r_rp c k.

Definition client_inspect (domain : DomainId) (scope : Scope) (incarnation : IncarnationId)
    (c : RegistryClient) (k : K) : RegistryClient * K * result InspectResponse :=
  call MessageType.InspectRequest
    (encode_iq (mkInspectRequest (envelope c) domain scope incarnation))
    MessageType.InspectResponse r_ip c k.

Definition client_define_domain (d : DomainDefinition) (c : RegistryClient) (k : K)
  : RegistryClient * K * result DefineDomainResponse :=
  call MessageType.DefineDomainRequest (encode_mq (mkDefineDomainRequest (envelope c) d))
    MessageType.DefineDomainResponse r_mp c k.

Definition shutdown_server (c : RegistryClient) (k : K) : RegistryClient * K * Status :=
  match transact MessageType.ShutdownRequest [] MessageType.ShutdownResponse c k with
  | (c, k, Err st) => (c, k, st)
  | (c, k, Ret _) => (c, k, status_ok)
  end.

(** ** [class WitnessClient] *)

Record WitnessClient := mkWitness {
  wc_id : WitnessId;
  wc_fault_domain : FaultDomainId;
  wc_endpoint : Endpoint;
  wc_link : Link;
  wc_binding : SessionBinding;
  wc_last_failure : Status;
  wc_next_request : RequestId;
  wc_collected : Z;
  wc_failures : Z
}.

Definition witness_client (id : WitnessId) (domain : FaultDomainId) (endpoint : Endpoint)
  : WitnessClient :=
  mkWitness id domain endpoint link0 unbound status_ok 0 0 0.

Definition with_link (l : Link) (w : WitnessClient) : WitnessClient :=
  mkWitness (wc_id w) (wc_fault_domain w) (wc_endpoint w) l (wc_binding w) (wc_last_failure w)
    (wc_next_request w) (wc_collected w) (wc_failures w).
Definition with_failure (st : Status) (w : WitnessClient) : WitnessClient :=
  mkWitness (wc_id w) (wc_fault_domain w) (wc_endpoint w) (wc_link w) (wc_binding w) st
    (wc_next_request w) (wc_collected w) (wc_failures w).
Definition with_next (id : RequestId) (w : WitnessClient) : WitnessClient :=
  mkWitness (wc_id w) (wc_fault_domain w) (wc_endpoint w) (wc_link w) (wc_binding w)
    (wc_last_failure w) id (wc_collected w) (wc_failures w).
Definition with_counts (collected failures : Z) (w : WitnessClient) : WitnessClient :=
  mkWitness (wc_id w) (wc_fault_domain w) (wc_endpoint w) (wc_link w) (wc_binding w)
    (wc_last_failure w) (wc_next_request w) collected failures.

Definition witness_close (w : WitnessClient) (k : K) : WitnessClient * K :=
  let (l, k) := link_close (wc_link w) k in (with_link l w, k).

(** [++failures_; last_failure_ = st; return st]. *)
Definition fault (st : Status) (w : WitnessClient) : WitnessClient :=
  with_counts (wc_collected w) (u64 (wc_failures w + 1)) (with_failure st w).

Definition witness_connect (hello : HelloRequest) (w : WitnessClient) (k : K)
  : WitnessClient * K * Status :=
  let (w, k) := witness_close w k in
  let (k, st) := net_connect (wc_endpoint w) k in
  if negb (is_ok st) then (fault st w, k, st)
  else
    let l := mkLink true (reset (ln_decoder (wc_link w))) [] (ln_connected (wc_link w)) in
    match handshake (λ _, 0) hello l k with
    | (l, k, Err st) =>
        let (w, k) := witness_close (with_failure st (with_link l w)) k in (w, k, st)
    | (l, k, Ret r) =>
        (mkWitness (wc_id w) (wc_fault_domain w) (wc_endpoint w) (joined l) (bound_to hello r)
           (wc_last_failure w) (first_id r) (wc_collected w) (wc_failures w), k, status_ok)
    end.

(** The answer to an attestation request: the failure to count, if any, and what
    [attest] returns with it. *)
Definition read_attestation (type : MessageType) (payload : bytes)
  : option Status * result AttestResponse :=
  let failed st r := (Some st, if is_ok st then Ret r else Err st) in
  let nothing := mkAttestResponse status_ok attestation0 in
  if bool_decide (type = MessageType.ErrorResponse)
  then failed (match decode_all r_er payload with Err st => st | Ret e => er_status e end) nothing
  else if negb (bool_decide (type = MessageType.AttestResponse))
  then failed (fail0 Outcome.Invalid Reason.InvalidEnum) nothing
  else
    match decode_all r_tp payload with
    | Err st => failed st nothing
    | Ret r => if is_ok (tp_status r) then (None, Ret r) else failed (tp_status r) r
    end.

Definition witness_client_attest (domain : DomainId) (scope : Scope) (epoch : Epoch)
    (incarnation : IncarnationId) (token : FenceToken) (policy_generation : Generation)
    (requester_step : Step) (w : WitnessClient) (k : K) : WitnessClient * K * result AttestResponse :=
  if negb (ln_connected (wc_link w))
  then let st := fail0 Outcome.Unreachable Reason.QuorumUnreachable in (fault st w, k, Err st)
  else
    let b := wc_binding w in
    let payload :=
      encode_tq (mkAttestRequest
        (mkEnvelope (sb_session b) (sb_node b) (sb_boot b) (sb_incarnation b))
        domain scope epoch incarnation token policy_generation requester_step wallclock0) in
    let id := wc_next_request w in
    let (next, ok) := try_increment id 1 in
    if negb ok then (w, k, Err (fail0 Outcome.Exhausted Reason.CounterOverflow))
    else
      let w := with_next next w in
      let (k, st) := write_all (ln_valid (wc_link w)) (frame_bytes MessageType.AttestRequest id payload) k in
      if negb (is_ok st) then (fault st (with_link (broken (wc_link w)) w), k, Err st)
      else
        match read_frame (wc_link w) k with
        | (l, k, Err st) => (fault st (with_link l w), k, Err st)
        | (l, k, Ret (type, data)) =>
            let w := with_link l w in
            match read_attestation type data with
            | (Some st, r) => (fault st w, k, r)
            | (None, r) => (with_counts (u64 (wc_collected w + 1)) (wc_failures w) w, k, r)
            end
        end.
End client.

(** ** The loop that waits for a frame ends *)

Definition link_ok (l : Link) : Prop :=
  settled (ln_decoder l) ∧ fd_max_payload (ln_decoder l) = kMaxFramePayloadBytes.

Lemma link_ok_with v d p c : settled d → fd_max_payload d = kMaxFramePayloadBytes →
  link_ok (mkLink v d p c).
Proof. by split. Qed.

Lemma link0_ok : link_ok link0.
Proof. split; [|done]. apply decoder_settled. unfold bounded, kMaxFramePayloadBytes. lia. Qed.

(** A chunk that does not break the stream completes a frame or is kept whole. *)
Lemma push_grows d chunk d' frames st : settled d → push d chunk = (d', frames, st) →
  settled d' ∧ fd_max_payload d' = fd_max_payload d ∧
  (is_ok st = true → frames = [] → zlen (fd_buffer d') = zlen (fd_buffer d) + zlen chunk).
Proof.
  intros Hs E. pose proof Hs as (Hb & Hn & Hp). destruct (fd_poisoned d) eqn:P.
  { rewrite push_poisoned in E by done. by injection E as <- <- <-. }
  destruct (push_settled d chunk d' frames st Hb E P) as (Hd & Hm & _).
  split; [done|]. split; [done|]. intros Hok ->.
  apply push_spec in E as (r & w & E & _ & Hst & R); [|done..]. cbn [app mbind list_bind] in E.
  destruct w as [why|]; destruct R as [-> ->].
  - apply malformed_not_ok in Hst. by rewrite Hst in Hok.
  - cbn [fd_buffer]. by rewrite <-E, zlen_app.
Qed.

Section reads.
Context {K : Type} `{Kernel K}.

(** The links a read can leave. *)
Lemma read_loop_ok fuel l (k k' : K) l' r : link_ok l → read_loop fuel l k = Some (l', k', r) →
  link_ok l' ∧ ln_valid l' = ln_valid l.
Proof.
  revert l k. induction fuel as [|fuel IH]; intros l k Hl E; cbn [read_loop] in E;
    destruct (ln_pending l) as [|f rest]; [done|by injection E as <- _ _| |by injection E as <- _ _].
  destruct (read_some _ _ k) as [k1 [chunk|st]]; [|by injection E as <- _ _].
  destruct chunk as [|x chunk]; [by injection E as <- _ _|].
  destruct (push (ln_decoder l) (x :: chunk)) as [[d frames] st] eqn:Ep. destruct Hl as [Hs Hm].
  apply push_grows in Ep as (Hd & Hmd & _); [|done].
  destruct (is_ok st); cbn [negb] in E.
  - destruct (IH _ _ (link_ok_with _ _ _ _ Hd (eq_trans Hmd Hm)) E) as [? ->]. by split.
  - injection E as <- _ _. split; [by apply link_ok_with; [|exact (eq_trans Hmd Hm)]|done].
Qed.

Lemma read_loop_total fuel l (k : K) : link_ok l →
  kFrameHeaderBytes + kMaxFramePayloadBytes <= zlen (fd_buffer (ln_decoder l)) + Z.of_nat fuel →
  ∃ x, ∀ n, (fuel <= n)%nat → read_loop n l k = Some x.
Proof.
  revert l k. induction fuel as [|fuel IH]; intros l k Hl Hf.
  { destruct Hl as [(Hb & Hn & _) Hm]. apply need_more_bound in Hn; [|done].
    rewrite Hm in Hn. unfold kFrameHeaderBytes in *. lia. }
  destruct (ln_pending l) as [|f rest] eqn:Epend.
  2: { eexists. intros n Hn. destruct n; cbn [read_loop]; by rewrite Epend. }
  assert (Hstep : ∃ x, ∀ n, (fuel <= n)%nat → read_loop (S n) l k = Some x).
  { cbn [read_loop]. rewrite Epend. destruct (read_some _ _ k) as [k1 [chunk|st]]; [|by eexists].
    destruct chunk as [|x chunk]; [by eexists|].
    destruct (push (ln_decoder l) (x :: chunk)) as [[d frames] st] eqn:Ep. destruct Hl as [Hs Hm].
    apply push_grows in Ep as (Hd & Hmd & Hg); [|done].
    destruct (is_ok st) eqn:Ho; cbn [negb]; [|by eexists].
    destruct frames as [|f frames].
    2: { eexists. intros n Hn. destruct n; cbn [read_loop ln_pending]; done. }
    apply IH; [by apply link_ok_with; [|exact (eq_trans Hmd Hm)]|]. cbn [ln_decoder].
    rewrite Hg, zlen_cons by done. pose proof (zlen_nonneg chunk). lia. }
  destruct Hstep as [x Hx]. exists x. intros [|n] Hn; [lia|]. apply Hx. lia.
Qed.

(** Enough turns are as good as any larger number of them. *)
Lemma read_fuel_enough : kFrameHeaderBytes + kMaxFramePayloadBytes <= Z.of_nat read_fuel.
Proof. unfold read_fuel. rewrite Z2Nat.id; [lia|]. unfold kFrameHeaderBytes, kMaxFramePayloadBytes. lia. Qed.

#[local] Opaque read_fuel.

Lemma default_ok fuel l (k k' k0 : K) l' r r0 : link_ok l →
  default (l, k0, r0) (read_loop fuel l k) = (l', k', r) → link_ok l' ∧ ln_valid l' = ln_valid l.
Proof.
  intros Hl. destruct (read_loop fuel l k) as [[[l1 k1] r1]|] eqn:R; simpl.
  - intros [= <- <- <-]. by eapply read_loop_ok.
  - by intros [= <- _ _].
Qed.

Lemma read_frame_ok l (k k' : K) l' r : link_ok l → read_frame l k = (l', k', r) →
  link_ok l' ∧ ln_valid l' = ln_valid l.
Proof. intros Hl. exact (default_ok read_fuel l k k' k l' r _ Hl). Qed.

Lemma read_frame_total l (k : K) : link_ok l →
  ∀ n, (read_fuel <= n)%nat → read_loop n l k = Some (read_frame l k).
Proof.
  intros Hl n Hn. destruct (read_loop_total read_fuel l k Hl) as [x Hx].
  { pose proof read_fuel_enough. pose proof (zlen_nonneg (fd_buffer (ln_decoder l))). lia. }
  unfold read_frame. rewrite (Hx read_fuel) by lia. by apply Hx.
Qed.
End reads.

(** ** A failure is never a success *)

Section failures.
Context {K : Type} `{Kernel K}.

Lemma read_loop_fails fuel l (k k' : K) l' st : read_loop fuel l k = Some (l', k', Err st) → is_ok st = false.
Proof.
  revert l k. induction fuel as [|fuel IH]; intros l k E; cbn [read_loop] in E;
    destruct (ln_pending l); try done.
  unfold read_some in E. destruct (negb (ln_valid l)); [by injection E as _ _ <-|].
  destruct (_ =? 0); [by injection E as _ _ <-|].
  destruct (sys_recv _ k) as [k1 [data|errno]]; [|by injection E as _ _ <-].
  destruct data as [|x data]; [by injection E as _ _ <-|].
  destruct (push _ _) as [[d frames] st1]. destruct (is_ok st1) eqn:Eo; cbn [negb] in E; [by eapply IH|].
  by injection E as _ _ <-.
Qed.

Lemma default_fails fuel l (k k' k0 : K) l' l0 st st0 : is_ok st0 = false →
  default (l0, k0, Err st0) (read_loop fuel l k) = (l', k', Err st) → is_ok st = false.
Proof.
  intros H0. destruct (read_loop fuel l k) as [[[l1 k1] r1]|] eqn:R; simpl; intros [= <- <- E].
  - subst r1. by eapply read_loop_fails.
  - by subst st0.
Qed.

Lemma read_frame_fails l (k k' : K) l' st : read_frame l k = (l', k', Err st) → is_ok st = false.
Proof. exact (default_fails read_fuel l k k' k l' l st (fail0 Outcome.Unknown Reason.None) eq_refl). Qed.

Lemma transact_fails type payload expected c (k : K) c' k' st :
  transact type payload expected c k = (c', k', Err st) → is_ok st = false.
Proof.
  unfold transact. destruct (negb _); [by intros [= _ _ <-]|]. destruct (_ <=? _); [by intros [= _ _ <-]|].
  destruct (try_increment _ _) as [next ok]. destruct (negb ok); [by intros [= _ _ <-]|].
  destruct (write_all _ _ k) as [k1 st1]. destruct (is_ok st1) eqn:Ew; cbn [negb]; [|by intros [= _ _ <-]].
  destruct (read_frame _ k1) as [[l k2] [[answer data]|st2]] eqn:E.
  - destruct (bool_decide _); [|by destruct (negb _); intros [= _ _ <-]].
    cbv zeta. match goal with |- context [failing ?e _] => destruct (is_ok e) eqn:Eo end; intros [= _ _ Est].
    by rewrite <-Est.
  - intros [= _ _ <-]. by eapply read_frame_fails.
Qed.

Lemma call_fails {A} type payload expected (d : reader → result (A * reader)) c (k : K) c' k' st :
  honest d → call type payload expected d c k = (c', k', Err st) → is_ok st = false.
Proof.
  intros Hd. unfold call. destruct (transact _ _ _ _ _) as [[c1 k1] [data|st1]] eqn:E; intros [= _ _ Est].
  - by eapply honest_all.
  - subst st1. by eapply transact_fails.
Qed.
End failures.

(** ** Every link a client can have *)

Section steps.
Context {K : Type} `{Kernel K}.

Lemma link_close_ok l (k : K) : link_ok l → link_ok (link_close l k).1.
Proof. by intros []. Qed.

Lemma reset_ok l v c : link_ok l → link_ok (mkLink v (reset (ln_decoder l)) [] c).
Proof.
  intros [(Hb & _ & _) Hm]. apply link_ok_with; [|done].
  split; [exact Hb|]. split; [apply next_frame_nil|done].
Qed.

Lemma handshake_ok raw hello l l' (k k' : K) r : link_ok l →
  handshake raw hello l k = (l', k', r) → link_ok l'.
Proof.
  intros Hl. unfold handshake. destruct (write_all _ _ k) as [k1 st].
  destruct (is_ok st); cbn [negb]; [|by intros [= <- _ _]].
  destruct (read_frame l k1) as [[l1 k2] [[type payload]|st1]] eqn:E;
    apply read_frame_ok in E as [Hl1 _]; try done; [|by intros [= <- _ _]].
  destruct (negb _); [by intros [= <- _ _]|]. destruct (decode_all _ _) as [r1|]; [|by intros [= <- _ _]].
  destruct (is_ok _); by intros [= <- _ _].
Qed.

Definition client_ok (c : RegistryClient) : Prop := link_ok (cl_link c).

Lemma client_close_ok c (k : K) : client_ok c → client_ok (client_close c k).1.
Proof.
  intros Hc. unfold client_close. pose proof (link_close_ok _ k Hc) as Hl.
  by destruct (link_close (cl_link c) k) as [l k1].
Qed.

Lemma client_connect_ok e hello c (k : K) : client_ok c → client_ok (client_connect e hello c k).1.1.
Proof.
  intros Hc. unfold client_connect. pose proof (client_close_ok c k Hc) as Hc1.
  destruct (client_close c k) as [c1 k1]. cbn [fst] in Hc1.
  destruct (net_connect e k1) as [k2 st]. destruct (is_ok st); cbn [negb]; [|done].
  destruct (handshake _ hello _ k2) as [[l k3] [r|st1]] eqn:E;
    apply handshake_ok in E; try by apply reset_ok.
  - destruct (negb _); [|by destruct E as [? ?]; apply link_ok_with].
    unfold abandon. set (c2 := failing _ _).
    pose proof (client_close_ok c2 k3 E) as Hc2. by destruct (client_close c2 k3).
  - unfold abandon. set (c2 := failing _ _).
    pose proof (client_close_ok c2 k3 E) as Hc2. by destruct (client_close c2 k3).
Qed.

Lemma transact_ok type payload expected c (k : K) : client_ok c →
  client_ok (transact type payload expected c k).1.1.
Proof.
  intros Hc. unfold transact. destruct (negb _); [done|]. destruct (_ <=? _); [done|].
  destruct (try_increment _ _) as [next ok]. destruct (negb ok); [done|].
  destruct (write_all _ _ k) as [k1 st]. destruct (negb (is_ok st)).
  { destruct Hc. by apply link_ok_with. }
  destruct (read_frame _ k1) as [[l k2] [[answer data]|st1]] eqn:E;
    apply read_frame_ok in E as [Hl _]; try done.
  destruct (bool_decide _); [done|]. by destruct (negb _).
Qed.

(** What a client does to its link. *)
Inductive client_step : RegistryClient * K → RegistryClient * K → Prop :=
  | step_connect e hello c k :
      client_step (c, k) ((client_connect e hello c k).1.1, (client_connect e hello c k).1.2)
  | step_transact type payload expected c k :
      client_step (c, k) ((transact type payload expected c k).1.1, (transact type payload expected c k).1.2)
  | step_close c k : client_step (c, k) (client_close c k)
  | step_network c k k' : client_step (c, k) (c, k').

Lemma client_steps_ok x y : rtc client_step x y → client_ok x.1 → client_ok y.1.
Proof.
  induction 1 as [|x y z Hs _ IH]; [done|]. intros Hx. apply IH. destruct Hs; cbn [fst] in *.
  - by apply client_connect_ok.
  - by apply transact_ok.
  - by apply client_close_ok.
  - done.
Qed.
End steps.

Module Clients.

(** C40: A client never waits for a frame that cannot come: however a peer cuts or
    garbles what it sends, the loop of [read_frame] takes a frame, fails or sees
    the end of the stream within as many reads as the largest frame has bytes -
    [read_fuel] turns are enough and more change nothing. *)
Theorem read_terminates {K} `{Kernel K} (k0 k : K) (c : RegistryClient) :
  rtc client_step (client0, k0) (c, k) →
  ∀ n, (read_fuel <= n)%nat → read_loop n (cl_link c) k = Some (read_frame (cl_link c) k).
Proof.
  intros Hs. apply read_frame_total. exact (client_steps_ok _ _ Hs link0_ok).
Qed.
End Clients.

(** ** A scripted network *)

(** What the peer sends, chunk by chunk; everything written is taken. *)
Definition scripted : Kernel (list Received) :=
  {| sys_up _ := true;
     sys_resolve _ _ := [0];
     sys_dial _ k := (k, true);
     sys_send bs k := (k, SentResult (zlen bs) 0);
     sys_recv _ k := match k with [] => ([], ReceivedBytes []) | x :: k => (k, x) end;
     sys_hangup k := k |}.

Definition demo_script : list Received := [ReceivedBytes (str "SBF1"); ReceiveFailed 104].
Definition demo_hello : HelloRequest := mkHelloRequest (str "node-a") Coordinator kFrameVersion.
Definition demo_endpoint : Endpoint := mkEndpoint (str "127.0.0.1") 7000.

Lemma read_terminates_witness :
  let '(c, k, _) := client_connect (H:=scripted) demo_endpoint demo_hello client0 demo_script in
  ∀ n, (read_fuel <= n)%nat →
    read_loop (H:=scripted) n (cl_link c) k = Some (read_frame (H:=scripted) (cl_link c) k).
Proof.
  pose proof (Clients.read_terminates (H:=scripted) demo_script
    (client_connect (H:=scripted) demo_endpoint demo_hello client0 demo_script).1.2
    (client_connect (H:=scripted) demo_endpoint demo_hello client0 demo_script).1.1
    (rtc_once _ _ (step_connect (H:=scripted) demo_endpoint demo_hello client0 demo_script))) as R.
  destruct (client_connect (H:=scripted) demo_endpoint demo_hello client0 demo_script) as [[c k] st].
  exact R.
Defined.
