(* ===== verification/Remote.v ===== *)
(** * A client and the service it talks to

    The composition of [Client] and [Service]: a network whose far end is a
    registry node ([Remote]), and what a call through the client, the frames, the
    decoder and the worker loop amounts to.  The network delivers everything; what
    it may do otherwise is [Net] and [Client]. *)
From S2P Require Import Prelude Order SortedVec Status Ids Text Net Digest Canonical Scope.
From S2P Require Import Fence Lineage Evidence Arbiter Codec Readers Wire Messages Journal Fabric.
From S2P Require Import Registry Replay Snapshot Service Sessions Client.
Open Scope Z_scope.

(** ** The far end of a connection *)

Record Remote := mkRemote {
  rm_node : Node;
  rm_connection : option Connection;
  rm_inbox : bytes;                  (* sent by the node and not read yet *)
  rm_calls : Calls                   (* what the system calls of the node do *)
}.

(** The worker serves what was sent and its replies come back. *)
Definition remote_send (bs : bytes) (r : Remote) : Remote * Sent :=
  match rm_connection r with
  | Some cn =>
      if cn_open cn
      then
        let '(n, cn, out) := serve_chunk [(rm_calls r, true)] bs cn (rm_node r) in
        (mkRemote n (Some cn) (rm_inbox r ++ concat out) (rm_calls r), SentResult (zlen bs) 0)
      else (r, SentResult (-1) 0)
  | None => (r, SentResult (-1) 0)
  end.

Definition remote_recv (max : Z) (r : Remote) : Remote * Received :=
  let k := Z.to_nat max in
  (mkRemote (rm_node r) (rm_connection r) (drop k (rm_inbox r)) (rm_calls r),
   ReceivedBytes (take k (rm_inbox r))).

Definition remote_hangup (r : Remote) : Remote :=
  match rm_connection r with
  | Some cn =>
      mkRemote (if cn_open cn then close_connection (cn_binding cn) (rm_node r) else rm_node r)
        None [] (rm_calls r)
  | None => r
  end.

#[local] Opaque read_fuel.

#[export] Instance remote_kernel : Kernel Remote :=
  {| sys_up _ := true;
     sys_resolve _ _ := [0];
     sys_dial _ r := (mkRemote (rm_node r) (Some accepted_connection) [] (rm_calls r), true);
     sys_send := remote_send;
     sys_recv := remote_recv;
     sys_hangup := remote_hangup |}.

(** ** One frame each way *)

Lemma max_bounded : bounded kMaxFramePayloadBytes.
Proof. unfold bounded, kMaxFramePayloadBytes. lia. Qed.

(** Only these fields reach the wire. *)
Lemma frame_bytes_seal type id payload : frame_bytes type id payload = encode_frame (Frames.seal type 0 id payload).
Proof. reflexivity. Qed.

Lemma seal_framed type id payload : is_u64 id → zlen payload <= kMaxFramePayloadBytes →
  frame_ok kMaxFramePayloadBytes (Frames.seal type 0 id payload).
Proof. intros. by apply Frames.seal_ok. Qed.

(** A frame received so far up to byte [n], and the next chunk. *)
Lemma push_part f n chunk : frame_ok kMaxFramePayloadBytes f →
  take n (encode_frame f) ++ chunk = take (n + length chunk) (encode_frame f) →
  push (mkDecoder (take n (encode_frame f)) kMaxFramePayloadBytes false status_ok) chunk =
    if decide (n + length chunk < length (encode_frame f))%nat
    then (mkDecoder (take (n + length chunk) (encode_frame f)) kMaxFramePayloadBytes false status_ok,
          [], status_ok)
    else (decoder kMaxFramePayloadBytes, [f], status_ok).
Proof.
  intros Hf E. case_decide as Hn; apply push_spec; try apply max_bounded; try done; cbn [fd_buffer]; rewrite E.
  - exists (take (n + length chunk) (encode_frame f)), None.
    split; [done|]. split; [constructor|]. split; [|by split].
    by apply prefix_needs_more; [apply max_bounded|..].
  - exists [], None. split; [|split; [by constructor|by split]].
    rewrite take_ge by lia. cbn. by rewrite !app_nil_r.
Qed.

Lemma push_one f : frame_ok kMaxFramePayloadBytes f →
  push (decoder kMaxFramePayloadBytes) (encode_frame f) = (decoder kMaxFramePayloadBytes, [f], status_ok).
Proof.
  intros Hf. pose proof (push_part f 0 (encode_frame f) Hf) as E.
  rewrite decide_False in E by lia. apply E. symmetry. exact (take_ge _ _ (Nat.le_refl _)).
Qed.

(** The link of a client that waits for nothing. *)
Definition at_rest (connected : bool) : Link :=
  mkLink true (decoder kMaxFramePayloadBytes) [] connected.
Definition idle : Link := at_rest true.

(** A reply on its way is read whole, however many reads it takes. *)
Lemma read_reply fuel n f up node cn calls : frame_ok kMaxFramePayloadBytes f →
  (n < length (encode_frame f) <= n + fuel)%nat →
  read_loop fuel (mkLink true (mkDecoder (take n (encode_frame f)) kMaxFramePayloadBytes false status_ok)
                    [] up) (mkRemote node cn (drop n (encode_frame f)) calls) =
  Some (at_rest up, mkRemote node cn [] calls, Ret (fh_type (fr_header f), fr_payload f)).
Proof.
  intros Hf. revert n. induction fuel as [|fuel IH]; intros n Hn; [lia|].
  set (m := Z.to_nat (Z.min 65536 kMaxCall)). assert (Hm : (0 < m)%nat) by (unfold m, kMaxCall; lia).
  cbn [read_loop ln_pending ln_valid]. unfold read_some. cbn [negb sys_recv remote_kernel].
  unfold remote_recv. cbn [rm_inbox rm_node rm_connection rm_calls]. fold m.
  change (65536 =? 0) with false. cbv iota. clearbody m.
  set (chunk := take m (drop n (encode_frame f))).
  assert (Hc : (length chunk = m `min` (length (encode_frame f) - n))%nat).
  { unfold chunk. by rewrite length_take, length_drop. }
  assert (Et : take n (encode_frame f) ++ chunk = take (n + length chunk) (encode_frame f)).
  { unfold chunk. rewrite take_take_drop. fold chunk. rewrite Hc.
    destruct (decide (m <= length (encode_frame f) - n)%nat).
    - f_equal. lia.
    - rewrite !take_ge by lia. done. }
  clearbody chunk. destruct chunk as [|x chunk']; [rewrite length_nil in Hc; lia|].
  set (chunk := x :: chunk') in *.
  cbn [ln_decoder ln_connected].
  rewrite push_part by done. rewrite drop_drop. case_decide as Hlt; cbn [is_ok status_ok outcome negb].
  - assert (length chunk = m) by lia. replace (n + m)%nat with (n + length chunk)%nat by lia.
    apply IH. lia.
  - rewrite drop_ge by lia. destruct fuel; reflexivity.
Qed.

(** ** A request and its answer *)

(** The type a request is answered with. *)
Definition answer_type (t : MessageType) : MessageType :=
  match t with
  | MessageType.PingRequest => MessageType.PingResponse
  | MessageType.DefineDomainRequest => MessageType.DefineDomainResponse
  | MessageType.AllocateEpochRequest => MessageType.AllocateEpochResponse
  | MessageType.DecideRequest => MessageType.DecideResponse
  | MessageType.CommitRequest => MessageType.CommitResponse
  | MessageType.FenceRequest => MessageType.FenceResponse
  | MessageType.ReleaseRequest => MessageType.ReleaseResponse
  | MessageType.InspectRequest => MessageType.InspectResponse
  | _ => MessageType.ShutdownResponse
  end.

Definition answered (t : MessageType) (a : result Reply) : Prop :=
  match a with Ret reply => reply.1 = t | Err _ => True end.

Lemma with_request_answered {A} (d : reader → result (A * reader)) envelope payload b n k t :
  (∀ q, answered t (k q).2) → answered t (with_request d envelope payload b n k).2.
Proof.
  intros Hk. unfold with_request. destruct (decode_all d payload); [|done]. by destruct (negb _).
Qed.

Lemma reply_with_answered {A} ca (m : Step → M A) n respond t :
  (∀ n r, (respond n r).1 = t) → answered t (reply_with ca m n respond).2.
Proof. intros Hr. unfold reply_with. destruct (transition ca m n) as [n1 [r|st]]; [apply Hr|done]. Qed.

Lemma coordinators_answered b n k t : answered t k.2 → answered t (only_coordinators b n k).2.
Proof. unfold only_coordinators. by case_bool_decide. Qed.

Lemma handle_frame_answered ca f b n : answered (answer_type (fh_type (fr_header f))) (handle_frame ca f b n).2.
Proof.
  unfold handle_frame. cbv zeta.
  destruct (fh_type (fr_header f)); try done; destruct (is_none (sb_session b)); try done;
    apply with_request_answered; intros q.
  - by apply reply_with_answered.
  - destruct (_ || _); [done|]. by apply coordinators_answered, reply_with_answered.
  - destruct (advance_clock n) as [n1 ok]. destruct (negb ok); [done|]. by destruct (registry_decide _ _ _).
  - by apply coordinators_answered, reply_with_answered.
  - destruct (advance_clock n) as [n1 ok]. destruct (negb ok); [done|].
    destruct (operate _ _) as [[n2 rs] r]. destruct (append_records _ _ _) as [n3 st].
    by destruct (negb _).
  - by apply reply_with_answered.
  - done.
Qed.

(** The reply to a frame that is refused. *)
Lemma outcome_names o : zlen (Outcome.to_string o) <= 24.
Proof. by destruct o; vm_compute. Qed.
Lemma reason_names w : zlen (Reason.to_string w) <= 64.
Proof. by destruct w; vm_compute. Qed.

Lemma zlen_status_string st : zlen (status_to_string st) <= kMaxExplanationBytes.
Proof.
  unfold status_to_string. rewrite !zlen_app.
  pose proof (outcome_names (outcome st)). pose proof (reason_names (reason st)).
  assert (zlen (if aux st =? 0 then [] else str "#" ++ hex_u64 (aux st)) <= 20).
  { destruct (aux st =? 0); [by vm_compute|]. unfold hex_u64. rewrite !zlen_app.
    pose proof (hex_loop_length 16 false (aux st)). change (zlen (str "#")) with 1.
    change (zlen (str "0x")) with 2. unfold zlen in *. lia. }
  change (zlen (str ":")) with 1. unfold kMaxExplanationBytes. lia.
Qed.

Lemma error_reply_fits st : zlen (error_reply st (status_to_string st)).2 <= kMaxFramePayloadBytes.
Proof.
  pose proof (zlen_status_string st). unfold error_reply, encode_er. cbn [snd er_detail er_status].
  destruct (text_too_long _ _); [by vm_compute|]. unfold w_blob, w_text. rewrite !zlen_app, zlen_status.
  unfold kMaxExplanationBytes, kMaxFramePayloadBytes in *.
  change (zlen (w_u32 (u32 12))) with 4. pose proof (zlen_u16 (u16 (zlen (status_to_string st)))). lia.
Qed.

(** A counter is written in 64 bits. *)
Lemma low_half v n : 0 <= n <= 32 →
  Z.land (Z.shiftr (u64 v) n) 0xFFFFFFFF = Z.land (Z.shiftr v n) 0xFFFFFFFF.
Proof.
  intros Hn. change 0xFFFFFFFF with (Z.ones 32). apply Z.bits_inj'. intros i Hi.
  rewrite !Z.land_spec. destruct (Z.ltb_spec i 32).
  - rewrite !Z.shiftr_spec by lia. unfold u64. by rewrite Z.mod_pow2_bits_low by lia.
  - rewrite Z.ones_spec_high by lia. by rewrite !andb_false_r.
Qed.

Lemma w_u64_wraps v : w_u64 (u64 v) = w_u64 v.
Proof.
  unfold w_u64, put_u64. rewrite low_half by lia.
  pose proof (low_half v 0 ltac:(lia)) as E. rewrite !Z.shiftr_0_r in E. by rewrite E.
Qed.

Lemma encode_status_u64 st : encode_status (mkStatus (outcome st) (reason st) (u64 (aux st))) = encode_status st.
Proof. unfold encode_status. cbn [outcome reason aux]. by rewrite w_u64_wraps. Qed.

Lemma error_reply_read st :
  decode_all r_er (error_reply st (status_to_string st)).2 =
    Ret (mkErrorResponse (mkStatus (outcome st) (reason st) (u64 (aux st))) (status_to_string st)).
Proof.
  assert (E : (error_reply st (status_to_string st)).2 =
    encode_er (mkErrorResponse (mkStatus (outcome st) (reason st) (u64 (aux st))) (status_to_string st))).
  { unfold error_reply, encode_er. cbn [snd er_detail er_status]. by rewrite encode_status_u64. }
  rewrite E. apply decodes_all, decodes_er. split; [apply u64_is|apply zlen_status_string].
Qed.

(** ** The two ends of a session *)

(** A client and the worker that serves it, between two requests: nothing is
    under way, and both hold the same session. *)
Record paired (c : RegistryClient) (b : SessionBinding) (r : Remote) : Prop := {
  pa_link : cl_link c = idle;
  pa_inbox : rm_inbox r = [];
  pa_connection : rm_connection r = Some (mkConnection (decoder kMaxFramePayloadBytes) b true);
  pa_session : sb_session b ≠ 0;
  pa_envelope : envelope c = mkEnvelope (sb_session b) (sb_node b) (sb_boot b) (sb_incarnation b);
  pa_id : 0 <= sb_last_request b < cl_next_request c ∧ cl_next_request c <= u64_max;
  pa_running : nd_stopping (rm_node r) = false
}.

(** What a served frame leaves of the node and of the connection. *)
Definition after_frame (stop : bool) (b : SessionBinding) (n : Node) : Node * Connection :=
  if stop || nd_stopping n
  then (close_connection b n, mkConnection (decoder kMaxFramePayloadBytes) b false)
  else (n, mkConnection (decoder kMaxFramePayloadBytes) b true).

Lemma serve_one ca f b n n' b' stop reply : frame_ok kMaxFramePayloadBytes f →
  serve_frame ca f b false n = (n', b', stop, reply) → reply.1 ≠ MessageType.ShutdownResponse →
  serve_chunk [(ca, true)] (encode_frame f) (mkConnection (decoder kMaxFramePayloadBytes) b true) n =
  (after_frame stop b' n', [frame_bytes reply.1 (fh_request_id (fr_header f)) reply.2]).
Proof.
  intros Hf E Hr. unfold serve_chunk. cbn [cn_decoder cn_binding]. rewrite push_one by done.
  change (is_ok status_ok) with true. cbn [negb].
  assert (Es : serve_frames [(ca, true)] [f] b false n =
    (n', b', stop, [frame_bytes reply.1 (fh_request_id (fr_header f)) reply.2])).
  { cbn -[serve_frame encode_frame]. rewrite E. cbn -[encode_frame]. by rewrite bool_decide_false. }
  rewrite Es.  unfold after_frame. by destruct (stop || nd_stopping n').
Qed.

Lemma zlen_frame_bytes type id payload : zlen payload <= kMaxFramePayloadBytes →
  frame_bytes type id payload ≠ [] ∧ zlen (frame_bytes type id payload) <= kMaxCall ∧
  (0 < length (frame_bytes type id payload) <= 0 + read_fuel)%nat.
Proof.
  intros Hl. pose proof read_fuel_enough. rewrite frame_bytes_seal.
  pose proof (zlen_encode_frame (Frames.seal type 0 id payload)) as E. cbn [fr_payload Frames.seal] in E.
  pose proof (zlen_nonneg payload). unfold kMaxCall, kFrameHeaderBytes, kMaxFramePayloadBytes in *.
  unfold zlen in *. split; [|split; lia]. intros Hn. rewrite Hn in E. simpl in E. lia.
Qed.

(** One round trip of an idle link: the frame is served and its reply read. *)
Lemma exchange up type id payload b r n' b' stop t d :
  rm_connection r = Some (mkConnection (decoder kMaxFramePayloadBytes) b true) → rm_inbox r = [] →
  is_u64 id → zlen payload <= kMaxFramePayloadBytes → zlen d <= kMaxFramePayloadBytes →
  serve_frame (rm_calls r) (Frames.seal type 0 id payload) b false (rm_node r) = (n', b', stop, (t, d)) →
  t ≠ MessageType.ShutdownResponse →
  ∃ k, write_all true (frame_bytes type id payload) r = (k, status_ok) ∧
    read_frame (at_rest up) k =
      (at_rest up, mkRemote (after_frame stop b' n').1 (Some (after_frame stop b' n').2) [] (rm_calls r), Ret (t, d)).
Proof.
  intros Hc Hi Hid Hp Hd E Ht. destruct (zlen_frame_bytes type id payload Hp) as (Hne & Hm & _).
  destruct (zlen_frame_bytes t id d Hd) as (_ & _ & Hf).
  set (n2 := (after_frame stop b' n').1). set (cn := (after_frame stop b' n').2).
  exists (mkRemote n2 (Some cn) (frame_bytes t id d) (rm_calls r)). split.
  - apply write_all_whole; [done..|]. cbn [sys_send remote_kernel]. unfold remote_send. rewrite Hc, Hi.
    cbn [cn_open]. rewrite frame_bytes_seal at 1.
    rewrite (serve_one _ _ _ _ _ _ _ _ (seal_framed type id payload Hid Hp) E Ht).
    rewrite (surjective_pairing (after_frame stop b' n')). fold n2 cn. cbn [concat app].
    by rewrite app_nil_r.
  - rewrite frame_bytes_seal in *.
    pose proof (read_reply read_fuel 0 (Frames.seal t 0 id d) up n2 (Some cn) (rm_calls r)
      (seal_framed t id d Hid Hd) Hf) as R.
    unfold read_frame. rewrite drop_0, take_0 in R.
    rewrite (R : read_loop read_fuel (at_rest up) _ = _). reflexivity.
Qed.

(** A request the client may send: one of the calls, within the limits. *)
Definition sendable (type : MessageType) (payload : bytes) (c : RegistryClient) : Prop :=
  type ≠ MessageType.ShutdownRequest ∧ answer_type type ≠ MessageType.ShutdownResponse ∧
  zlen payload <= kMaxFramePayloadBytes ∧
  cl_requests_sent c < kMaxRequestsPerSession ∧ cl_next_request c < u64_max.

(** An answer that fits a frame, which a refusal always does; a refusal is one. *)
Definition fits_frame (a : result Reply) : Prop :=
  match a with Ret reply => zlen reply.2 <= kMaxFramePayloadBytes | Err st => is_ok st = false end.

(** The refusal as it is read back. *)
Definition error_of (st : Status) : Status :=
  match decode_all r_er (error_reply st (status_to_string st)).2 with
  | Err e => e
  | Ret e => er_status e
  end.

Lemma error_of_wire st : error_of st = mkStatus (outcome st) (reason st) (u64 (aux st)).
Proof. unfold error_of. by rewrite error_reply_read. Qed.

(** The client once its request is answered. *)
Definition client_after (a : result Reply) (c : RegistryClient) : RegistryClient :=
  let id := cl_next_request c in
  let c := count_sent id (set_next (id + 1) c) in
  match a with Ret _ => c | Err st => failing (error_of st) c end.

Lemma serve_admitted ca type payload id b n : sb_session b ≠ 0 → sb_last_request b < id →
  serve_frame ca (Frames.seal type 0 id payload) b false n =
  match handle_frame ca (Frames.seal type 0 id payload) (admit_request id b) n with
  | (n', Err st) =>
      (count_rejected n', admit_request id b, closes_connection (reason st),
       error_reply st (status_to_string st))
  | (n', Ret reply) => (count_handled n', admit_request id b, false, reply)
  end.
Proof.
  intros Hs Hl. unfold serve_frame, is_none. destruct (Z.eqb_spec (sb_session b) 0); [done|].
  unfold serve_request. cbn [fr_header Frames.seal fh_request_id].
  destruct (Z.leb_spec id (sb_last_request b)); [lia|].
  by destruct (handle_frame _ _ _ _) as [n' [reply|st]].
Qed.

(** [transact] on an idle link, from what its read returns. *)
Lemma transact_idle type payload expected c b (r k r2 : Remote) t d : paired c b r →
  sendable type payload c →
  write_all true (frame_bytes type (cl_next_request c) payload) r = (k, status_ok) →
  read_frame idle k = (idle, r2, Ret (t, d)) →
  transact type payload expected c r =
    let id := cl_next_request c in
    let c := count_sent id (set_next (id + 1) c) in
    if bool_decide (t = MessageType.ErrorResponse)
    then let st := match decode_all r_er d with Err st => st | Ret e => er_status e end in
         (failing st c, r2, if is_ok st then Ret d else Err st)
    else if negb (bool_decide (t = expected))
    then let st := mkStatus Outcome.Invalid Reason.InvalidEnum (MessageType.code t) in
         (failing st c, r2, Err st)
    else (c, r2, Ret d).
Proof.
  intros [Hl _ _ _ _ Hid _] (_ & _ & _ & Hs & Hn) Hw Hr. unfold transact. rewrite Hl.
  cbn [idle at_rest ln_connected negb]. destruct (Z.leb_spec kMaxRequestsPerSession (cl_requests_sent c)); [lia|].
  rewrite try_increment_spec by (unfold is_u64, u64_max in *; lia).
  rewrite decide_True by (unfold u64_max in *; lia). cbn [negb].
  assert (El : ∀ x c, cl_link (set_next x c) = cl_link c) by done.
  assert (Ec : ∀ x c, cl_link (count_sent x c) = cl_link c) by done.
  rewrite El, Hl. cbn [ln_valid idle at_rest]. fold (at_rest true). fold idle. rewrite Hw. cbn [negb is_ok outcome status_ok].
  rewrite Ec, El, Hl, Hr.
  assert (Es : ∀ c, cl_link c = idle → set_link idle c = c) by (intros [] E; cbn in *; by subst).
  rewrite Es; [done|]. by rewrite Ec, El.
Qed.

(** The node once the frame is counted, and whether the connection goes on. *)
Definition counted_node (a : result Reply) (n : Node) : Node :=
  match a with Ret _ => count_handled n | Err _ => count_rejected n end.
Definition goes_on (a : result Reply) : bool :=
  match a with Ret _ => true | Err st => negb (closes_connection (reason st)) end.
Definition reply_data (a : result Reply) : result bytes :=
  match a with Ret reply => Ret reply.2 | Err st => Err (error_of st) end.

Lemma counted_steady a n : steady n (counted_node a n).
Proof. by destruct a. Qed.

Lemma answer_type_error t : answer_type t ≠ MessageType.ErrorResponse.
Proof. by destruct t. Qed.

Lemma remote_exchange type payload c b r n' a : paired c b r → sendable type payload c →
  handle_frame (rm_calls r) (Frames.seal type 0 (cl_next_request c) payload)
    (admit_request (cl_next_request c) b) (rm_node r) = (n', a) →
  fits_frame a →
  let s := after_frame (negb (goes_on a)) (admit_request (cl_next_request c) b) (counted_node a n') in
  let r' := mkRemote s.1 (Some s.2) [] (rm_calls r) in
  transact type payload (answer_type type) c r = (client_after a c, r', reply_data a) ∧
  (goes_on a = true →
   rm_node r' = counted_node a n' ∧ paired (client_after a c) (admit_request (cl_next_request c) b) r').
Proof.
  intros Hp Hs E Hf. pose proof Hp as [Hl Hi Hc Hses Henv [[Hid0 Hid] Hid1] Hrun].
  pose proof Hs as (_ & Hst & Hsize & _ & Hnext).
  set (id := cl_next_request c) in *. assert (Hu : is_u64 id) by (unfold is_u64, u64_max in *; lia).
  pose proof (handle_frame_answered (rm_calls r) (Frames.seal type 0 id payload) (admit_request id b) (rm_node r)) as Ha.
  pose proof (steady_handle_frame (rm_calls r) (Frames.seal type 0 id payload) (admit_request id b) (rm_node r)) as Hn.
  pose proof (serve_admitted (rm_calls r) type payload id b (rm_node r) Hses Hid) as Eserve.
  rewrite E in Ha, Hn, Eserve. cbn [fst snd answered] in Ha, Hn. cbv zeta.
  assert (Hrun' : nd_stopping (counted_node a n') = false).
  { pose proof (counted_steady a n') as Hk. unfold steady, service_part in Hk, Hn. congruence. }
  split.
  - destruct a as [[t d]|st].
    + cbn in Ha. subst t. unfold reply_data, goes_on, counted_node, negb.
      destruct (exchange true type id payload b r _ _ _ _ d Hc Hi Hu Hsize Hf Eserve Hst) as (k & Ew & Er).
      rewrite (transact_idle _ _ _ _ _ _ _ _ _ _ Hp Hs Ew Er). fold id.
      rewrite bool_decide_false by apply answer_type_error. by rewrite bool_decide_true.
    + pose proof (error_reply_fits st) as Hd. unfold goes_on. rewrite negb_involutive.
      destruct (exchange true type id payload b r _ _ _ _ _ Hc Hi Hu Hsize Hd Eserve) as (k & Ew & Er); [done|].
      rewrite (transact_idle _ _ _ _ _ _ _ _ _ _ Hp Hs Ew Er). fold id. rewrite bool_decide_true by done.
      cbv zeta. fold (error_of st). unfold reply_data.
      assert (Eo : is_ok (error_of st) = false) by (rewrite error_of_wire; exact Hf).
      by rewrite Eo.
  - intros Hg. unfold after_frame. rewrite Hg, Hrun'. cbn [negb orb fst snd]. split; [done|].
    destruct a as [reply|st]; (split; [exact Hl|done|done|exact Hses|exact Henv| |exact Hrun']);
      cbn; fold id; unfold u64_max in *; lia.
Qed.

(** ** The handshake *)

Lemma hello_granted ca q n n' resp b : handle_hello ca q n = (n', Ret (resp, b)) →
  resp = mkHelloResponse status_ok (sb_session b) (sb_boot b) (sb_incarnation b) kFrameVersion
           (rc_node (nd_config n')) 1 ∧
  sb_node b = hq_node q ∧ sb_kind b = hq_kind q ∧ sb_last_request b = 0.
Proof.
  unfold handle_hello. destruct (id_empty _); [done|]. destruct (negb _); [done|].
  destruct (_ <=? _); [done|]. destruct (advance_clock n) as [n1 ok]. destruct (negb ok); [done|].
  destruct (operate _ n1) as [[n2 rs] [i|st]]; [|done].
  destruct (append_records ca rs n2) as [n3 st]. destruct (negb _); [done|]. by intros [= <- <- <-].
Qed.

(** What the worker makes of the first frame. *)
Definition hello_answer (x : Node * result (HelloResponse * SessionBinding)) : Node * Connection * HelloResponse :=
  match x with
  | (n, Ret (resp, b)) => (n, mkConnection (decoder kMaxFramePayloadBytes) b true, resp)
  | (n, Err st) => (n, mkConnection (decoder kMaxFramePayloadBytes) no_binding true, hello_refused n st)
  end.

Lemma serve_first ca q n : hq_wf q → 
  serve_frame ca (Frames.seal MessageType.HelloRequest 0 0 (encode_hq q)) no_binding false n =
  match handle_hello ca q n with
  | (n', Err st) =>
      (count_rejected n', no_binding, true, (MessageType.HelloResponse, encode_hp (hello_refused n' st)))
  | (n', Ret (resp, b)) => (count_handled n', b, false, (MessageType.HelloResponse, encode_hp resp))
  end.
Proof.
  intros Hq. unfold serve_frame. cbn [is_none sb_session no_binding]. change (0 =? 0) with true. cbv iota.
  unfold serve_hello. cbn [fr_header Frames.seal fh_type fr_payload].
  rewrite bool_decide_true by done. cbn [negb].
  rewrite (decodes_all _ _ _ (decodes_hq q Hq)).
  by destruct (handle_hello ca q n) as [n' [[resp b]|st]].
Qed.

(** A new client over an open network. *)
Definition dialled (r : Remote) : Remote :=
  mkRemote (rm_node r) (Some accepted_connection) [] (rm_calls r).

Lemma zlen_hello q : hq_wf q → zlen (encode_hq q) <= kMaxFramePayloadBytes.
Proof. intros Hq. by apply (payload_fits (PHelloRequest q)). Qed.

Lemma zlen_hello_response m : hp_wf m → zlen (encode_hp m) <= kMaxFramePayloadBytes.
Proof. intros Hm. by apply (payload_fits (PHelloResponse m)). Qed.

(** Connecting a new client: one round trip of the handshake. *)
Lemma handshake_exchange raw q r n' b' stop resp : hq_wf q → hp_wf resp →
  serve_frame (rm_calls r) (Frames.seal MessageType.HelloRequest 0 0 (encode_hq q)) no_binding false
    (rm_node r) = (n', b', stop, (MessageType.HelloResponse, encode_hp resp)) →
  handshake raw q (at_rest false) (dialled r) =
  (at_rest false,
   mkRemote (after_frame stop b' n').1 (Some (after_frame stop b' n').2) [] (rm_calls r),
   if is_ok (hp_status resp) then Ret resp else Err (hp_status resp)).
Proof.
  intros Hq Hp E. unfold handshake.
  destruct (exchange false MessageType.HelloRequest 0 (encode_hq q) no_binding (dialled r) _ _ _ _ _
    eq_refl eq_refl ltac:(unfold is_u64; lia) (zlen_hello q Hq) (zlen_hello_response resp Hp) E)
    as (k & Ew & Er); [done|].
  cbn [ln_valid at_rest]. rewrite Ew. cbn [is_ok outcome status_ok negb]. fold (at_rest false). rewrite Er.
  rewrite bool_decide_true by done. cbn [negb].
  rewrite (decodes_all _ _ _ (decodes_hp resp Hp)). by destruct (is_ok (hp_status resp)).
Qed.


Module Calls.

(** C16: A remote call is the handler itself.  For a client paired with the worker of
    its session, a request that is written, framed, decoded, admitted, served,
    answered, framed and read back leaves the node as [handle_frame] leaves it and
    returns the handler's reply or its refusal; unless the refusal is one that
    closes the connection, client and worker are paired again, so the next
    request is served the same way. *)
Theorem remote_call (type : MessageType) (payload : bytes) (c : RegistryClient) (b : SessionBinding)
    (r : Remote) :
  paired c b r → sendable type payload c →
  let b' := admit_request (cl_next_request c) b in
  let '(n', a) := handle_frame (rm_calls r) (Frames.seal type 0 (cl_next_request c) payload) b' (rm_node r) in
  fits_frame a → (∀ st, a = Err st → is_u64 (aux st)) →
  ∃ r', transact type payload (answer_type type) c r =
      (client_after a c, r', match a with Ret reply => Ret reply.2 | Err st => Err st end) ∧
    (goes_on a = true → rm_node r' = counted_node a n' ∧ paired (client_after a c) b' r').
Proof.
  intros Hp Hs b'. destruct (handle_frame _ _ b' _) as [n' a] eqn:E. intros Hf Ha.
  destruct (remote_exchange type payload c b r n' a Hp Hs E Hf) as [Et Hg].
  eexists. split; [|exact Hg]. etransitivity; [exact Et|].
  destruct a as [reply|st]; [reflexivity|]. unfold reply_data. rewrite error_of_wire, u64_id by by apply Ha.
  by destruct st.
Qed.

(** A new client that connects to a node runs exactly one handshake there.  A
    handshake the node grants leaves client and worker paired on the session, the
    boot and the incarnation it was given; one it refuses returns the refusal and
    leaves the client closed, the connection gone. *)
Theorem connect_pairs (e : Endpoint) (q : HelloRequest) (r : Remote) :
  hq_wf q → rm_connection r = None → nd_stopping (rm_node r) = false →
  let '(n', a) := handle_hello (rm_calls r) q (rm_node r) in
  match a with
  | Ret (resp, b) => hp_wf resp → nd_stopping n' = false → sb_session b ≠ 0 →
      ∃ c r', client_connect e q client0 r = (c, r', status_ok) ∧
        rm_node r' = count_handled n' ∧ paired c b r' ∧
        sb_node b = hq_node q ∧ sb_kind b = hq_kind q
  | Err st => is_ok st = false → hp_wf (hello_refused n' st) →
      ∃ c r', client_connect e q client0 r = (c, r', st) ∧ rm_node r' = count_rejected n' ∧
        ln_connected (cl_link c) = false ∧ rm_connection r' = None
  end.
Proof.
  intros Hq Hc Hrun. pose proof (serve_first (rm_calls r) q (rm_node r) Hq) as Es.
  assert (Econn : client_connect e q client0 r =
    match handshake MessageType.code q (at_rest false) (dialled r) with
    | (l, k, Err st) => abandon st (set_link l client0) k
    | (l, k, Ret resp) =>
        if negb (hp_server_protocol resp =? kFrameVersion)
        then abandon (mkStatus Outcome.Unsupported Reason.UnsupportedVersion (hp_server_protocol resp))
               (set_link l client0) k
        else (mkClient (joined l) (bound_to q resp) status_ok 0 (first_id resp), k, status_ok)
    end) by done.
  rewrite Econn. destruct (handle_hello (rm_calls r) q (rm_node r)) as [n' [[resp b]|st]] eqn:Eh.
  - intros Hp Hs Hb. destruct (hello_granted _ _ _ _ _ _ Eh) as (-> & En & Ek & El).
    rewrite (handshake_exchange _ _ _ _ _ _ _ Hq Hp Es). cbn [hp_status is_ok outcome status_ok].
    cbn [hp_server_protocol]. rewrite Z.eqb_refl. cbn [negb].
    assert (Ea : after_frame false b (count_handled n') =
      (count_handled n', mkConnection (decoder kMaxFramePayloadBytes) b true)).
    { unfold after_frame. change (nd_stopping (count_handled n')) with (nd_stopping n'). by rewrite Hs. }
    rewrite Ea. do 2 eexists. split; [reflexivity|]. split; [reflexivity|].
    split; [|exact (conj En Ek)].
    constructor; [reflexivity|reflexivity|reflexivity|exact Hb| | |exact Hs].
    + unfold envelope. cbn [cl_binding bound_to sb_session sb_node sb_boot sb_incarnation hp_session
        hp_boot hp_incarnation]. by rewrite En.
    + rewrite El. cbn [cl_next_request first_id hp_first_request is_set is_none Z.eqb]. unfold u64_max.
      change (first_id _) with 1. lia.
  - intros Ho Hp. rewrite (handshake_exchange _ _ _ _ _ _ _ Hq Hp Es). cbn [hp_status hello_refused].
    rewrite Ho. do 2 eexists. split; [reflexivity|].
    split; [reflexivity|]. split; reflexivity.
Qed.
End Calls.

(** ** A client of a running node *)

Definition demo_remote : Remote := mkRemote Serving.demo_node None [] calls_done.

Lemma demo_hello_facts :
  (let '(n, a) := handle_hello calls_done demo_hello (rm_node demo_remote) in
   match a with
   | Ret (resp, b) => Some (resp, b, nd_stopping n, nd_handled n)
   | Err _ => None
   end) =
  Some (mkHelloResponse status_ok 1 1 2 kFrameVersion (str "node") 1,
        mkBinding 1 (str "node-a") 1 2 Coordinator 0 0, false, 0) ∧
  nd_stopping (rm_node demo_remote) = false.
Proof. vm_compute. split; reflexivity. Qed.

Definition demo_greeted : Node := (handle_hello calls_done demo_hello (rm_node demo_remote)).1.
Definition demo_binding : SessionBinding := mkBinding 1 (str "node-a") 1 2 Coordinator 0 0.
Definition demo_client : RegistryClient := mkClient idle demo_binding status_ok 0 1.
Definition demo_session : Remote :=
  mkRemote demo_greeted (Some (mkConnection (decoder kMaxFramePayloadBytes) demo_binding true)) [] calls_done.
Definition demo_define : bytes :=
  encode_mq (mkDefineDomainRequest (envelope demo_client) (Registries.demo_domain "d" Decisions.demo_scope)).

Lemma demo_define_facts :
  nd_stopping demo_greeted = false ∧ zlen demo_define <=? kMaxFramePayloadBytes = true ∧
  (let '(n, a) := handle_frame calls_done (Frames.seal MessageType.DefineDomainRequest 0 1 demo_define)
                    (admit_request 1 demo_binding) demo_greeted in
   match a with
   | Ret reply => Some (reply.1, zlen reply.2 <=? kMaxFramePayloadBytes, zlen (rs_domains (nd_state n)))
   | Err _ => None
   end) = Some (MessageType.DefineDomainResponse, true, 1).
Proof. vm_compute. repeat split. Qed.

Lemma demo_node_id : id_valid (str "node-a").
Proof. by repeat split; vm_compute. Qed.

#[local] Opaque demo_greeted demo_define.

Lemma demo_paired : paired demo_client demo_binding demo_session.
Proof.
  constructor; [reflexivity|reflexivity|reflexivity|discriminate|reflexivity| |].
  - cbn. unfold u64_max. lia.
  - exact (proj1 demo_define_facts).
Qed.

Lemma demo_sendable : sendable MessageType.DefineDomainRequest demo_define demo_client.
Proof.
  split; [discriminate|]. split; [discriminate|].
  split; [apply Z.leb_le; exact (proj1 (proj2 demo_define_facts))|].
  unfold kMaxRequestsPerSession, u64_max. cbn. lia.
Qed.

Lemma remote_call_witness : ∃ r' data,
  transact MessageType.DefineDomainRequest demo_define MessageType.DefineDomainResponse demo_client
    demo_session = (count_sent 1 (set_next 2 demo_client), r', Ret data) ∧
  zlen (rs_domains (nd_state (rm_node r'))) = 1.
Proof.
  pose proof (Calls.remote_call MessageType.DefineDomainRequest demo_define demo_client demo_binding
    demo_session demo_paired demo_sendable) as H.
  pose proof (proj2 (proj2 demo_define_facts)) as F. cbv zeta in H.
  cbn [demo_client cl_next_request demo_session rm_node rm_calls] in H.
  destruct (handle_frame calls_done _ _ demo_greeted) as [n' [reply|st]]; [|discriminate F].
  injection F as _ Fl Fd. destruct (H (proj1 (Z.leb_le _ _) Fl) ltac:(discriminate)) as (r' & E & G).
  exists r', reply.2. split; [exact E|]. destruct (G eq_refl) as [En _]. rewrite En. exact Fd.
Defined.

Lemma connect_pairs_witness : ∃ c r',
  client_connect demo_endpoint demo_hello client0 demo_remote = (c, r', status_ok) ∧
  nd_handled (rm_node r') = 1 ∧ paired c demo_binding r'.
Proof.
  pose proof (Calls.connect_pairs demo_endpoint demo_hello demo_remote
    (conj demo_node_id eq_refl) eq_refl (proj2 demo_hello_facts)) as H.
  pose proof (proj1 demo_hello_facts) as F.
  change (rm_calls demo_remote) with calls_done in H.
  destruct (handle_hello calls_done demo_hello _) as [n' [[resp b]|st]]; [|discriminate F].
  injection F as -> -> Fs Fh.
  destruct H as (c & r' & E & En & Hp & _).
  - split; [cbn; unfold is_u64; lia|]. split; [vm_compute; split; [discriminate|reflexivity]|].
    split; [vm_compute; split; [discriminate|reflexivity]|].
    repeat (apply Forall_cons; split; [cbn; unfold is_u64; lia|]). constructor.
  - exact Fs.
  - discriminate.
  - exists c, r'. split; [exact E|]. split; [|exact Hp].
    rewrite En. unfold count_handled, set_counters. cbn [nd_handled]. rewrite Fh. reflexivity.
Defined.
