(* ===== verification/Coordinator.v ===== *)
(** * The coordinator

    Models [include/sbf/coordinator.hpp] and [src/coordinator.cpp]: acquiring an
    authority, collecting evidence from the witnesses, asking for a decision and
    committing, attempt by attempt.  A coordinator owns one socket to the registry
    and one to each witness; [net] gives the system calls on each of them over one
    shared world. *)
From S2P Require Import Prelude Order SortedVec Status Ids Text Net Digest Canonical Scope.
From S2P Require Import Fence Lineage Evidence Arbiter Codec Readers Wire Messages Journal Fabric.
From S2P Require Import Registry Replay Snapshot Service Sessions Client Remote.
Open Scope Z_scope.

(** ** Outcomes and reports *)
Module Mutations.

(** [enum class MutationOutcome]. *)
Inductive MutationOutcome : Set :=
  | Applied | AcknowledgedNotVerified | Refused | Fenced | Unknown | Conflict | Invalid
  | Unreachable | Interrupted.

(** [to_string(MutationOutcome)]. *)
Definition to_string (o : MutationOutcome) : bytes :=
  match o with
  | Applied => str "APPLIED"
  | AcknowledgedNotVerified => str "ACKNOWLEDGED_NOT_VERIFIED"
  | Refused => str "REFUSED"
  | Fenced => str "FENCED"
  | Unknown => str "UNKNOWN"
  | Conflict => str "CONFLICT"
  | Invalid => str "INVALID"
  | Unreachable => str "UNREACHABLE"
  | Interrupted => str "INTERRUPTED"
  end.

Definition classify (st : Status) : MutationOutcome :=
  match outcome st with
  | Outcome.Ok => Applied
  | Outcome.Fenced => Fenced
  | Outcome.Conflict => Conflict
  | Outcome.Unknown => Unknown
  | Outcome.Unreachable | Outcome.Closed => Unreachable
  | Outcome.Interrupted => Interrupted
  | Outcome.Invalid | Outcome.Unsupported | Outcome.Refused | Outcome.Exhausted
  | Outcome.Indeterminate | Outcome.SearchLimitReached | Outcome.NotFound
  | Outcome.AlreadyExists | Outcome.Corrupt => Refused
  | Outcome.Stale => Fenced
  end.
End Mutations.
Abbreviation MutationOutcome := Mutations.MutationOutcome.

#[export] Instance mutation_outcome_eq_dec : EqDecision MutationOutcome.
Proof. solve_decision. Defined.

Record MutationAttempt := mkAttempt {
  mt_attempt : Sequence;
  mt_outcome : MutationOutcome;
  mt_status : Status;
  mt_epoch : Epoch;
  mt_token : FenceToken;
  mt_sequence : Sequence;
  mt_effect : Digest256;
  mt_operation : bytes
}.

Record CoordinatorReport := mkCoordinatorReport {
  ct_attempted : Z;
  ct_applied : Z;
  ct_refused : Z;
  ct_fenced : Z;
  ct_unreachable : Z;
  ct_unknown : Z;
  ct_acknowledged : Z;
  ct_conflicts : Z;
  ct_attempts : list MutationAttempt;
  ct_final_epoch : Epoch;
  ct_final_token : FenceToken;
  ct_final_grant : GrantId;
  ct_holds_authority : bool
}.

Definition report0 : CoordinatorReport := mkCoordinatorReport 0 0 0 0 0 0 0 0 [] 0 0 0 false.

(** The counters of a report. *)
Inductive Tally : Set :=
  | Attempted | AppliedT | RefusedT | FencedT | UnreachableT | UnknownT | AcknowledgedT | ConflictsT.

#[export] Instance tally_eq_dec : EqDecision Tally.
Proof. solve_decision. Defined.

(** [++report.<counter>]. *)
Definition tally (t : Tally) (r : CoordinatorReport) : CoordinatorReport :=
  let up k v := if bool_decide (t = k) then u64 (v + 1) else v in
  mkCoordinatorReport (up Attempted (ct_attempted r)) (up AppliedT (ct_applied r))
    (up RefusedT (ct_refused r)) (up FencedT (ct_fenced r)) (up UnreachableT (ct_unreachable r))
    (up UnknownT (ct_unknown r)) (up AcknowledgedT (ct_acknowledged r))
    (up ConflictsT (ct_conflicts r)) (ct_attempts r) (ct_final_epoch r) (ct_final_token r)
    (ct_final_grant r) (ct_holds_authority r).

Definition kMaxReportedAttempts : Z := 4096.

(** [if (report.attempts.size() < 4096) report.attempts.push_back(attempt)]. *)
Definition record_attempt (a : MutationAttempt) (r : CoordinatorReport) : CoordinatorReport :=
  if zlen (ct_attempts r) <? kMaxReportedAttempts
  then mkCoordinatorReport (ct_attempted r) (ct_applied r) (ct_refused r) (ct_fenced r)
         (ct_unreachable r) (ct_unknown r) (ct_acknowledged r) (ct_conflicts r)
         (ct_attempts r ++ [a]) (ct_final_epoch r) (ct_final_token r) (ct_final_grant r)
         (ct_holds_authority r)
  else r.

Definition holding (holds : bool) (r : CoordinatorReport) : CoordinatorReport :=
  mkCoordinatorReport (ct_attempted r) (ct_applied r) (ct_refused r) (ct_fenced r)
    (ct_unreachable r) (ct_unknown r) (ct_acknowledged r) (ct_conflicts r) (ct_attempts r)
    (ct_final_epoch r) (ct_final_token r) (ct_final_grant r) holds.

Definition with_final (epoch : Epoch) (token : FenceToken) (grant : GrantId) (r : CoordinatorReport)
  : CoordinatorReport :=
  mkCoordinatorReport (ct_attempted r) (ct_applied r) (ct_refused r) (ct_fenced r)
    (ct_unreachable r) (ct_unknown r) (ct_acknowledged r) (ct_conflicts r) (ct_attempts r)
    epoch token grant (ct_holds_authority r).

(** ** [class Coordinator] *)

Record CoordinatorConfig := mkCoordinatorConfig {
  cf_node : NodeId;
  cf_domain : DomainId;
  cf_scope : Scope;
  cf_registry : Endpoint;
  cf_policy_generation : Generation;
  cf_operation_budget : Z;
  cf_verify_effect : bool;
  cf_require_quorum : bool
}.

Record Coordinator := mkCoordinator {
  co_config : CoordinatorConfig;
  co_witnesses : list WitnessClient;        (* config_.witnesses *)
  co_client : RegistryClient;
  co_incarnation : IncarnationId;
  co_boot : BootId;
  co_epoch : Epoch;
  co_token : FenceToken;
  co_grant : GrantId;
  co_attempt : Sequence;
  co_policy : PolicyId;
  co_policy_gen : Generation;
  co_step : Step;
  co_authority : bool
}.

Definition coordinator0 (config : CoordinatorConfig) (witnesses : list WitnessClient) : Coordinator :=
  mkCoordinator config witnesses client0 0 0 0 0 0 0 [] 0 0 false.

(** Fields replaced. *)
Definition set_client (c : RegistryClient) (x : Coordinator) : Coordinator :=
  mkCoordinator (co_config x) (co_witnesses x) c (co_incarnation x) (co_boot x) (co_epoch x)
    (co_token x) (co_grant x) (co_attempt x) (co_policy x) (co_policy_gen x) (co_step x) (co_authority x).
Definition set_witnesses (ws : list WitnessClient) (x : Coordinator) : Coordinator :=
  mkCoordinator (co_config x) ws (co_client x) (co_incarnation x) (co_boot x) (co_epoch x)
    (co_token x) (co_grant x) (co_attempt x) (co_policy x) (co_policy_gen x) (co_step x) (co_authority x).
Definition set_identity (boot : BootId) (incarnation : IncarnationId) (x : Coordinator) : Coordinator :=
  mkCoordinator (co_config x) (co_witnesses x) (co_client x) incarnation boot (co_epoch x)
    (co_token x) (co_grant x) (co_attempt x) (co_policy x) (co_policy_gen x) (co_step x) (co_authority x).
Definition set_attempt (n : Sequence) (x : Coordinator) : Coordinator :=
  mkCoordinator (co_config x) (co_witnesses x) (co_client x) (co_incarnation x) (co_boot x) (co_epoch x)
    (co_token x) (co_grant x) n (co_policy x) (co_policy_gen x) (co_step x) (co_authority x).
Definition set_authority (held : bool) (x : Coordinator) : Coordinator :=
  mkCoordinator (co_config x) (co_witnesses x) (co_client x) (co_incarnation x) (co_boot x) (co_epoch x)
    (co_token x) (co_grant x) (co_attempt x) (co_policy x) (co_policy_gen x) (co_step x) held.
(** The authority an allocation answers with. *)
Definition set_granted (r : AllocateEpochResponse) (x : Coordinator) : Coordinator :=
  mkCoordinator (co_config x) (co_witnesses x) (co_client x) (co_incarnation x) (co_boot x)
    (Messages.ar_epoch r) (ar_fence_token r) (Messages.ar_grant r) (co_attempt x) (Messages.ar_policy r)
    (ar_policy_generation r) (ar_allocation_step r) true.

(** [operation_digest]. *)
Definition operation_digest (operation : bytes) (attempt : Sequence) : Digest256 :=
  Digest256_of (w_text operation ++ w_counter attempt).

(** [EvidenceBundle{}], and with the fields of the coordinator's policy. *)
Definition bundle0 : EvidenceBundle := mkBundle [] 1 0 0 [] false lease0.
Definition policy_bundle (x : Coordinator) (l : list WitnessAttestation) : EvidenceBundle :=
  mkBundle (co_policy x) (co_policy_gen x) (co_step x) 0 l false lease0.

Section coordinator.
Context {K : Type} (net : nat → Kernel K).

(** The registry's socket, and the witnesses' from [i] on. *)
Definition registry_net : Kernel K := net O.

(** *** [connect] *)

Fixpoint connect_witnesses (i : nat) (hello : HelloRequest) (ws : list WitnessClient) (k : K)
  : list WitnessClient * K :=
  match ws with
  | [] => ([], k)
  | w :: ws =>
      let '(w, k, _) := witness_connect (H:=net i) hello w k in
      let (ws, k) := connect_witnesses (S i) hello ws k in
      (w :: ws, k)
  end.

Definition coordinator_connect (x : Coordinator) (k : K) : Coordinator * K * Status :=
  let hello := mkHelloRequest (cf_node (co_config x)) Wire.Coordinator kFrameVersion in
  let '(c, k, st) := client_connect (H:=registry_net) (cf_registry (co_config x)) hello (co_client x) k in
  let x := set_client c x in
  if negb (is_ok st) then (x, k, st)
  else
    let x := set_identity (sb_boot (cl_binding c)) (sb_incarnation (cl_binding c)) x in
    let (ws, k) := connect_witnesses 1 hello (co_witnesses x) k in
    (set_witnesses ws x, k, status_ok).

(** *** [acquire_authority] *)

Definition acquire_authority (x : Coordinator) (k : K) : Coordinator * K * Status :=
  if negb (ln_connected (cl_link (co_client x)))
  then (x, k, fail0 Outcome.Unreachable Reason.DependencyUnreachable)
  else
    let (n, ok) := try_increment (co_attempt x) 1 in
    if negb ok then (x, k, fail0 Outcome.Exhausted Reason.CounterOverflow)
    else
      let x := set_attempt n x in
      let '(c, k, r) :=
        client_allocate_epoch (H:=registry_net) (cf_domain (co_config x)) (cf_scope (co_config x))
          (co_incarnation x) (co_boot x) n (co_client x) k in
      let x := set_client c x in
      match r with
      | Err st => (x, k, st)
      | Ret a =>
          if negb (is_ok (Messages.ar_status a)) then (x, k, Messages.ar_status a)
          else (set_granted a x, k, status_ok)
      end.

(** *** [collect_evidence] *)

(** The loop over the witnesses: the break leaves the rest untouched. *)
Fixpoint ask_witnesses (i : nat) (x : Coordinator) (ws : list WitnessClient)
    (l : list WitnessAttestation) (k : K) : list WitnessClient * K * list WitnessAttestation :=
  match ws with
  | [] => ([], k, l)
  | w :: ws =>
      let '(w, k, r) :=
        witness_client_attest (H:=net i) (cf_domain (co_config x)) (cf_scope (co_config x))
          (co_epoch x) (co_incarnation x) (co_token x) (co_policy_gen x) (co_step x) w k in
      match r with
      | Err _ => let '(ws, k, l) := ask_witnesses (S i) x ws l k in (w :: ws, k, l)
      | Ret a =>
          if kMaxAttestationsPerBundle <=? zlen l then (w :: ws, k, l)
          else
            let '(ws, k, l) := ask_witnesses (S i) x ws (l ++ [tp_attestation a]) k in
            (w :: ws, k, l)
      end
  end.

Definition collect_evidence (x : Coordinator) (k : K)
  : Coordinator * K * EvidenceBundle * Status :=
  if id_empty (co_policy x) then (x, k, bundle0, fail0 Outcome.Invalid Reason.PolicyNotRegistered)
  else
    let '(ws, k, l) := ask_witnesses 1 x (co_witnesses x) [] k in
    (set_witnesses ws x, k, policy_bundle x l, status_ok).

(** *** [evaluate] *)

Definition decide_subject (x : Coordinator) (mode : AuthorityMode) (bundle : EvidenceBundle)
  : Messages.DecideRequest :=
  mkDecideRequest (mkEnvelope 0 [] 0 0) (cf_domain (co_config x)) (cf_scope (co_config x)) (co_epoch x)
    (co_incarnation x) (co_boot x) (co_token x) mode (co_attempt x) bundle wallclock0.

(** A decision that could not be asked for is the default one. *)
Definition evaluate (mode : AuthorityMode) (bundle : EvidenceBundle) (x : Coordinator) (k : K)
  : Coordinator * K * AuthorityDecision * Status :=
  let '(c, k, r) := client_decide (H:=registry_net) (decide_subject x mode bundle) (co_client x) k in
  let x := set_client c x in
  match r with
  | Err st => (x, k, decision0, st)
  | Ret a => (x, k, dr_decision a, if is_ok (dr_status a) then status_ok else dr_status a)
  end.

(** *** [mutate] *)

Definition commit_subject (x : Coordinator) (operation : bytes) : Messages.CommitRequest :=
  Messages.mkCommitRequest (mkEnvelope 0 [] 0 0) (cf_domain (co_config x)) (cf_scope (co_config x))
    (co_epoch x) (co_incarnation x) (co_grant x) (co_token x) (co_attempt x) operation
    (operation_digest operation (co_attempt x)) wallclock0.

Definition attempt_of (x : Coordinator) (operation : bytes) (o : MutationOutcome) (st : Status)
    (sequence : Sequence) : MutationAttempt :=
  mkAttempt (co_attempt x) o st (co_epoch x) (co_token x) sequence Digest256_zero operation.

(** An attempt that ends the authority. *)
Definition lost (a : MutationAttempt) (x : Coordinator) (r : CoordinatorReport)
  : Coordinator * CoordinatorReport :=
  (set_authority false x, holding false (record_attempt a r)).

(** No decision that permits the mutation. *)
Definition refuse_attempt (operation : bytes) (d : AuthorityDecision) (st : Status) (x : Coordinator)
    (r : CoordinatorReport) : Coordinator * CoordinatorReport :=
  let why := if is_ok st then ad_status d else st in
  let o := if bool_decide (ad_verdict d = VUnknown) then Mutations.Unknown else Mutations.classify why in
  let r := tally RefusedT r in
  let r :=
    match o with
    | Mutations.Fenced => tally FencedT r
    | Mutations.Unreachable => tally UnreachableT r
    | Mutations.Conflict => tally ConflictsT r
    | Mutations.Unknown => tally UnknownT r
    | _ => r
    end in
  lost (attempt_of x operation o why 0) x r.

(** The registry answered the commit. *)
Definition conclude (operation : bytes) (a : Messages.CommitResponse) (x : Coordinator)
    (r : CoordinatorReport) : Coordinator * CoordinatorReport :=
  if negb (is_ok (cr_status a))
  then
    let o := Mutations.classify (cr_status a) in
    let r :=
      match o with
      | Mutations.Fenced => tally FencedT r
      | Mutations.Conflict => tally ConflictsT r
      | Mutations.Unknown => tally UnknownT r
      | _ => tally RefusedT r
      end in
    lost (attempt_of x operation o (cr_status a) (cr_store_sequence a)) x r
  else
    let '(o, r) :=
      if Messages.cr_verified a then (Mutations.Applied, tally AppliedT r)
      else (Mutations.AcknowledgedNotVerified, tally AcknowledgedT r) in
    (x, record_attempt
          (mkAttempt (co_attempt x) o status_ok (co_epoch x) (cr_admitted_token a) (cr_store_sequence a)
             (cr_effect_digest a) operation) r).

Definition try_commit (operation : bytes) (x : Coordinator) (r : CoordinatorReport) (k : K)
  : Coordinator * CoordinatorReport * K :=
  let '(c, k, answer) :=
    client_commit (H:=registry_net) (commit_subject x operation) (co_client x) k in
  let x := set_client c x in
  match answer with
  | Err st =>
      (lost (attempt_of x operation Mutations.Unreachable st 0) x (tally UnreachableT r), k)
  | Ret a => (conclude operation a x r, k)
  end.

(** The evidence of an attempt; why none was collected is not looked at. *)
Definition gather (x : Coordinator) (k : K) : Coordinator * K * EvidenceBundle :=
  if cf_require_quorum (co_config x)
  then let '(x, k, bundle, _) := collect_evidence x k in (x, k, bundle)
  else (x, k, policy_bundle x []).

(** One turn of the loop, once the attempt is numbered. *)
Definition attempt (operation : bytes) (x : Coordinator) (r : CoordinatorReport) (k : K)
  : Coordinator * CoordinatorReport * K :=
  let '(x, k, bundle) := gather x k in
  let '(x, k, d, st) := evaluate ExclusiveMutation bundle x k in
  if negb (is_ok st) || negb (verdict_permits_mutation (ad_verdict d))
  then (refuse_attempt operation d st x r, k)
  else try_commit operation x r k.

Fixpoint mutate_loop (operation : bytes) (count : nat) (x : Coordinator) (r : CoordinatorReport) (k : K)
  : Coordinator * CoordinatorReport * K * Status :=
  match count with
  | O => (x, holding (co_authority x) r, k, status_ok)
  | S count =>
      let r := tally Attempted r in
      let (n, ok) := try_increment (co_attempt x) 1 in
      if negb ok then (x, r, k, fail0 Outcome.Exhausted Reason.CounterOverflow)
      else
        let '(x, r, k) := attempt operation (set_attempt n x) r k in
        mutate_loop operation count x r k
  end.

Definition mutate (operation : bytes) (count : Z) (x : Coordinator) (r : CoordinatorReport) (k : K)
  : Coordinator * CoordinatorReport * K * Status :=
  if id_empty operation || (kMaxTextLength <? zlen operation)
  then (x, r, k, fail0 Outcome.Invalid Reason.ValueOutOfRange)
  else
    let '(x, k, st) := if co_authority x then (x, k, status_ok) else acquire_authority x k in
    let r := with_final (co_epoch x) (co_token x) (co_grant x) report0 in
    if negb (is_ok st) then (x, holding false (tally UnreachableT r), k, st)
    else mutate_loop operation (Z.to_nat count) x r k.

(** *** [release], [close] *)

Definition coordinator_release (cause : Reason) (x : Coordinator) (k : K) : Coordinator * K :=
  if negb (ln_connected (cl_link (co_client x))) || is_none (co_grant x) then (x, k)
  else
    let '(c, k, r) :=
      client_release (H:=registry_net)
        (Messages.mkReleaseRequest (mkEnvelope 0 [] 0 0) (co_grant x) cause) (co_client x) k in
    let x := set_client c x in
    match r with
    | Ret a => if is_ok (rp_status a) then (set_authority false x, k) else (x, k)
    | Err _ => (x, k)
    end.

Fixpoint close_witnesses (i : nat) (ws : list WitnessClient) (k : K) : list WitnessClient * K :=
  match ws with
  | [] => ([], k)
  | w :: ws =>
      let (w, k) := witness_close (H:=net i) w k in
      let (ws, k) := close_witnesses (S i) ws k in
      (w :: ws, k)
  end.

Definition coordinator_close (x : Coordinator) (k : K) : Coordinator * K :=
  let (ws, k) := close_witnesses 1 (co_witnesses x) k in
  let (c, k) := client_close (H:=registry_net) (co_client x) k in
  (set_authority false (set_client c (set_witnesses ws x)), k).
End coordinator.

(** ** What an attempt changes *)

(** The authority a run acts under. *)
Definition authority_of (x : Coordinator) :=
  (co_config x, co_incarnation x, co_boot x, (co_epoch x, co_token x, co_grant x),
   (co_policy x, co_policy_gen x, co_step x)).

(** Everything but the sockets and the flag. *)
Definition same_run (x x' : Coordinator) : Prop :=
  authority_of x' = authority_of x ∧ co_attempt x' = co_attempt x.

#[export] Instance same_run_preorder : PreOrder same_run.
Proof. unfold same_run. split; [by split|]. intros a b c [? ?] [? ?]. split; congruence. Qed.

(** The two counters of a success, and the rest. *)
Definition successes (r : CoordinatorReport) : Z * Z := (ct_applied r, ct_acknowledged r).

(** An attempt that succeeded, or one that ended the authority. *)
Inductive turn_done (x : Coordinator) (r : CoordinatorReport) (x' : Coordinator) (r' : CoordinatorReport)
    (a : MutationAttempt) : Prop :=
  | turn_success :
      co_authority x' = co_authority x → mt_status a = status_ok →
      (mt_outcome a = Mutations.Applied ∧
         successes r' = (u64 (ct_applied r + 1), ct_acknowledged r) ∨
       mt_outcome a = Mutations.AcknowledgedNotVerified ∧
         successes r' = (ct_applied r, u64 (ct_acknowledged r + 1))) →
      turn_done x r x' r' a
  | turn_failure :
      co_authority x' = false → ct_holds_authority r' = false → mt_token a = co_token x →
      successes r' = successes r → turn_done x r x' r' a.

Section turns.
Context {K : Type} (net : nat → Kernel K).

Lemma gather_keeps x k : let '(x', _, _) := gather net x k in
  same_run x x' ∧ co_client x' = co_client x ∧ co_authority x' = co_authority x.
Proof.
  unfold gather. destruct (cf_require_quorum _); [|done]. unfold collect_evidence.
  destruct (id_empty _); [done|]. by destruct (ask_witnesses _ _ _ _ _ _) as [[ws k1] l].
Qed.

Lemma evaluate_keeps mode bundle x k : let '(x', _, _, _) := evaluate net mode bundle x k in
  same_run x x' ∧ co_witnesses x' = co_witnesses x ∧ co_authority x' = co_authority x.
Proof.
  unfold evaluate. destruct (client_decide _ _ _) as [[c k1] r]. by destruct r.
Qed.

(** How many attempts were made, and under which authority. *)
Definition tallied (r : CoordinatorReport) :=
  (ct_attempted r, (ct_final_epoch r, ct_final_token r, ct_final_grant r)).

Lemma record_attempt_counts a r : successes (record_attempt a r) = successes r ∧
  tallied (record_attempt a r) = tallied r ∧
  ct_attempts (record_attempt a r) =
    if zlen (ct_attempts r) <? kMaxReportedAttempts then ct_attempts r ++ [a] else ct_attempts r.
Proof. unfold record_attempt. by destruct (_ <? _). Qed.

(** Counting anything but a success. *)
Definition failure_tally (t : Tally) : bool :=
  match t with Attempted | AppliedT | AcknowledgedT => false | _ => true end.

Lemma tally_failure t r : failure_tally t = true →
  successes (tally t r) = successes r ∧ tallied (tally t r) = tallied r ∧
  ct_attempts (tally t r) = ct_attempts r.
Proof. by destruct t. Qed.

(** The attempts listed. *)
Definition listed (a : MutationAttempt) (r r' : CoordinatorReport) : Prop :=
  tallied r' = tallied r ∧
  ct_attempts r' =
    if zlen (ct_attempts r) <? kMaxReportedAttempts then ct_attempts r ++ [a] else ct_attempts r.

Lemma lost_done a x r r0 : mt_token a = co_token x → successes r = successes r0 →
  tallied r = tallied r0 → ct_attempts r = ct_attempts r0 →
  turn_done x r0 (lost a x r).1 (lost a x r).2 a ∧ listed a r0 (lost a x r).2 ∧ same_run x (lost a x r).1.
Proof.
  intros Ht Hs Ha Hl. unfold lost. cbn [fst snd].
  destruct (record_attempt_counts a r) as (E1 & E2 & E3). split; [|split; [|done]].
  - apply turn_failure; [done..|]. etransitivity; [exact E1|exact Hs].
  - split; [by etransitivity; [exact E2|]|]. cbn [holding ct_attempts]. by rewrite E3, Hl.
Qed.

(** What the report says of the attempt itself. *)
Definition describes (x : Coordinator) (operation : bytes) (a : MutationAttempt) : Prop :=
  mt_attempt a = co_attempt x ∧ mt_epoch a = co_epoch x ∧ mt_operation a = operation.

Definition turn (operation : bytes) (x : Coordinator) (r : CoordinatorReport)
    (y : Coordinator * CoordinatorReport) : Prop :=
  same_run x y.1 ∧ ∃ a, turn_done x r y.1 y.2 a ∧ listed a r y.2 ∧ describes x operation a.

Lemma lost_turn operation o st n x r r0 : successes r = successes r0 →
  tallied r = tallied r0 → ct_attempts r = ct_attempts r0 →
  turn operation x r0 (lost (attempt_of x operation o st n) x r).
Proof.
  intros. destruct (lost_done (attempt_of x operation o st n) x r r0) as (Hd & Hl & Hs); [done..|].
  split; [exact Hs|]. exists (attempt_of x operation o st n). done.
Qed.

Lemma refuse_turn operation d st x r : turn operation x r (refuse_attempt operation d st x r).
Proof.
  unfold refuse_attempt. set (o := if bool_decide _ then _ else _).
  destruct (tally_failure RefusedT r eq_refl) as (E1 & E2 & E3).
  apply lost_turn; destruct o; try done;
    match goal with |- context [tally ?t (tally RefusedT r)] =>
      destruct (tally_failure t (tally RefusedT r) eq_refl) as (F1 & F2 & F3) end;
    first [exact (eq_trans F1 E1)|exact (eq_trans F2 E2)|exact (eq_trans F3 E3)].
Qed.

Lemma conclude_turn operation c x r : turn operation x r (conclude operation c x r).
Proof.
  unfold conclude. destruct (is_ok (cr_status c)); cbn [negb].
  - assert (Hsucc : ∀ o r1, (o = Mutations.Applied ∧ r1 = tally AppliedT r ∨
        o = Mutations.AcknowledgedNotVerified ∧ r1 = tally AcknowledgedT r) →
      turn operation x r (x, record_attempt
        (mkAttempt (co_attempt x) o status_ok (co_epoch x) (cr_admitted_token c) (cr_store_sequence c)
           (cr_effect_digest c) operation) r1)).
    { intros o r1 Ho. split; [done|]. set (a := mkAttempt _ _ _ _ _ _ _ _). exists a.
      destruct (record_attempt_counts a r1) as (E1 & E2 & E3). split; [|split; [|done]].
      - apply turn_success; [done..|]. cbn [snd]. rewrite E1.
        destruct Ho as [[-> ->]|[-> ->]]; [by left|by right].
      - split; cbn [snd]; [rewrite E2|rewrite E3]; by destruct Ho as [[_ ->]|[_ ->]]. }
    destruct (Messages.cr_verified c); apply Hsucc; [by left|by right].
  - apply lost_turn; destruct (Mutations.classify (cr_status c)); done.
Qed.

Lemma turn_after operation x0 x r y : same_run x0 x → co_authority x = co_authority x0 →
  turn operation x r y → turn operation x0 r y.
Proof.
  intros [Ha Hn] Hf ([Ha' Hn'] & a & Hd & Hl & D1 & D2 & D3).
  assert (Ht : co_token x = co_token x0 ∧ co_epoch x = co_epoch x0) by (unfold authority_of in Ha; split; congruence).
  destruct Ht as [Ht He]. split; [split; congruence|]. exists a. split; [|split; [done|split; [congruence|split; congruence]]].
  destruct Hd as [H1 H2 H3|H1 H2 H3 H4]; [apply turn_success|apply turn_failure]; congruence || done.
Qed.

Lemma attempt_turn operation x r k :
  turn operation x r (attempt net operation x r k).1.
Proof.
  unfold attempt. pose proof (gather_keeps x k) as Hg. destruct (gather net x k) as [[x1 k1] bundle].
  destruct Hg as (Hg & _ & Hga). pose proof (evaluate_keeps ExclusiveMutation bundle x1 k1) as He.
  destruct (evaluate net _ bundle x1 k1) as [[[x2 k2] d] st]. destruct He as (He & _ & Hea).
  assert (Hr : same_run x x2) by by etransitivity.
  assert (Hf : co_authority x2 = co_authority x) by congruence.
  apply (turn_after _ _ x2); [done..|]. destruct (_ || _); cbn [fst]; [apply refuse_turn|].
  unfold try_commit. destruct (client_commit _ _ k2) as [[c k3] [a|st3]]; cbn [fst];
    apply (turn_after _ _ (set_client c x2)); try done; [apply conclude_turn|].
  by apply lost_turn.
Qed.
End turns.

(** ** A run *)

Definition succeeded (r : CoordinatorReport) : Z := ct_applied r + ct_acknowledged r.

(** No counter of the report can have wrapped. *)
Definition within (n : Z) (r : CoordinatorReport) : Prop :=
  0 <= ct_applied r ∧ 0 <= ct_acknowledged r ∧ succeeded r <= n.

Lemma turn_counts operation x r y n : within n r → n < u64_max → turn operation x r y →
  within (n + 1) y.2 ∧ succeeded r <= succeeded y.2 <= succeeded r + 1 ∧
  (co_authority y.1 = true ↔ co_authority x = true ∧ succeeded y.2 = succeeded r + 1).
Proof.
  intros (Ha & Hk & Hs) Hn (_ & a & Hd & _). unfold within, succeeded, u64_max in *.
  assert (U : ∀ v, 0 <= v <= n → u64 (v + 1) = v + 1) by (intros; apply u64_id; unfold is_u64; lia).
  unfold successes in Hd.
  destruct Hd as [Hau _ Hd|Hau _ _ Hd].
  - destruct Hd as [[_ E]|[_ E]]; injection E as E1 E2; rewrite U in * by lia;
      (split; [split_and!; lia|]); (split; [lia|]); rewrite Hau; intuition lia.
  - injection Hd as E1 E2. split; [split_and!; lia|]. split; [lia|]. rewrite Hau.
    split; [done|]. intros [_ ?]. lia.
Qed.

Section runs.
Context {K : Type} (net : nat → Kernel K).

(** The attempts of a run, as they are listed. *)
Definition run_list (x : Coordinator) (operation : bytes) (l : list MutationAttempt) : Prop :=
  ∀ i a, l !! i = Some a →
    mt_attempt a = co_attempt x + 1 + Z.of_nat i ∧ mt_epoch a = co_epoch x ∧ mt_operation a = operation.

Lemma run_counts operation count x r k x' r' k' st n :
  within n r → n + Z.of_nat count < u64_max →
  0 <= ct_attempted r ∧ ct_attempted r + Z.of_nat count < u64_max →
  mutate_loop net operation count x r k = (x', r', k', st) → is_ok st = true →
  authority_of x' = authority_of x ∧
  tallied r' = (ct_attempted r + Z.of_nat count, (ct_final_epoch r, ct_final_token r, ct_final_grant r)) ∧
  succeeded r <= succeeded r' <= succeeded r + Z.of_nat count ∧
  (ct_holds_authority r' = true ↔ co_authority x = true ∧ succeeded r' = succeeded r + Z.of_nat count).
Proof.
  revert x r k n. induction count as [|count IH]; intros x r k n Hw Hn Hc E Hok; cbn [mutate_loop] in E.
  { injection E as <- <- <- <-. unfold succeeded, tallied. cbn.
    split; [done|]. split; [f_equal; lia|]. split; [lia|]. intuition lia. }
  set (r1 := tally Attempted r) in *.
  assert (H1 : within n r1 ∧ succeeded r1 = succeeded r ∧ tallied r1 =
    (ct_attempted r + 1, (ct_final_epoch r, ct_final_token r, ct_final_grant r))).
  { split; [exact Hw|]. split; [done|]. unfold r1, tallied, u64_max in *. cbn. do 2 f_equal.
    apply u64_id. unfold is_u64. lia. }
  clearbody r1. destruct H1 as (Hw1 & Hs1 & Ht1).
  destruct (try_increment (co_attempt x) 1) as [m ok]. destruct ok; cbn [negb] in E; [|by injection E as <- <- <- <-].
  assert (Hx : authority_of (set_attempt m x) = authority_of x ∧ co_authority (set_attempt m x) = co_authority x) by done.
  set (x1 := set_attempt m x) in *. clearbody x1. destruct Hx as [Hx1 Hx2].
  pose proof (attempt_turn net operation x1 r1 k) as Ht.
  destruct (attempt net operation x1 r1 k) as [[x2 r2] k2]. cbn [fst] in Ht.
  destruct (turn_counts _ _ _ _ n Hw1 ltac:(lia) Ht) as (Hw2 & Hs2 & Hau). cbn [fst snd] in *.
  destruct Ht as ([Hra _] & a & _ & [Htl _] & _). cbn [fst snd] in *.
  rewrite Ht1 in Htl. unfold tallied in Htl. injection Htl as T1 T2 T3 T4.
  destruct (IH x2 r2 k2 (n + 1) Hw2 ltac:(lia) ltac:(lia) E Hok) as (R1 & R2 & R3 & R4).
  split; [congruence|]. split; [rewrite R2, T1, T2, T3, T4; f_equal; lia|].
  split; [lia|]. rewrite R4, Hau, Hx2. intuition lia.
Qed.

Lemma run_listed operation count x r k x' r' k' st x0 :
  is_u64 (co_attempt x) → co_epoch x = co_epoch x0 →
  co_attempt x = co_attempt x0 + zlen (ct_attempts r) ∨ zlen (ct_attempts r) = kMaxReportedAttempts →
  zlen (ct_attempts r) <= kMaxReportedAttempts → run_list x0 operation (ct_attempts r) →
  mutate_loop net operation count x r k = (x', r', k', st) → is_ok st = true →
  run_list x0 operation (ct_attempts r') ∧
  zlen (ct_attempts r') = Z.min (zlen (ct_attempts r) + Z.of_nat count) kMaxReportedAttempts.
Proof.
  revert x r k. induction count as [|count IH]; intros x r k Hu He Hat Hle Hl E Hok; cbn [mutate_loop] in E.
  { injection E as <- <- <- <-. cbn. split; [done|]. lia. }
  set (r1 := tally Attempted r) in *. change (ct_attempts r) with (ct_attempts r1) in *. clearbody r1.
  rewrite try_increment_spec in E by (unfold is_u64 in *; lia).
  case_decide as Hm; cbn [negb] in E; [|by injection E as <- <- <- <-].
  pose proof (attempt_turn net operation (set_attempt (co_attempt x + 1) x) r1 k) as Ht.
  destruct (attempt net operation _ r1 k) as [[x2 r2] k2]. cbn [fst] in Ht.
  destruct Ht as ([Hra Hat2] & a & _ & [_ Hls] & D1 & D2 & D3). cbn [fst snd] in *.
  assert (He2 : co_epoch x2 = co_epoch x) by (unfold authority_of in Hra; cbn in Hra; congruence).
  cbn [set_attempt co_attempt co_epoch] in Hat2, D1, D2. pose proof (zlen_nonneg (ct_attempts r1)).
  destruct (Z.ltb_spec (zlen (ct_attempts r1)) kMaxReportedAttempts) as [L|L].
  - destruct Hat as [Hat|]; [|lia].
    assert (El : zlen (ct_attempts r2) = zlen (ct_attempts r1) + 1) by by rewrite Hls, zlen_app.
    destruct (IH x2 r2 k2) as [R1 R2]; try done.
    + rewrite Hat2. unfold is_u64 in *. lia.
    + congruence.
    + left. lia.
    + lia.
    + rewrite Hls. intros i b [Hi|[Hi Hb]]%lookup_app_Some; [by apply Hl|].
      destruct (i - length (ct_attempts r1))%nat eqn:Ei; [|done]. injection Hb as <-.
      unfold zlen in Hat. split; [lia|]. split; [congruence|done].
    + split; [done|]. lia.
  - destruct (IH x2 r2 k2) as [R1 R2]; rewrite ?Hls; try done.
    + rewrite Hat2. unfold is_u64 in *. lia.
    + congruence.
    + right. lia.
    + split; [done|]. rewrite R2, Hls. lia.
Qed.
End runs.


Lemma honest_status : honest r_status.
Proof.
  assert (Ho : honest r_outcome) by by apply honest_enum.
  unfold r_status. apply honest_bind; [exact Ho|]. intros o. repeat honest_step.
Qed.

(** A step that reads nothing. *)
Lemma honest_pure {A B} (m : result A) (f : A → reader → result (B * reader)) :
  (∀ st, m = Err st → is_ok st = false) → (∀ x, honest (f x)) →
  honest (λ r, let* x := m in f x r).
Proof. intros Hm Hf r st. destruct m as [x|e]; [apply Hf|]. intros [= <-]. by apply Hm. Qed.

Lemma honest_allocation : honest r_ar.
Proof.
  pose proof honest_status. unfold r_ar. repeat honest_step.
  apply honest_pure; [|intros; repeat honest_step].
  intros st. destruct (id_empty _); [done|]. by destruct (id_try_make _); intros [= <-].
Qed.

Section acquiring.
Context {K : Type} (net : nat → Kernel K).

(** A success leaves an authority; the numbering goes on either way. *)
Lemma acquire_done x k : is_u64 (co_attempt x) →
  let '(x', _, st) := acquire_authority net x k in
  is_u64 (co_attempt x') ∧ (is_ok st = true → co_authority x' = true).
Proof.
  intros Hu. unfold acquire_authority. destruct (negb _); [done|].
  rewrite try_increment_spec by (unfold is_u64 in *; lia). case_decide as Hm; cbn [negb]; [|done].
  destruct (client_allocate_epoch _ _ _ _ _ _ k) as [[c k1] [a|st]] eqn:E.
  - destruct (is_ok (Messages.ar_status a)) eqn:Eo; cbn [negb]; cbn; unfold is_u64 in *;
      (split; [lia|]); [done|congruence].
  - assert (Hs : is_ok st = false); [|rewrite Hs; unfold is_u64 in *; cbn; split; [lia|done]].
    unfold client_allocate_epoch in E. destruct (negb _); [by injection E as _ _ <-|].
    exact (call_fails (H:=registry_net net) _ _ _ _ _ _ _ _ _ honest_allocation E).
Qed.
End acquiring.
