(* ===== verification/Cluster.v ===== *)
(** * A coordinator among registry and witnesses

    What the definitions of [Coordinator] promise: a run's report adds up, a
    coordinator without a registry fails closed, and a mutation that is reported as
    applied is in the effect log of the node.  The last composes the coordinator
    with the client, the frames and the service of [Remote].  The file ends with a
    registry and three witnesses that a coordinator talks to. *)
From S2P Require Import Prelude Order SortedVec Status Ids Text Net Digest Canonical Scope.
From S2P Require Import Fence Lineage Evidence Arbiter Codec Readers Wire Messages Journal Fabric.
From S2P Require Import Registry Replay Snapshot Service Sessions Client Remote Coordinator.
From S2P Require Witness.
Open Scope Z_scope.

(** ** Without a registry *)

Section disconnected.
Context {K : Type} (net : nat → Kernel K).

(** A client that is not connected sends nothing. *)
Lemma decide_disconnected `{H : Kernel K} q (c : RegistryClient) (k : K) :
  ln_connected (cl_link c) = false →
  client_decide q c k = (c, k, Err (fail0 Outcome.Closed Reason.ConnectionClosed)).
Proof. intros Hc. unfold client_decide, call, transact. by rewrite Hc. Qed.

(** The counters of a run that was refused [n] times with an unknown outcome. *)
Definition refused_unknown (n : Z) (r r' : CoordinatorReport) : Prop :=
  (ct_attempted r', ct_refused r', ct_unknown r') =
    (ct_attempted r + n, ct_refused r + n, ct_unknown r + n) ∧
  (ct_applied r', ct_acknowledged r', ct_fenced r', ct_unreachable r', ct_conflicts r') =
    (ct_applied r, ct_acknowledged r, ct_fenced r, ct_unreachable r, ct_conflicts r).

Lemma attempt_disconnected operation x r k : ln_connected (cl_link (co_client x)) = false →
  ∃ x' r' k' a, attempt net operation x r k = (x', r', k') ∧
    co_client x' = co_client x ∧ co_attempt x' = co_attempt x ∧ co_authority x' = false ∧
    (co_witnesses x = [] → k' = k ∧ co_witnesses x' = []) ∧
    mt_outcome a = Mutations.Unknown ∧
    r' = holding false (record_attempt a (tally UnknownT (tally RefusedT r))).
Proof.
  intros Hc. unfold attempt. pose proof (gather_keeps net x k) as Hg.
  assert (Hw : let '(x1, k1, _) := gather net x k in co_witnesses x = [] → k1 = k ∧ co_witnesses x1 = []).
  { unfold gather. destruct (cf_require_quorum _); [|done]. unfold collect_evidence.
    destruct (id_empty _); [done|]. destruct (co_witnesses x); [done|].
    by destruct (ask_witnesses _ _ _ _ _ _) as [[ws k1] evidence]. }
  destruct (gather net x k) as [[x1 k1] bundle]. destruct Hg as ([_ Hn] & Hcl & _).
  unfold evaluate. rewrite decide_disconnected by by rewrite Hcl. cbn [is_ok outcome fail0 negb orb].
  do 4 eexists. split; [reflexivity|]. split; [exact Hcl|]. split; [exact Hn|].
  split; [done|]. split; [exact Hw|]. split; [|reflexivity]. done.
Qed.

(** Room for [n] more in a counter. *)
Definition room (n v : Z) : Prop := 0 <= v ∧ v + n <= u64_max.

Lemma room_next n v : 0 <= n → room (n + 1) v → u64 (v + 1) = v + 1 ∧ room n (v + 1).
Proof.
  unfold room, u64_max. intros Hn [H1 H2]. split; [apply u64_id; unfold is_u64; lia|lia].
Qed.

Lemma loop_disconnected operation count x r k : ln_connected (cl_link (co_client x)) = false →
  room (Z.of_nat count) (co_attempt x) → room (Z.of_nat count) (ct_attempted r) →
  room (Z.of_nat count) (ct_refused r) → room (Z.of_nat count) (ct_unknown r) →
  ∃ x' r' k', mutate_loop net operation count x r k = (x', r', k', status_ok) ∧
    co_client x' = co_client x ∧ refused_unknown (Z.of_nat count) r r' ∧
    (co_witnesses x = [] → k' = k) ∧
    (∀ a, a ∈ ct_attempts r' → a ∈ ct_attempts r ∨ mt_outcome a = Mutations.Unknown) ∧
    ct_holds_authority r' = co_authority x' ∧ co_authority x' = bool_decide (count = O) && co_authority x.
Proof.
  revert x r k. induction count as [|count IH]; intros x r k Hc Ha H1 H2 H3; cbn [mutate_loop].
  { do 3 eexists. split; [reflexivity|]. unfold refused_unknown. cbn [holding ct_attempted ct_refused
      ct_unknown ct_applied ct_acknowledged ct_fenced ct_unreachable ct_conflicts ct_attempts].
    rewrite !Z.add_0_r. split; [done|]. split; [done|]. split; [done|]. split; [auto|].
    split; [done|]. by rewrite bool_decide_true. }
  rewrite Nat2Z.inj_succ, <-Z.add_1_r in *. assert (Hz : 0 <= Z.of_nat count) by lia.
  destruct (room_next _ _ Hz H1) as [U1 H1'], (room_next _ _ Hz H2) as [U2 H2'],
    (room_next _ _ Hz H3) as [U3 H3'].
  rewrite try_increment_spec by (unfold room, is_u64, u64_max in *; lia).
  rewrite decide_True by (unfold room, u64_max in *; lia). cbn [negb].
  set (x0 := set_attempt _ x). set (r0 := tally Attempted r).
  destruct (attempt_disconnected operation x0 r0 k Hc) as (x1 & r1 & k1 & a & E & Ec & En & Eau & Ew & Eo & Er).
  rewrite E. cbn [set_attempt co_client co_attempt co_witnesses x0] in Ec, En, Ew.
  assert (T : ct_attempted r1 = ct_attempted r + 1 ∧ ct_refused r1 = ct_refused r + 1 ∧
    ct_unknown r1 = ct_unknown r + 1 ∧
    (ct_applied r1, ct_acknowledged r1, ct_fenced r1, ct_unreachable r1, ct_conflicts r1) =
    (ct_applied r, ct_acknowledged r, ct_fenced r, ct_unreachable r, ct_conflicts r) ∧
    (∀ b, b ∈ ct_attempts r1 → b ∈ ct_attempts r ∨ b = a)).
  { subst r1. unfold record_attempt. destruct (_ <? _); cbn; rewrite U1, U2, U3;
      (split_and!; [done..|]); intros b Hb; [|by left].
    apply elem_of_app in Hb as [Hb|Hb%list_elem_of_singleton]; auto. }
  clearbody r0. clear Er. destruct T as (T1 & T2 & T3 & T4 & T5).
  destruct (IH x1 r1 k1) as (x' & r' & k' & Er' & Ec' & [R1 R2] & Hk & Hl & Hh & Hau).
  - by rewrite Ec.
  - rewrite En. unfold room in *. lia.
  - by rewrite T1.
  - by rewrite T2.
  - by rewrite T3.
  - exists x', r', k'. rewrite Er'. split; [done|]. split; [congruence|]. split.
    { split; [rewrite R1, T1, T2, T3; f_equal; [f_equal|]; lia|congruence]. }
    split; [intros Hw; destruct (Ew Hw) as [Ek Hw1]; rewrite (Hk Hw1); exact Ek|]. split.
    { intros b Hb. destruct (Hl b Hb) as [Hb1|]; [|by right].
      destruct (T5 b Hb1) as [Hb2|Hb2]; [by left|right; by rewrite Hb2]. }
    split; [done|]. rewrite Hau, Eau, andb_false_r. symmetry. done.
Qed.
End disconnected.

(** ** A commit through the network *)

(** An operation of the registry never fails with a success. *)
Definition failing_only {A} (m : M A) : Prop := ∀ w w' st, m w = (w', Err st) → is_ok st = false.

Lemma failing_bind {A B} (m : M A) (k : A → M B) :
  failing_only m → (∀ x, failing_only (k x)) → failing_only (m ≫= k).
Proof.
  intros Hm Hk w w' st. unfold mbind, m_bind. destruct (m w) as [w1 [x|st1]] eqn:E.
  - by apply Hk.
  - intros [= <- <-]. by eapply Hm.
Qed.

Lemma failing_refuse c st : is_ok st = false → failing_only (refuse_if c st).
Proof. intros Hs w w' st'. unfold refuse_if. by destruct c; intros [= _ <-]. Qed.

Lemma failing_emit kind payload st now : failing_only (emit kind payload st now).
Proof.
  intros w w' e. unfold emit. destruct (apply _ _) as [s1 st1]. destruct (is_ok st1) eqn:E; [done|].
  by intros [= _ <-].
Qed.

Lemma gate_refuses f token incarnation scope st : gate f token incarnation scope = Some st → is_ok st = false.
Proof.
  induction scope as [|e scope IH]; simpl; [done|]. destruct (owner_of f e); [|done].
  destruct (_ <? _); [by intros [= <-]|]. destruct (_ && _); [by intros [= <-]|done].
Qed.

Lemma admit_refuses io f log m f' log' st : fabric_admit io f log m = (f', log', Err st) → is_ok st = false.
Proof.
  unfold fabric_admit. destruct (admit_guard f m) as [e|] eqn:E.
  - intros [= _ _ <-]. revert E. unfold admit_guard.
    repeat (destruct (_ : bool); [by intros [= <-]|]). apply gate_refuses.
  - destruct (_ <? _); [by intros [= _ _ <-]|]. by destruct io; intros [= _ _ <-].
Qed.

Lemma failing_commit io q now : failing_only (commit io q now).
Proof.
  unfold commit. repeat (apply failing_bind; [by apply failing_refuse|intros _]).
  apply failing_bind.
  { intros w w' st. unfold check_registered, mbind, m_bind, state. destruct (find_domain _ _).
    - by apply failing_refuse.
    - by intros [= _ <-]. }
  intros _. apply failing_bind.
  { unfold check_grant. apply failing_bind; [by intros w w' st|]. intros s.
    destruct (find_grant _ _); [|by intros w w' st [= _ <-]].
    repeat (apply failing_bind; [by apply failing_refuse|intros _]). by apply failing_refuse. }
  intros _. apply failing_bind.
  - intros w w' st. unfold admit_effect. destruct (fabric_admit _ _ _ _) as [[f log] [m|e]] eqn:E; [done|].
    intros [= _ <-]. by eapply admit_refuses.
  - intros m. apply failing_bind; [apply failing_emit|]. by intros _ w w' st.
Qed.

(** An admitted mutation is the candidate, and one frame more in the log. *)
Lemma admit_appends io f log mu f' log' m : fabric_admit io f log mu = (f', log', Ret m) →
  m = candidate_record f mu ∧ log' = log ++ frame (encode_mutation m).
Proof.
  unfold fabric_admit. destruct (admit_guard f mu); [done|]. cbv zeta. destruct (_ <? _); [done|].
  destruct io; [|done]. by intros [= _ <- <-].
Qed.

(** A commit that succeeds. *)
Lemma commit_guarded_log io q now w w' resp : commit io q now w = (w', Ret resp) →
  ∃ g m, g ∈ lt_grants (rs_lineage (w_state w)) ∧ bound q g ∧
    m = candidate_record (rs_fabric (w_state w)) (mutation_of q now) ∧
    resp = mkCommitted (mr_sequence m) (mr_token m) (mr_digest m) true ∧
    w_log w' = w_log w ++ frame (encode_mutation m).
Proof.
  intros E. destruct (commit_cases io q now w) as [[st Hst]|(g & Hg & Hb & Hcase)].
  { by rewrite Hst in E. }
  revert Hcase. destruct (fabric_admit _ _ _ _) as [[f log] [m|st]] eqn:Ea; cbv zeta; intros Hc; rewrite Hc in E; [|done].
  apply admit_appends in Ea as [Em El].
  pose proof (emit_frame KCommitRecord (w_counter (mr_sequence m) ++ w_digest (mr_digest m)) status_ok
    now (mkWorld (set_fabric f (w_state w)) (w_out w) log)) as (_ & El' & _).
  destruct (emit _ _ _ _ _) as [w2 [u|st]]; [|done]. injection E as <- <-. cbn [fst] in El'.
  exists g, m. split_and!; try done. by rewrite El'.
Qed.

(** What the worker makes of a commit request: a refusal, or an effect of the
    grant it names, logged before it is answered. *)
Inductive commit_served (q : Messages.CommitRequest) (n n' : Node) : result Reply → Prop :=
  | served_closed st : is_ok st = false → commit_served q n n' (Err st)
  | served_refused st : is_ok st = false →
      commit_served q n n' (Ret (MessageType.CommitResponse, encode_cr (commit_reply (Err st))))
  | served_admitted g now m log : g ∈ lt_grants (rs_lineage (nd_state n)) → bound (commit_args q) g →
      m = candidate_record (rs_fabric (nd_state n)) (mutation_of (commit_args q) now) →
      fd_log (nd_fabric n) = Some log →
      fd_log (nd_fabric n') = Some (log ++ frame (encode_mutation m)) →
      commit_served q n n' (Ret (MessageType.CommitResponse, encode_cr
        (Messages.mkCommitResponse status_ok (mr_sequence m) (mr_token m) (mr_digest m) true))).

Lemma handle_commit_served ca q id b n n' a log : cq_wf q → sb_session b ≠ 0 →
  fd_log (nd_fabric n) = Some log →
  handle_frame ca (Frames.seal MessageType.CommitRequest 0 id (encode_cq q)) b n = (n', a) →
  commit_served q n n' a.
Proof.
  intros Hq Hb Hlog. unfold handle_frame. cbn [fr_header Frames.seal fh_type fr_payload]. unfold is_none.
  destruct (Z.eqb_spec (sb_session b) 0); [done|]. cbv zeta. unfold handle_commit, with_request.
  rewrite (decodes_all _ _ _ (decodes_cq q Hq)).
  destruct (is_ok (check_envelope _ b)) eqn:Ee; cbn [negb]; [|intros [= _ <-]; by apply served_closed].
  unfold only_coordinators. case_bool_decide; [|intros [= _ <-]; by apply served_closed].
  unfold reply_with, transition, advance_clock. destruct (clock_advance _ _) as [c ok].
  destruct ok; cbn [negb]; [|intros [= _ <-]; by apply served_closed].
  set (n1 := set_registry _ _ _). set (now := now_of n1). unfold operate.
  change (nd_fabric n1) with (nd_fabric n). rewrite Hlog. cbn [default].
  set (w := mkWorld _ _ _). pose proof (failing_commit (ca_effect ca) (commit_args q) now w) as Hf.
  pose proof (commit_guarded_log (ca_effect ca) (commit_args q) now w) as Hg.
  destruct (commit _ _ now w) as [w' r].
  match goal with |- context [append_records ca ?rs ?n2] =>
    pose proof (append_records_fabric ca rs n2) as Ha; destruct (append_records ca rs n2) as [n3 st] end.
  destruct (is_ok st) eqn:Es; cbn [negb]; [|intros [= _ <-]; by apply served_closed].
  intros [= <- <-]. destruct r as [resp|e]; [|apply served_refused; by eapply Hf].
  destruct (Hg w' resp eq_refl) as (g & m & I & B & Em & -> & El).
  eapply served_admitted; [exact I|exact B|exact Em|exact Hlog|].
  cbn [fst] in Ha. rewrite Ha. cbn. by rewrite El.
Qed.

(** A reply to a commit is read back; the auxiliary value of a refusal is kept to
    64 bits. *)
Lemma refused_reply st : ∃ st', is_ok st' = is_ok st ∧ cr_wf (commit_reply (Err st')) ∧
  encode_cr (commit_reply (Err st)) = encode_cr (commit_reply (Err st')).
Proof.
  exists (mkStatus (outcome st) (reason st) (u64 (aux st))). split; [done|]. split.
  - split; [apply u64_is|]. split; [done|]. unfold words, is_u64, u64_max.
    repeat (apply Forall_cons; split; [cbn; lia|]). constructor.
  - unfold encode_cr, commit_reply. cbn [cr_status]. by rewrite encode_status_u64.
Qed.

Lemma admitted_reply f mu : is_u64 (mu_token mu) → let m := candidate_record f mu in
  cr_wf (Messages.mkCommitResponse status_ok (mr_sequence m) (mr_token m) (mr_digest m) true).
Proof.
  intros Ht m. split; [cbn; unfold is_u64; lia|]. split; [apply length_digest|].
  apply Forall_cons. split; [apply u64_is|]. by apply Forall_cons.
Qed.

Lemma commit_fits q n n' a : cq_wf q → commit_served q n n' a → fits_frame a ∧
  match a with
  | Err st => is_ok st = false
  | Ret reply => ∃ resp, cr_wf resp ∧ reply.2 = encode_cr resp ∧
      (is_ok (cr_status resp) = false ∨
       ∃ g now m log, g ∈ lt_grants (rs_lineage (nd_state n)) ∧ bound (commit_args q) g ∧
         m = candidate_record (rs_fabric (nd_state n)) (mutation_of (commit_args q) now) ∧
         fd_log (nd_fabric n) = Some log ∧
         fd_log (nd_fabric n') = Some (log ++ frame (encode_mutation m)) ∧
         resp = Messages.mkCommitResponse status_ok (mr_sequence m) (mr_token m) (mr_digest m) true)
  end.
Proof.
  intros Hq [st Hst|st Hst|g now m log Hg Hb Em Hl Hl']; [by split|..].
  - destruct (refused_reply st) as (st' & Ho & Hw & E). rewrite E.
    split; [exact (payload_fits (PCommitResponse _) Hw)|]. eexists. split; [exact Hw|].
    split; [done|]. left. cbn. by rewrite Ho.
  - assert (Hw : cr_wf (Messages.mkCommitResponse status_ok (mr_sequence m) (mr_token m) (mr_digest m) true)).
    { subst m. apply admitted_reply. unfold cq_wf in Hq. open_wf. done. }
    split; [exact (payload_fits (PCommitResponse _) Hw)|]. eexists. split; [exact Hw|].
    split; [done|]. right. by exists g, now, m, log.
Qed.

(** The request [commit] puts on the wire. *)
Definition on_the_wire (q : Messages.CommitRequest) (c : RegistryClient) : Messages.CommitRequest :=
  Messages.mkCommitRequest (envelope c) (Messages.cq_domain q) (Messages.cq_scope q)
    (Messages.cq_epoch q) (Messages.cq_incarnation q) (Messages.cq_grant q) (cq_fence_token q)
    (cq_attempt_sequence q) (Messages.cq_operation q) (cq_payload_digest q) (cq_requested_at q).

Definition may_send (c : RegistryClient) : Prop :=
  cl_requests_sent c < kMaxRequestsPerSession ∧ cl_next_request c < u64_max.

(** The call of a paired client. *)
Lemma client_commit_served q c b r log : paired c b r → may_send c → cq_wf (on_the_wire q c) →
  fd_log (nd_fabric (rm_node r)) = Some log →
  let '(c', r', answer) := client_commit q c r in
  match answer with
  | Err st => True
  | Ret resp => is_ok (cr_status resp) = false ∨
      ∃ g now m, g ∈ lt_grants (rs_lineage (nd_state (rm_node r))) ∧
        bound (commit_args (on_the_wire q c)) g ∧
        m = candidate_record (rs_fabric (nd_state (rm_node r))) (mutation_of (commit_args (on_the_wire q c)) now) ∧
        fd_log (nd_fabric (rm_node r')) = Some (log ++ frame (encode_mutation m)) ∧
        resp = Messages.mkCommitResponse status_ok (mr_sequence m) (mr_token m) (mr_digest m) true ∧
        paired c' (admit_request (cl_next_request c) b) r'
  end.
Proof.
  intros Hp [Hs Hn] Hq Hlog. unfold client_commit, call. fold (on_the_wire q c). set (qw := on_the_wire q c) in *.
  assert (Hsend : sendable MessageType.CommitRequest (encode_cq qw) c).
  { split; [done|]. split; [done|]. split; [exact (payload_fits (PCommitRequest _) Hq)|done]. }
  set (id := cl_next_request c) in *.
  destruct (handle_frame (rm_calls r) (Frames.seal MessageType.CommitRequest 0 id (encode_cq qw))
    (admit_request id b) (rm_node r)) as [n' a] eqn:E.
  pose proof (handle_commit_served _ _ _ _ _ _ _ _ Hq (pa_session _ _ _ Hp : sb_session (admit_request id b) ≠ 0) Hlog E) as Hc.
  apply commit_fits in Hc as [Hf Ha]; [|done].
  destruct (remote_exchange _ _ c b r n' a Hp Hsend E Hf) as [Et Hg].
  change (answer_type MessageType.CommitRequest) with MessageType.CommitResponse in Et. rewrite Et.
  destruct a as [[t d]|st]; [|done]. destruct (Hg eq_refl) as [Er Hpair].
  destruct Ha as (resp & Hw & Ed & Hr). cbn [snd] in Ed. subst d. unfold reply_data. cbn [snd].
  rewrite (decodes_all _ _ _ (decodes_cr resp Hw)). destruct Hr as [Hr|(g & now & m & l & G & B & Em & Hl & Hl' & Eresp)]; [by left|].
  right. exists g, now, m. rewrite Hlog in Hl. injection Hl as <-. split_and!; try done. by rewrite Er.
Qed.

(** A refused commit counts nothing and ends the authority. *)
Lemma lost_counts a x r : co_authority (lost a x r).1 = false ∧ ct_holds_authority (lost a x r).2 = false ∧
  successes (lost a x r).2 = successes r.
Proof. split; [done|]. split; [done|]. exact (proj1 (record_attempt_counts a r)). Qed.

Lemma conclude_refused operation c x r : is_ok (cr_status c) = false →
  let y := conclude operation c x r in
  co_authority y.1 = false ∧ ct_holds_authority y.2 = false ∧ successes y.2 = successes r.
Proof.
  intros Hc. unfold conclude. rewrite Hc. cbn [negb].
  destruct (Mutations.classify _);
    match goal with |- context [lost ?a ?x ?r] => destruct (lost_counts a x r) as (H1 & H2 & H3) end;
    split_and!; done.
Qed.

(** ** A witness that refuses *)

(** A refusal is read back as a failure of the client's own. *)
Lemma read_refusal st : let read := fail0 Outcome.Invalid Reason.IdCharset in
  read_attestation MessageType.AttestResponse (encode_tp (Witness.refusal st)) = (Some read, Err read).
Proof.
  intros read. unfold read_attestation. rewrite bool_decide_false by done. rewrite bool_decide_true by done.
  cbn [negb]. assert (E : decode_all r_tp (encode_tp (Witness.refusal st)) = Err read); [|by rewrite E].
  unfold encode_tp, Witness.refusal. cbn [tp_status tp_attestation]. rewrite <-encode_status_u64.
  set (st' := mkStatus _ _ _). assert (Hst : is_u64 (aux st')) by apply u64_is.
  unfold decode_all, r_tp, reader_of. rewrite (decodes_status_blob st' Hst).
  generalize (0 + zlen (w_blob (encode_status st'))). intros off. reflexivity.
Qed.

(** What a witness answers is a statement or a refusal. *)
Lemma attest_shape q n : (∃ st, (Witness.attest q n).2 = Witness.refusal st) ∨
  ∃ a, (Witness.attest q n).2 = mkAttestResponse status_ok a.
Proof.
  unfold Witness.attest. cbv zeta. repeat (destruct (_ : bool); [by left; eexists|]).
  destruct (clock_advance _ _) as [c ok]. destruct (negb ok); [by left; eexists|].
  destruct (Witness.objection _ _ _) as [[n1 st]|]; [by left; eexists|].
  destruct (_ =? _); [by left; eexists|by right; eexists].
Qed.

Module Coordinating.
Section theorems.
Context {K : Type} (net : nat → Kernel K).

(** C20: The report of a run adds up, whatever registry and witnesses do.  A run that
    returns a success made exactly the attempts it was asked for, lists the first
    4096 of them - consecutively numbered, all under the one epoch the report
    names - never counts more successes than attempts, and says that the authority
    is still held exactly when every attempt succeeded. *)
Theorem mutate_accounted (operation : bytes) (count : Z) (x x' : Coordinator) (r r' : CoordinatorReport)
    (k k' : K) (st : Status) :
  is_u64 (co_attempt x) → 0 <= count < u64_max →
  mutate net operation count x r k = (x', r', k', st) → is_ok st = true →
  tallied r' = (count, (co_epoch x', co_token x', co_grant x')) ∧
  zlen (ct_attempts r') = Z.min count kMaxReportedAttempts ∧
  (∃ base, ∀ i a, ct_attempts r' !! i = Some a →
     mt_attempt a = base + Z.of_nat i ∧ mt_epoch a = ct_final_epoch r' ∧ mt_operation a = operation) ∧
  succeeded r' <= count ∧
  (ct_holds_authority r' = true ↔ succeeded r' = count).
Proof.
  intros Hu Hc E Hok. unfold mutate in E. destruct (_ || _); [by injection E as <- <- <- <-|].
  assert (Ha : let '(x1, _, st1) := (if co_authority x then (x, k, status_ok) else acquire_authority net x k) in
    is_u64 (co_attempt x1) ∧ (is_ok st1 = true → co_authority x1 = true)).
  { destruct (co_authority x) eqn:Eau; [by rewrite Eau|by apply acquire_done]. }
  destruct (if co_authority x then _ else _) as [[x1 k1] st1]. destruct Ha as [Hu1 Hau].
  destruct (is_ok st1) eqn:Eo; cbn [negb] in E; [|injection E as _ _ _ <-; congruence].
  set (r0 := with_final _ _ _ report0) in *.
  assert (Hw : within 0 r0) by (unfold within, succeeded; cbn; lia).
  assert (Hcount : 0 + Z.of_nat (Z.to_nat count) < u64_max) by lia.
  destruct (run_counts net _ _ _ _ _ _ _ _ _ 0 Hw Hcount (conj (Z.le_refl 0) Hcount) E Hok)
    as (R1 & R2 & R3 & R4).
  assert (Hlist : run_list x1 operation (ct_attempts r0)) by (intros i a Hi; done).
  destruct (run_listed net operation (Z.to_nat count) x1 r0 k1 x' r' k' st x1 Hu1 eq_refl
    (or_introl (eq_sym (Z.add_0_r _))) ltac:(by vm_compute) Hlist E Hok) as [L1 L2].
  unfold authority_of in R1. injection R1 as _ _ _ R1e R1t R1g _ _ _.
  cbn [r0 with_final report0 ct_attempted ct_final_epoch ct_final_token ct_final_grant] in R2.
  change (succeeded r0) with 0 in R3, R4. change (ct_attempts r0) with (@nil MutationAttempt) in L2.
  rewrite !Z2Nat.id in * by lia.
  split; [rewrite R2, R1e, R1t, R1g; done|]. split; [rewrite L2; unfold zlen; cbn; lia|].
  split.
  { exists (co_attempt x1 + 1). intros i a Hi. destruct (L1 i a Hi) as (L3 & L4 & L5).
    unfold tallied in R2. injection R2 as _ R2 _ _. rewrite R2. split; [lia|done]. }
  split; [lia|]. rewrite R4. specialize (Hau eq_refl). rewrite Hau. intuition lia.
Qed.

(** C21: A coordinator fails closed.  Once the registry's connection is gone a run
    sends it nothing, applies nothing and gives up the authority: without one it
    is told that the registry is unreachable, with one every attempt it was asked
    for is refused.  Each of those is reported with the outcome unknown, and the
    count of unreachable attempts stays zero. *)
Theorem fails_closed (operation : bytes) (count : Z) (x : Coordinator) (r : CoordinatorReport) (k : K) :
  ln_connected (cl_link (co_client x)) = false →
  0 <= count <= u64_max → room count (co_attempt x) → 0 < zlen operation <= kMaxTextLength →
  ∃ x' r' k' st, mutate net operation count x r k = (x', r', k', st) ∧
    co_client x' = co_client x ∧ (co_witnesses x = [] → k' = k) ∧ succeeded r' = 0 ∧
    if co_authority x
    then st = status_ok ∧
      (ct_attempted r', ct_refused r', ct_unknown r', ct_unreachable r') = (count, count, count, 0) ∧
      (∀ a, a ∈ ct_attempts r' → mt_outcome a = Mutations.Unknown) ∧
      ct_holds_authority r' = bool_decide (count = 0)
    else st = fail0 Outcome.Unreachable Reason.DependencyUnreachable ∧
      (ct_attempted r', ct_unreachable r') = (0, 1) ∧ ct_holds_authority r' = false.
Proof.
  intros Hc Hn Ha Ho. unfold mutate.
  assert (Hid : id_empty operation || (kMaxTextLength <? zlen operation) = false).
  { destruct operation as [|c l]; [by destruct Ho|]. apply Z.ltb_ge. lia. }
  rewrite Hid. destruct (co_authority x) eqn:Eau.
  - cbn [is_ok outcome status_ok negb]. set (r0 := with_final _ _ _ _).
    assert (Z.of_nat (Z.to_nat count) = count) as En by lia. rewrite <-En in Ha.
    assert (Hroom : room (Z.of_nat (Z.to_nat count)) 0) by (unfold room; lia).
    destruct (loop_disconnected net operation (Z.to_nat count) x r0 k Hc Ha Hroom Hroom Hroom)
      as (x' & r' & k' & E & Ec & [R1 R2] & Hk & Hl & Hh & Hx).
    rewrite E, En in *. do 4 eexists. split; [reflexivity|]. split; [exact Ec|]. split; [exact Hk|].
    injection R1 as A1 A2 A3. injection R2 as B1 B2 B3 B4 B5.
    cbn in A1, A2, A3, B1, B2, B4. unfold succeeded. rewrite A1, A2, A3, B1, B2, B4.
    split; [done|]. split; [done|]. split; [done|]. split.
    { intros a Hin. destruct (Hl a Hin) as [[]%elem_of_nil|]; done. }
    rewrite Hh, Hx, Eau, andb_true_r. apply bool_decide_ext. lia.
  - unfold acquire_authority. rewrite Hc. cbn [negb is_ok outcome fail0].
    do 4 eexists. split; [reflexivity|]. cbn. done.
Qed.
End theorems.

(** C6: What a coordinator reports as applied is in the node's effect log.  For a
    coordinator whose client is paired with the worker of its session, a commit
    ends in one of two ways.  Either the node had an open grant of exactly the
    coordinator's domain, scope, epoch, incarnation, grant id and token, its log
    is longer by the one record of this operation, the report counts one more
    application - with the sequence and digest of that record - and the session
    goes on; or nothing is counted and the authority is given up. *)
Theorem commit_durable (net : nat → Kernel Remote) (operation : bytes) (x x' : Coordinator)
    (rep rep' : CoordinatorReport) (b : SessionBinding) (r r' : Remote) (log : bytes) :
  net O = remote_kernel → paired (co_client x) b r → may_send (co_client x) →
  fd_log (nd_fabric (rm_node r)) = Some log →
  let q := on_the_wire (commit_subject x operation) (co_client x) in
  cq_wf q → try_commit net operation x rep r = (x', rep', r') →
  (∃ g now m, g ∈ lt_grants (rs_lineage (nd_state (rm_node r))) ∧ bound (commit_args q) g ∧
     m = candidate_record (rs_fabric (nd_state (rm_node r))) (mutation_of (commit_args q) now) ∧
     fd_log (nd_fabric (rm_node r')) = Some (log ++ frame (encode_mutation m)) ∧
     rep' = record_attempt
       (mkAttempt (co_attempt x) Mutations.Applied status_ok (co_epoch x) (co_token x) (mr_sequence m)
          (mr_digest m) operation) (tally AppliedT rep) ∧
     co_authority x' = co_authority x ∧
     paired (co_client x') (admit_request (cl_next_request (co_client x)) b) r') ∨
  co_authority x' = false ∧ ct_holds_authority rep' = false ∧ successes rep' = successes rep.
Proof.
  intros Hnet Hp Hs Hlog q Hq. unfold try_commit, registry_net. rewrite Hnet.
  pose proof (client_commit_served (commit_subject x operation) (co_client x) b r log Hp Hs Hq Hlog) as Hc.
  fold q in Hc. destruct (client_commit (commit_subject x operation) (co_client x) r) as [[c k] [resp|st]].
  2: { intros E. right. destruct (lost_counts (attempt_of (set_client c x) operation
         Mutations.Unreachable st 0) (set_client c x) (tally UnreachableT rep)) as (H1 & H2 & H3).
       injection E as <- <- _. split_and!; done. }
  destruct Hc as [Hr|(g & now & m & Hg & Hb & Em & Hl & -> & Hpair)].
  - intros E. right. destruct (conclude_refused operation resp (set_client c x) rep Hr) as (H1 & H2 & H3).
    by destruct (conclude _ _ _ _) as [x1 rep1]; injection E as <- <- _.
  - unfold conclude. cbn [cr_status is_ok outcome status_ok negb Messages.cr_verified].
    intros [= <- <- <-]. left. exists g, now, m. split_and!; try done.
    cbn [co_attempt set_client co_epoch cr_admitted_token cr_store_sequence cr_effect_digest].
    by subst m.
Qed.

(** The reason of a witness's refusal does not reach the coordinator.  A witness
    answers an attestation request with a statement or with a refusal; a refusal is
    sent with an empty attestation, whose identifiers the client does not accept,
    so every refusal - a conflict, an epoch regression, a foreign session - is
    read as an identifier out of its character set. *)
Theorem refusals_unreadable (f : Frame) (b : SessionBinding) (stop : bool) (n : Witness.WitnessNode) :
  let '(_, _, (type, payload)) := Witness.witness_attest f b stop n in
  let read := fail0 Outcome.Invalid Reason.IdCharset in
  type = MessageType.AttestResponse ∧
  ((∃ a, payload = encode_tp (mkAttestResponse status_ok a)) ∨
   read_attestation type payload = (Some read, Err read)).
Proof.
  unfold Witness.witness_attest. destruct (decode_all r_tq _) as [q|st]; [|split; [done|right; apply read_refusal]].
  cbv zeta. destruct (negb _); [split; [done|right; apply read_refusal]|].
  pose proof (attest_shape q n) as Ha. destruct (Witness.attest q n) as [n' r]. cbn [snd] in Ha.
  split; [done|]. destruct Ha as [[st ->]|[a ->]]; [right; apply read_refusal|left; by exists a].
Qed.
End Coordinating.

(** ** A registry and three witnesses *)

(** The far end of a witness client's connection. *)
Record Attester := mkAttester {
  ar_node : Witness.WitnessNode;
  ar_connection : option Connection;
  ar_inbox : bytes
}.

Definition attester_send (bs : bytes) (r : Attester) : Attester * Sent :=
  match ar_connection r with
  | Some cn =>
      if cn_open cn
      then
        let '(n, cn, out) := Witness.witness_chunk [] bs cn (ar_node r) in
        (mkAttester n (Some cn) (ar_inbox r ++ concat out), SentResult (zlen bs) 0)
      else (r, SentResult (-1) 0)
  | None => (r, SentResult (-1) 0)
  end.

Definition attester_recv (max : Z) (r : Attester) : Attester * Received :=
  let k := Z.to_nat max in
  (mkAttester (ar_node r) (ar_connection r) (drop k (ar_inbox r)), ReceivedBytes (take k (ar_inbox r))).

Definition attester_kernel : Kernel Attester :=
  {| sys_up _ := true;
     sys_resolve _ _ := [0];
     sys_dial _ r := (mkAttester (ar_node r) (Some accepted_connection) [], true);
     sys_send := attester_send;
     sys_recv := attester_recv;
     sys_hangup r := mkAttester (ar_node r) None [] |}.

(** A part of a world, with its own system calls. *)
Definition through {W K} (get : W → K) (put : K → W → W) (k : Kernel K) : Kernel W :=
  {| sys_up w := sys_up (get w);
     sys_resolve e w := sys_resolve e (get w);
     sys_dial a w := let (x, ok) := sys_dial a (get w) in (put x w, ok);
     sys_send bs w := let (x, s) := sys_send bs (get w) in (put x w, s);
     sys_recv n w := let (x, r) := sys_recv n (get w) in (put x w, r);
     sys_hangup w := put (sys_hangup (get w)) w |}.

Definition Cluster : Type := Remote * list Attester.

Definition no_attester : Attester := mkAttester Witness.witness0 None [].

Definition cluster_net (i : nat) : Kernel Cluster :=
  match i with
  | O => through fst (λ r c, (r, c.2)) remote_kernel
  | S j => through (λ c, nth j c.2 no_attester) (λ a c, (c.1, <[j := a]> c.2)) attester_kernel
  end.

Definition demo_names : list string := ["w1"; "w2"; "w3"]%string.
Definition demo_attester (w : string) : Attester :=
  mkAttester (Witness.Witnessing.demo_witness w) None [].
Definition demo_witness_client (w : string) : WitnessClient :=
  witness_client (str w) (str "rack") demo_endpoint.

(** The domain is defined by a client that leaves. *)
Definition demo_defined : Remote :=
  let '(c, r, _) := client_connect (H:=remote_kernel) demo_endpoint demo_hello client0 demo_remote in
  let '(c, r, _) := client_define_domain (H:=remote_kernel) (Registries.demo_domain "d" Decisions.demo_scope) c r in
  (client_close (H:=remote_kernel) c r).2.
Definition demo_cluster : Cluster := (demo_defined, demo_attester <$> demo_names).

Definition demo_coordinator : Coordinator :=
  coordinator0 (mkCoordinatorConfig (str "node-a") (str "d") Decisions.demo_scope demo_endpoint 1 0 true true)
    (demo_witness_client <$> demo_names).
Definition demo_connected : Coordinator * Cluster * Status :=
  coordinator_connect cluster_net demo_coordinator demo_cluster.
Definition demo_run :=
  mutate cluster_net (str "set") 3 demo_connected.1.1 report0 demo_connected.1.2.

(** Three mutations, end to end: two sessions, an allocation, and for each attempt
    three attestations, a decision and a commit. *)
Lemma demo_run_facts :
  co_attempt demo_connected.1.1 = 0 ∧ is_ok demo_run.2 = true ∧
  (let r := demo_run.1.1.2 in (ct_applied r, ct_acknowledged r, mt_outcome <$> ct_attempts r)) =
    (3, 0, [Mutations.Applied; Mutations.Applied; Mutations.Applied]).
Proof. vm_compute. repeat split. Qed.

Definition demo_acquired : Coordinator * Remote * Status :=
  let net := λ _ : nat, remote_kernel in
  let x := coordinator0 (co_config demo_coordinator) [] in
  let '(x, r, _) := coordinator_connect net x demo_defined in
  acquire_authority net x r.

Definition demo_grant_binding : SessionBinding := mkBinding 2 (str "node-a") 1 3 Wire.Coordinator 1 1.
Definition demo_committed : Coordinator * CoordinatorReport * Remote :=
  try_commit (λ _, remote_kernel) (str "set") demo_acquired.1.1 report0 demo_acquired.1.2.

Lemma demo_acquired_facts :
  co_client demo_acquired.1.1 = mkClient idle demo_grant_binding status_ok 1 2 ∧
  rm_inbox demo_acquired.1.2 = [] ∧
  rm_connection demo_acquired.1.2 =
    Some (mkConnection (decoder kMaxFramePayloadBytes) (mkBinding 2 (str "node-a") 1 3 Wire.Coordinator 1 1) true) ∧
  nd_stopping (rm_node demo_acquired.1.2) = false ∧
  fd_log (nd_fabric (rm_node demo_acquired.1.2)) = Some [] ∧
  on_the_wire (commit_subject demo_acquired.1.1 (str "set")) (co_client demo_acquired.1.1) =
    Messages.mkCommitRequest (mkEnvelope 2 (str "node-a") 1 3) (str "d") Decisions.demo_scope 1 3 1 1 1
      (str "set") (operation_digest (str "set") 1) wallclock0 ∧
  ct_applied demo_committed.1.2 = 1.
Proof. vm_compute. repeat split. Qed.

Lemma demo_run_def :
  mutate cluster_net (str "set") 3 demo_connected.1.1 report0 demo_connected.1.2 = demo_run.
Proof. unfold demo_run. exact eq_refl. Qed.
Lemma demo_committed_def :
  try_commit (λ _, remote_kernel) (str "set") demo_acquired.1.1 report0 demo_acquired.1.2 = demo_committed.
Proof. unfold demo_committed. exact eq_refl. Qed.

#[local] Opaque demo_run demo_connected demo_acquired demo_committed.

Lemma mutate_accounted_witness : ∃ x' r' k' st,
  mutate cluster_net (str "set") 3 demo_connected.1.1 report0 demo_connected.1.2 = (x', r', k', st) ∧
  succeeded r' = 3 ∧ ct_holds_authority r' = true ∧ zlen (ct_attempts r') = 3.
Proof.
  destruct demo_run_facts as (Ha & Ho & Hr).
  pose proof demo_run_def as E.
  destruct demo_run as [[[x' r'] k'] st]. cbn [fst snd] in Ho, Hr. cbv zeta in Hr.
  injection Hr as H1 H2 _. exists x', r', k', st. split; [exact E|].
  assert (Hs : succeeded r' = 3) by (unfold succeeded; lia). split; [exact Hs|].
  assert (Hu : is_u64 (co_attempt demo_connected.1.1)) by (rewrite Ha; unfold is_u64; lia).
  assert (Hc : 0 <= 3 < u64_max) by (unfold u64_max; lia).
  destruct (Coordinating.mutate_accounted cluster_net (str "set") 3 _ x' report0 r' _ k' st Hu Hc E Ho)
    as (_ & Hl & _ & _ & Hh).
  split; [apply Hh, Hs|exact Hl].
Defined.

Lemma fails_closed_witness : ∃ x' r' k',
  mutate (λ _, scripted) (str "set") 2 (set_authority true (coordinator0 (co_config demo_coordinator) []))
    report0 demo_script = (x', r', k', status_ok) ∧
  (ct_attempted r', ct_refused r', ct_unknown r', ct_unreachable r') = (2, 2, 2, 0) ∧ k' = demo_script.
Proof.
  destruct (Coordinating.fails_closed (λ _, scripted) (str "set") 2
    (set_authority true (coordinator0 (co_config demo_coordinator) [])) report0 demo_script eq_refl)
    as (x' & r' & k' & st & E & _ & Hk & _ & Hst & Hr & _).
  - unfold u64_max. lia.
  - unfold room, u64_max. cbn. lia.
  - split; [reflexivity|]. vm_compute. discriminate.
  - exists x', r', k'. split; [rewrite <-Hst; exact E|]. split; [exact Hr|exact (Hk eq_refl)].
Defined.

Lemma demo_acquired_paired : paired (co_client demo_acquired.1.1) demo_grant_binding demo_acquired.1.2.
Proof.
  destruct demo_acquired_facts as (Ec & E1 & E2 & E3 & _).
  constructor; [by rewrite Ec|exact E1|exact E2|done|by rewrite Ec| |exact E3].
  rewrite Ec. cbn. unfold u64_max. lia.
Qed.

Lemma demo_request_wf :
  cq_wf (on_the_wire (commit_subject demo_acquired.1.1 (str "set")) (co_client demo_acquired.1.1)).
Proof.
  destruct demo_acquired_facts as (_ & _ & _ & _ & _ & -> & _).
  split; [split; [exact demo_node_id|by apply Registries.demo_words]|].
  split; [apply Registries.demo_id; set_solver|]. split; [by right; apply (Registries.demo_domain_good "d" Decisions.demo_scope); left|].
  split; [by vm_compute|]. split; [reflexivity|].
  split; [by vm_compute|by apply Registries.demo_words].
Qed.

Lemma commit_durable_witness : ∃ m,
  fd_log (nd_fabric (rm_node demo_committed.2)) = Some (frame (encode_mutation m)) ∧
  mr_operation m = str "set".
Proof.
  destruct demo_acquired_facts as (Ec & _ & _ & _ & El & _ & Ha).
  pose proof demo_committed_def as E.
  assert (Hm : may_send (co_client demo_acquired.1.1)).
  { rewrite Ec. unfold may_send, kMaxRequestsPerSession, u64_max. cbn. lia. }
  destruct demo_committed as [[x' rep'] r']. cbn [fst snd] in *.
  destruct (Coordinating.commit_durable (λ _, remote_kernel) (str "set") demo_acquired.1.1 x' report0 rep'
    demo_grant_binding demo_acquired.1.2 r' [] eq_refl demo_acquired_paired Hm El demo_request_wf E)
    as [(g & now & m & _ & _ & Em & Hl & _)|(_ & _ & Hs)].
  - exists m. split; [exact Hl|]. by rewrite Em.
  - unfold successes in Hs. injection Hs as Hs _. rewrite Ha in Hs. discriminate Hs.
Defined.
