(* ===== verification/Cli.v ===== *)
(** * Command lines

    Models [tools/cli_support.hpp] - the options of a command line, how they are
    parsed and looked up - and what the tools build from them: the quorum profile
    and the configuration of [tools/sbf-registry.cpp] with its [--define]
    specifications, the configuration and witness targets of
    [tools/sbf-coordinator.cpp], the configuration of [tools/sbf-witness.cpp]. *)
From S2P Require Import Prelude Order SortedVec Status Ids Text Net Canonical Scope.
From S2P Require Import Evidence Arbiter Codec Registry Witness Client Coordinator.
Open Scope Z_scope.

(** ** [struct Options] *)

Abbreviation Options := (list (bytes * bytes)) (only parsing).

Definition has (o : Options) (key : bytes) : bool := existsb (λ e, eqb e.1 key) o.

(** The first entry of the key. *)
Fixpoint get (o : Options) (key : bytes) : option bytes :=
  match o with
  | [] => None
  | e :: o => if eqb e.1 key then Some e.2 else get o key
  end.

Definition all_of (o : Options) (key : bytes) : list bytes :=
  snd <$> List.filter (λ e, eqb e.1 key) o.

Definition str_of (o : Options) (key fallback : bytes) : bytes := default fallback (get o key).

(** A value that is not a number counts as none. *)
Definition number (o : Options) (key : bytes) (fallback : Z) : Z :=
  match get o key with
  | None => fallback
  | Some value => match parse_u64 value with Ret v => v | Err _ => fallback end
  end.

(** ** [parse] *)

Definition dash : byte := byte_of_Z 45.
Definition equals : byte := byte_of_Z 61.
Definition at_sign : byte := byte_of_Z 64.

Definition starts_with (c : byte) (s : bytes) : bool :=
  match s with x :: _ => bool_decide (x = c) | [] => false end.

(** [find]: what precedes the first occurrence of [c] and what follows it. *)
Fixpoint split_first (c : byte) (s : bytes) : option (bytes * bytes) :=
  match s with
  | [] => None
  | x :: r =>
      if bool_decide (x = c) then Some ([], r)
      else match split_first c r with Some (a, b) => Some (x :: a, b) | None => None end
  end.

Definition is_option (token : bytes) : bool :=
  negb (zlen token <? 3) && starts_with dash token && starts_with dash (drop 1 token).

Definition add_option (key value : bytes) (out : Options) (go_on : Options → bytes + Options)
  : bytes + Options :=
  if id_empty key then inl (str "empty option name") else go_on (out ++ [(key, value)]).

(** The command line after the program's name, or what is wrong with it. *)
Fixpoint parse (args : list bytes) (out : Options) : bytes + Options :=
  match args with
  | [] => inr out
  | token :: rest =>
      if negb (is_option token) then inl (str "unexpected argument: " ++ token)
      else
        let key := drop 2 token in
        match split_first equals key, rest with
        | Some (key, value), _ => add_option key value out (λ out, parse rest out)
        | None, value :: rest' =>
            if starts_with dash value then add_option key (str "true") out (λ out, parse rest out)
            else add_option key value out (λ out, parse rest' out)
        | None, [] => add_option key (str "true") out (λ out, parse rest out)
        end
  end.

(** ** Leaving the process *)

(** [fail] prints to the error stream and returns 2; otherwise the code [main]
    returns, with what it printed. *)
Inductive Exit := Failed (message : bytes) | Exits (code : Z) (out : bytes).

Definition exit_code (e : Exit) : Z := match e with Failed _ => 2 | Exits code _ => code end.

Definition newline : bytes := [byte_of_Z 10].

(** [announce]: whether the stream opened and whether it took the text. *)
Definition announce (opened flushed : bool) (path endpoint : bytes) (pid : Z) : option bytes * bool :=
  if id_empty path then (None, true)
  else if negb opened then (None, false)
  else (Some (endpoint ++ newline ++ decimal pid ++ newline), flushed).

(** ** [parse_quorum] *)

Definition spec_error : bytes := str "--witness expects id:fault-domain@host:port".

(** [<witness-id>:<fault-domain>@<host>:<port>]; the address is not looked at. *)
Definition parse_slot (spec : bytes) : (bytes * Status) + WitnessSlot :=
  let malformed := inl (spec_error, fail0 Outcome.Invalid Reason.ValueOutOfRange) in
  match split_first at_sign spec with
  | None => malformed
  | Some (name, _) =>
      match split name colon with
      | [witness; fault_domain] =>
          match id_try_make witness, id_try_make fault_domain with
          | Some w, Some d => inr (mkSlot w d)
          | _, _ => inl (str "invalid witness or fault domain identifier",
                         fail0 Outcome.Invalid Reason.IdCharset)
          end
      | _ => malformed
      end
  end.

Fixpoint parse_slots (specs : list bytes) : (bytes * Status) + list WitnessSlot :=
  match specs with
  | [] => inr []
  | spec :: specs =>
      match parse_slot spec with
      | inl e => inl e
      | inr slot => match parse_slots specs with inl e => inl e | inr l => inr (slot :: l) end
      end
  end.

(** [mode.rfind(prefix, 0) == 0], and the rest. *)
Fixpoint strip_prefix (prefix s : bytes) : option bytes :=
  match prefix, s with
  | [], _ => Some s
  | p :: prefix, c :: s => if bool_decide (p = c) then strip_prefix prefix s else None
  | _ :: _, [] => None
  end.

(** The mode and the threshold; the cast keeps the low 32 bits of a threshold. *)
Definition parse_mode (mode : bytes) (threshold : Z) : (bytes * Status) + (QuorumMode * Z) :=
  if eqb mode (str "majority") then inr (MajorityDistinctWitnesses, threshold)
  else if eqb mode (str "unanimous") then inr (UnanimousWitnesses, threshold)
  else
    match strip_prefix (str "threshold:") mode with
    | Some digits =>
        match parse_u64 digits with
        | Err _ => inl (str "invalid --quorum threshold", fail0 Outcome.Invalid Reason.ValueOutOfRange)
        | Ret value => inr (ThresholdDistinctWitnesses, u32 value)
        end
    | None => inl (str "unknown --quorum mode", fail0 Outcome.Invalid Reason.ValueOutOfRange)
    end.

Definition sort_slots (l : list WitnessSlot) : list WitnessSlot :=
  unique_adj (sort_by (λ a b, ltb (slot_key a) (slot_key b)) l).

(** What is wrong, with the text of [error] (empty when the profile is refused as
    a whole), or the profile read over [profile]. *)
Definition parse_quorum (o : Options) (profile : QuorumProfile) : (bytes * Status) + QuorumProfile :=
  match id_try_make (str_of o (str "policy") (str "fabric-policy")) with
  | None => inl (str "invalid --policy", fail0 Outcome.Invalid Reason.IdCharset)
  | Some policy =>
      match parse_slots (all_of o (str "witness")) with
      | inl e => inl e
      | inr added =>
          match qp_witnesses profile ++ added with
          | [] => inl (str "at least one --witness is required", fail0 Outcome.Invalid Reason.NoAttestations)
          | witnesses =>
              match parse_mode (str_of o (str "quorum") (str "majority")) (qp_threshold profile) with
              | inl e => inl e
              | inr (mode, threshold) =>
                  let p :=
                    mkProfile policy (qp_generation profile) (sort_slots witnesses) mode threshold
                      (u32 (number o (str "min-fault-domains") (qp_min_domains profile)))
                      (number o (str "evidence-horizon") 10000) in
                  let st := profile_validate p in
                  if is_ok st then inr p else inl ([], st)
              end
          end
      end
  end.

(** ** The registry's configuration *)

Definition flag_of (o : Options) (key fallback : bytes) : bool := eqb (str_of o key fallback) (str "true").

(** The policy [main] completes from the profile; the rest are the defaults. *)
Definition registry_policy (o : Options) (quorum : QuorumProfile) : ArbiterPolicy :=
  mkPolicy (qp_policy quorum) 1 quorum (ap_require_quorum policy0)
    (flag_of o (str "require-lease") (str "false"))
    (flag_of o (str "allow-non-overlap") (str "true"))
    (ap_fence_lower policy0) (ap_equal_fatal policy0) (ap_lease_horizon policy0).

Definition registry_config (o : Options) : bytes + RegistryConfig :=
  match id_try_make (str_of o (str "store") (str "fabric-store")),
        id_try_make (str_of o (str "node") (str "registry-1")) with
  | Some store, Some node =>
      match parse_quorum o (ap_quorum policy0) with
      | inl (error, st) => inl (if id_empty error then status_to_string st else error)
      | inr quorum =>
          inr (mkConfig store node (registry_policy o quorum)
                 (number o (str "lease-horizon") 100000)
                 (number o (str "checkpoint-every") 512) kMaxSessions)
      end
  | _, _ => inl (str "--store and --node must be valid identifiers")
  end.

(** The endpoint to listen at. *)
Definition listen_endpoint (o : Options) : bytes + Endpoint :=
  let port := number o (str "port") 0 in
  if 65535 <? port then inl (str "--port out of range")
  else inr (mkEndpoint (str_of o (str "host") (str "127.0.0.1")) port).

(** [--define <domain>:<node>:<policy>:<extent>[,<extent>...]]. *)
Definition parse_define (spec : bytes) : bytes + DomainDefinition :=
  let fields :=
    match split_first colon spec with
    | Some (domain, rest) =>
        match split_first colon rest with
        | Some (node, rest) =>
            match split_first colon rest with
            | Some (policy, extents) => Some (domain, node, policy, extents)
            | None => None
            end
        | None => None
        end
    | None => None
    end in
  match fields with
  | None => inl (str "--define expects domain:node:policy:extents")
  | Some (domain, node, policy, extents) =>
      match id_try_make domain, id_try_make node, id_try_make policy with
      | Some domain, Some node, Some policy =>
          match scope_parse extents with
          | Err st => inl (str "--define scope: " ++ status_to_string st)
          | Ret scope => inr (mkDomain domain node scope policy true)
          end
      | _, _, _ => inl (str "--define contains an invalid identifier")
      end
  end.

(** ** The coordinator's configuration *)

Definition target_error : bytes := str "--witness-target expects id:fd@host:port".

Definition parse_target (spec : bytes) : bytes + WitnessClient :=
  match split_first at_sign spec with
  | None => inl target_error
  | Some (name, address) =>
      match split name colon, endpoint_parse address with
      | [witness; fault_domain], Ret endpoint =>
          match id_try_make witness, id_try_make fault_domain with
          | Some w, Some d => inr (witness_client w d endpoint)
          | _, _ => inl (str "--witness-target contains an invalid identifier")
          end
      | _, _ => inl target_error
      end
  end.

Fixpoint parse_targets (specs : list bytes) : bytes + list WitnessClient :=
  match specs with
  | [] => inr []
  | spec :: specs =>
      match parse_target spec with
      | inl e => inl e
      | inr w => match parse_targets specs with inl e => inl e | inr l => inr (w :: l) end
      end
  end.

Definition coordinator_config (o : Options) : bytes + (CoordinatorConfig * list WitnessClient) :=
  match id_try_make (str_of o (str "node") (str "coordinator-1")),
        id_try_make (str_of o (str "domain") (str "domain-a")) with
  | Some node, Some domain =>
      match scope_parse (str_of o (str "scope") (str "port-1")) with
      | Err st => inl (str "--scope: " ++ status_to_string st)
      | Ret scope =>
          match endpoint_parse (str_of o (str "registry") (str "127.0.0.1:9000")) with
          | Err _ => inl (str "--registry expects host:port")
          | Ret registry =>
              match parse_targets (all_of o (str "witness-target")) with
              | inl e => inl e
              | inr witnesses =>
                  inr (mkCoordinatorConfig node domain scope registry 1 0 true
                         (flag_of o (str "require-quorum") (str "true")), witnesses)
              end
          end
      end
  | _, _ => inl (str "--node and --domain must be valid identifiers")
  end.

(** ** The witness's configuration *)

(** The cast keeps the low 32 bits of the bound. *)
Definition witness_config (o : Options) : bytes + WitnessConfig :=
  match id_try_make (str_of o (str "id") (str "witness-1")),
        id_try_make (str_of o (str "fault-domain") (str "fd-1")) with
  | Some witness, Some fault_domain =>
      inr (mkWitnessConfig witness fault_domain (number o (str "horizon") 100000)
             (u32 (number o (str "max-subjects") 512)))
  | _, _ => inl (str "--id and --fault-domain must be valid identifiers")
  end.

(** ** Looking options up *)

Lemma get_head o key : get o key = head (all_of o key).
Proof.
  unfold all_of. induction o as [|[k v] o IH]; [done|]. simpl. by destruct (eqb k key).
Qed.

Lemma has_get o key : has o key = true ↔ is_Some (get o key).
Proof.
  unfold has. induction o as [|[k v] o IH]; simpl.
  - split; [done|]. by intros [? ?].
  - destruct (eqb k key); simpl; [|exact IH]. split; [by eexists|done].
Qed.

(** The first entry of a key is the one that counts. *)
Lemma get_app o o' key : get (o ++ o') key =
  match get o key with Some v => Some v | None => get o' key end.
Proof. induction o as [|[k v] o IH]; [done|]. simpl. by destruct (eqb k key). Qed.

(** ** Every spelling is read back *)

Lemma split_first_absent c s : c ∉ s → split_first c s = None.
Proof.
  induction s as [|x s IH]; intros Hc; [done|]. simpl. rewrite bool_decide_false by set_solver.
  by rewrite IH by set_solver.
Qed.

Lemma split_first_app c a b : c ∉ a → split_first c (a ++ c :: b) = Some (a, b).
Proof.
  induction a as [|x a IH]; intros Hc; simpl; [by rewrite bool_decide_true|].
  rewrite bool_decide_false by set_solver. by rewrite IH by set_solver.
Qed.

(** How an option is written. *)
Inductive Spelling : Set := Attached | Separate | Bare.

Definition spell (sp : Spelling) (o : bytes * bytes) : list bytes :=
  let name := dash :: dash :: o.1 in
  match sp with
  | Attached => [name ++ equals :: o.2]
  | Separate => [name; o.2]
  | Bare => [name]
  end.

Definition spellable (sp : Spelling) (o : bytes * bytes) : Prop :=
  o.1 ≠ [] ∧ equals ∉ o.1 ∧
  match sp with
  | Attached => True
  | Separate => starts_with dash o.2 = false
  | Bare => o.2 = str "true"
  end.

Lemma is_option_name c key tl : is_option (dash :: dash :: c :: key ++ tl) = true.
Proof.
  unfold is_option, starts_with. pose proof (zlen_nonneg (key ++ tl)).
  rewrite !zlen_cons. replace (_ <? 3) with false by (symmetry; apply Z.ltb_ge; lia).
  cbn [drop negb andb]. by rewrite bool_decide_true.
Qed.

Lemma add_option_ok key value out go_on : key ≠ [] →
  add_option key value out go_on = go_on (out ++ [(key, value)]).
Proof. by destruct key. Qed.

Lemma parse_spelled sp o args out : spellable sp o →
  (sp = Bare → match args with a :: _ => starts_with dash a = true | [] => True end) →
  parse (spell sp o ++ args) out = parse args (out ++ [o]).
Proof.
  destruct o as [[|c key] value]; intros (Hne & Heq & Hsp) Hnext; [done|]. cbn [fst snd] in *.
  pose proof (is_option_name c key) as Ho.
  assert (Habs : split_first equals (c :: key) = None) by by apply split_first_absent.
  destruct sp; cbn [spell app fst snd parse].
  - rewrite (Ho (equals :: value)). cbn [negb drop].
    change (c :: key ++ equals :: value) with ((c :: key) ++ equals :: value).
    by rewrite split_first_app, add_option_ok.
  - specialize (Ho []). rewrite app_nil_r in Ho. rewrite Ho. cbn [negb drop].
    rewrite Habs, Hsp. by rewrite add_option_ok.
  - specialize (Ho []). rewrite app_nil_r in Ho. rewrite Ho. cbn [negb drop].
    rewrite Habs. subst value. specialize (Hnext eq_refl).
    destruct args as [|a args]; [by rewrite add_option_ok|]. by rewrite Hnext, add_option_ok.
Qed.

Lemma spell_dash sp o tl : match spell sp o ++ tl with a :: _ => starts_with dash a = true | [] => True end.
Proof. destruct sp; cbn; by rewrite bool_decide_true. Qed.

(** ** What [parse_quorum] accepts *)

Lemma parse_slots_elem specs l : parse_slots specs = inr l →
  ∀ s, s ∈ l ↔ ∃ spec, spec ∈ specs ∧ parse_slot spec = inr s.
Proof.
  revert l. induction specs as [|x specs IH]; intros l; simpl.
  { intros [= <-] s. split; [by intros ?%elem_of_nil|]. by intros (? & ?%elem_of_nil & _). }
  destruct (parse_slot x) as [|slot] eqn:Ex; [done|].
  destruct (parse_slots specs) as [|l'] eqn:El; [done|]. intros [= <-] s.
  rewrite elem_of_cons, (IH l') by done. split.
  - intros [->|(spec & ? & ?)]; [exists x; set_solver|exists spec; set_solver].
  - intros (spec & [->|?]%elem_of_cons & E); [left; congruence|right; eauto].
Qed.

Lemma elem_of_sort_slots s l : s ∈ sort_slots l ↔ s ∈ l.
Proof. unfold sort_slots. by rewrite elem_of_unique_adj, elem_of_sort_by. Qed.

Lemma parse_quorum_valid o q p : parse_quorum o q = inr p → is_ok (profile_validate p) = true.
Proof.
  unfold parse_quorum. destruct (id_try_make _); [|done]. destruct (parse_slots _) as [|added]; [done|].
  destruct (qp_witnesses q ++ added); [done|]. destruct (parse_mode _ _) as [|[mode threshold]]; [done|].
  cbv zeta. set (p' := mkProfile _ _ _ _ _ _ _). destruct (is_ok (profile_validate p')) eqn:Ev; [|done].
  by intros [= <-].
Qed.

Module CommandLines.

(** C30: What a user writes is what a tool reads.  Options written as
    [--key=value], as [--key value] when the value does not begin with a dash,
    or as a bare [--key] for the value [true], in any order and number, parse to
    exactly those keys and values in that order - a value may itself contain
    [=] or begin with dashes when it is attached. *)
Theorem command_line_roundtrip (l : list (Spelling * (bytes * bytes))) :
  Forall (λ x, spellable x.1 x.2) l →
  parse (l ≫= λ x, spell x.1 x.2) [] = inr (snd <$> l).
Proof.
  enough (G : ∀ out, Forall (λ x, spellable x.1 x.2) l →
    parse (l ≫= λ x, spell x.1 x.2) out = inr (out ++ (snd <$> l))) by apply G.
  induction l as [|[sp o] l IH]; intros out H; [by rewrite app_nil_r|].
  apply Forall_cons in H as [Ho Hl]. csimpl. rewrite parse_spelled; [|done|].
  - by rewrite IH, <-app_assoc.
  - intros _. destruct l as [|[sp' o'] l]; [done|]. csimpl. apply spell_dash.
Qed.

(** A profile is accepted only when it validates, and its witnesses are then
    exactly those the [--witness] options name, whatever their order. *)
Theorem quorum_exact (o : Options) (p : QuorumProfile) :
  parse_quorum o (ap_quorum policy0) = inr p →
  is_ok (profile_validate p) = true ∧
  ∀ s, s ∈ qp_witnesses p ↔
    ∃ spec, spec ∈ all_of o (str "witness") ∧ parse_slot spec = inr s.
Proof.
  intros H. split; [by eapply parse_quorum_valid|]. revert H.
  unfold parse_quorum. destruct (id_try_make _) as [policy|]; [|done].
  destruct (parse_slots _) as [|added] eqn:Es; [done|].
  change (qp_witnesses (ap_quorum policy0)) with (@nil WitnessSlot). simpl app.
  pose proof (parse_slots_elem _ _ Es) as Hel. destruct added as [|a added]; [done|].
  destruct (parse_mode _ _) as [|[mode threshold]]; [done|]. cbv zeta.
  set (p' := mkProfile _ _ _ _ _ _ _). destruct (is_ok (profile_validate p')) eqn:Ev; [|done].
  intros [= <-] s. cbn [qp_witnesses p']. by rewrite elem_of_sort_slots.
Qed.

End CommandLines.

(** ** A command line and what becomes of it *)

Definition demo_spelled : list (Spelling * (bytes * bytes)) :=
  [(Attached, (str "witness", str "w1:rack-a@127.0.0.1:9100"));
   (Separate, (str "witness", str "w0:rack-b@127.0.0.1:9101"));
   (Bare, (str "require-lease", str "true"));
   (Attached, (str "note", str "--a=b"))].

Definition demo_args : list bytes :=
  [str "--witness=w1:rack-a@127.0.0.1:9100"; str "--witness"; str "w0:rack-b@127.0.0.1:9101";
   str "--require-lease"; str "--note=--a=b"].

Definition demo_options : Options := snd <$> demo_spelled.

Lemma command_line_roundtrip_witness :
  (demo_spelled ≫= λ x, spell x.1 x.2) = demo_args ∧ parse demo_args [] = inr demo_options.
Proof.
  assert (E : (demo_spelled ≫= λ x, spell x.1 x.2) = demo_args) by (vm_compute; reflexivity).
  split; [exact E|]. rewrite <-E. apply CommandLines.command_line_roundtrip.
  repeat (apply Forall_cons; split); [..|constructor];
    (split; [discriminate|]; split; [by apply (bool_decide_unpack _); vm_compute|by vm_compute]).
Defined.

(** Two racks, a majority of both, sorted. *)
Definition demo_profile : QuorumProfile :=
  mkProfile (str "fabric-policy") 1
    [mkSlot (str "w0") (str "rack-b"); mkSlot (str "w1") (str "rack-a")]
    MajorityDistinctWitnesses 0 1 10000.

Lemma demo_quorum : parse_quorum demo_options (ap_quorum policy0) = inr demo_profile.
Proof. vm_compute. reflexivity. Qed.

Lemma quorum_exact_witness :
  is_ok (profile_validate demo_profile) = true ∧
  mkSlot (str "w0") (str "rack-b") ∈ qp_witnesses demo_profile.
Proof.
  destruct (CommandLines.quorum_exact demo_options demo_profile demo_quorum) as [Hv Hw].
  split; [exact Hv|]. apply Hw. exists (str "w0:rack-b@127.0.0.1:9101").
  split; [|vm_compute; reflexivity]. by apply (bool_decide_unpack _); vm_compute.
Defined.

(** A flag no tool knows is parsed and never looked at. *)
Lemma unknown_flags_accepted : parse [str "--no-such-flag"] [] = inr [(str "no-such-flag", str "true")].
Proof. vm_compute. reflexivity. Qed.

(** A port that is not a number is the default port. *)
Lemma bad_number_ignored :
  listen_endpoint [(str "port", str "80x")] = inr (mkEndpoint (str "127.0.0.1") 0).
Proof. vm_compute. reflexivity. Qed.

(** A threshold of 2^32 + 1 is accepted, as a threshold of one witness. *)
Lemma threshold_wraps :
  parse_quorum [(str "witness", str "w0:rack-a@h:1"); (str "quorum", str "threshold:4294967297")]
    (ap_quorum policy0) =
  inr (mkProfile (str "fabric-policy") 1 [mkSlot (str "w0") (str "rack-a")]
         ThresholdDistinctWitnesses 1 1 10000).
Proof. vm_compute. reflexivity. Qed.
