(* ===== verification/Tools.v ===== *)
(** * The command line tools

    Models the [main] functions of [tools/sbf-registry.cpp],
    [tools/sbf-witness.cpp], [tools/sbf-coordinator.cpp] and [tools/sbfctl.cpp],
    the offline auditor among them, with [src/version.cpp].  What a tool prints and
    the code it exits with are values; the directories of the machine are a
    function from their names; a socket bound, a file announced and the process
    number are arguments.  A service is followed until it serves ([Service],
    [Witness]) and from its end. *)
From S2P Require Import Prelude Order SortedVec Status Ids Text Net Digest Canonical Scope.
From S2P Require Import Fence Lineage Evidence Arbiter Codec Readers Wire Messages Journal Fabric.
From S2P Require Import Registry Replay Snapshot Service Sessions Recovery Witness Auditor.
From S2P Require Import Client Coordinator Cli.
Open Scope Z_scope.

(** ** What a tool runs on *)

(** The files of every directory. *)
Definition Files : Type := bytes → Disk * FabricDisk.

Definition set_files (dir : bytes) (d : Disk) (f : FabricDisk) (files : Files) : Files :=
  λ dir', if decide (dir' = dir) then (d, f) else files dir'.

Definition line (l : list bytes) : bytes := mjoin l ++ newline.

Definition bit (b : bool) : bytes := if b then str "1" else str "0".

(** What the build and the system provide to a process. *)
Record Env := mkEnv {
  en_version : bytes;                (* SBF_VERSION_STRING *)
  en_pid : Z;
  en_announce_opened : bool;
  en_announce_written : bool
}.

Section tools.
Context (env : Env).

Definition build_description : bytes :=
  str "Split-Brain Fabric " ++ en_version env ++
  str " (authority fencing and split-brain prevention runtime)".

(** [announce] of the option, and its result. *)
Definition announces (o : Options) (endpoint : bytes) : option bytes * bool :=
  announce (en_announce_opened env) (en_announce_written env) (str_of o (str "announce") [])
    endpoint (en_pid env).

Definition announce_failed : Exit := Failed (str "could not write --announce file").

(** ** [sbf-registry] *)

(** A process that ends at once, or serves after printing. *)
Inductive Launch (N : Type) := Ended (e : Exit) | Serves (out : bytes) (n : N).
#[global] Arguments Ended {_} _.
#[global] Arguments Serves {_} _ _.

(** A service object over the files of its directory. *)
Definition service0 (d : Disk) (f : FabricDisk) : Node :=
  mkNode config0 (mkStore [] false 0 0 false) d f registry0 [] 0 0 Journal.report0 Uninitialised
    false 0 0 0.

(** The [--define] options in order; the first refusal ends the process. *)
Fixpoint define_all (cas : list Calls) (specs : list bytes) (n : Node) : Node * option Exit :=
  match specs with
  | [] => (n, None)
  | spec :: specs =>
      match parse_define spec with
      | inl e => (n, Some (Failed e))
      | inr d =>
          let (n, st) := service_define_domain (default calls_done (head cas)) d n in
          if negb (is_ok st) then (n, Some (Failed (str "--define failed: " ++ status_to_string st)))
          else define_all (tail cas) specs n
      end
  end.

Definition registry_ready (endpoint : bytes) (n : Node) : bytes :=
  line [str "sbf-registry ready endpoint="; endpoint; str " store="; rc_store_id (nd_config n);
        str " boot="; decimal (br_boot (rs_boot (nd_state n)));
        str " incarnation="; decimal (br_incarnation (rs_boot (nd_state n)));
        str " snapshot_loaded="; bit (rp_snapshot_loaded (nd_recovery n));
        str " torn_tail="; bit (rp_torn (nd_recovery n))].

(** From [service.open] on; [bound] is what the listener says. *)
Definition registry_serve (oc : OpenCalls) (cas : list Calls) (bound : result Endpoint)
    (config : RegistryConfig) (o : Options) (n : Node) : Node * Launch Node :=
  let (n, st) := service_open oc config n in
  if negb (is_ok st) then (n, Ended (Failed (str "open failed: " ++ status_to_string st)))
  else
    match define_all cas (all_of o (str "define")) n with
    | (n, Some e) => (n, Ended e)
    | (n, None) =>
        match bound with
        | Err st => (n, Ended (Failed (str "bind failed: " ++ status_to_string st)))
        | Ret endpoint =>
            if negb (announces o (endpoint_to_string endpoint)).2 then (n, Ended announce_failed)
            else (n, Serves (registry_ready (endpoint_to_string endpoint) n) n)
        end
    end.

Definition registry_main (oc : OpenCalls) (cas : list Calls) (bound : result Endpoint)
    (args : list bytes) (files : Files) : Files * Launch Node :=
  match parse args [] with
  | inl e => (files, Ended (Failed e))
  | inr o =>
      if has o (str "version") then (files, Ended (Exits 0 (line [build_description])))
      else
        match registry_config o with
        | inl e => (files, Ended (Failed e))
        | inr config =>
            match listen_endpoint o with
            | inl e => (files, Ended (Failed e))
            | inr _ =>
                let dir := str_of o (str "dir") (str "sbf-registry-state") in
                let (n, l) := registry_serve oc cas bound config o (service0 (files dir).1 (files dir).2) in
                (set_files dir (nd_disk n) (nd_fabric n) files, l)
            end
        end
  end.

(** The service over. *)
Definition registry_end (n : Node) : Exit :=
  Exits 0 (line [str "sbf-registry stopped handled="; decimal (nd_handled n);
                 str " rejected="; decimal (nd_rejected n); str " poison="; decimal (nd_poison n)]).

(** ** [sbf-witness] *)

Definition witness_main (bound : result Endpoint) (args : list bytes) : Launch WitnessNode :=
  match parse args [] with
  | inl e => Ended (Failed e)
  | inr o =>
      if has o (str "version") then Ended (Exits 0 (line [build_description]))
      else
        match witness_config o with
        | inl e => Ended (Failed e)
        | inr config =>
            match listen_endpoint o with
            | inl e => Ended (Failed e)
            | inr _ =>
                let (n, st) := configure config witness0 in
                if negb (is_ok st)
                then Ended (Failed (str "configure failed: " ++ status_to_string st))
                else
                  match bound with
                  | Err st => Ended (Failed (str "bind failed: " ++ status_to_string st))
                  | Ret endpoint =>
                      let n := (start n).1 in
                      if negb (announces o (endpoint_to_string endpoint)).2 then Ended announce_failed
                      else
                        Serves (line [str "sbf-witness ready witness="; wc_witness config;
                                      str " fault_domain="; wc_fault config;
                                      str " endpoint="; endpoint_to_string endpoint]) n
                  end
            end
        end
  end.

Definition witness_end (n : WitnessNode) : Exit :=
  Exits 0 (line [str "sbf-witness stopped issued="; decimal (wn_issued n);
                 str " refusals_conflict="; decimal (wn_conflicts n);
                 str " refusals_replay="; decimal (wn_replays n);
                 str " refusals_regression="; decimal (wn_regressions n)]).

(** ** [sbf-coordinator] *)

Definition kMaxBenchmarkOperations : Z := 200000.

Section sockets.
Context {K : Type} (net : nat → Kernel K).

Definition coordinator_line (x : Coordinator) (st : Status) (r : CoordinatorReport) : bytes :=
  line [str "coordinator node="; cf_node (co_config x); str " domain="; cf_domain (co_config x);
        str " incarnation="; decimal (co_incarnation x); str " status="; status_to_string st;
        str " attempted="; decimal (ct_attempted r); str " applied="; decimal (ct_applied r);
        str " refused="; decimal (ct_refused r); str " fenced="; decimal (ct_fenced r);
        str " conflict="; decimal (ct_conflicts r); str " unknown="; decimal (ct_unknown r);
        str " unreachable="; decimal (ct_unreachable r);
        str " final_epoch="; decimal (ct_final_epoch r); str " final_token="; decimal (ct_final_token r);
        str " final_grant="; decimal (ct_final_grant r)].

(** The coordinator is closed on every way out, by [close] or its destructor. *)
Definition leave (x : Coordinator) (k : K) (e : Exit) : K * Exit := ((coordinator_close net x k).2, e).

Definition coordinate (o : Options) (operations : Z) (x : Coordinator) (k : K) : K * Exit :=
  let '(x, k, st) := coordinator_connect net x k in
  if negb (is_ok st) then leave x k (Failed (str "connect failed: " ++ status_to_string st))
  else
    let session := sb_session (cl_binding (co_client x)) in
    if negb (announces o (if is_set session then str "connected" else str "none")).2
    then leave x k announce_failed
    else
      let '(x, r, k, mutated) :=
        mutate net (str_of o (str "operation") (str "switch-port")) operations x
          Coordinator.report0 k in
      let out := coordinator_line x mutated r in
      let (x, k) := if flag_of o (str "release") (str "false")
                    then coordinator_release net Reason.None x k else (x, k) in
      leave x k (Exits 0 out).

Definition coordinator_main (args : list bytes) (k : K) : K * Exit :=
  match parse args [] with
  | inl e => (k, Failed e)
  | inr o =>
      if has o (str "version") then (k, Exits 0 (line [build_description]))
      else
        match coordinator_config o with
        | inl e => (k, Failed e)
        | inr (config, witnesses) =>
            let operations := number o (str "ops") 1 in
            if kMaxBenchmarkOperations <? operations then (k, Failed (str "--ops out of range"))
            else coordinate o operations (coordinator0 config witnesses) k
        end
  end.

(** ** [sbfctl]: over the network *)

Definition operator_hello (node : NodeId) : HelloRequest :=
  mkHelloRequest node Operator kFrameVersion.

Definition connect_registry (o : Options) (c : RegistryClient) (k : K) : RegistryClient * K * Status :=
  match id_try_make (str_of o (str "node") (str "sbfctl")) with
  | None => (c, k, fail0 Outcome.Invalid Reason.IdCharset)
  | Some node =>
      match endpoint_parse (str_of o (str "registry") (str "127.0.0.1:9000")) with
      | Err st => (c, k, st)
      | Ret endpoint => client_connect (H:=net O) endpoint (operator_hello node) c k
      end
  end.

(** The client's destructor closes its connection. *)
Definition hang_up (c : RegistryClient) (k : K) (e : Exit) : K * Exit :=
  ((client_close (H:=net O) c k).2, e).

(** A command that talks to the registry. *)
Definition with_registry (o : Options) (k : K)
    (command : RegistryClient → K → RegistryClient * K * Exit) : K * Exit :=
  let '(c, k, st) := connect_registry o client0 k in
  if negb (is_ok st) then hang_up c k (Failed (str "connect failed: " ++ status_to_string st))
  else let '(c, k, e) := command c k in hang_up c k e.

(** 0 when the response carries a success. *)
Definition answer_code (st : Status) : Z := if is_ok st then 0 else 1.

Definition cmd_inspect (o : Options) (k : K) : K * Exit :=
  with_registry o k (λ c k,
    match scope_parse (str_of o (str "scope") (str "port-1")) with
    | Err st => (c, k, Failed (str "--scope: " ++ status_to_string st))
    | Ret scope =>
        match id_try_make (str_of o (str "domain") (str "domain-a")) with
        | None => (c, k, Failed (str "--domain must be a valid identifier"))
        | Some domain =>
            match client_inspect (H:=net O) domain scope 0 c k with
            | (c, k, Err st) => (c, k, Failed (str "inspect failed: " ++ status_to_string st))
            | (c, k, Ret r) =>
                (c, k,
                 Exits (answer_code (ip_status r))
                   (line [str "status="; status_to_string (ip_status r)] ++
                    line [str "registry_generation="; decimal (ip_registry_generation r)] ++
                    line [str "last_registry_sequence="; decimal (ip_last_registry_sequence r)] ++
                    line [ip_report r]))
            end
        end
    end).

Definition cmd_define (o : Options) (k : K) : K * Exit :=
  with_registry o k (λ c k,
    match id_try_make (str_of o (str "domain") []),
          id_try_make (str_of o (str "owner") (str_of o (str "node") (str "sbfctl"))),
          id_try_make (str_of o (str "policy") (str "fabric-policy")) with
    | Some domain, Some owner, Some policy =>
        match scope_parse (str_of o (str "scope") []) with
        | Err st => (c, k, Failed (str "--scope: " ++ status_to_string st))
        | Ret scope =>
            let d := mkDomain domain owner scope policy (flag_of o (str "exclusive") (str "true")) in
            match client_define_domain (H:=net O) d c k with
            | (c, k, Err st) => (c, k, Failed (str "define failed: " ++ status_to_string st))
            | (c, k, Ret r) =>
                (c, k,
                 Exits (answer_code (mp_status r))
                   (line [str "status="; status_to_string (mp_status r);
                          str " domain_generation="; decimal (mp_domain_generation r)]))
            end
        end
    | _, _, _ => (c, k, Failed (str "--domain, --owner and --policy must be valid identifiers"))
    end).

Definition cmd_witness_status (o : Options) (k : K) : K * Exit :=
  match id_try_make (str_of o (str "node") (str "sbfctl")),
        id_try_make (str_of o (str "id") (str "witness-1")) with
  | Some node, Some witness =>
      match endpoint_parse (str_of o (str "witness") (str "127.0.0.1:9100")) with
      | Err _ => (k, Failed (str "--witness expects host:port"))
      | Ret endpoint =>
          let '(w, k, st) :=
            witness_connect (H:=net O) (operator_hello node) (witness_client witness [] endpoint) k in
          ((witness_close (H:=net O) w k).2,
           if negb (is_ok st) then Failed (str "connect failed: " ++ status_to_string st)
           else Exits 0 (line [str "witness="; witness; str " endpoint="; endpoint_to_string endpoint;
                               str " connected=1"]))
      end
  | _, _ => (k, Failed (str "invalid identifier"))
  end.

Definition cmd_shutdown (o : Options) (k : K) : K * Exit :=
  with_registry o k (λ c k,
    let '(c, k, st) := shutdown_server (H:=net O) c k in
    (c, k, if negb (is_ok st) then Failed (str "shutdown failed: " ++ status_to_string st)
           else Exits 0 (line [str "shutdown requested"]))).
End sockets.

(** ** [sbfctl audit] *)

Definition audit_options : StoreOpenOptions := mkOptions false true 0.

(** A policy that validates, for a state that decides nothing. *)
Definition audit_config (store : StoreId) : RegistryConfig :=
  let policy := id_make (str "fabric-policy") in
  mkConfig store (str "offline-auditor")
    (mkPolicy policy 1
       (mkProfile policy 1 [mkSlot (id_make (str "offline-witness")) (id_make (str "offline-fd"))]
          ThresholdDistinctWitnesses 1 1 1000)
       true false true true true 1000) 1000 512 kMaxSessions.

(** The state before anything is loaded. *)
Definition audit_blank (store : StoreId) : RegistryState * Status :=
  initialise registry0 (audit_config store) (mkStepClock 0)
    (mkBoot 0 0 (rc_node (audit_config store)) 0 0 false false 0).

(** The snapshot if there is a readable one, the journal past it, the counters. *)
Definition audit_replay (d : Disk) (s : RegistryState) : bytes + RegistryState :=
  let replay (covers : Sequence) (s : RegistryState) :=
    let (s, st) := store_replay (replay_visitor covers) d s in
    if negb (is_ok st) then inl (str "journal rejected: " ++ status_to_string st)
    else
      let (s, st) := rebuild s in
      if negb (is_ok st) then inl (str "state rebuild failed: " ++ status_to_string st) else inr s in
  match load_snapshot d with
  | Err _ => replay 0 s
  | Ret (blob, header) =>
      let (s, st) := deserialize s blob in
      if negb (is_ok st) then inl (str "snapshot rejected: " ++ status_to_string st)
      else replay (sn_covers header) s
  end.

(** What the audit looks at. *)
Record Audited := mkAudited {
  an_state : RegistryState;
  an_fabric : FabricStore;
  an_report : StoreRecoveryReport
}.

(** What the system calls of the two opens do are [sio] and [fio]. *)
Definition audit_open (sio fio : OpenIo) (store : StoreId) (d : Disk) (f : FabricDisk)
  : Disk * FabricDisk * (bytes + Audited) :=
  match store_open sio store audit_options d with
  | (d, Err st) => (d, f, inl (str "open failed: " ++ status_to_string st))
  | (d, Ret (_, report)) =>
      let (s, st) := audit_blank store in
      if negb (is_ok st) then (d, f, inl (str "state init failed: " ++ status_to_string st))
      else
        match audit_replay d s with
        | inl e => (d, f, inl e)
        | inr s =>
            match fabric_open fio store audit_options report f with
            | (f, Err st) => (d, f, inl (str "fabric open failed: " ++ status_to_string st))
            | (f, Ret (fabric, report)) => (d, f, inr (mkAudited s fabric report))
            end
        end
  end.

Definition finding_line (kind : bytes) (x : AuditFinding) : bytes :=
  line [str "  "; kind; str "-finding "; Outcome.to_string (af_outcome x); str " ";
        Reason.to_string (af_reason x); str " "; af_subject x; str ": "; af_detail x].

Definition audit_text (store dir : bytes) (a : Audited) (registry fabric : AuditReport) : bytes :=
  let s := an_state a in
  line [str "store="; store; str " dir="; dir] ++
  line [str "boot="; decimal (br_boot (rs_boot s));
        str " incarnation="; decimal (br_incarnation (rs_boot s));
        str " token_counter="; decimal (rs_tokens s);
        str " interrupts="; decimal (zlen (rs_interrupts s))] ++
  line [str "snapshot_loaded="; bit (rp_snapshot_loaded (an_report a));
        str " torn_tail="; bit (rp_torn (an_report a));
        str " journal_records="; decimal (rp_records (an_report a))] ++
  line [str "registry: outcome="; status_to_string (au_status registry);
        str " checks="; decimal (au_checks registry);
        str " findings="; decimal (au_total registry); str " grants="; decimal (au_grants registry);
        str " open_grants="; decimal (au_open registry);
        str " epoch_regressions="; decimal (au_epoch_regressions registry);
        str " duplicate_exclusive_grants="; decimal (au_duplicates registry);
        str " fenced_open_grants="; decimal (au_uninterruptible registry)] ++
  line [str "fabric: outcome="; status_to_string (au_status fabric);
        str " mutations="; decimal (au_mutations fabric);
        str " distinct_owners="; decimal (au_owners fabric);
        str " ownership_transitions="; decimal (au_transitions fabric);
        str " token_regressions="; decimal (au_regressions fabric);
        str " foreign_owner_appends="; decimal (au_foreign fabric);
        str " fence_escapes="; decimal (au_escapes fabric);
        str " sequence_gaps="; decimal (au_gaps fabric);
        str " mutually_exclusive="; bit (au_exclusive fabric)] ++
  mjoin (finding_line (str "registry") <$> au_findings registry) ++
  mjoin (finding_line (str "fabric") <$> au_findings fabric).

Definition audit_passes (registry fabric : AuditReport) : bool :=
  (au_total registry =? 0) && (au_total fabric =? 0) && au_exclusive fabric.

Definition audit_verdict (store dir : bytes) (a : Audited) : Exit :=
  let registry := audit_registry_state (an_state a) in
  let fabric := audit_fabric_history (fb_records (an_fabric a)) in
  let ok := audit_passes registry fabric in
  Exits (if ok then 0 else 1)
    (audit_text store dir a registry fabric ++ line [if ok then str "AUDIT OK" else str "AUDIT FAILED"]).

Definition cmd_audit (sio fio : OpenIo) (o : Options) (files : Files) : Files * Exit :=
  let dir := str_of o (str "dir") (str "sbf-registry-state") in
  match id_try_make (str_of o (str "store") (str "fabric-store")) with
  | None => (files, Failed (str "--store must be a valid identifier"))
  | Some store =>
      let '(d, f, r) := audit_open sio fio store (files dir).1 (files dir).2 in
      (set_files dir d f files,
       match r with inl e => Failed e | inr a => audit_verdict store dir a end)
  end.

(** ** [sbfctl]: [main] *)

Definition cmd_plan (o : Options) : Exit :=
  Exits 0 (line [str "plan seed="; decimal (number o (str "seed") 1);
                 str " cases="; decimal (number o (str "cases") 128)]).

Definition usage : bytes :=
  line [str "usage: sbfctl <version|inspect|define|witness-status|shutdown|audit|plan>"].

Definition describes_itself (command : bytes) : bool :=
  eqb command (str "--version") || eqb command (str "-v") || eqb command (str "--help") ||
  eqb command (str "-h").

Definition ctl_main {K} (net : nat → Kernel K) (sio fio : OpenIo) (args : list bytes) (k : K)
    (files : Files) : K * Files * Exit :=
  match args with
  | [] => (k, files, Exits 2 usage)
  | command :: args =>
      if describes_itself command then (k, files, Exits 0 (line [build_description] ++ usage))
      else
        match parse args [] with
        | inl e => (k, files, Failed e)
        | inr o =>
            let talk (x : K * Exit) : K * Files * Exit := (x.1, files, x.2) in
            if negb (sys_up (Kernel:=net O) k) then (k, files, Failed (str "network init failed"))
            else if eqb command (str "version") then (k, files, Exits 0 (line [build_description]))
            else if eqb command (str "inspect") then talk (cmd_inspect net o k)
            else if eqb command (str "define") then talk (cmd_define net o k)
            else if eqb command (str "witness-status") then talk (cmd_witness_status net o k)
            else if eqb command (str "shutdown") then talk (cmd_shutdown net o k)
            else if eqb command (str "audit")
            then let (files, e) := cmd_audit sio fio o files in (k, files, e)
            else if eqb command (str "plan") then (k, files, cmd_plan o)
            else (k, files, Failed (str "unknown command: " ++ command))
        end
  end.
End tools.

(** The self test the usage comment lists is not a command. *)
Lemma selftest_unknown {K} (env : Env) (net : nat → Kernel K) sio fio (k : K) (files : Files) :
  sys_up (Kernel:=net O) k = true →
  ctl_main env net sio fio [str "selftest"] k files =
  (k, files, Failed (str "unknown command: selftest")).
Proof. intros H. unfold ctl_main. cbn. by rewrite H. Qed.

(** [plan] prints its arguments and plans nothing. *)
Lemma plan_only_prints {K} (env : Env) (net : nat → Kernel K) sio fio (k : K) (files : Files) :
  sys_up (Kernel:=net O) k = true →
  ctl_main env net sio fio [str "plan"; str "--cases=3"] k files =
  (k, files, Exits 0 (str "plan seed=1 cases=3" ++ newline)).
Proof. intros H. unfold ctl_main. cbn. by rewrite H. Qed.
