(* ===== verification/Offline.v ===== *)
(** * The offline auditor

    What [sbfctl audit] ([cmd_audit] of [tools/sbfctl.cpp]) says of a directory.
    Over the files of any registry that lived and crashed it replays the state the
    service had, though it knows neither the service's policy nor its node, and
    audits exactly the records of the effect boundary, leaving the directory as an
    opened one; over any files at all, exit code 0 certifies the whole effect log. *)
From S2P Require Import Prelude Order SortedVec Status Ids Text Net Digest Canonical Scope.
From S2P Require Import Fence Lineage Evidence Arbiter Codec Readers Wire Messages Journal Fabric.
From S2P Require Import Registry Replay Snapshot Service Sessions Recovery Witness Auditor.
From S2P Require Import Client Coordinator Cli Tools.
Open Scope Z_scope.

#[local] Opaque Digest256_of crc32c.

(** ** Replaying without the policy and the boot *)

(** A state under another policy and boot. *)
Definition adorn (p : ArbiterPolicy) (b : BootRecord) (s : RegistryState) : RegistryState :=
  set_policy p (set_boot b s).

(** Alike but for the policy and the boot. *)
Definition agree (s s' : RegistryState) : Prop :=
  alike (adorn policy0 no_boot s) (adorn policy0 no_boot s').

#[export] Instance agree_equiv : Equivalence agree.
Proof.
  unfold agree. split; repeat intros ?; [reflexivity|by symmetry|by etrans].
Qed.

Lemma alike_adorn p b s s' : alike s s' → alike (adorn p b s) (adorn p b s').
Proof. intros E. by alike_states s s'. Qed.

Lemma alike_agree s s' : alike s s' → agree s s'.
Proof. apply alike_adorn. Qed.

Lemma adorn_adorn p b p' b' s : adorn p b (adorn p' b' s) = adorn p b s.
Proof. done. Qed.

Lemma adorn_id s : adorn (rs_policy s) (rs_boot s) s = s.
Proof. by destruct s. Qed.

Lemma agree_adorned p b p' b' s s' : alike (adorn p b s) (adorn p' b' s') → agree s s'.
Proof. intros E. by apply (alike_adorn policy0 no_boot) in E. Qed.

Lemma agree_alike s s' : agree s s' → alike s (adorn (rs_policy s) (rs_boot s) s').
Proof. intros E. apply (alike_adorn (rs_policy s) (rs_boot s)) in E. by rewrite !adorn_adorn, adorn_id in E. Qed.

(** A transition that neither reads the policy and the boot nor mixes them with
    the rest. *)
Definition blind (f : RegistryState → RegistryState * Status) : Prop :=
  ∀ p b s, ∃ b', f (adorn p b s) = (adorn p b' (f s).1, (f s).2).

Lemma blind_payload {A} (d : reader → result (A * reader)) payload k :
  (∀ x, blind (k x)) → blind (with_payload d payload k).
Proof.
  intros Hk p b s. unfold with_payload. destruct (decode_all d payload); [apply Hk|by exists b].
Qed.

Lemma remember_adorn scope p b s : remember_scope scope (adorn p b s) = adorn p b (remember_scope scope s).
Proof. unfold remember_scope. cbn [rs_scopes adorn set_policy set_boot]. repeat case_match; done. Qed.

Lemma blind_boot_begin x : blind (apply_boot_begin x).
Proof.
  intros p b s. exists x. unfold apply_boot_begin.
  change (rs_incarnations (set_boot x (adorn p b s))) with (rs_incarnations (set_boot x s)).
  cbv zeta. cbn [rs_lineage set_incarnations set_boot adorn set_policy].
  by destruct (begin_boot _ _).
Qed.

Lemma blind_boot_end x : blind (apply_boot_end x).
Proof.
  intros p b s. exists b. unfold apply_boot_end. cbn [rs_lineage adorn set_policy set_boot].
  by destruct (end_boot _ _ _ _).
Qed.

Lemma blind_domain d : blind (apply_domain d).
Proof.
  intros p b s. exists b. unfold apply_domain, find_domain. cbn [rs_domains adorn set_policy set_boot].
  repeat case_match; try done. cbn [fst snd]. f_equal. by rewrite <-remember_adorn.
Qed.

Lemma blind_grant_open g : blind (apply_grant_open g).
Proof.
  intros p b s. exists b. unfold apply_grant_open. cbv zeta.
  cbn [rs_lineage set_tokens set_grants adorn set_policy set_boot]. by destruct (open_grant _ _).
Qed.

Lemma blind_grant_close g : blind (apply_grant_close g).
Proof.
  intros p b s. exists b. unfold apply_grant_close. cbn [rs_lineage adorn set_policy set_boot].
  by destruct (lineage_close_grant _ _ _ _ _).
Qed.

Lemma blind_fence f scope : blind (apply_fence f scope).
Proof.
  intros p b s. exists b. unfold apply_fence. cbv zeta.
  change (set_tokens ?v (adorn p b s)) with (adorn p b (set_tokens v s)). rewrite remember_adorn.
  set (t := remember_scope _ _). cbn [rs_fences adorn set_policy set_boot].
  by destruct (fence_apply _ _ _).
Qed.

Lemma blind_adopt f scope : blind (apply_adopt f scope).
Proof.
  intros p b s. exists b. unfold apply_adopt. cbv zeta.
  change (set_tokens ?v (adorn p b s)) with (adorn p b (set_tokens v s)). rewrite remember_adorn.
  set (t := remember_scope _ _). cbn [rs_fences adorn set_policy set_boot].
  by destruct (fence_adopt _ _ _ _ _ _ _).
Qed.

Lemma blind_incarnation v : blind (apply_incarnation v).
Proof.
  intros p b s. exists b. unfold apply_incarnation. cbn [rs_incarnations adorn set_policy set_boot].
  by destruct (_ <=? _).
Qed.

Lemma blind_interrupt m : blind (apply_interrupt m).
Proof.
  intros p b s. exists b. unfold apply_interrupt. cbn [rs_interrupts adorn set_policy set_boot].
  by destruct (_ <=? _).
Qed.

Lemma blind_commits : blind (λ s, (set_commits (u64 (rs_commits s + 1)) s, status_ok)).
Proof. intros p b s. by exists b. Qed.

Create HintDb blind.
#[export] Hint Resolve blind_payload blind_boot_begin blind_boot_end blind_domain blind_grant_open
  blind_grant_close blind_fence blind_adopt blind_incarnation blind_interrupt blind_commits : blind.

Lemma blind_kind r : jr_kind r ≠ KPolicyDefine → blind (apply_kind r).
Proof.
  intros Hr. unfold apply_kind. cbv zeta.
  destruct (jr_kind r); try done; try (by intros p b s; exists b); auto 6 with blind.
Qed.

(** Two states that agree, the second under the policy [a] or that of the first. *)
Definition follows (a : ArbiterPolicy) (s t : RegistryState) : Prop :=
  agree s t ∧ (rs_policy t = a ∨ rs_policy t = rs_policy s).

Lemma blind_follows a f : acts_alike f → blind f → ∀ s t, follows a s t →
  follows a (f s).1 (f t).1 ∧ (f s).2 = (f t).2.
Proof.
  intros Ha Hb s t [E Hp].
  assert (Hpol : ∀ u, rs_policy (f u).1 = rs_policy u).
  { intros u. destruct (Hb (rs_policy u) (rs_boot u) u) as [b' Eu]. rewrite adorn_id in Eu.
    by rewrite Eu at 1. }
  destruct (Hb policy0 no_boot s) as [b1 E1], (Hb policy0 no_boot t) as [b2 E2].
  destruct (Ha _ _ E) as [Hs Hst]. rewrite E1, E2 in Hs, Hst. cbn [fst snd] in Hs, Hst.
  split; [|done]. split; [by eapply agree_adorned|]. by rewrite !Hpol.
Qed.

Lemma observe_adorn r p b s : observe r (adorn p b s) = adorn p b (observe r s).
Proof. unfold observe. cbn. by case_match. Qed.

Lemma follows_observe a r s t : follows a s t → follows a (observe r s) (observe r t).
Proof.
  intros [E Hp]. split.
  - apply (alike_observe r) in E. by rewrite !observe_adorn in E.
  - assert (H : ∀ u, rs_policy (observe r u) = rs_policy u) by (intros u; unfold observe; by case_match).
    by rewrite !H.
Qed.

Lemma agree_sequence s t : agree s t → rs_sequence s = rs_sequence t.
Proof. unfold agree, alike. intros E. exact (f_equal rs_sequence E). Qed.

Lemma follows_apply a r s t : follows a s t →
  follows a (apply r s).1 (apply r t).1 ∧ (apply r s).2 = (apply r t).2.
Proof.
  intros F. unfold apply. rewrite (agree_sequence s t) by apply F.
  destruct (negb _); [done|]. destruct (_ <? _); [done|]. apply (follows_observe a r) in F.
  destruct (decide (jr_kind r = KPolicyDefine)) as [Ek|Ek].
  - unfold apply_kind. rewrite Ek. unfold with_payload. destruct (decode_all _ _) as [p|]; [|done].
    cbn [fst snd]. split; [|done]. split; [|by right]. exact (proj1 F).
  - apply blind_follows; [apply through_kind|by apply blind_kind|done].
Qed.

Lemma follows_visitor a covers r s t : follows a s t →
  follows a (replay_visitor covers r s).1 (replay_visitor covers r t).1 ∧
  (replay_visitor covers r s).2 = (replay_visitor covers r t).2.
Proof. intros F. unfold replay_visitor. destruct (_ <=? _); [done|]. by apply follows_apply. Qed.

(** ** Reading a snapshot into another state *)

Lemma remember_all_same l s t : rs_scopes s = rs_scopes t →
  rs_scopes (remember_all l s) = rs_scopes (remember_all l t).
Proof.
  unfold remember_all. revert s t. induction l as [|x l IH]; intros s t E; [done|]. cbn [foldl].
  apply IH. unfold remember_scope. rewrite <-E. repeat case_match; done.
Qed.

(** The state [install] leaves, but for the scopes. *)
Definition placed (n : Snapshot) (fences : FenceTable) (lineage : LineageTable) (s : RegistryState)
  : RegistryState :=
  mkRegistry (rs_config s) (sn_store_id n)
    (clock_observe_persisted (mkStepClock 0) (sn_clock n)).1 (sn_last_step n) (sn_boot n)
    (sn_sequence n) (if sn_generation n =? 0 then 1 else sn_generation n) fences lineage
    (rs_fabric s) (sn_domains n) (sn_policy n) (sn_idempotency n) (sn_interrupts n) []
    (sn_tokens n) (sn_grants n) (sn_incarnations n) (sn_commits n) (rs_hits s) (rs_restarts s)
    (rs_phase s).

Lemma install_placed n f l s :
  install n f l s = set_scopes (rs_scopes (install n f l registry0)) (placed n f l s).
Proof.
  unfold install. fold (placed n f l s) (placed n f l registry0). rewrite remember_all_scopes.
  f_equal. by apply remember_all_same.
Qed.

Lemma restore_alike n s t s1 st : restore n s = (s1, st) → is_ok st = true →
  ∃ t1, restore n t = (t1, st) ∧ alike s1 t1.
Proof.
  unfold restore. destruct (fence_import _ _) as [f|e] eqn:Ef.
  2: { intros [= _ <-] Hok. by rewrite (fence_import_not_ok _ _ _ Ef) in Hok. }
  destruct (lineage_import _ _) as [l|e] eqn:El.
  2: { intros [= _ <-] Hok. by rewrite (lineage_import_not_ok _ _ _ El) in Hok. }
  rewrite (install_placed n f l s), (install_placed n f l t). generalize (rs_scopes (install n f l registry0)).
  intros sc. unfold rebuild. cbn [rs_fences rs_lineage rs_policy set_scopes placed].
  destruct (is_ok (fence_validate f)) eqn:E1; cbn [negb].
  2: { rewrite E1. cbn [negb]. intros [= _ <-]. congruence. }
  destruct (is_ok (lineage_validate l)) eqn:E2; cbn [negb].
  2: { rewrite E2. cbn [negb]. intros [= _ <-]. congruence. }
  cbv zeta. destruct (is_ok (policy_validate _)) eqn:E3; cbn [negb]; [|intros [= _ <-]; congruence].
  unfold resolves, has_scope.
  cbn [rs_fences rs_scopes set_incarnations set_grants set_tokens set_scopes placed].
  destruct (forallb _ _); cbn [negb]; [|by intros [= _ <-]].
  intros [= <- <-] _. eexists. split; [reflexivity|].
  unfold alike, seen, placed. cbn [rs_store_id rs_last_step rs_boot rs_sequence rs_fences rs_lineage
    rs_domains rs_policy rs_idempotency rs_interrupts rs_incarnations rs_commits
    set_incarnations set_grants set_tokens set_scopes]. reflexivity.
Qed.

Lemma deserialize_alike s t data s1 st : deserialize s data = (s1, st) → is_ok st = true →
  ∃ t1, deserialize t data = (t1, st) ∧ alike s1 t1.
Proof.
  unfold deserialize. destruct (_ <? _); [by intros [= _ <-]|]. cbv zeta.
  destruct (r_digest _) as [[e r]|st1] eqn:Er.
  - destruct (negb _); [by intros [= _ <-]|].
    destruct (decode_all r_state _) as [n|st1] eqn:En; [by apply restore_alike|].
    intros [= _ <-] Hok. by rewrite (honest_all _ _ _ honest_state En) in Hok.
  - intros [= _ <-] Hok. by rewrite (honest_digest _ _ Er) in Hok.
Qed.

(** ** The state the auditor rebuilds *)

Lemma rebuild_adorn p b s s' : rebuild (adorn p b s) = (s', status_ok) →
  is_ok (policy_validate (rs_policy s)) = true →
  rebuild s = (adorn (rs_policy s) (rs_boot s) s', status_ok).
Proof.
  intros E Hp. pose proof (policy_ok_status _ Hp) as Hst. revert E. unfold rebuild.
  cbn [rs_fences rs_lineage adorn set_policy set_boot].
  destruct (is_ok (fence_validate _)) eqn:E1; cbn [negb].
  2: { intros [= _ E]. by rewrite E in E1. }
  destruct (is_ok (lineage_validate _)) eqn:E2; cbn [negb].
  2: { intros [= _ E]. by rewrite E in E2. }
  cbv zeta. rewrite Hst. intros E. apply (f_equal fst) in E. cbn [fst] in E. rewrite <-E. by destruct s.
Qed.

Lemma rebuild_follows a s t : Snapshot.durable s → follows a s t → is_ok (policy_validate a) = true →
  ∃ t', rebuild t = (t', status_ok) ∧ agree s t' ∧ counters_above t'.
Proof.
  intros Hs [E Hp] Ha. apply agree_alike in E.
  destruct (rebuild_alike s _ Hs E) as (u & Eu & Hu & Hc).
  assert (Hv : is_ok (policy_validate (rs_policy t)) = true).
  { destruct Hp as [->| ->]; [done|]. by rewrite (proj2 (du_policy _ Hs)). }
  exists (adorn (rs_policy t) (rs_boot t) u). split; [by eapply rebuild_adorn|]. split; [|exact Hc].
  exact (alike_agree _ _ Hu).
Qed.

Lemma audit_policy_ok store : is_ok (policy_validate (rc_policy (audit_config store))) = true.
Proof. by vm_compute. Qed.

Lemma audit_blank_ok store : store ≠ [] → (audit_blank store).2 = status_ok.
Proof.
  intros Hs. unfold audit_blank, initialise. destruct store as [|c store]; [done|].
  by vm_compute.
Qed.

Lemma audit_blank_policy store : store ≠ [] →
  rs_policy (audit_blank store).1 = rc_policy (audit_config store).
Proof. intros Hs. destruct store as [|c store]; [done|]. by vm_compute. Qed.

(** A configuration a service can start with. *)
Definition startable (config : RegistryConfig) (f : FabricStore) : bool :=
  is_ok (initialise (set_fabric f registry0) config (mkStepClock 0)
    (mkBoot 0 0 (rc_node config) 0 0 false false 0)).2.

Lemma blank_agree config f : startable config f = true →
  agree (blank config f) (audit_blank (rc_store_id config)).1.
Proof.
  unfold startable, blank, audit_blank, initialise. change (rc_store_id (audit_config ?s)) with s.
  destruct (id_empty (rc_store_id config)); [done|]. destruct (id_empty (rc_node config)); [done|].
  cbn [orb]. destruct (is_ok (policy_validate (rc_policy config))) eqn:Ep; cbn [negb].
  2: { cbn [snd]. congruence. }
  destruct (_ || _); [done|]. intros _. by rewrite audit_policy_ok.
Qed.

Lemma startable_fabric config f f' : startable config f = startable config f'.
Proof. unfold startable, initialise. by repeat case_match. Qed.

Lemma opens_startable config d m : opens config d m → startable config fabric0 = true.
Proof.
  intros (oc & m0 & E0 & Ep & _ & _ & E & Hm). revert E. unfold service_open.
  destruct (is_ok (oc_net oc)) eqn:E1; cbn [negb]; [|intros [= _ Eo]; by rewrite Eo in E1].
  destruct (is_ok (oc_directory oc)) eqn:E2; cbn [negb]; [|intros [= _ Eo]; by rewrite Eo in E2].
  destruct (store_open _ _ _ _) as [d' [[store report]|st]].
  2: { intros [= E _]. subst m. cbn in Hm. congruence. }
  cbn [nd_fabric nd_state set_config set_recovery set_journal].
  destruct (fabric_open _ _ _ _ _) as [f [[fabric rep]|]].
  2: { intros [= E _]. subst m. cbn in Hm. congruence. }
  rewrite E0, (startable_fabric config fabric0 fabric). unfold startable.
  destruct (initialise _ _ _ _) as [s st2]. cbn [snd].
  destruct (is_ok st2); cbn [negb]; [done|]. intros [= E _]. subst m. cbn in Hm. congruence.
Qed.

Lemma lives_startable config n : lives config n → startable config fabric0 = true.
Proof. induction 1; [by eapply opens_startable|done|done|done|by eapply opens_startable]. Qed.

(** Over the files of a node that carries its state. *)
Lemma audit_replay_agrees n : Recovery.carries n → Recovery.fits n → Snapshot.durable (nd_state n) →
  startable (nd_config n) fabric0 = true →
  ∃ s, audit_replay (crashed n []) (audit_blank (rc_store_id (nd_config n))).1 = inr s ∧
    agree (nd_state n) s ∧ counters_above s.
Proof.
  intros Hn [_ Hroom] Hs Hstart. set (t0 := (audit_blank _).1).
  destruct Hn as [base qs covers from (Hd & Ho) (Hi1 & Hi2 & Hi3) Hsq Hl Hc (s1 & Hv & Ha)].
  pose proof Hd as [cov Hhd Hj Hcont Hwf Hbc Hcov Hlast Hbound].
  assert (Hj0 : dk_journal (crashed n []) = Some (log_of (encode_record <$> qs))).
  { cbn [crashed dk_journal]. rewrite Hj. cbn [default from_option]. unfold id. by rewrite app_nil_r. }
  assert (Hsz : zlen (log_of (encode_record <$> qs)) <= kMaxFabricStoreBytes).
  { unfold journal_size in Hroom. by rewrite Hj in Hroom. }
  set (a := rc_policy (audit_config (rc_store_id (nd_config n)))).
  (* what is replayed over a state that agrees with the snapshot's *)
  assert (Hreplay : ∀ t, follows a from t → ∃ s,
    (let (s, st) := store_replay (replay_visitor covers) (crashed n []) t in
     if negb (is_ok st) then inl (str "journal rejected: " ++ status_to_string st)
     else let (s, st) := rebuild s in
       if negb (is_ok st) then inl (str "state rebuild failed: " ++ status_to_string st) else inr s) = inr s ∧
    agree (nd_state n) s ∧ counters_above s).
  { intros t Ft. rewrite (replay_exact _ (crashed n []) qs) by done.
    destruct (visit_related (follows a) (replay_visitor covers) qs (follows_visitor a covers) from t Ft)
      as [Hr1 Hr2]. rewrite Hv in Hr1, Hr2. cbn [fst snd] in Hr1, Hr2.
    destruct (visit_all (replay_visitor covers) qs t) as [t2 st2]. cbn [fst snd] in Hr1, Hr2. subst st2.
    change (is_ok status_ok) with true. cbn [negb].
    assert (F2 : follows a (nd_state n) t2).
    { destruct Hr1 as [E Hp]. split; [by rewrite <-(alike_agree _ _ Ha)|].
      assert (rs_policy (nd_state n) = rs_policy s1) as ->; [|done].
      symmetry. exact (f_equal rs_policy Ha). }
    destruct (rebuild_follows a _ _ Hs F2 (audit_policy_ok _)) as (s & -> & ? & ?).
    exists s. done. }
  destruct (Hl fabric0) as (s0 & cv & Eload & Hcv & H0); [by split; constructor|].
  unfold audit_replay. assert (Es : load_snapshot (crashed n []) = load_snapshot (nd_disk n)) by done.
  rewrite Es. unfold load_state in Eload. destruct (load_snapshot (nd_disk n)) as [[blob header]|].
  - destruct (deserialize _ blob) as [s0' st] eqn:Ed. destruct (is_ok st) eqn:Eok; cbn [negb] in Eload; [|done].
    destruct (negb (eqb _ _)); [done|]. injection Eload as -> <-. cbn [default from_option] in Hcv.
    unfold id in Hcv. rewrite Hcv.
    destruct (deserialize_alike _ t0 _ _ _ Ed Eok) as (t1 & -> & Et). rewrite Eok. cbn [negb].
    apply Hreplay. rewrite Et in H0. split; [by apply alike_agree|]. right. symmetry.
    exact (f_equal rs_policy H0).
  - injection Eload as <- <-. cbn [default from_option] in Hcv. rewrite <-Hcv in Hreplay.
    apply Hreplay. split.
    + rewrite (alike_agree _ _ H0). by apply blank_agree.
    + left. apply audit_blank_policy. rewrite <-Hi1. by destruct Hi2.
Qed.

(** ** The records the auditor reads *)

(** The header file of a store's effect boundary. *)
Definition fabric_header (id : StoreId) : bytes := encode_store_header (mkHeader id 1 0).

Lemma fabric_header_opens id options d : id_valid id → fd_header d = Some (fabric_header id) →
  open_header open_done id options (mkDisk (fd_header d) None None) =
  (mkDisk (fd_header d) None None, Ret false).
Proof.
  intros Hid ->. unfold open_header. cbn [dk_header]. unfold read_file_bounded, fabric_header.
  assert (Hw : header_wf (mkHeader id 1 0)) by (split; [done|repeat constructor; unfold is_u64; simpl; lia]).
  pose proof (zlen_store_header _ Hw). destruct (Z.ltb_spec 4096 (zlen (encode_store_header (mkHeader id 1 0)))); [lia|].
  rewrite decode_encode_store_header by done. cbn [sh_store_id]. by rewrite eqb_refl.
Qed.

Lemma fabric_opens store f log report : id_valid store → fabric_reach store f log →
  let d := mkFabricDisk (Some (fabric_header store)) (Some log) in
  ∃ f' report', fabric_open open_done store audit_options report d = (d, Ret (f', report')) ∧
    fb_records f' = fb_records f.
Proof.
  intros Hid (hist & Hi & Hl)%fabric_reach_inv. pose proof Hi as [-> _ Er _ Hn Hw _]. cbv zeta.
  pose proof (history_length hist _ eq_refl).
  destruct (recover_log audit_options report hist []) as (a & torn & Erec & _ & E2 & _); try done;
    [unfold kMaxFabricStoreBytes, u64_max in *; lia|by rewrite app_nil_r|by left|].
  rewrite app_nil_r in Erec. unfold fabric_open. rewrite (id_valid_nonempty _ Hid).
  cbn [oi_directory open_done fd_log]. rewrite (fabric_header_opens store) by done. rewrite Erec.
  cbn [oi_journal open_done fd_header dk_header default from_option]. unfold id.
  eexists _, _. split; [reflexivity|]. cbn [fb_records]. by rewrite E2, Er.
Qed.

(** Two record loops that agree record by record agree to the end. *)
Lemma scan_related {A B} (R : A → B → Prop) (f : bytes → A → A * Status) (g : bytes → B → B * Status) :
  (∀ p a b, R a b → R (f p a).1 (g p b).1 ∧ (f p a).2 = (g p b).2) →
  ∀ fuel off rest a b, R a b →
    R (scan_log f fuel off rest a).1.1 (scan_log g fuel off rest b).1.1 ∧
    (scan_log f fuel off rest a).2 = (scan_log g fuel off rest b).2.
Proof.
  intros Hfg. induction fuel as [|fuel IH]; intros off rest a b HR; [done|]. cbn [scan_log].
  destruct rest as [|c rest]; [done|]. destruct (_ <? _); [done|]. destruct (_ || _); [done|].
  destruct (_ <? _); [done|]. destruct (negb _); [done|]. cbv zeta.
  match goal with |- context [f ?p a] => destruct (Hfg p a b HR) as [H1 H2];
    destruct (f p a) as [a' st], (g p b) as [b' st'] end.
  cbn [fst snd] in H1, H2. subst st'. destruct (negb _); [done|]. by apply IH.
Qed.

Definition collect (m : MutationRecord) (l : list MutationRecord) : list MutationRecord * Status :=
  (l ++ [m], status_ok).

(** Numbered from 1, in 64 bits. *)
Definition sequenced (l : list MutationRecord) : Prop :=
  ∀ i m, l !! i = Some m → mr_sequence m = u64 (Z.of_nat i + 1).

Definition scopes_bounded (l : list MutationRecord) : Prop :=
  Forall (λ m, zlen (mr_scope m) <= kMaxExtentsPerScope) l.

(** What recovery has gathered, as [load] gathers it. *)
Definition gathers (a : FabricScan) (b : Z * list MutationRecord) : Prop :=
  fs_expected a = b.1 ∧ fs_records a = b.2 ∧ scopes_bounded b.2 ∧
  b.1 = u64 (zlen b.2 + 1) ∧ sequenced b.2.

Lemma sequenced_numbered l : sequenced l → zlen l < u64_max → numbered 0 l.
Proof.
  intros Hs Hb. enough (G : ∀ n k, (∀ i m, k !! i = Some m → mr_sequence m = n + Z.of_nat i + 1) → numbered n k).
  { apply G. intros i m Hi. rewrite (Hs i m Hi). apply lookup_lt_Some in Hi.
    rewrite u64_id; [lia|]. unfold is_u64, u64_max, zlen in *. lia. }
  intros n k. revert n. induction k as [|m k IH]; intros n Hk; [done|]. split.
  - rewrite (Hk 0%nat m eq_refl). lia.
  - apply IH. intros i x Hi. rewrite (Hk (S i) x Hi). lia.
Qed.

Lemma scope_bound : ∀ r s r', r_scope r = Ret (s, r') → zlen s <= kMaxExtentsPerScope.
Proof.
  intros r s r'. unfold r_scope. destruct (r_sequence _ _ r) as [[l r1]|]; [|done].
  destruct l as [|e l]; [intros [= <- _]; by vm_compute|].
  destruct (scope_make (e :: l)) as [s1|] eqn:E; [|done]. intros [= <- _].
  by apply scope_make_ok in E as (_ & ? & _).
Qed.

Lemma mutation_scope_bound payload m : decode_all r_mutation payload = Ret m →
  zlen (mr_scope m) <= kMaxExtentsPerScope.
Proof.
  unfold decode_all. destruct (r_mutation _) as [[x r]|] eqn:E; [|done].
  destruct (finish r); [|done]. intros [= <-]. revert E. unfold r_mutation.
  repeat lazymatch goal with
  | |- match r_nested r_scope ?r with Ret _ => _ | Err _ => _ end = _ → _ =>
      let E := fresh "Hsc" in destruct (r_nested r_scope r) as [[? ?]|] eqn:E; [|done]
  | |- match ?d ?r with Ret _ => _ | Err _ => _ end = _ → _ => destruct (d r) as [[? ?]|]; [|done]
  | |- (if ?c then _ else _) = _ → _ => destruct c; [done|]
  end.
  intros [= <- _]. cbn [mr_scope]. revert Hsc. unfold r_nested.
  destruct (r_blob _) as [[b ?]|]; [|done]. destruct (decode_all r_scope b) as [sc|] eqn:Ed; [|done].
  intros [= <- _]. revert Ed. unfold decode_all. destruct (r_scope _) as [[s2 r']|] eqn:Es; [|done].
  destruct (finish r'); [|done]. intros [= <-]. by eapply scope_bound.
Qed.

Lemma gathers_step p a b : gathers a b →
  gathers (fabric_step p a).1 (load_record collect p b).1 ∧
  (fabric_step p a).2 = (load_record collect p b).2.
Proof.
  intros (E1 & E2 & Hb & E3 & Hs). unfold fabric_step, load_record.
  destruct (decode_all r_mutation p) as [m|st] eqn:Em; [|done]. rewrite E1.
  destruct (Z.eqb_spec (mr_sequence m) b.1) as [Eq|]; cbn [negb]; [|done].
  cbn [fst snd collect]. split; [|done]. unfold gathers. cbn [fs_records fs_expected fst snd].
  split; [done|]. split; [by rewrite E2|]. split; [|split].
  - apply Forall_app. split; [done|]. apply Forall_singleton. by eapply mutation_scope_bound.
  - rewrite Eq, E3, zlen_app. change (zlen [m]) with 1. unfold u64. by rewrite Zplus_mod_idemp_l.
  - intros i x [Hi|[Hi Hx]]%lookup_app_Some; [by apply Hs|].
    destruct (i - length b.2)%nat as [|j] eqn:Ej; [|done]. injection Hx as <-.
    rewrite Eq, E3. f_equal. unfold zlen. lia.
Qed.

(** A loop takes at most one record per unit of fuel. *)
Lemma scan_count {A} (f : bytes → A → A * Status) (size : A → Z) :
  (∀ p a, size a <= size (f p a).1 <= size a + 1) →
  ∀ fuel off rest a, size (scan_log f fuel off rest a).1.1 <= size a + Z.of_nat fuel.
Proof.
  intros Hf. induction fuel as [|fuel IH]; intros off rest a; [simpl; lia|]. cbn [scan_log].
  destruct rest as [|c rest]; [simpl; lia|]. destruct (_ <? _); [simpl; lia|].
  destruct (_ || _); [simpl; lia|]. destruct (_ <? _); [simpl; lia|].
  destruct (negb _); [simpl; lia|]. cbv zeta.
  match goal with |- context [f ?p a] => pose proof (Hf p a) as H; destruct (f p a) as [a' st] end.
  cbn [fst] in H. destruct (negb _); [cbn [fst]; lia|].
  etrans; [apply IH|]. lia.
Qed.

Lemma load_count fuel off rest : zlen (scan_log (load_record collect) fuel off rest (1, [])).1.1.2 <= Z.of_nat fuel.
Proof.
  apply (scan_count (load_record collect) (λ b, zlen b.2)). intros p b. unfold load_record.
  destruct (decode_all _ _); [|cbn [fst snd]; lia]. destruct (negb _); [cbn [fst snd]; lia|].
  cbn [fst snd collect]. rewrite zlen_app. change (zlen [_]) with 1. lia.
Qed.

(** A boundary that opens has read the whole log, and retains its end. *)
Lemma opened_log io store options report d d' f report' :
  fabric_open io store options report d = (d', Ret (f, report')) →
  ∃ hist, fabric_load collect (fd_log d) [] = (hist, status_ok) ∧ fb_records f = retain hist ∧
    scopes_bounded hist ∧ numbered 0 hist.
Proof.
  unfold fabric_open. destruct (id_empty store); [done|]. destruct (oi_directory io); [done|].
  destruct (open_header _ _ _ _) as [h [created|]]; [|done].
  destruct (fabric_recover _ _ _ _) as [log [[a torn]|]] eqn:Er; [|done].
  destruct (oi_journal io); [done|]. intros [= _ <- _]. cbn [fb_records].
  enough (G : ∃ b, gathers a b ∧ zlen b.2 < u64_max ∧ fabric_load collect (fd_log d) [] = (b.2, status_ok)).
  { destruct G as (b & (_ & E2 & Hb & _ & Hs) & Hl & El). exists b.2. rewrite E2.
    split; [done|]. split; [done|]. split; [done|]. by apply sequenced_numbered. }
  revert Er. unfold fabric_recover, fabric_load. destruct (fd_log d) as [l|].
  2: { intros [= _ <- _]. exists (1, []). split; [|by vm_compute]. by split_and!; try constructor. }
  unfold read_file_bounded. destruct (Z.ltb_spec kMaxFabricStoreBytes (zlen l)) as [|Hlen]; [done|].
  rename l into data. unfold scan.
  set (start := mkFabricScan _ _ _ _ _ _ _). assert (G0 : gathers start (1, [])) by (by split_and!; try constructor).
  pose proof (scan_related gathers fabric_step (load_record collect) gathers_step (S (length data)) 0
    data start (1, []) G0) as [H1 H2].
  pose proof (load_count (S (length data)) 0 data) as Hcount.
  destruct (scan_log fabric_step _ _ _ _) as [[a' off] e].
  destruct (scan_log (load_record collect) _ _ _ _) as [[b off'] e']. cbn [fst snd] in H1, H2, Hcount. subst e'.
  assert (Hb : zlen b.2 < u64_max) by (unfold zlen, kMaxFabricStoreBytes, u64_max in *; lia).
  destruct e; cbv zeta.
  - destruct (rp_torn report); [destruct (oi_truncate io); [done|]|]; intros [= _ <- _]; by exists b.
  - destruct (negb _); [done|]. destruct (oi_truncate io); [done|]. intros [= _ <- _]. by exists b.
  - done.
  - done.
Qed.

(** ** The verdict on a log *)

Lemma scan_cost_bound l : scopes_bounded l → scan_cost l <= 518 * zlen l.
Proof.
  induction 1 as [|m l Hm _ IH]; [done|]. rewrite zlen_cons.
  change (record_cost m + scan_cost l <= 518 * (1 + zlen l)).
  unfold record_cost, kMaxExtentsPerScope in *. lia.
Qed.

Lemma retain_cost hist : scopes_bounded hist → scan_cost (retain hist) < u64_max.
Proof.
  intros Hb. pose proof (zlen_nonneg hist).
  assert (Hr : scopes_bounded (retain hist) ∧ zlen (retain hist) <= kMaxSnapshotRecords).
  { unfold retain. destruct (Z.ltb_spec kMaxSnapshotRecords (zlen hist)); [|split; [done|lia]].
    split; [by apply Forall_drop|]. rewrite zlen_drop. unfold kMaxSnapshotRecords in *. lia. }
  destruct Hr as [H1 H2]. pose proof (scan_cost_bound _ H1).
  unfold kMaxSnapshotRecords, u64_max in *. lia.
Qed.

(** The window of a longer history does not begin at 1. *)
Lemma retain_numbered hist : numbered 0 hist →
  numbered 0 (retain hist) ↔ zlen hist <= kMaxSnapshotRecords.
Proof.
  intros Hn. unfold retain. set (k := kMaxSnapshotRecords). assert (0 < k) by (unfold k, kMaxSnapshotRecords; lia).
  destruct (Z.ltb_spec k (zlen hist)) as [L|L]; [|tauto]. split; [|lia]. intros Hd. exfalso.
  set (n := Z.to_nat (zlen hist - k)) in *. assert (Hlen : (0 < n < length hist)%nat) by (unfold n, zlen in *; lia).
  rewrite <-(take_drop n hist) in Hn. apply numbered_app in Hn as [_ Hn].
  destruct (drop n hist) as [|m tl] eqn:E; [apply (f_equal length) in E; rewrite length_drop in E; simpl in E; lia|].
  destruct Hn as [H1 _], Hd as [H2 _]. rewrite H1 in H2. unfold zlen in H2. rewrite length_take in H2.
  clearbody n. lia.
Qed.

(** The flag over an opened boundary: the whole log is retained, a linear
    succession of owners, and no extent changes hands to a lower epoch. *)
Lemma opened_verdict io store options report d d' f report' :
  fabric_open io store options report d = (d', Ret (f, report')) →
  ∃ hist, fabric_load collect (fd_log d) [] = (hist, status_ok) ∧ numbered 0 hist ∧
    fb_records f = retain hist ∧
    (au_exclusive (audit_fabric_history (fb_records f)) = true ↔
     zlen hist <= kMaxSnapshotRecords ∧ history_ok (retain hist) ∧
     ∀ e k1 p m k2, writers e (retain hist) = k1 ++ p :: m :: k2 →
       mr_incarnation p ≠ mr_incarnation m → mr_epoch p <= mr_epoch m).
Proof.
  intros (hist & El & Er & Hb & Hn)%opened_log. exists hist. split; [done|]. split; [done|].
  split; [done|]. rewrite Er, history_verdict by by apply retain_cost.
  by rewrite retain_numbered.
Qed.

(** An audit that gets as far as a verdict has opened the boundary. *)
Lemma audit_open_fabric sio fio store d f d' f' a :
  audit_open sio fio store d f = (d', f', inr a) →
  ∃ report report', fabric_open fio store audit_options report f = (f', Ret (an_fabric a, report')).
Proof.
  unfold audit_open. destruct (store_open _ _ _ _) as [d1 [[s report]|]]; [|done].
  destruct (audit_blank store) as [t st]. destruct (negb _); [done|].
  destruct (audit_replay d1 t) as [|t1]; [done|].
  destruct (fabric_open _ _ _ _ _) as [f1 [[fabric report']|]] eqn:E; [|done].
  intros [= _ <- <-]. by exists report, report'.
Qed.

Lemma audit_exit sio fio o files files' code out :
  cmd_audit sio fio o files = (files', Exits code out) →
  let dir := str_of o (str "dir") (str "sbf-registry-state") in
  ∃ store d f a, audit_open sio fio store (files dir).1 (files dir).2 = (d, f, inr a) ∧
    code = if audit_passes (audit_registry_state (an_state a))
             (audit_fabric_history (fb_records (an_fabric a))) then 0 else 1.
Proof.
  unfold cmd_audit. cbv zeta. destruct (id_try_make _) as [store|]; [|done].
  destruct (audit_open _ _ _ _ _) as [[d f] [e|a]] eqn:E; [done|].
  unfold audit_verdict. intros [= _ <- _]. by exists store, d, f, a.
Qed.

Module Offline.


(** C22: Exit code 0 can be trusted.  Whatever is in the directory and whatever the
    system does, when [sbfctl audit] exits with 0 the effect log - the whole of
    it, not the part kept in memory - reads from end to end, is numbered from 1
    without a gap, is a linear succession of owners in which no two incarnations
    share a token, and never hands an extent to a lower epoch. *)
Theorem audit_certifies (sio fio : OpenIo) (o : list (bytes * bytes)) (files files' : Files) (out : bytes) :
  cmd_audit sio fio o files = (files', Exits 0 out) →
  let dir := str_of o (str "dir") (str "sbf-registry-state") in
  ∃ hist, fabric_load collect (fd_log (files dir).2) [] = (hist, status_ok) ∧
    numbered 0 hist ∧ history_ok hist ∧
    ∀ e k1 p m k2, writers e hist = k1 ++ p :: m :: k2 → mr_incarnation p ≠ mr_incarnation m →
      mr_epoch p <= mr_epoch m.
Proof.
  intros H. cbv zeta. destruct (audit_exit _ _ _ _ _ _ _ H) as (store & d & f & a & E & Hc).
  destruct (audit_open_fabric _ _ _ _ _ _ _ _ E) as (report & report' & Ef).
  destruct (opened_verdict _ _ _ _ _ _ _ _ Ef) as (hist & El & Hn & _ & Hv).
  exists hist. split; [done|]. split; [done|].
  destruct (audit_passes _ _) eqn:Hp; [|done]. unfold audit_passes in Hp.
  apply andb_true_iff in Hp as [_ Hp]. apply Hv in Hp as (Hle & Hh & He).
  assert (Er : retain hist = hist) by (unfold retain; by destruct (Z.ltb_spec kMaxSnapshotRecords (zlen hist)); [lia|]).
  by rewrite Er in Hh, He.
Qed.

(** The converse fails on long histories: past the 200000 records the boundary
    keeps in memory the audit of a log of any run exits with 1. *)
Theorem long_history_alarm (sio fio : OpenIo) (o : list (bytes * bytes)) (files files' : Files)
    (code : Z) (out : bytes) (hist : list MutationRecord) :
  cmd_audit sio fio o files = (files', Exits code out) →
  let dir := str_of o (str "dir") (str "sbf-registry-state") in
  fabric_load collect (fd_log (files dir).2) [] = (hist, status_ok) →
  kMaxSnapshotRecords < zlen hist → code = 1.
Proof.
  intros H. cbv zeta. intros Hl Hlong. destruct (audit_exit _ _ _ _ _ _ _ H) as (store & d & f & a & E & ->).
  destruct (audit_open_fabric _ _ _ _ _ _ _ _ E) as (report & report' & Ef).
  destruct (opened_verdict _ _ _ _ _ _ _ _ Ef) as (hist' & El & _ & _ & Hv).
  rewrite Hl in El. injection El as <-. unfold audit_passes.
  destruct (au_exclusive _); [exfalso; destruct Hv as [Hv _]; specialize (Hv eq_refl); lia|].
  by rewrite andb_false_r.
Qed.

End Offline.

(** ** Two audits *)

(** The effect boundary's files after one mutation, and before any. *)
Definition demo_effects (log : bytes) : FabricDisk :=
  mkFabricDisk (Some (fabric_header (str "store"))) (Some log).


(** [sbfctl audit --store store] over that crash and one mutation. *)
Definition demo_files : Files :=
  λ _, (crashed Recoveries.defined_node Recoveries.cut, demo_effects Effects.demo_log).
Definition demo_audit : Files * Exit :=
  cmd_audit open_done open_done [(str "store", str "store")] demo_files.

Lemma demo_audit_ok : ∃ out, demo_audit.2 = Exits 0 out.
Proof.
  assert (H : match demo_audit.2 with Exits 0 _ => true | _ => false end = true) by (vm_compute; reflexivity).
  destruct demo_audit.2 as [m|code out]; [discriminate H|].
  destruct code; [by exists out|discriminate H..].
Qed.

Lemma audit_certifies_witness :
  ∃ hist, fabric_load collect (Some Effects.demo_log) [] = (hist, status_ok) ∧ history_ok hist.
Proof.
  destruct demo_audit_ok as [out E].
  destruct (Offline.audit_certifies open_done open_done [(str "store", str "store")] demo_files
    demo_audit.1 out) as (hist & El & _ & Hh & _).
  { rewrite <-E. unfold demo_audit. apply surjective_pairing. }
  exists hist. split; [exact El|exact Hh].
Defined.
