(* ===== verification/Policy.v ===== *)
(** * The policy a registry decides under

    [RegistryService::open] of [src/registry_service.cpp] gives the state the policy
    of its configuration, then the one of the snapshot it finds, then that of every
    policy record of the journal after it.  Here: that nothing else decides it. *)
From S2P Require Import Prelude Order SortedVec Status Ids Text Digest Canonical Scope.
From S2P Require Import Fence Lineage Evidence Arbiter Codec Readers Wire Messages Journal Fabric.
From S2P Require Import Registry Replay Snapshot Service Sessions Recovery.
Open Scope Z_scope.

#[local] Opaque Digest256_of crc32c.

(** ** What a directory says *)

(** The records of the journal, in order. *)
Definition records_on (d : Disk) : list JournalRecord :=
  (store_replay (λ r l, (l ++ [r], status_ok)) d []).1.

(** The snapshot of the directory and the sequence it covers. *)
Definition snapshot_in (d : Disk) : option (Snapshot * Sequence) :=
  match load_snapshot d with
  | Err _ => None
  | Ret (blob, header) =>
      match decode_all r_state (take (Z.to_nat (zlen blob - 32)) blob) with
      | Err _ => None
      | Ret n => Some (n, sn_covers header)
      end
  end.

Definition policy_step (covers : Sequence) (p : ArbiterPolicy) (r : JournalRecord) : ArbiterPolicy :=
  if jr_sequence r <=? covers then p
  else match jr_kind r with
       | KPolicyDefine => match decode_all r_policy (jr_payload r) with Ret q => q | Err _ => p end
       | _ => p
       end.

(** The configuration's policy, unless the snapshot holds another; then the last
    one the journal defines. *)
Definition policy_kept (configured : ArbiterPolicy) (d : Disk) : ArbiterPolicy :=
  match snapshot_in d with
  | None => foldl (policy_step 0) configured (records_on d)
  | Some (n, covers) => foldl (policy_step covers) (sn_policy n) (records_on d)
  end.

(** With no policy record in the journal the snapshot decides. *)
Lemma policy_steps covers p l : (∀ r, r ∈ l → jr_kind r ≠ KPolicyDefine) →
  foldl (policy_step covers) p l = p.
Proof.
  induction l as [|r l IH]; intros H; [done|]. cbn [foldl].
  assert (E : policy_step covers p r = p).
  { unfold policy_step. destruct (_ <=? _); [done|]. specialize (H r ltac:(left)).
    by destruct (jr_kind r). }
  rewrite E. apply IH. intros x Hx. apply H. by right.
Qed.

(** ** What leaves the policy alone *)

Lemma remember_policy scope s : rs_policy (remember_scope scope s) = rs_policy s.
Proof. unfold remember_scope. repeat case_match; done. Qed.

Lemma remember_all_policy l s : rs_policy (remember_all l s) = rs_policy s.
Proof.
  revert s. induction l as [|x l IH]; intros s; [done|]. unfold remember_all. cbn [foldl].
  etrans; [apply IH|apply remember_policy].
Qed.

Lemma rebuild_policy s : rs_policy (rebuild s).1 = rs_policy s.
Proof. unfold rebuild. destruct (negb _); [done|]. by destruct (negb _). Qed.

Lemma kind_policy r s : jr_kind r ≠ KPolicyDefine → rs_policy (apply_kind r s).1 = rs_policy s.
Proof.
  intros H. unfold apply_kind, with_payload. cbv zeta.
  destruct (jr_kind r); try done; destruct (decode_all _ _) as [x|]; try done;
    unfold apply_boot_begin, apply_boot_end, apply_domain, apply_grant_open, apply_grant_close,
      apply_fence, apply_adopt, apply_incarnation; cbv zeta; repeat case_match; try done; cbn [fst];
    try (by rewrite remember_policy).
  all: match goal with |- rs_policy (set_fences _ (remember_scope ?sc ?s)) = _ =>
         change (rs_policy (remember_scope sc s) = rs_policy s); by rewrite remember_policy end.
Qed.

Lemma observe_policy r s : rs_policy (observe r s) = rs_policy s.
Proof. unfold observe. cbv zeta. by case_match. Qed.

(** An accepted record changes the policy as [policy_step] does. *)
Lemma visitor_policy covers r s : is_ok (replay_visitor covers r s).2 = true →
  rs_policy (replay_visitor covers r s).1 = policy_step covers (rs_policy s) r.
Proof.
  unfold replay_visitor, policy_step. destruct (_ <=? _); [done|]. unfold apply.
  destruct (negb _); [done|]. destruct (_ <? _); [done|].
  rewrite <-(observe_policy r s). generalize (observe r s). intros t.
  destruct (decide (jr_kind r = KPolicyDefine)) as [E|E].
  - unfold apply_kind, with_payload. rewrite E. by destruct (decode_all _ _).
  - rewrite kind_policy by done. by destruct (jr_kind r).
Qed.

(** ** The record loop *)

Definition end_status (e : ScanEnd) : Status := match e with RefusedAt st => st | _ => status_ok end.

(** While the first loop accepts, the second follows it. *)
Lemma scan_followed {A B} (R : A → B → Prop) (f : bytes → A → A * Status) (g : bytes → B → B * Status) :
  (∀ p a b, R a b → is_ok (f p a).2 = true → R (f p a).1 (g p b).1 ∧ is_ok (g p b).2 = true) →
  ∀ fuel off rest a b, R a b → is_ok (end_status (scan_log f fuel off rest a).2) = true →
    R (scan_log f fuel off rest a).1.1 (scan_log g fuel off rest b).1.1.
Proof.
  intros Hfg. induction fuel as [|fuel IH]; intros off rest a b HR; [done|]. cbn [scan_log].
  destruct rest as [|c rest]; [done|]. destruct (_ <? _); [done|]. destruct (_ || _); [done|].
  destruct (_ <? _); [done|]. destruct (negb _); [done|]. cbv zeta.
  match goal with |- context [f ?p a] => specialize (Hfg p a b HR);
    destruct (f p a) as [a' st], (g p b) as [b' st'] end.
  cbn [fst snd] in Hfg. destruct (is_ok st) eqn:E; cbn [negb]; [|intros H; cbn in H; congruence].
  destruct (Hfg eq_refl) as [HR' ->]. by apply IH.
Qed.

Lemma replay_policy covers d s s' st : store_replay (replay_visitor covers) d s = (s', st) →
  is_ok st = true → rs_policy s' = foldl (policy_step covers) (rs_policy s) (records_on d).
Proof.
  unfold records_on, store_replay. destruct (dk_journal d) as [j|]; [|by intros [= <- _]].
  destruct (read_file_bounded _ _) as [data|e] eqn:Er; [|intros [= <- <-]].
  - unfold scan.
    pose proof (scan_followed (λ x l, rs_policy x = foldl (policy_step covers) (rs_policy s) l)
      (replay_record (replay_visitor covers)) (replay_record (λ r l, (l ++ [r], status_ok)))) as H.
    match goal with |- context [scan_log (replay_record (replay_visitor covers)) ?fuel ?off ?rest s] =>
      specialize (λ Hs, H Hs fuel off rest s []) end.
    destruct (scan_log _ _ _ _ s) as [[x o] e], (scan_log _ _ _ _ []) as [[l o'] e'].
    cbn [fst snd] in *. intros [= <- <-] Hok. apply H; [|done|exact Hok].
    intros p a b Hab. unfold replay_record. destruct (decode_record p) as [r|]; [|done].
    intros Hv. cbn [fst snd]. rewrite visitor_policy by done. rewrite foldl_app. cbn [foldl].
    by rewrite Hab.
  - intros Hok. exfalso. revert Er Hok. unfold read_file_bounded.
    destruct (_ <? _); [|done]. by intros [= <-].
Qed.

(** ** [open] *)

Lemma restore_policy n s s' st : restore n s = (s', st) → is_ok st = true → rs_policy s' = sn_policy n.
Proof.
  unfold restore. destruct (fence_import _ _) as [fences|e] eqn:Ef.
  2: { intros [= _ <-] H. apply fence_import_not_ok in Ef. congruence. }
  destruct (lineage_import _ _) as [lineage|e] eqn:El.
  2: { intros [= _ <-] H. apply lineage_import_not_ok in El. congruence. }
  pose proof (rebuild_policy (install n fences lineage s)) as E.
  destruct (rebuild _) as [t st1]. cbn [fst] in E.
  assert (Ei : rs_policy (install n fences lineage s) = sn_policy n)
    by (unfold install; by rewrite remember_all_policy).
  destruct (negb (is_ok st1)); [intros [= <- _] _; congruence|].
  destruct (negb (resolves t)); intros [= <- _] _; congruence.
Qed.

Lemma load_policy config d s s' covers : load_state config d s = (s', Ret covers) →
  match snapshot_in d with
  | None => covers = None ∧ s' = s
  | Some (n, c) => covers = Some c ∧ rs_policy s' = sn_policy n
  end.
Proof.
  unfold load_state, snapshot_in. destruct (load_snapshot d) as [[blob header]|]; [|by intros [= <- <-]].
  unfold deserialize. destruct (_ <? _); [done|]. cbv zeta.
  destruct (r_digest _) as [[expected r]|e] eqn:Ed.
  2: { pose proof (honest_digest _ _ Ed) as He. rewrite He. by cbn [negb]. }
  destruct (negb (eqb _ _)); [done|]. destruct (decode_all r_state _) as [n|e] eqn:En.
  2: { assert (He : is_ok e = false) by (eapply honest_all; [apply honest_state|exact En]).
    rewrite He. by cbn [negb]. }
  destruct (restore n s) as [t st] eqn:Er. destruct (is_ok st) eqn:Ok; cbn [negb]; [|done].
  destruct (negb _); [done|]. intros [= <- <-]. split; [done|]. by eapply restore_policy.
Qed.

Lemma recover_policy config d s s' covers : recover_state config d s = (s', Ret covers) →
  rs_policy s' = policy_kept (rs_policy s) d.
Proof.
  unfold recover_state, policy_kept. destruct (load_state config d s) as [t [cv|]] eqn:El; [|done].
  apply load_policy in El. destruct (store_replay _ _ _) as [u st] eqn:Er.
  destruct (is_ok st) eqn:Ok; cbn [negb]; [|done].
  apply replay_policy in Er; [|done]. pose proof (rebuild_policy u) as Eb.
  destruct (rebuild u) as [v st2]. cbn [fst] in Eb. destruct (negb _); [done|]. intros [= <- _].
  rewrite Eb, Er. destruct (snapshot_in d) as [[n c]|]; destruct El as [-> El]; cbn [default from_option];
    unfold id; by rewrite El.
Qed.

Definition policy_in (w : World) : ArbiterPolicy := rs_policy (w_state w).

Lemma emit_policy kind payload status now : kind ≠ KPolicyDefine →
  keeps policy_in (emit kind payload status now).
Proof.
  intros Hk w. unfold emit, policy_in. set (r := mkRecord _ _ _ _ _).
  assert (E : rs_policy (apply r (w_state w)).1 = rs_policy (w_state w)).
  { unfold apply. destruct (negb _); [done|]. destruct (_ <? _); [done|].
    rewrite kind_policy by done. apply observe_policy. }
  destruct (apply r (w_state w)) as [s1 st]. by destruct (is_ok st).
Qed.

(** One construct of an operation that defines no policy. *)
Ltac keeps_policy_step :=
  cbv zeta;
  lazymatch goal with
  | |- ∀ _, _ => intros ?
  | |- keeps _ (_ ≫= _) => apply keeps_bind
  | |- keeps _ (refuse_if _ _) => apply keeps_refuse_if
  | |- keeps _ (emit _ _ _ _) => by apply emit_policy
  | |- keeps _ (if ?c then _ else _) => destruct c
  | |- keeps _ (match ?o with Some _ => _ | None => _ end) => destruct o
  | |- keeps _ (for_each _ _) => apply keeps_for_each
  | |- keeps _ _ => by intros w
  end.

Lemma restart_keeps_policy now : keeps policy_in (recover_after_restart now).
Proof.
  unfold recover_after_restart, end_open_boot, interrupt_grant, fence_scope, close_grant.
  repeat keeps_policy_step.
Qed.

Lemma define_keeps_policy d now : keeps policy_in (define_domain d now).
Proof. unfold define_domain. repeat keeps_policy_step. Qed.

Lemma operate_policy {A} (m : M A) n n' rs r : keeps policy_in m → operate m n = (n', rs, r) →
  rs_policy (nd_state n') = rs_policy (nd_state n).
Proof.
  intros Hm H. destruct (operate_registry _ _ _ _ _ H) as (w & E & -> & _).
  pose proof (Hm (mkWorld (nd_state n) [] (default [] (fd_log (nd_fabric n))))) as K.
  by rewrite E in K.
Qed.

Lemma clock_policy n : rs_policy (nd_state (advance_clock n).1) = rs_policy (nd_state n).
Proof. unfold advance_clock. by destruct (clock_advance _ _). Qed.

Lemma append_policy ca rs n : rs_policy (nd_state (append_records ca rs n).1) = rs_policy (nd_state n).
Proof. by destruct (append_records_journal ca rs n) as (s & d & v & ->). Qed.

Lemma restart_policy ca n : rs_policy (nd_state (restart ca n).1) = rs_policy (nd_state n).
Proof.
  unfold restart. pose proof (clock_policy n) as Hc. destruct (advance_clock n) as [n1 ok].
  cbn [fst] in Hc. destruct ok; cbn [negb]; [|done].
  destruct (operate _ n1) as [[n2 rs] r] eqn:Eo.
  apply operate_policy in Eo; [|apply restart_keeps_policy].
  destruct r as [u|st]; [rewrite append_policy|cbn [fst]]; congruence.
Qed.

Lemma service_define_policy ca d n : rs_policy (nd_state (service_define_domain ca d n).1) = rs_policy (nd_state n).
Proof.
  unfold service_define_domain. pose proof (clock_policy n) as Hc. destruct (advance_clock n) as [n1 ok].
  cbn [fst] in Hc. destruct ok; cbn [negb]; [|done].
  destruct (operate _ n1) as [[n2 rs] r] eqn:Eo.
  apply operate_policy in Eo; [|apply define_keeps_policy].
  destruct r as [u|st]; [rewrite append_policy|cbn [fst]]; congruence.
Qed.

Lemma append_phase ca rs n : nd_phase (append_records ca rs n).1 = nd_phase n.
Proof. by destruct (append_records_journal ca rs n) as (s & d & v & ->). Qed.

Lemma service_define_phase ca d n : nd_phase (service_define_domain ca d n).1 = nd_phase n.
Proof.
  unfold service_define_domain.
  assert (Hc : nd_phase (advance_clock n).1 = nd_phase n)
    by (unfold advance_clock; by destruct (clock_advance _ _)).
  destruct (advance_clock n) as [n1 ok]. cbn [fst] in Hc. destruct ok; cbn [negb]; [|done].
  destruct (operate _ n1) as [[n2 rs] r] eqn:Eo.
  apply operate_registry in Eo as (w & _ & _ & _ & _ & _ & _ & Eo & _).
  destruct r as [u|st]; [rewrite append_phase|cbn [fst]]; congruence.
Qed.

(** ** Every failure is reported *)

Lemma honest_read max file st : read_file_bounded max file = Err st → is_ok st = false.
Proof. destruct file as [data|]; cbn [read_file_bounded]; [destruct (_ <? _); [|done]|]; by intros [= <-]. Qed.

Lemma honest_end r st : finish r = Err st → is_ok st = false.
Proof. unfold finish. destruct (negb _); by intros [= <-]. Qed.

Lemma honest_out {A} (d : reader → result (A * reader)) r st : honest d → d r = Err st → is_ok st = false.
Proof. intros H. apply H. Qed.

(** The next read or guard of a parser that failed. *)
Ltac fault_step :=
  cbv zeta;
  lazymatch goal with
  | |- match ?m with Ret _ => _ | Err _ => _ end = Err _ → _ => destruct m as [?|?] eqn:?
  | |- match ?x with (_, _) => _ end = Err _ → _ => destruct x
  | |- match ?o with Some _ => _ | None => _ end = Err _ → _ => destruct o
  | |- (if ?c then _ else _) = Err _ → _ => destruct c
  | |- Ret _ = Err _ → _ => done
  | |- Err _ = Err _ → _ =>
      intros [= <-];
      first [reflexivity | by eapply honest_end | by eapply honest_read
            | eapply honest_out; [|eassumption]; solve [eauto with honest]]
  end.

Lemma honest_outcome : honest r_outcome.
Proof. by apply honest_enum. Qed.
#[local] Hint Resolve honest_outcome honest_blob : honest.

Lemma honest_record data st : decode_record data = Err st → is_ok st = false.
Proof. unfold decode_record. repeat fault_step. Qed.

Lemma honest_store_header data st : decode_store_header data = Err st → is_ok st = false.
Proof. unfold decode_store_header. repeat fault_step. Qed.

Lemma honest_snapshot_header data st : decode_snapshot_header data = Err st → is_ok st = false.
Proof. unfold decode_snapshot_header. repeat fault_step. Qed.

Lemma honest_mutation : honest r_mutation.
Proof. unfold r_mutation. repeat honest_step. Qed.

Lemma read_u32_nonneg l : 0 <= read_u32 l.
Proof. unfold read_u32. destruct l as [|? [|? [|? [|? ?]]]]; try done. apply le32_range. Qed.

(** The record loop never runs out of turns, and refuses with a failure. *)
Lemma scan_honest {A} (f : bytes → A → A * Status) fuel : ∀ off rest a x o e,
  (length rest < fuel)%nat → scan_log f fuel off rest a = (x, o, e) →
  e ≠ NoFuel ∧ ∀ st, e = RefusedAt st → is_ok st = false.
Proof.
  induction fuel as [|fuel IH]; intros off rest a x o e Hl; [lia|]. cbn [scan_log].
  destruct rest as [|c rest]; [by intros [= _ _ <-]|].
  destruct (zlen (c :: rest) <? _); [by intros [= _ _ <-]|].
  destruct (_ || _) eqn:Eb; [intros [= _ _ <-]; split; [done|intros st [= <-]]; done|].
  destruct (zlen (c :: rest) - _ <? _); [intros H; by injection H as _ _ <-|].
  destruct (negb _); [intros [= _ _ <-]; split; [done|intros st [= <-]]; done|].
  cbv zeta. destruct (f _ a) as [a' st'] eqn:Ef. destruct (is_ok st') eqn:Eok; cbn [negb].
  - apply IH. rewrite length_drop. cbn [length] in *. apply orb_false_iff in Eb as [Eb _].
    apply Z.eqb_neq in Eb. pose proof (read_u32_nonneg (c :: rest)). unfold kRecordPrefixBytes. lia.
  - intros [= _ _ <-]. split; [done|]. intros st [= <-]. done.
Qed.

Lemma scan_ends {A} (f : bytes → A → A * Status) data a x o e : scan f data a = (x, o, e) →
  e ≠ NoFuel ∧ ∀ st, e = RefusedAt st → is_ok st = false.
Proof. apply scan_honest. lia. Qed.

(** The directory calls fail with a failure. *)
Definition reports_faults (io : OpenIo) : Prop := ∀ st, oi_directory io = Some st → is_ok st = false.

Lemma open_header_fails io id options d d' st : open_header io id options d = (d', Err st) → is_ok st = false.
Proof.
  unfold open_header. destruct (dk_header d) as [h|].
  - intros H. apply (f_equal snd) in H. cbn [snd] in H. revert H.
    destruct (read_file_bounded _ _) as [b|] eqn:Er.
    2: { intros [= <-]. by eapply honest_read. }
    destruct (decode_store_header b) as [x|] eqn:Ed; [|intros [= <-]; by eapply honest_store_header].
    by destruct (negb _); intros [= <-].
  - destruct (negb _); [by intros [= _ <-]|]. destruct (oi_header io); by intros [= _ <-].
Qed.

Lemma open_snapshot_fails id d st : open_snapshot id d = Err st → is_ok st = false.
Proof.
  unfold open_snapshot. destruct (dk_snapshot d); [|done].
  destruct (read_file_bounded _ _) as [b|] eqn:Er; [|intros [= <-]; by eapply honest_read].
  destruct (decode_snapshot_header b) as [[h c]|] eqn:Ed; [|intros [= <-]; by eapply honest_snapshot_header].
  repeat fault_step.
Qed.

Lemma open_journal_fails io options covers j j' st : open_journal io options covers j = (j', Err st) →
  is_ok st = false.
Proof.
  unfold open_journal. destruct j as [j|]; [|done].
  destruct (read_file_bounded _ _) as [b|] eqn:Er; [|intros [= _ <-]; by eapply honest_read].
  destruct (scan _ b _) as [[a g] e] eqn:Es. apply scan_ends in Es as [Hn Hr].
  destruct e as [|torn|e|]; [done| |intros [= _ <-]; by apply Hr|done].
  destruct (negb _); [by intros [= _ <-]|]. destruct (oi_truncate io); by intros [= _ <-].
Qed.

Lemma store_open_fails io id options d d' st : reports_faults io →
  store_open io id options d = (d', Err st) → is_ok st = false.
Proof.
  intros Hio. unfold store_open. destruct (id_empty id); [by intros [= _ <-]|].
  destruct (oi_directory io) as [e|] eqn:Eo; [intros [= _ <-]; by apply Hio|].
  destruct (open_header _ _ _ _) as [d1 [c|e]] eqn:Eh; [|intros [= _ <-]; by eapply open_header_fails].
  destruct (open_snapshot _ _) as [cv|e] eqn:Ec; [|intros [= _ <-]; by eapply open_snapshot_fails].
  destruct (open_journal _ _ _ _) as [j [[a torn]|e]] eqn:Ej;
    [|intros [= _ <-]; by eapply open_journal_fails].
  destruct (oi_journal io); [by intros [= _ <-]|done].
Qed.

Lemma fabric_recover_fails io options report l l' st : fabric_recover io options report l = (l', Err st) →
  is_ok st = false.
Proof.
  unfold fabric_recover. destruct l as [l|]; [|done].
  destruct (read_file_bounded _ _) as [b|] eqn:Er; [|intros [= _ <-]; by eapply honest_read].
  destruct (scan _ b _) as [[a g] e] eqn:Es. apply scan_ends in Es as [Hn Hr]. cbv zeta.
  destruct e as [|torn|e|]; [| |intros [= _ <-]; by apply Hr|done].
  - destruct (rp_torn report); [|done]. destruct (oi_truncate io); by intros [= _ <-].
  - destruct (negb _); [by intros [= _ <-]|]. destruct (oi_truncate io); by intros [= _ <-].
Qed.

Lemma fabric_open_fails io id options report d d' st : reports_faults io →
  fabric_open io id options report d = (d', Err st) → is_ok st = false.
Proof.
  intros Hio. unfold fabric_open. destruct (id_empty id); [by intros [= _ <-]|].
  destruct (oi_directory io) as [e|] eqn:Eo; [intros [= _ <-]; by apply Hio|].
  destruct (open_header _ _ _ _) as [d1 [c|e]] eqn:Eh; [|intros [= _ <-]; by eapply open_header_fails].
  destruct (fabric_recover _ _ _ _) as [j [[a torn]|e]] eqn:Ej;
    [|intros [= _ <-]; by eapply fabric_recover_fails].
  destruct (oi_journal io); [by intros [= _ <-]|done].
Qed.

Lemma recover_fails config d s s' st : recover_state config d s = (s', Err st) → is_ok st = false.
Proof.
  unfold recover_state, load_state. destruct (load_snapshot d) as [[blob h]|e].
  - destruct (deserialize s blob) as [t e]. destruct (is_ok e) eqn:E; cbn [negb]; [|by intros [= _ <-]].
    destruct (negb _); [by intros [= _ <-]|]. destruct (store_replay _ _ _) as [u e1].
    destruct (is_ok e1) eqn:E1; cbn [negb]; [|by intros [= _ <-]]. destruct (rebuild u) as [v e2].
    destruct (is_ok e2) eqn:E2; cbn [negb]; [done|by intros [= _ <-]].
  - destruct (store_replay _ _ _) as [u e1].
    destruct (is_ok e1) eqn:E1; cbn [negb]; [|by intros [= _ <-]]. destruct (rebuild u) as [v e2].
    destruct (is_ok e2) eqn:E2; cbn [negb]; [done|by intros [= _ <-]].
Qed.

Lemma initialise_policy s config clock boot s' st : initialise s config clock boot = (s', st) →
  is_ok st = true → rs_policy s' = rc_policy config.
Proof.
  unfold initialise. destruct (_ || _); [by intros [= _ <-]|]. cbv zeta.
  destruct (is_ok (policy_validate _)) eqn:Ep; cbn [negb]; [|intros [= _ <-]; congruence].
  destruct (_ || _); by intros [= <- <-].
Qed.

(** A service that opened decides under the policy its directory kept. *)
Lemma service_open_policy oc config n n' st : reports_faults (oc_store oc) → reports_faults (oc_fabric oc) →
  service_open oc config n = (n', st) → is_ok st = true →
  nd_phase n' = Ready ∧ ∃ d store report,
    store_open (oc_store oc) (rc_store_id config) service_options (nd_disk n) = (d, Ret (store, report)) ∧
    rs_policy (nd_state n') = policy_kept (rc_policy config) d.
Proof.
  intros Hs Hf. unfold service_open.
  destruct (is_ok (oc_net oc)) eqn:E1; cbn [negb]; [|intros [= _ <-]; congruence].
  destruct (is_ok (oc_directory oc)) eqn:E2; cbn [negb]; [|intros [= _ <-]; congruence].
  cbn [nd_disk set_config].
  destruct (store_open _ _ _ _) as [d [[store report]|e]] eqn:Es.
  2: { intros [= _ <-] H. apply store_open_fails in Es; [congruence|done]. }
  cbn [nd_fabric nd_state nd_disk set_config set_recovery set_journal].
  destruct (fabric_open _ _ _ _ _) as [f [[fabric rep]|e]] eqn:Ef.
  2: { intros [= _ <-] H. apply fabric_open_fails in Ef; [congruence|done]. }
  destruct (initialise _ _ _ _) as [s st2] eqn:Ei. destruct (is_ok st2) eqn:E3; cbn [negb].
  2: { intros [= _ <-]. congruence. }
  cbn [nd_disk set_recovery set_journal set_config].
  destruct (recover_state _ _ _) as [s1 [cv|e]] eqn:Er.
  2: { intros [= _ <-] H. apply recover_fails in Er. congruence. }
  apply recover_policy in Er. match goal with |- context [restart ?ca ?x] =>
    pose proof (restart_policy ca x) as Hr; destruct (restart ca x) as [n1 st3] end. cbn [fst] in Hr.
  destruct (is_ok st3) eqn:E4; cbn [negb]; [|intros [= _ <-]; congruence]. intros [= <- _] _.
  split; [done|]. exists d, store, report. split; [done|]. cbn [nd_state finish_open]. rewrite Hr.
  cbn [nd_state set_registry]. rewrite Er. f_equal. by eapply initialise_policy.
Qed.
