(* ===== verification/Startup.v ===== *)
(** * What a registry serves

    The way of [tools/sbf-registry.cpp] from the command line to its ready line:
    a process that announces itself runs the configuration it was given, decides
    under the policy its directory keeps - the given one only where the directory
    keeps none - and has registered every domain it was asked to define. *)
From S2P Require Import Prelude Order SortedVec Status Ids Text Net Digest Canonical Scope.
From S2P Require Import Fence Lineage Evidence Arbiter Codec Readers Wire Messages Journal Fabric.
From S2P Require Import Registry Replay Snapshot Service Sessions Recovery Witness Auditor.
From S2P Require Import Client Coordinator Cli Tools Policy.
Open Scope Z_scope.

#[local] Opaque Digest256_of crc32c.

(** ** Definitions parsed *)

Lemma parse_fields_valid fields ids : parse_fields fields = Ret ids → Forall id_valid ids.
Proof.
  revert ids. induction fields as [|f fields IH]; intros ids; simpl; [by intros [= <-]|].
  unfold of_option. destruct (id_try_make (trim f)) as [x|] eqn:E; [|done].
  destruct (parse_fields fields) as [l|]; [|done]. intros [= <-].
  apply Forall_cons. split; [by apply id_try_make_Some in E as [<- ?]|by apply IH].
Qed.

Lemma scope_parse_wf text s : scope_parse text = Ret s → scope_wf s.
Proof.
  unfold scope_parse. destruct (split _ _) as [|f l]; [done|]. destruct (_ <? _); [done|].
  destruct (parse_fields (f :: l)) as [ids|] eqn:E; [|done].
  apply parse_fields_valid in E. intros (? & ? & ? & Hp & _)%scope_make_ok.
  split; [done|]. split; [done|]. split; [done|]. by rewrite Hp.
Qed.

Lemma parse_define_wf spec d : parse_define spec = inr d → domain_wf d.
Proof.
  unfold parse_define. cbv zeta.
  destruct (match split_first colon spec with Some _ => _ | None => _ end) as [[[[a b] c] e]|]; [|done].
  destruct (id_try_make a) as [da|] eqn:Ea; [|done]. destruct (id_try_make b) as [db|] eqn:Eb; [|done].
  destruct (id_try_make c) as [dc|] eqn:Ec; [|done].
  destruct (scope_parse e) as [s|] eqn:Es; [|done]. intros [= <-].
  apply id_try_make_Some in Ea as [<- Ea], Eb as [<- Eb], Ec as [<- Ec].
  apply scope_parse_wf in Es. split; [done|]. split; [done|]. split; [done|]. by apply scope_wf_codable.
Qed.

(** ** Definitions registered *)

(** A definition of the domain with the same terms. *)
Definition registers (l : list DomainDefinition) (d : DomainDefinition) : Prop :=
  ∃ y, y ∈ l ∧ dd_domain y = dd_domain d ∧ same_definition y d = true.

Lemma same_definition_refl d : same_definition d d = true.
Proof.
  unfold same_definition. rewrite bool_decide_true by done. rewrite !eqb_refl. by destruct (dd_exclusive d).
Qed.

Lemma remember_domains scope s : rs_domains (remember_scope scope s) = rs_domains s.
Proof. unfold remember_scope. repeat case_match; done. Qed.

Lemma sv_set_absent {V K} `{CmpLaws K} (key : V → K) v w (l : list V) :
  sv_find key (key v) l = None → w = v ∨ w ∈ l → w ∈ sv_set key v l.
Proof.
  induction l as [|x l IH]; [unfold sv_set; simpl; set_solver|].
  rewrite sv_find_cons, sv_set_cons. destruct (ltb (key x) (key v)); [set_solver|].
  destruct (eqb (key x) (key v)); [done|set_solver].
Qed.

Lemma define_registers d now w w' : domain_wf d → define_domain d now w = (w', Ret tt) →
  registers (rs_domains (w_state w')) d ∧ rs_domains (w_state w) ⊆ rs_domains (w_state w').
Proof.
  intros Hd. unfold define_domain, refuse_if, mbind, m_bind, state.
  destruct (_ || _); [done|]. destruct (scope_empty _); [done|]. cbn [mret m_ret].
  destruct (find_domain (w_state w) (dd_domain d)) as [old|] eqn:Ef.
  { destruct (same_definition old d) eqn:Es; [|done]. intros [= <-]. split; [|done].
    apply sv_find_elem in Ef as [? ?]. by exists old. }
  destruct (_ <=? _); [done|]. cbn [mret m_ret]. unfold emit. cbv zeta.
  set (r := mkRecord _ _ _ _ _). unfold apply.
  destruct (negb _); [done|]. destruct (_ <? _); [done|].
  rewrite (apply_kind_domain r (observe r (w_state w)) d eq_refl eq_refl Hd).
  assert (Eo : rs_domains (observe r (w_state w)) = rs_domains (w_state w)).
  { unfold observe. cbn. by case_match. }
  unfold apply_domain, find_domain. rewrite Eo. unfold find_domain in Ef. rewrite Ef.
  destruct (_ <=? _); [done|]. cbn [is_ok outcome status_ok negb].
  change (negb (is_ok status_ok)) with false. cbv iota. intros [= <-].
  cbn [w_state rs_domains set_generation]. rewrite remember_domains. cbn [rs_domains set_domains].
  split.
  - exists d. split; [by apply sv_set_absent; [|left]|]. split; [done|apply same_definition_refl].
  - intros y Hy. by apply sv_set_absent; [|right].
Qed.

Lemma registers_grow l l' d : l ⊆ l' → registers l d → registers l' d.
Proof. intros Hl (y & Hy & H). exists y. auto. Qed.

Lemma refuses_define d now : refuses (define_domain d now).
Proof.
  assert (Hr : ∀ c st, is_ok st = false → refuses (refuse_if c st)).
  { intros c st Hst w st' E. destruct c; [|done]. by injection E as <-. }
  unfold define_domain. apply refuses_bind; [by apply Hr|]. intros _.
  apply refuses_bind; [by apply Hr|]. intros _. apply refuses_bind; [done|]. intros s.
  destruct (find_domain _ _); [destruct (same_definition _ _); [done|]|].
  - by intros w st [= <-].
  - apply refuses_bind; [by apply Hr|]. intros _. apply refuses_emit.
Qed.

Lemma service_define_registers ca d n n' st : domain_wf d → service_define_domain ca d n = (n', st) →
  is_ok st = true →
  registers (rs_domains (nd_state n')) d ∧ rs_domains (nd_state n) ⊆ rs_domains (nd_state n') ∧
  nd_config n' = nd_config n.
Proof.
  intros Hd. unfold service_define_domain. pose proof (advance_clock_config n) as Hc.
  assert (Ha : rs_domains (nd_state (advance_clock n).1) = rs_domains (nd_state n)).
  { unfold advance_clock. by destruct (clock_advance _ _). }
  destruct (advance_clock n) as [n1 ok]. cbn [fst] in Hc, Ha. destruct ok; cbn [negb].
  2: { by intros [= _ <-]. }
  destruct (operate _ n1) as [[n2 rs] r] eqn:Eo.
  destruct (operate_registry _ _ _ _ _ Eo) as (w' & Em & Es & _ & Ec & _).
  destruct r as [[]|e].
  - apply define_registers in Em as [Hr Hsub]; [|done]. cbn [w_state] in Hsub. rewrite <-Es in Hr, Hsub.
    intros Ea _. destruct (append_records_journal ca rs n2) as (s & d' & v & E). rewrite Ea in E.
    cbn [fst] in E. subst n'. cbn [nd_state nd_config set_journal]. rewrite <-Ha.
    split; [done|]. split; [done|congruence].
  - intros [= _ <-] Hok. pose proof (refuses_define d (now_of n1) _ e (f_equal snd Em)). congruence.
Qed.

Lemma define_all_registers specs : ∀ cas n n', define_all cas specs n = (n', None) →
  (∀ spec, spec ∈ specs → ∃ d, parse_define spec = inr d ∧ registers (rs_domains (nd_state n')) d) ∧
  rs_domains (nd_state n) ⊆ rs_domains (nd_state n') ∧ nd_config n' = nd_config n.
Proof.
  induction specs as [|spec specs IH]; intros cas n n'; cbn [define_all].
  { intros [= <-]. split; [|done]. by intros ? ?%elem_of_nil. }
  destruct (parse_define spec) as [e|d] eqn:Ep; [done|].
  destruct (service_define_domain _ d n) as [n1 st] eqn:Es. destruct (is_ok st) eqn:Eok; cbn [negb]; [|done].
  destruct (service_define_registers _ _ _ _ _ (parse_define_wf _ _ Ep) Es Eok) as (Hr & Hs & Hc).
  intros (H1 & H2 & H3)%IH. split; [|split; [by etrans|congruence]].
  intros x [->|Hx]%elem_of_cons; [|by apply H1]. exists d. split; [done|]. by eapply registers_grow.
Qed.

Lemma define_all_policy specs : ∀ cas n n', define_all cas specs n = (n', None) →
  rs_policy (nd_state n') = rs_policy (nd_state n) ∧ nd_phase n' = nd_phase n.
Proof.
  induction specs as [|spec specs IH]; intros cas n n'; cbn [define_all]; [by intros [= <-]|].
  destruct (parse_define spec) as [e|d]; [done|].
  pose proof (service_define_policy (default calls_done (head cas)) d n) as Hp.
  pose proof (service_define_phase (default calls_done (head cas)) d n) as Hf.
  destruct (service_define_domain _ d n) as [n1 st]. cbn [fst] in Hp, Hf.
  destruct (negb _); [done|]. intros [E1 E2]%IH. split; congruence.
Qed.

(** Whatever [open] meets, a success is of the configuration it was given. *)
Lemma service_open_runs oc config n n' st : service_open oc config n = (n', st) → is_ok st = true →
  nd_config n' = config.
Proof.
  unfold service_open. destruct (is_ok (oc_net oc)) eqn:E1; cbn [negb]; [|intros [= _ <-]; congruence].
  destruct (is_ok (oc_directory oc)); cbn [negb]; [|by intros [= <- _]].
  destruct (store_open _ _ _ _) as [d [[store report]|]]; [|by intros [= <- _]].
  cbn [nd_fabric set_config set_recovery set_journal].
  destruct (fabric_open _ _ _ _ _) as [f [[fabric rep]|]]; [|by intros [= <- _]].
  destruct (initialise _ _ _ _) as [s st2]. destruct (is_ok st2); cbn [negb]; [|by intros [= <- _]].
  destruct (recover_state _ _ _) as [s1 [cv|]]; [|by intros [= <- _]].
  match goal with |- context [restart ?ca ?x] => pose proof (restart_config ca x) as Hr;
    destruct (restart ca x) as [n1 st3] end. cbn [fst] in Hr.
  destruct (is_ok st3); cbn [negb]; by intros [= <- _].
Qed.

Lemma registry_config_valid o config : registry_config o = inr config →
  is_ok (policy_validate (rc_policy config)) = true.
Proof.
  unfold registry_config. destruct (id_try_make _) as [store|]; [|done].
  destruct (id_try_make _) as [node|]; [|done].
  destruct (parse_quorum _ _) as [[error st]|p] eqn:E; [done|]. intros [= <-].
  apply parse_quorum_valid in E as Hv. cbn [rc_policy]. unfold policy_validate, registry_policy.
  cbn [ap_policy ap_generation ap_lease_horizon ap_quorum policy0].
  destruct (id_empty (qp_policy p)) eqn:Ep; [|exact Hv].
  unfold profile_validate in Hv. by rewrite Ep in Hv.
Qed.

Module Startup.

(** C29: A registry that announces itself is the one that was asked for, but for
    what its directory decides.  When [sbf-registry] reaches its ready line, its
    command line parsed, the configuration it runs is the one those options
    describe - with a policy that validates, under the quorum they name - it is
    ready, and every domain of a [--define] option is registered, on the terms
    given, whatever earlier runs left in the directory.  The policy it decides
    under is the one the directory keeps: a snapshot's, or the last one the
    journal defines; it is the one the options name when the directory holds no
    snapshot and its journal defines no policy.  The system reports a directory it
    cannot make by a failure. *)
Theorem ready_as_asked (env : Env) (oc : OpenCalls) (cas : list Calls) (bound : result Endpoint)
    (args : list bytes) (files files' : Files) (out : bytes) (n : Node) :
  reports_faults (oc_store oc) → reports_faults (oc_fabric oc) →
  registry_main env oc cas bound args files = (files', Serves out n) →
  ∃ o, parse args [] = inr o ∧ registry_config o = inr (nd_config n) ∧
    is_ok (policy_validate (rc_policy (nd_config n))) = true ∧ nd_phase n = Ready ∧
    (∀ spec, spec ∈ all_of o (str "define") →
      ∃ d, parse_define spec = inr d ∧ registers (rs_domains (nd_state n)) d) ∧
    ∃ d store report,
      store_open (oc_store oc) (rc_store_id (nd_config n)) service_options
        (files (str_of o (str "dir") (str "sbf-registry-state"))).1 = (d, Ret (store, report)) ∧
      rs_policy (nd_state n) = policy_kept (rc_policy (nd_config n)) d ∧
      (snapshot_in d = None → (∀ r, r ∈ records_on d → jr_kind r ≠ KPolicyDefine) →
       rs_policy (nd_state n) = rc_policy (nd_config n)).
Proof.
  intros Hs Hf. unfold registry_main. destruct (parse args []) as [|o]; [done|]. destruct (has o _); [done|].
  destruct (registry_config o) as [|config] eqn:Ec; [done|]. destruct (listen_endpoint o); [done|].
  cbv zeta. set (n0 := service0 _ _). unfold registry_serve.
  destruct (service_open oc config n0) as [n1 st] eqn:Eo. destruct (is_ok st) eqn:Eok; cbn [negb]; [|done].
  pose proof (service_open_runs _ _ _ _ _ Eo Eok) as Hc.
  apply service_open_policy in Eo as (Hp & d & store & report & Ed0 & Ek); [|done..].
  destruct (define_all cas _ n1) as [n2 [?|]] eqn:Ed; [done|]. destruct bound as [endpoint|]; [|done].
  destruct (negb _); [done|]. intros [= _ _ <-].
  apply define_all_policy in Ed as Hk. destruct Hk as [Hk Hph].
  apply define_all_registers in Ed as (Hd & _ & Hc2). exists o. split; [done|].
  assert (E : nd_config n2 = config) by congruence. rewrite E. split; [done|].
  split; [by eapply registry_config_valid|]. split; [congruence|]. split; [done|].
  exists d, store, report. split; [exact Ed0|]. rewrite Hk, Ek. split; [done|].
  intros Hn Hr. unfold policy_kept. rewrite Hn. by apply policy_steps.
Qed.
End Startup.

(** ** A first start *)

Definition demo_env : Env := mkEnv (str "1.0.0") 4242 true true.
Definition demo_command : list bytes :=
  [str "--store=store"; str "--node"; str "registry-1"; str "--witness=w0:rack-a@127.0.0.1:9100";
   str "--define=domain-a:coordinator-a:fabric-policy:port-1,port-2"; str "--announce=ready"].
Definition demo_start : Files * Launch Node :=
  registry_main demo_env open_calls_done [] (Ret (mkEndpoint (str "127.0.0.1") 9000)) demo_command
    (λ _, (no_disk, mkFabricDisk None None)).

Definition printed {N} (l : Launch N) : option bytes :=
  match l with Serves out _ => Some out | Ended _ => None end.

Lemma demo_line : printed demo_start.2 =
  Some (str "sbf-registry ready endpoint=127.0.0.1:9000 store=store boot=1 incarnation=1 snapshot_loaded=0 torn_tail=0"
        ++ newline).
Proof. vm_compute. reflexivity. Qed.

Lemma demo_start_def :
  registry_main demo_env open_calls_done [] (Ret (mkEndpoint (str "127.0.0.1") 9000)) demo_command
    (λ _, (no_disk, mkFabricDisk None None)) = demo_start.
Proof. unfold demo_start. exact eq_refl. Qed.

#[local] Opaque demo_start.

Lemma demo_serves : ∃ out n, demo_start.2 = Serves out n.
Proof.
  pose proof demo_line as E. unfold printed in E. destruct demo_start.2 as [e|out n]; [discriminate E|].
  by exists out, n.
Qed.

(** A first start keeps no policy. *)
Lemma demo_fresh : ∀ o, parse demo_command [] = inr o → ∀ c, registry_config o = inr c →
  let d := (store_open open_done (rc_store_id c) service_options no_disk).1 in
  snapshot_in d = None ∧ ∀ r, r ∈ records_on d → jr_kind r ≠ KPolicyDefine.
Proof.
  intros o Eo c Ec.
  assert (H : match parse demo_command [] with
              | inl _ => True
              | inr o => match registry_config o with
                         | inl _ => True
                         | inr c =>
                             let d := (store_open open_done (rc_store_id c) service_options no_disk).1 in
                             snapshot_in d = None ∧ records_on d = []
                         end
              end) by (vm_compute; repeat split).
  rewrite Eo, Ec in H. cbv zeta in *. destruct H as [Hn Hr]. split; [exact Hn|].
  intros r H. rewrite Hr in H. by apply elem_of_nil in H.
Qed.

Lemma ready_as_asked_witness : ∃ n d,
  parse_define (str "domain-a:coordinator-a:fabric-policy:port-1,port-2") = inr d ∧
  registers (rs_domains (nd_state n)) d ∧ rs_policy (nd_state n) = rc_policy (nd_config n) ∧
  ∃ out, demo_start.2 = Serves out n.
Proof.
  destruct demo_serves as (out & n & E).
  destruct (Startup.ready_as_asked demo_env open_calls_done [] (Ret (mkEndpoint (str "127.0.0.1") 9000))
    demo_command (λ _, (no_disk, mkFabricDisk None None)) demo_start.1 out n)
    as (o & Ep & Ec & _ & _ & Hd & d0 & store & report & Es & _ & Hk); [done|done|..].
  { rewrite demo_start_def, <-E. apply surjective_pairing. }
  assert (Eo : match parse demo_command [] with
               | inr o => all_of o (str "define") | inl _ => [] end =
               [str "domain-a:coordinator-a:fabric-policy:port-1,port-2"]) by (vm_compute; reflexivity).
  destruct (demo_fresh o Ep _ Ec) as (Hn & Hr). cbv zeta in Hn, Hr.
  cbn [fst oc_store open_calls_done] in Es. rewrite Es in Hn, Hr. cbn [fst] in Hn, Hr.
  rewrite Ep in Eo.
  destruct (Hd (str "domain-a:coordinator-a:fabric-policy:port-1,port-2")) as (d & Ed & Hreg).
  { rewrite Eo. left. }
  exists n, d. split; [exact Ed|]. split; [exact Hreg|]. split; [|by exists out].
  exact (Hk Hn Hr).
Defined.

(** ** A second start

    The first start wrote a checkpoint; the second asks for leases, and decides
    without them. *)

Definition demo_run (extra : bytes) (files : Files) : Files * Launch Node :=
  registry_main demo_env open_calls_done [] (Ret (mkEndpoint (str "127.0.0.1") 9000))
    (extra :: demo_command) files.

(** Whether the options ask for leases and whether the registry does. *)
Definition leases (l : Launch Node) : option (bool * bool) :=
  match l with
  | Serves _ n => Some (ap_require_lease (rc_policy (nd_config n)), ap_require_lease (rs_policy (nd_state n)))
  | Ended _ => None
  end.

Definition second_start (files : Files) : option (bool * bool) :=
  leases (demo_run (str "--require-lease=true") (demo_run (str "--checkpoint-every=1") files).1).2.

Lemma new_policy_ignored : second_start (λ _, (no_disk, mkFabricDisk None None)) = Some (true, false).
Proof. vm_compute. reflexivity. Qed.
